(** * vk_PBR_Shading: the mesh baker (cw2-bake) and the baked-model loader (cw2)

    A shallow embedding of
    - [cw2-bake/index_mesh.cpp]: the discretizer, the vicinity map, the
      mergeability test, [collapse_vertices_] and [make_indexed_mesh];
    - [cw2-bake/main.cpp]: [write_string_], [write_model_data_],
      [index_meshes_], [find_unique_textures_], [new_paths_] and the data
      path of [process_model_];
    - [cw2-bake/load_model_obj.cpp]: [load_wavefront_obj], from the parsed
      file on;
    - [cw2/baked_model.cpp]: [checked_read_], [read_uint32_], [read_string_]
      and [load_baked_model_];
    - [cw2/load_data_to_vk.cpp]: [get_texture_format] and what
      [set_up_model] reads of the loaded model;
    - [labutils/vkimage.cpp]: [countl_zero_], [compute_mip_level_count] and
      the loop over the mip levels;
    followed by the properties of the specification that concern them and
    by further properties of the code.

    Conventions.
    - [float] is IEEE 754 binary32, given by the executable specification of
      the standard library ([SpecFloat], precision 24, [emax] 128).
    - [std::size_t] is 64 bits and [std::uint32_t] 32 bits; both are [Z] with
      the wrap-around written where the code can wrap.
    - A [std::vector] is a [list]; [operator[]] out of range is undefined
      behaviour in C++ and is the error [OutOfRange] here.
    - [assert] belongs to the build: a failed assertion ends the program,
      which is the error [AssertFailed] (in the loader [LoadAssertFailed])
      here; where [NDEBUG] is defined the assertion is not there. The baker
      and the module [Baked] are the build with assertions; [BakedBuild] is
      the loader of either build.
    - A float is written to a file and read back as its 32 bits. Of NaN
      [SpecFloat] has one, where the code copies whichever 32 bits a NaN
      has: [F32.to_bits] and [F32.of_bits] are the code's copy for every
      float that is not NaN.
    - A file is the list of its bytes; reading consumes a prefix. *)

From Stdlib Require Import ZArith List Bool Lia Strings.Byte Strings.Ascii Strings.String.
From Stdlib Require Import Floats.SpecFloat.
From stdpp Require Import base tactics option list strings gmap.
Import ListNotations.

Local Open Scope Z_scope.

(** ** Results: a value, or the error that ended the computation *)

Inductive result (E A : Type) : Type :=
| Ok (a : A)
| Err (e : E).
Arguments Ok {E A} a.
Arguments Err {E A} e.

Definition bind {E A B} (r : result E A) (k : A -> result E B) : result E B :=
  match r with
  | Ok a => k a
  | Err e => Err e
  end.

Declare Scope result_scope.
Delimit Scope result_scope with result.
Notation "'let!' x ':=' e 'in' k" := (bind e (fun x => k))
  (at level 10, x pattern, e at level 200, k at level 200) : result_scope.
Local Open Scope result_scope.

Definition is_ok {E A} (r : result E A) : bool :=
  match r with Ok _ => true | Err _ => false end.

(** A loop over a container whose body can fail: the first error ends it. *)
Fixpoint foldM {E S X} (body : S -> X -> result E S) (xs : list X) (s : S) : result E S :=
  match xs with
  | [] => Ok s
  | x :: xs' => let! s' := body s x in foldM body xs' s'
  end.

Fixpoint mapM {E X Y} (f : X -> result E Y) (xs : list X) : result E (list Y) :=
  match xs with
  | [] => Ok []
  | x :: xs' => let! y := f x in let! ys := mapM f xs' in Ok (y :: ys)
  end.

(** [for( std::size_t i = 0; i < n; ++i )] visits [0, 1, ..., n-1]. *)
Definition index_range (n : nat) : list Z := map Z.of_nat (seq 0 n).

Definition two64 : Z := 2 ^ 64.
Definition two32 : Z := 2 ^ 32.

(** ** binary32 *)

Module F32.
Definition prec : Z := 24.
Definition emax : Z := 128.

Definition float : Type := spec_float.

Definition add : float -> float -> float := SFadd prec emax.
Definition sub : float -> float -> float := SFsub prec emax.
Definition mul : float -> float -> float := SFmul prec emax.
Definition div : float -> float -> float := SFdiv prec emax.
Definition abs : float -> float := SFabs.

(** [x < y] and [x > y]; both are false when an operand is NaN. *)
Definition ltb (x y : float) : bool := SFltb x y.
Definition gtb (x y : float) : bool := SFltb y x.
Definition leb (x y : float) : bool := SFleb x y.

(** Conversion of an integer to [float], rounding to nearest even. *)
Definition of_Z (z : Z) : float := binary_normalize prec emax z 0 false.

(** The integer part of a finite float (rounding toward zero). *)
Definition trunc (f : float) : option Z :=
  match f with
  | S754_zero _ => Some 0
  | S754_finite s m e => Some (cond_Zopp s (Z.shiftl (Z.pos m) e))
  | S754_infinity _ | S754_nan => None
  end.

(** [std::numeric_limits<float>::max()] and [::min()]: the largest finite
    float and the smallest positive normal float. *)
Definition flt_max : float := S754_finite false 16777215 104.
Definition flt_min : float := S754_finite false 8388608 (-149).

(** The object representation of a [float]: sign, biased exponent and
    fraction, as a 32-bit pattern. [SpecFloat] has a single NaN, which is
    given the pattern of the default quiet NaN. *)
Definition to_bits (f : float) : Z :=
  match f with
  | S754_zero s => if s then 2 ^ 31 else 0
  | S754_infinity s => (if s then 2 ^ 31 else 0) + 255 * 2 ^ 23
  | S754_nan => 255 * 2 ^ 23 + 2 ^ 22
  | S754_finite s m e =>
      (if s then 2 ^ 31 else 0)
      + (if Z.pos m <? 2 ^ 23 then Z.pos m else (e + 149) * 2 ^ 23 + Z.pos m)
  end.

Definition of_bits (b : Z) : float :=
  let s := 2 ^ 31 <=? b mod 2 ^ 32 in
  let e := (b / 2 ^ 23) mod 256 in
  let frac := b mod 2 ^ 23 in
  if e =? 0 then
    if frac =? 0 then S754_zero s else S754_finite s (Z.to_pos frac) (-149)
  else if e =? 255 then
    if frac =? 0 then S754_infinity s else S754_nan
  else S754_finite s (Z.to_pos (frac + 2 ^ 23)) (e - 150).

(** The values of [spec_float] that are binary32 numbers. *)
Definition valid (f : float) : bool := valid_binary prec emax f.

Definition is_nan (f : float) : bool :=
  match f with S754_nan => true | _ => false end.

Definition is_finite (f : float) : bool :=
  match f with S754_zero _ | S754_finite _ _ _ => true | _ => false end.
End F32.

Abbreviation float := F32.float.

(** ** glm vectors *)

Record vec2 : Type := Vec2 { v2x : float; v2y : float }.
Record vec3 : Type := Vec3 { v3x : float; v3y : float; v3z : float }.
Record vec4 : Type := Vec4 { v4x : float; v4y : float; v4z : float; v4w : float }.

(** [v[i]] for the component index of a loop [for( i = 0; i < 3; ++i )]. *)
Definition vec3_at (v : vec3) (i : Z) : float :=
  if i =? 0 then v3x v else if i =? 1 then v3y v else v3z v.
Definition vec2_at (v : vec2) (i : Z) : float :=
  if i =? 0 then v2x v else v2y v.

Definition vec3_splat (f : float) : vec3 := Vec3 f f f.
Definition vec3_map2 (op : float -> float -> float) (a b : vec3) : vec3 :=
  Vec3 (op (v3x a) (v3x b)) (op (v3y a) (v3y b)) (op (v3z a) (v3z b)).
Definition vec3_sub : vec3 -> vec3 -> vec3 := vec3_map2 F32.sub.
Definition vec3_add : vec3 -> vec3 -> vec3 := vec3_map2 F32.add.

(** [glm::min(x, y)] is [(y < x) ? y : x], [glm::max(x, y)] is
    [(x < y) ? y : x], component by component; [std::max] on floats is the
    same expression. *)
Definition float_min (x y : float) : float := if F32.ltb y x then y else x.
Definition float_max (x y : float) : float := if F32.ltb x y then y else x.
Definition vec3_min : vec3 -> vec3 -> vec3 := vec3_map2 float_min.
Definition vec3_max : vec3 -> vec3 -> vec3 := vec3_map2 float_max.

(** ** index_mesh.hpp *)

Record TriangleSoup : Type := {
  vert : list vec3;
  norm : list vec3;
  text : list vec2
}.

Record IndexedMesh : Type := {
  im_vert : list vec3;
  im_norm : list vec3;
  im_text : list vec2;
  im_tangent : list vec4;
  im_indices : list Z;
  aabbMin : vec3;
  aabbMax : vec3
}.

(** What can go wrong in the baker outside of I/O: an access out of the
    bounds of a vector, or a failed assertion. *)
Inductive mesh_error : Type :=
| OutOfRange
| AssertFailed.

(** [v[i]] on a [std::vector]. *)
Definition vget {A} (v : list A) (i : Z) : result mesh_error A :=
  if i <? 0 then Err OutOfRange
  else match v !! Z.to_nat i with
       | Some a => Ok a
       | None => Err OutOfRange
       end.

(** [v[i] = a] on a [std::vector]. *)
Definition vset {A} (v : list A) (i : Z) (a : A) : result mesh_error (list A) :=
  if (0 <=? i) && (i <? Z.of_nat (length v)) then Ok (<[Z.to_nat i := a]> v)
  else Err OutOfRange.

(** [assert] in a build with assertions: a failed one ends the program. *)
Definition c_assert (b : bool) : result mesh_error unit :=
  if b then Ok tt else Err AssertFailed.

(** ** index_mesh.cpp *)

Definition kAABBMarginFactor : float := F32.of_Z 10.
Definition kSparseGridMaxSize : Z := 1024 * 1024.
Definition kNeighbourCount_ : Z := 27.

(** [~std::size_t(0)], the mark of a collapse-map entry not yet assigned. *)
Definition unassigned : Z := two64 - 1.

Record DiscretizedPosition_ : Type := DP { dpx : Z; dpy : Z; dpz : Z }.

Record Discretizer_ : Type := { dmin : vec3; scale : float }.

(** [static constexpr std::int32_t offset[kNeighbourCount_][3]]. *)
Definition offset : list (Z * Z * Z) :=
  [ (0, 0, 0); (0, 0, 1); (0, 0, -1);
    (0, 1, 0); (0, 1, 1); (0, 1, -1);
    (0, -1, 0); (0, -1, 1); (0, -1, -1);

    (1, 0, 0); (1, 0, 1); (1, 0, -1);
    (1, 1, 0); (1, 1, 1); (1, 1, -1);
    (1, -1, 0); (1, -1, 1); (1, -1, -1);

    (-1, 0, 0); (-1, 0, 1); (-1, 0, -1);
    (-1, 1, 0); (-1, 1, 1); (-1, 1, -1);
    (-1, -1, 0); (-1, -1, 1); (-1, -1, -1) ].

(** Conversion of a 32-bit pattern to [std::int32_t] and 32-bit signed
    addition (two's complement). *)
Definition to_int32 (z : Z) : Z :=
  let u := z mod two32 in if u <? 2 ^ 31 then u else u - two32.

(** The state of [collapse_vertices_]: the two output vectors, the local
    collapse map and the slot counter. *)
Record CollapseState : Type := {
  aIndices : list Z;
  aVertices : list Z;
  collapseMap : list Z;
  nextVertex : Z
}.

(** The state of the scan of the 27 cells around one vertex. *)
Record ScanState : Type := {
  cst : CollapseState;
  merged : bool;
  target : Z
}.

Section IndexMesh.

(** [std::hash<std::size_t>], which the C++ standard leaves to the
    implementation. *)
Variable gHash_ : Z -> Z.

(** What a conversion from [float] to an unsigned integer type yields when
    the truncated value does not fit the type (undefined in C++). *)
Variable cast_out_of_range : float -> Z.

(** The tangent-space routines of the tgen library, composed as in
    [make_indexed_mesh]: indices, positions, uvs, normals and the number of
    vertices give the flat array [tangents4D]. *)
Variable tgen_tangents4D : list Z -> list float -> list float -> list float -> Z -> list float.

Definition float_to_unsigned (width : Z) (f : float) : Z :=
  match F32.trunc f with
  | Some z => if (0 <=? z) && (z <? 2 ^ width) then z
              else cast_out_of_range f mod 2 ^ width
  | None => cast_out_of_range f mod 2 ^ width
  end.

(** [Discretizer_::Discretizer_( aFactor, aMin, aSide )]. *)
Definition mk_Discretizer_ (aFactor : Z) (aMin : vec3) (aSide : float) : Discretizer_ :=
  {| dmin := aMin; scale := F32.div (F32.of_Z aFactor) aSide |}.

(** [Discretizer_::discretize]. *)
Definition discretize (d : Discretizer_) (aPos : vec3) : DiscretizedPosition_ :=
  let cell (i : Z) :=
    to_int32 (float_to_unsigned 32
      (F32.mul (F32.sub (vec3_at aPos i) (vec3_at (dmin d) i)) (scale d))) in
  DP (cell 0) (cell 1) (cell 2).

(** [gHash_( v )] for an [std::int32_t] argument: converted to
    [std::size_t] first. *)
Definition hash_int32 (v : Z) : Z := gHash_ (v mod two64) mod two64.

Definition hash_combine (hash h : Z) : Z :=
  Z.lxor hash
    ((h + 2654435769 + (Z.shiftl hash 6) mod two64 + Z.shiftr hash 2) mod two64).

Definition hash_discretized_position_ (aDP : DiscretizedPosition_) : Z :=
  let hash := hash_int32 (dpx aDP) in
  let hash := hash_combine hash (hash_int32 (dpy aDP)) in
  let hash := hash_combine hash (hash_int32 (dpz aDP)) in
  hash.

(** The multimap is the list of its entries in insertion order;
    [equal_range] gives the values stored under a key. *)
Definition VicinityMap_ : Type := list (Z * Z).

Definition equal_range (aVM : VicinityMap_) (vk : Z) : list Z :=
  map snd (filter (fun kv => fst kv = vk) aVM).

Definition build_vicinity_map_ (aMap : VicinityMap_) (aD : Discretizer_)
    (aPositions : list vec3) : VicinityMap_ :=
  fold_left
    (fun m '(index, p) =>
       let dp := discretize aD p in
       let vk := hash_discretized_position_ dp in
       m ++ [(vk, index)])
    (zip (index_range (length aPositions)) aPositions) aMap.

(** [mergable_]. Each loop returns [false] at the first component whose
    difference exceeds the tolerance. *)
Definition exceeds (aErrorTolerance a b : float) : bool :=
  F32.gtb (F32.abs (F32.sub a b)) aErrorTolerance.

Definition mergable_ (aSoup : TriangleSoup) (aI aJ : Z) (aIPos aJPos : vec3)
    (aErrorTolerance : float) : result mesh_error bool :=
  if existsb (fun i => exceeds aErrorTolerance (vec3_at aIPos i) (vec3_at aJPos i)) [0; 1; 2]
  then Ok false
  else
    let! normals_differ :=
      match norm aSoup with
      | [] => Ok false
      | _ :: _ =>
          let! nI := vget (norm aSoup) aI in
          let! nJ := vget (norm aSoup) aJ in
          Ok (existsb (fun i => exceeds aErrorTolerance (vec3_at nI i) (vec3_at nJ i)) [0; 1; 2])
      end in
    if normals_differ then Ok false
    else
      let! tI := vget (text aSoup) aI in
      let! tJ := vget (text aSoup) aJ in
      if existsb (fun i => exceeds aErrorTolerance (vec2_at tI i) (vec2_at tJ i)) [0; 1]
      then Ok false
      else Ok true.

(** [neighbour_]. *)
Definition neighbour_ (aDP : DiscretizedPosition_) (aJ : Z)
    : result mesh_error DiscretizedPosition_ :=
  let! _ := c_assert (aJ <? kNeighbourCount_) in
  let! o := vget offset aJ in
  let '(ox, oy, oz) := o in
  Ok (DP (to_int32 (dpx aDP + ox)) (to_int32 (dpy aDP + oy)) (to_int32 (dpz aDP + oz))).

(** The body of the innermost loop of [collapse_vertices_]: one candidate
    [idx] of a bucket, for the vertex [i] at position [self]. *)
Definition visit_candidate (aSoup : TriangleSoup) (aMaxError : float) (i : Z) (self : vec3)
    (s : ScanState) (idx : Z) : result mesh_error ScanState :=
  if idx =? i then Ok s (* don't try to merge with self *)
  else
    let! c := vget (collapseMap (cst s)) idx in
    if negb (c =? unassigned) then Ok s (* don't remerge *)
    else
      let! other := vget (vert aSoup) idx in
      let! m := mergable_ aSoup i idx self other aMaxError in
      if m then
        let! (toWhere, st) :=
          if merged s then Ok (target s, cst s)
          else
            let toWhere := nextVertex (cst s) in
            let! cm := vset (collapseMap (cst s)) i toWhere in
            Ok (toWhere,
                {| aIndices := aIndices (cst s) ++ [toWhere mod two32];
                   aVertices := aVertices (cst s) ++ [i];
                   collapseMap := cm;
                   nextVertex := (nextVertex (cst s) + 1) mod two64 |}) in
        let! cm := vset (collapseMap st) idx toWhere in
        Ok {| cst := {| aIndices := aIndices st;
                        aVertices := aVertices st;
                        collapseMap := cm;
                        nextVertex := nextVertex st |};
              merged := true;
              target := toWhere |}
      else Ok s.

(** The loop over the 27 cells, each with the loop over its bucket. *)
Definition scan_neighbours (aVM : VicinityMap_) (aSoup : TriangleSoup) (aMaxError : float)
    (i : Z) (self : vec3) (dp : DiscretizedPosition_) (s : ScanState)
    : result mesh_error ScanState :=
  foldM
    (fun s j =>
       let! dq := neighbour_ dp j in
       let vk := hash_discretized_position_ dq in
       foldM (visit_candidate aSoup aMaxError i self) (equal_range aVM vk) s)
    (index_range (Z.to_nat kNeighbourCount_)) s.

(** The body of the loop over the vertices of the soup. *)
Definition process_vertex (aVM : VicinityMap_) (aD : Discretizer_) (aSoup : TriangleSoup)
    (aMaxError : float) (st : CollapseState) (i : Z) : result mesh_error CollapseState :=
  let! c := vget (collapseMap st) i in
  if negb (unassigned =? c) then
    (* this vertex already was merged somewhere *)
    let! _ := c_assert (c <? Z.of_nat (length (aVertices st))) in
    Ok {| aIndices := aIndices st ++ [c mod two32];
          aVertices := aVertices st;
          collapseMap := collapseMap st;
          nextVertex := nextVertex st |}
  else
    let! self := vget (vert aSoup) i in
    let dp := discretize aD self in
    let! s := scan_neighbours aVM aSoup aMaxError i self dp
                {| cst := st; merged := false; target := unassigned |} in
    if negb (merged s) then
      let toWhere := nextVertex (cst s) in
      let! cm := vset (collapseMap (cst s)) i toWhere in
      Ok {| aIndices := aIndices (cst s) ++ [toWhere mod two32];
            aVertices := aVertices (cst s) ++ [i];
            collapseMap := cm;
            nextVertex := (nextVertex (cst s) + 1) mod two64 |}
    else Ok (cst s).

(** The state on entry to the loop: both outputs cleared, every entry of the
    collapse map unassigned. *)
Definition collapse_init (aSoup : TriangleSoup) : CollapseState :=
  {| aIndices := [];
     aVertices := [];
     collapseMap := replicate (length (vert aSoup)) unassigned;
     nextVertex := 0 |}.

(** The state after the first [k] iterations of the loop, and after all. *)
Definition collapse_prefix (aVM : VicinityMap_) (aD : Discretizer_) (aSoup : TriangleSoup)
    (aMaxError : float) (k : nat) : result mesh_error CollapseState :=
  foldM (process_vertex aVM aD aSoup aMaxError) (index_range k) (collapse_init aSoup).

Definition collapse_run (aVM : VicinityMap_) (aD : Discretizer_) (aSoup : TriangleSoup)
    (aMaxError : float) : result mesh_error CollapseState :=
  collapse_prefix aVM aD aSoup aMaxError (length (vert aSoup)).

(** [collapse_vertices_]: the returned count with the two outputs
    [aIndices] and [aVertices]. *)
Definition collapse_vertices_ (aVM : VicinityMap_) (aD : Discretizer_) (aSoup : TriangleSoup)
    (aMaxError : float) : result mesh_error (Z * list Z * list Z) :=
  let! st := collapse_run aVM aD aSoup aMaxError in
  Ok (nextVertex st, aIndices st, aVertices st).


(** [make_indexed_mesh], first part: the bounding volume. [bmax] starts from
    [std::numeric_limits<float>::min()], as in the source. *)
Definition bounding_volume (aSoup : TriangleSoup) : vec3 * vec3 :=
  fold_left (fun '(bmin, bmax) v => (vec3_min bmin v, vec3_max bmax v))
            (vert aSoup) (vec3_splat F32.flt_max, vec3_splat F32.flt_min).

Definition margin (aErrorTolerance : float) : vec3 :=
  vec3_splat (F32.mul kAABBMarginFactor aErrorTolerance).

Definition padded_min (aSoup : TriangleSoup) (aErrorTolerance : float) : vec3 :=
  vec3_sub (fst (bounding_volume aSoup)) (margin aErrorTolerance).
Definition padded_max (aSoup : TriangleSoup) (aErrorTolerance : float) : vec3 :=
  vec3_add (snd (bounding_volume aSoup)) (margin aErrorTolerance).

(** [maxSide], [numCells] and [subdiv]. *)
Definition max_side (aSoup : TriangleSoup) (aErrorTolerance : float) : float :=
  let side := vec3_sub (padded_max aSoup aErrorTolerance) (padded_min aSoup aErrorTolerance) in
  float_max (v3x side) (float_max (v3y side) (v3z side)).

Definition float_half : float := S754_finite false 8388608 (-24).

Definition num_cells (aSoup : TriangleSoup) (aErrorTolerance : float) : float :=
  F32.div (max_side aSoup aErrorTolerance) (F32.mul (F32.of_Z 2) aErrorTolerance).

Definition grid_subdiv (aSoup : TriangleSoup) (aErrorTolerance : float) : Z :=
  Z.min kSparseGridMaxSize
        (float_to_unsigned 64 (F32.add (num_cells aSoup aErrorTolerance) float_half)).

Definition soup_discretizer (aSoup : TriangleSoup) (aErrorTolerance : float) : Discretizer_ :=
  mk_Discretizer_ (grid_subdiv aSoup aErrorTolerance mod two32)
                  (padded_min aSoup aErrorTolerance) (max_side aSoup aErrorTolerance).

(** [make_indexed_mesh] up to its two assertions on the result of
    [collapse_vertices_]: the count, the index buffer and the vertex
    mapping. *)
Definition index_soup (aSoup : TriangleSoup) (aErrorTolerance : float)
    : result mesh_error (Z * list Z * list Z) :=
  let dis := soup_discretizer aSoup aErrorTolerance in
  let vincinityMap := build_vicinity_map_ [] dis (vert aSoup) in
  let! (verts, indices, vertexMapping) :=
    collapse_vertices_ vincinityMap dis aSoup aErrorTolerance in
  let! _ := c_assert (Z.of_nat (length indices) =? Z.of_nat (length (vert aSoup))) in
  let! _ := c_assert (verts =? Z.of_nat (length vertexMapping)) in
  Ok (verts, indices, vertexMapping).

(** The loop that shuffles the vertex data into the resized vectors. *)
Definition vec3_zero : vec3 := vec3_splat (S754_zero false).
Definition vec2_zero : vec2 := Vec2 (S754_zero false) (S754_zero false).

Definition has_normals (aSoup : TriangleSoup) : bool :=
  match norm aSoup with [] => false | _ :: _ => true end.

Definition shuffle_vertex (aSoup : TriangleSoup) (vertexMapping : list Z)
    (ret : list vec3 * list vec2 * list vec3) (i : Z)
    : result mesh_error (list vec3 * list vec2 * list vec3) :=
  let '(rvert, rtext, rnorm) := ret in
  let! from := vget vertexMapping i in
  let! _ := c_assert (from <? Z.of_nat (length (vert aSoup))) in
  let! v := vget (vert aSoup) from in
  let! rvert := vset rvert i v in
  let! t := vget (text aSoup) from in
  let! rtext := vset rtext i t in
  if has_normals aSoup then
    let! n := vget (norm aSoup) from in
    let! rnorm := vset rnorm i n in
    Ok (rvert, rtext, rnorm)
  else Ok (rvert, rtext, rnorm).

Definition shuffle (aSoup : TriangleSoup) (verts : Z) (vertexMapping : list Z)
    : result mesh_error (list vec3 * list vec2 * list vec3) :=
  let n := Z.to_nat verts in
  foldM (shuffle_vertex aSoup vertexMapping) (index_range n)
        (replicate n vec3_zero, replicate n vec2_zero,
         if has_normals aSoup then replicate n vec3_zero else []).

(** The flat arrays handed to tgen and the packing of its result. *)
Definition flatten3 (vs : list vec3) : list float :=
  flat_map (fun v => [v3x v; v3y v; v3z v]) vs.
Definition flatten2 (vs : list vec2) : list float :=
  flat_map (fun v => [v2x v; v2y v]) vs.

Fixpoint pack_tangents (tangents4D : list float) : result mesh_error (list vec4) :=
  match tangents4D with
  | [] => Ok []
  | a :: b :: c :: d :: rest =>
      let! r := pack_tangents rest in Ok (Vec4 a b c d :: r)
  | _ => Err OutOfRange
  end.

Definition make_indexed_mesh (aSoup : TriangleSoup) (aErrorTolerance : float)
    : result mesh_error IndexedMesh :=
  let! (verts, indices, vertexMapping) := index_soup aSoup aErrorTolerance in
  let! (rvert, rtext, rnorm) := shuffle aSoup verts vertexMapping in
  let tangents4D :=
    tgen_tangents4D indices (flatten3 rvert) (flatten2 rtext) (flatten3 rnorm)
                    (Z.of_nat (length rtext)) in
  let! tangent := pack_tangents tangents4D in
  Ok {| im_vert := rvert;
        im_norm := rnorm;
        im_text := rtext;
        im_tangent := tangent;
        im_indices := indices;
        aabbMin := fst (bounding_volume aSoup);
        aabbMax := snd (bounding_volume aSoup) |}.

End IndexMesh.

(** ** Bytes and little-endian words *)

#[global] Instance byte_eqdec : EqDecision byte := Byte.byte_eq_dec.

Definition Z_of_byte (b : byte) : Z := Z.of_N (Byte.to_N b).

Definition byte_of_Z (z : Z) : byte :=
  match Byte.of_N (Z.to_N (z mod 256)) with
  | Some b => b
  | None => x00
  end.

(** The four bytes of a [std::uint32_t] in memory, and back. *)
Definition le32 (z : Z) : list byte :=
  [byte_of_Z z; byte_of_Z (z / 2 ^ 8); byte_of_Z (z / 2 ^ 16); byte_of_Z (z / 2 ^ 24)].

Definition le32_decode (bs : list byte) : Z :=
  match bs with
  | [a; b; c; d] =>
      Z_of_byte a + 2 ^ 8 * Z_of_byte b + 2 ^ 16 * Z_of_byte c + 2 ^ 24 * Z_of_byte d
  | _ => 0
  end.

(** [std::uint32_t( x )]. *)
Definition uint32 (z : Z) : Z := z mod two32.

(** The bytes of arrays of [float], [glm::vec2], [glm::vec3], [glm::vec4]
    and [std::uint32_t], and the arrays that a block of bytes holds. *)
Definition float_bytes (f : float) : list byte := le32 (F32.to_bits f).
Definition vec2_bytes (v : vec2) : list byte := float_bytes (v2x v) ++ float_bytes (v2y v).
Definition vec3_bytes (v : vec3) : list byte :=
  float_bytes (v3x v) ++ float_bytes (v3y v) ++ float_bytes (v3z v).
Definition vec4_bytes (v : vec4) : list byte :=
  float_bytes (v4x v) ++ float_bytes (v4y v) ++ float_bytes (v4z v) ++ float_bytes (v4w v).

Fixpoint words_of_bytes (bs : list byte) : list Z :=
  match bs with
  | a :: b :: c :: d :: rest => le32_decode [a; b; c; d] :: words_of_bytes rest
  | _ => []
  end.

Definition floats_of_bytes (bs : list byte) : list float :=
  map F32.of_bits (words_of_bytes bs).

Fixpoint vec2s_of_floats (fs : list float) : list vec2 :=
  match fs with
  | x :: y :: rest => Vec2 x y :: vec2s_of_floats rest
  | _ => []
  end.

Fixpoint vec3s_of_floats (fs : list float) : list vec3 :=
  match fs with
  | x :: y :: z :: rest => Vec3 x y z :: vec3s_of_floats rest
  | _ => []
  end.

Fixpoint vec4s_of_floats (fs : list float) : list vec4 :=
  match fs with
  | x :: y :: z :: w :: rest => Vec4 x y z w :: vec4s_of_floats rest
  | _ => []
  end.

(** The header constants, 16 bytes each: the literal and the zero bytes that
    fill the array. *)
Definition kFileMagic : list byte :=
  [x00; x00] ++ list_byte_of_string "COMP5822Mmesh" ++ [x00].
Definition kFileVariant : list byte :=
  list_byte_of_string "scsmbil-tan" ++ replicate 5 x00.

(** ** cw2-bake: input_model.hpp and main.cpp *)

Module Bake.

Record InputMaterialInfo : Type := {
  materialName : string;
  baseColor : vec3;
  baseRoughness : float;
  baseMetalness : float;
  baseColorTexturePath : string;
  roughnessTexturePath : string;
  metalnessTexturePath : string;
  alphaMaskTexturePath : string;
  normalMapTexturePath : string
}.

Record InputMeshInfo : Type := {
  meshName : string;
  materialIndex : Z;
  vertexStartIndex : Z;
  vertexCount : Z
}.

Record InputModel : Type := {
  modelSourcePath : string;
  materials : list InputMaterialInfo;
  meshes : list InputMeshInfo;
  positions : list vec3;
  normals : list vec3;
  texcoords : list vec2
}.

Record TextureInfo_ : Type := {
  uniqueId : Z;
  channels : byte;
  newPath : string
}.

(** [s.c_str()] as [strlen] and [fwrite] see it: the bytes before the first
    zero byte. *)
Fixpoint until_nul (bs : list byte) : list byte :=
  match bs with
  | [] => []
  | b :: bs' => if Byte.eqb b x00 then [] else b :: until_nul bs'
  end.

Definition c_str (s : string) : list byte := until_nul (list_byte_of_string s).

(** [write_string_]: the length, then that many bytes of the string and its
    terminating zero. The argument is the string without the terminator. *)
Definition write_string_ (aString : list byte) : list byte :=
  let length := uint32 (Z.of_nat (List.length aString) + 1) in
  le32 length ++ take (Z.to_nat length) (aString ++ [x00]).

(** The vector [orderedUnqiue]: one slot per texture, filled by id. *)
Definition order_unique (aTextures : gmap string TextureInfo_)
    : result mesh_error (list (option TextureInfo_)) :=
  foldM (fun ordered (tex : string * TextureInfo_) =>
           let! slot := vget ordered (uniqueId (snd tex)) in
           let! _ := c_assert (bool_decide (slot = None)) in
           vset ordered (uniqueId (snd tex)) (Some (snd tex)))
        (map_to_list aTextures)
        (replicate (size aTextures) None).

Definition write_texture (tex : option TextureInfo_) : result mesh_error (list byte) :=
  match tex with
  | None => Err AssertFailed
  | Some t => Ok (write_string_ (c_str (newPath t)) ++ [channels t])
  end.

Definition sentinel : Z := two32 - 1.

(** The lambda [write_tex_]. *)
Definition write_tex_ (aTextures : gmap string TextureInfo_) (aTexturePath : string)
    : result mesh_error (list byte) :=
  if bool_decide (aTexturePath = EmptyString) then Ok (le32 sentinel)
  else match aTextures !! aTexturePath with
       | None => Err AssertFailed
       | Some info => Ok (le32 (uniqueId info))
       end.

Definition write_material (aTextures : gmap string TextureInfo_) (mat : InputMaterialInfo)
    : result mesh_error (list byte) :=
  let! a := write_tex_ aTextures (baseColorTexturePath mat) in
  let! b := write_tex_ aTextures (roughnessTexturePath mat) in
  let! c := write_tex_ aTextures (metalnessTexturePath mat) in
  let! d := write_tex_ aTextures (alphaMaskTexturePath mat) in
  let! e := write_tex_ aTextures (normalMapTexturePath mat) in
  Ok (a ++ b ++ c ++ d ++ e).

(** [checked_write_( aOut, sizeof(T)*count, v.data() )]: the first [count]
    elements of [v]; reading past the end of [v] is out of range. *)
Definition write_array {A} (elem_bytes : A -> list byte) (count : Z) (v : list A)
    : result mesh_error (list byte) :=
  if count <=? Z.of_nat (List.length v)
  then Ok (concat (map elem_bytes (take (Z.to_nat count) v)))
  else Err OutOfRange.

Definition write_mesh (aIndexedMeshes : list IndexedMesh) (i : Z) (mmesh : InputMeshInfo)
    : result mesh_error (list byte) :=
  let materialIndex := uint32 (materialIndex mmesh) in
  let! imesh := vget aIndexedMeshes i in
  let vertexCount := uint32 (Z.of_nat (List.length (im_vert imesh))) in
  let indexCount := uint32 (Z.of_nat (List.length (im_indices imesh))) in
  let! v := write_array vec3_bytes vertexCount (im_vert imesh) in
  let! n := write_array vec3_bytes vertexCount (im_norm imesh) in
  let! t := write_array vec2_bytes vertexCount (im_text imesh) in
  let! g := write_array vec4_bytes vertexCount (im_tangent imesh) in
  let! ix := write_array le32 indexCount (im_indices imesh) in
  Ok (le32 materialIndex ++ le32 vertexCount ++ le32 indexCount ++ v ++ n ++ t ++ g ++ ix).

(** [write_model_data_]: the bytes written to [aOut]. Writing itself is
    taken to succeed (no full disk). *)
Definition write_model_data_ (aModel : InputModel) (aIndexedMeshes : list IndexedMesh)
    (aTextures : gmap string TextureInfo_) : result mesh_error (list byte) :=
  let! orderedUnqiue := order_unique aTextures in
  let textureCount := uint32 (Z.of_nat (List.length orderedUnqiue)) in
  let! textures := mapM write_texture orderedUnqiue in
  let materialCount := uint32 (Z.of_nat (List.length (materials aModel))) in
  let! mats := mapM (write_material aTextures) (materials aModel) in
  let meshCount := uint32 (Z.of_nat (List.length (meshes aModel))) in
  let! _ := c_assert (bool_decide (List.length (meshes aModel) = List.length aIndexedMeshes)) in
  let! ms := mapM (fun im => write_mesh aIndexedMeshes (fst im) (snd im))
                  (zip (index_range (List.length (meshes aModel))) (meshes aModel)) in
  Ok (kFileMagic ++ kFileVariant
      ++ le32 textureCount ++ concat textures
      ++ le32 materialCount ++ concat mats
      ++ le32 meshCount ++ concat ms).

End Bake.

(** ** cw2: baked_model.hpp and baked_model.cpp *)

Module Baked.

Record BakedTextureInfo : Type := {
  path : string;
  channels : byte
}.

Record BakedMaterialInfo : Type := {
  baseColorTextureId : Z;
  roughnessTextureId : Z;
  metalnessTextureId : Z;
  alphaMaskTextureId : Z;
  normalMapTextureId : Z
}.

Record BakedMeshData : Type := {
  materialId : Z;
  positions : list vec3;
  texcoords : list vec2;
  normals : list vec3;
  tangents : list vec4;
  indices : list Z
}.

Record BakedModel : Type := {
  textures : list BakedTextureInfo;
  materials : list BakedMaterialInfo;
  meshes : list BakedMeshData
}.

Definition kMaxString : Z := 32 * 1024.

(** The [lut::Error]s thrown by the loader, and a failed [assert]. *)
Inductive load_error : Type :=
| CannotOpen
| ShortRead (expected got : Z)
| StringTooLong (length : Z)
| InvalidSignature
| WrongVariant
| LoadAssertFailed.

(** Reading from [aFin]: the rest of the file goes in, the value read and
    what is left of the file come out. *)
Definition reader (A : Type) : Type := list byte -> result load_error (A * list byte).

Definition rret {A} (a : A) : reader A := fun fin => Ok (a, fin).
Definition rbind {A B} (r : reader A) (k : A -> reader B) : reader B :=
  fun fin => match r fin with
             | Ok (a, fin') => k a fin'
             | Err e => Err e
             end.
Definition rthrow {A} (e : load_error) : reader A := fun _ => Err e.

Notation "'read!' x ':=' e 'in' k" := (rbind e (fun x => k))
  (at level 10, x pattern, e at level 200, k at level 200).

(** [assert] in a build with assertions: a failed one ends the program.
    [BakedBuild] below has the loader of a build without them as well. *)
Definition r_assert (b : bool) : reader unit :=
  if b then rret tt else rthrow LoadAssertFailed.

(** A loop [for( i = 0; i < n; ++i )] whose body reads one element and
    appends it to a vector, starting from [acc]. *)
Fixpoint read_n {A} (n : nat) (body : list A -> reader A) (acc : list A) : reader (list A) :=
  match n with
  | O => rret acc
  | S n' => read! a := body acc in read_n n' body (acc ++ [a])
  end.

(** [checked_read_]: [fread] gives what the file still has, up to [aBytes]. *)
Definition checked_read_ (aBytes : Z) : reader (list byte) :=
  fun fin =>
    let ret := Z.min aBytes (Z.of_nat (List.length fin)) in
    if bool_decide (aBytes = ret)
    then Ok (take (Z.to_nat aBytes) fin, drop (Z.to_nat aBytes) fin)
    else Err (ShortRead aBytes ret).

Definition read_uint32_ : reader Z :=
  read! ret := checked_read_ 4 in rret (le32_decode ret).

Definition read_string_ : reader string :=
  read! length := read_uint32_ in
  if kMaxString <=? length then rthrow (StringTooLong length)
  else
    read! ret := checked_read_ length in
    rret (string_of_list_byte ret).

(** [std::strrchr( s, c )], as the position of the last [c] in [s]. *)
Fixpoint strrchr (s : string) (c : ascii) : option nat :=
  match s with
  | EmptyString => None
  | String a s' =>
      match strrchr s' c with
      | Some k => Some (S k)
      | None => if Ascii.eqb a c then Some O else None
      end
  end.

(** The base path: [aInputName] up to and including its last slash. *)
Definition base_prefix (aInputName : string) : string :=
  match strrchr aInputName "/"%char with
  | Some k => substring 0 (S k) aInputName
  | None => EmptyString
  end.

Definition read_texture (prefix : string) : reader BakedTextureInfo :=
  read! s := read_string_ in
  read! c := checked_read_ 1 in
  rret {| path := String.append prefix s; channels := List.hd x00 c |}.

Definition read_material (textures : list BakedTextureInfo) : reader BakedMaterialInfo :=
  read! a := read_uint32_ in
  read! b := read_uint32_ in
  read! c := read_uint32_ in
  read! d := read_uint32_ in
  read! e := read_uint32_ in
  read! _ := r_assert (a <? Z.of_nat (List.length textures)) in
  read! _ := r_assert (b <? Z.of_nat (List.length textures)) in
  read! _ := r_assert (c <? Z.of_nat (List.length textures)) in
  rret {| baseColorTextureId := a;
          roughnessTextureId := b;
          metalnessTextureId := c;
          alphaMaskTextureId := d;
          normalMapTextureId := e |}.

Definition read_mesh (materials : list BakedMaterialInfo) : reader BakedMeshData :=
  read! m := read_uint32_ in
  read! _ := r_assert (m <? Z.of_nat (List.length materials)) in
  read! V := read_uint32_ in
  read! I' := read_uint32_ in
  read! p := checked_read_ (V * 12) in
  read! n := checked_read_ (V * 12) in
  read! t := checked_read_ (V * 8) in
  read! g := checked_read_ (V * 16) in
  read! ix := checked_read_ (I' * 4) in
  rret {| materialId := m;
          positions := vec3s_of_floats (floats_of_bytes p);
          texcoords := vec2s_of_floats (floats_of_bytes t);
          normals := vec3s_of_floats (floats_of_bytes n);
          tangents := vec4s_of_floats (floats_of_bytes g);
          indices := words_of_bytes ix |}.

(** [load_baked_model_] up to its last read: the model, and what is left of
    the file after the mesh table. *)
Definition read_model (aInputName : string) : reader BakedModel :=
  let prefix := base_prefix aInputName in
  read! magic := checked_read_ 16 in
  if negb (bool_decide (magic = kFileMagic)) then rthrow InvalidSignature
  else
    read! variant := checked_read_ 16 in
    if negb (bool_decide (variant = kFileVariant)) then rthrow WrongVariant
    else
      read! textureCount := read_uint32_ in
      read! textures := read_n (Z.to_nat textureCount) (fun _ => read_texture prefix) [] in
      read! materialCount := read_uint32_ in
      read! materials := read_n (Z.to_nat materialCount) (fun _ => read_material textures) [] in
      read! meshCount := read_uint32_ in
      read! meshes := read_n (Z.to_nat meshCount) (fun _ => read_mesh materials) [] in
      rret {| textures := textures; materials := materials; meshes := meshes |}.

(** [load_baked_model_]: the model, and whether the note on trailing bytes
    was printed ([fread] of one more byte gave a byte). *)
Definition load_baked_model_ (aFin : list byte) (aInputName : string)
    : result load_error (BakedModel * bool) :=
  match read_model aInputName aFin with
  | Ok (ret, rest) =>
      let check := Z.min 1 (Z.of_nat (List.length rest)) in
      Ok (ret, negb (check =? 0))
  | Err e => Err e
  end.

(** [load_baked_model]: [file] is the content of the file at [aModelPath],
    if it can be opened. The note is printed on the way and not returned. *)
Definition load_baked_model (file : option (list byte)) (aModelPath : string)
    : result load_error BakedModel :=
  match file with
  | None => Err CannotOpen
  | Some fin =>
      match load_baked_model_ fin aModelPath with
      | Ok (ret, _) => Ok ret
      | Err e => Err e
      end
  end.

End Baked.

(** ** The vocabulary of the specification *)

(** A triangle soup as the data model has it: parallel sequences of one
    length, the normals possibly absent, and no more vertices than a
    [std::vector] can index. *)
Definition wf_soup (aSoup : TriangleSoup) : Prop :=
  length (text aSoup) = length (vert aSoup)
  /\ (norm aSoup = [] \/ length (norm aSoup) = length (vert aSoup))
  /\ Z.of_nat (length (vert aSoup)) < two64.

(** A binary32 number: neither an infinity nor a NaN. *)
Definition is_number (f : float) : bool := F32.valid f && F32.is_finite f.

(** The number that a binary32 number stands for, counted in units of
    2^-149, the least positive binary32: every binary32 number is a whole
    number of these units, so that sums, differences and comparisons of such
    numbers are those of integers, without rounding. *)
Definition units (f : float) : Z :=
  match f with
  | S754_finite s m e => cond_Zopp s (Z.pos m * 2 ^ (e + 149))
  | _ => 0
  end.

(** The number of [n] units is at most [eps]: a number or plus infinity. *)
Definition at_most (n : Z) (eps : float) : Prop :=
  match eps with
  | S754_infinity false => True
  | S754_infinity true | S754_nan => False
  | S754_zero _ | S754_finite _ _ _ => n <= units eps
  end.

(** The distance of two binary32 numbers, in units. *)
Definition distance (a b : float) : Z := Z.abs (units a - units b).

(** "[a] and [b] differ in absolute value by at most [eps]", of the numbers
    themselves. *)
Definition differ_at_most (eps a b : float) : Prop :=
  is_number a = true /\ is_number b = true /\ at_most (distance a b) eps.

(** The same up to the rounding of the difference: no binary32 number lies
    above [eps] and at or below the distance of [a] and [b], so that the
    distance exceeds [eps] by less than the step from [eps] to the next
    binary32 number. *)
Definition differ_at_most_rounded (eps a b : float) : Prop :=
  is_number a = true /\ is_number b = true
  /\ forall f, is_number f = true -> units f <= distance a b -> at_most (units f) eps.

(** What [n] steps of [shr_1] make of a record: the mantissa is divided by
    [2 ^ n], and nothing is flagged when nothing is lost. *)
Definition shifted (n : Z) (x y : shr_record) : Prop :=
  shr_m y = shr_m x / 2 ^ n
  /\ (shr_r x = false -> shr_s x = false -> shr_m x mod 2 ^ n = 0 ->
      shr_r y = false /\ shr_s y = false).

(** [Y] is one of the two neighbours of [X] on a grid of binary32 numbers
    that is at least as fine as the binary32 numbers around [X]: every
    binary32 number on one side of [X] is on the same side of [Y]. *)
Definition rounds_to (X Y : Z) : Prop :=
  forall (mf : positive) (ef : Z),
    F32.valid (S754_finite false mf ef) = true ->
    (X <= Z.pos mf * 2 ^ (ef + 149) -> Y <= Z.pos mf * 2 ^ (ef + 149))
    /\ (Z.pos mf * 2 ^ (ef + 149) <= X -> Z.pos mf * 2 ^ (ef + 149) <= Y).

(** The result of rounding the positive number of [X] units. *)
Definition rounded (s : bool) (X : Z) (r : float) : Prop :=
  exists Y, rounds_to X Y
    /\ ((r = S754_infinity s /\ 2 ^ 277 <= Y)
        \/ exists m e, r = S754_finite s m e /\ F32.valid r = true
                       /\ Y = Z.pos m * 2 ^ (e + 149)).

Definition number_vec2 (v : vec2) : Prop :=
  is_number (v2x v) = true /\ is_number (v2y v) = true.
Definition number_vec3 (v : vec3) : Prop :=
  is_number (v3x v) = true /\ is_number (v3y v) = true /\ is_number (v3z v) = true.

(** A soup of numbers: no coordinate is an infinity or a NaN. *)
Definition number_soup (aSoup : TriangleSoup) : Prop :=
  Forall number_vec3 (vert aSoup) /\ Forall number_vec3 (norm aSoup)
  /\ Forall number_vec2 (text aSoup).

(** The mergeability test as the specification words it, for a relation
    [close] between two coordinates: it holds on every axis of the
    position, of the normal when the soup has normals, and of the texture
    coordinate, each axis on its own. *)
Definition axes_mergable (close : float -> float -> Prop) (aSoup : TriangleSoup) (aI aJ : Z)
    (aIPos aJPos : vec3) : Prop :=
  (forall k, 0 <= k < 3 -> close (vec3_at aIPos k) (vec3_at aJPos k))
  /\ (norm aSoup = [] \/
      exists nI nJ, norm aSoup !! Z.to_nat aI = Some nI /\ norm aSoup !! Z.to_nat aJ = Some nJ
        /\ forall k, 0 <= k < 3 -> close (vec3_at nI k) (vec3_at nJ k))
  /\ (exists tI tJ, text aSoup !! Z.to_nat aI = Some tI /\ text aSoup !! Z.to_nat aJ = Some tJ
        /\ forall k, 0 <= k < 2 -> close (vec2_at tI k) (vec2_at tJ k)).

(** "every coordinate differs in absolute value by at most the tolerance". *)
Definition spec_mergable (aSoup : TriangleSoup) (aI aJ : Z) (aIPos aJPos : vec3)
    (eps : float) : Prop :=
  axes_mergable (differ_at_most eps) aSoup aI aJ aIPos aJPos.

(** Every axis within the tolerance, up to the rounding of the
    difference. *)
Definition within_vec3 (eps : float) (a b : vec3) : Prop :=
  forall k, 0 <= k < 3 -> differ_at_most_rounded eps (vec3_at a k) (vec3_at b k).
Definition within_vec2 (eps : float) (a b : vec2) : Prop :=
  forall k, 0 <= k < 2 -> differ_at_most_rounded eps (vec2_at a k) (vec2_at b k).

(** ** Invariants of [collapse_vertices_] *)

(** Every candidate stored in the vicinity map is a vertex of the soup. *)
Definition vm_in_range (aVM : VicinityMap_) (aSoup : TriangleSoup) : Prop :=
  Forall (fun kv => 0 <= snd kv < Z.of_nat (length (vert aSoup))) aVM.

(** What holds of the state of [collapse_vertices_] at every point of the
    run, for a soup of [n] vertices. *)
Definition collapse_ok (n : nat) (st : CollapseState) : Prop :=
  length (collapseMap st) = n
  /\ nextVertex st = Z.of_nat (length (aVertices st))
  /\ Forall (fun x => 0 <= x < nextVertex st) (aIndices st)
  /\ Forall (fun c => c = unassigned \/ 0 <= c < nextVertex st) (collapseMap st)
  /\ Forall (fun v => 0 <= v < Z.of_nat n) (aVertices st).

(** Before the iteration for vertex [k]. *)
Definition outer_inv (n k : nat) (st : CollapseState) : Prop :=
  collapse_ok n st /\ length (aIndices st) = k /\ (length (aVertices st) <= k)%nat.

(** During the scan of the cells around vertex [k]. *)
Definition scan_inv (n k : nat) (s : ScanState) : Prop :=
  collapse_ok n (cst s)
  /\ (merged s = false ->
        length (aIndices (cst s)) = k /\ (length (aVertices (cst s)) <= k)%nat
        /\ collapseMap (cst s) !! k = Some unassigned)
  /\ (merged s = true ->
        length (aIndices (cst s)) = S k /\ (length (aVertices (cst s)) <= S k)%nat
        /\ 0 <= target s < nextVertex (cst s)).

(** Assigned entries of the collapse map [cm] are the same in [cm']. *)
Definition assigned_kept (cm cm' : list Z) : Prop :=
  forall k c, cm !! k = Some c -> c <> unassigned -> cm' !! k = Some c.

(** The result of [collapse_vertices_] that the data model asks for: one
    index per vertex of the soup, one entry of the mapping per unique
    vertex, and every index below the number of unique vertices. *)
Definition valid_indexing (aSoup : TriangleSoup) (r : Z * list Z * list Z) : Prop :=
  let '(verts, indices, vertexMapping) := r in
  length indices = length (vert aSoup)
  /\ Z.of_nat (length vertexMapping) = verts
  /\ Forall (fun x => 0 <= x < verts) indices.

(** The tangent routine gives whole 4-vectors, so that the loop packing
    [tangents4D] stays within the array. *)
Definition tgen_whole (tgen : list Z -> list float -> list float -> list float -> Z -> list float)
    : Prop :=
  forall ix ps uvs ns k, exists r, pack_tangents (tgen ix ps uvs ns k) = Ok r.

(** Slot [i] of the mesh holds the attributes of vertex [from] of the soup. *)
Definition slot_copies (aSoup : TriangleSoup) (rvert : list vec3) (rtext : list vec2)
    (rnorm : list vec3) (i : nat) (from : Z) : Prop :=
  0 <= from
  /\ is_Some (vert aSoup !! Z.to_nat from)
  /\ rvert !! i = vert aSoup !! Z.to_nat from
  /\ rtext !! i = text aSoup !! Z.to_nat from
  /\ (has_normals aSoup = true -> rnorm !! i = norm aSoup !! Z.to_nat from).

(** While the cells around vertex [i] are scanned and nothing has merged
    yet, the entry of [i] itself is unassigned. *)
Definition scan_pre (i : Z) (s : ScanState) : Prop :=
  merged s = false -> collapseMap (cst s) !! Z.to_nat i = Some unassigned.

(** ** The run of [collapse_vertices_] in closed form *)

(** The candidates that the scan around a cell visits, in order. *)
Definition scan_candidates (gHash_ : Z -> Z) (aVM : VicinityMap_) (dp : DiscretizedPosition_)
    : list Z :=
  flat_map
    (fun j => match neighbour_ dp j with
              | Ok dq => equal_range aVM (hash_discretized_position_ gHash_ dq)
              | Err _ => []
              end)
    (index_range (Z.to_nat kNeighbourCount_)).

(** One iteration of the loop of [collapse_vertices_] in closed form, when
    [cls i j] tells whether the vertices [i] and [j] merge: an unassigned
    vertex opens a slot that takes every unassigned vertex of its class. *)
Definition assign_class (cls : Z -> Z -> bool) (i toWhere : Z) (cm : list Z) : list Z :=
  imap (fun j c =>
          if (c =? unassigned) && ((Z.of_nat j =? i) || cls i (Z.of_nat j))
          then toWhere else c) cm.

Definition collapse_step (cls : Z -> Z -> bool) (st : CollapseState) (i : Z) : CollapseState :=
  match collapseMap st !! Z.to_nat i with
  | Some c =>
      if c =? unassigned then
        {| aIndices := aIndices st ++ [nextVertex st mod two32];
           aVertices := aVertices st ++ [i];
           collapseMap := assign_class cls i (nextVertex st) (collapseMap st);
           nextVertex := (nextVertex st + 1) mod two64 |}
      else
        {| aIndices := aIndices st ++ [c mod two32];
           aVertices := aVertices st;
           collapseMap := collapseMap st;
           nextVertex := nextVertex st |}
  | None => st
  end.

Definition collapse_closed_form (cls : Z -> Z -> bool) (aSoup : TriangleSoup) : CollapseState :=
  fold_left (collapse_step cls) (index_range (length (vert aSoup))) (collapse_init aSoup).

(** [cls] decides the mergeability test on the soup, and vertices that merge
    share their position. *)
Definition merge_classes (aSoup : TriangleSoup) (aMaxError : float) (cls : Z -> Z -> bool)
    : Prop :=
  forall i j pi pj,
    0 <= i -> 0 <= j ->
    vert aSoup !! Z.to_nat i = Some pi -> vert aSoup !! Z.to_nat j = Some pj ->
    mergable_ aSoup i j pi pj aMaxError = Ok (cls i j) /\ (cls i j = true -> pi = pj).

(** During the scan around vertex [k], started in the state [st]: every
    entry of the collapse map is as in [st], or was unassigned, belongs to
    the class of [k] and now holds the slot opened for [k]. *)
Definition scan_partial (cls : Z -> Z -> bool) (st : CollapseState) (k : nat) (s : ScanState)
    : Prop :=
  length (collapseMap (cst s)) = length (collapseMap st)
  /\ (forall j c, collapseMap st !! j = Some c ->
        collapseMap (cst s) !! j = Some c
        \/ (c = unassigned /\ (j = k \/ cls (Z.of_nat k) (Z.of_nat j) = true)
            /\ collapseMap (cst s) !! j = Some (nextVertex st)))
  /\ (merged s = false -> cst s = st)
  /\ (merged s = true ->
        collapseMap (cst s) !! k = Some (nextVertex st)
        /\ target s = nextVertex st
        /\ aIndices (cst s) = aIndices st ++ [nextVertex st mod two32]
        /\ aVertices (cst s) = aVertices st ++ [Z.of_nat k]
        /\ nextVertex (cst s) = (nextVertex st + 1) mod two64).

(** A candidate of the class of [k], once visited, is assigned. *)
Definition candidate_settled (cls : Z -> Z -> bool) (k : nat) (idx : Z) (s : ScanState) : Prop :=
  idx <> Z.of_nat k -> cls (Z.of_nat k) idx = true ->
  collapseMap (cst s) !! Z.to_nat idx <> Some unassigned.

(** ** The vocabulary of the container format *)

(** A reader is framed when a successful read consumes a prefix of the file,
    reads the same from that prefix whatever follows it, and runs short on
    every file that stops inside that prefix. *)
Definition framed {A} (p : Baked.reader A) : Prop :=
  forall fin a rest, p fin = Ok (a, rest) ->
    exists c, fin = c ++ rest
      /\ (forall rest', p (c ++ rest') = Ok (a, rest'))
      /\ (forall k, (k < length c)%nat ->
            exists x y, p (take k c) = Err (Baked.ShortRead x y)).

(** The errors that the loader throws at such a file: those of the two
    checks of the header and that of [checked_read_]. *)
Definition rejection (e : Baked.load_error) : Prop :=
  e = Baked.InvalidSignature \/ e = Baked.WrongVariant
  \/ exists expected got, e = Baked.ShortRead expected got.

(** One entry of the texture table: the declared length, the bytes of the
    path and the channel count. *)
Definition texture_entry (e : list byte * byte) : list byte :=
  le32 (Z.of_nat (length (fst e))) ++ fst e ++ [snd e].

(** ** The vocabulary of the round trip *)

Definition valid_vec2 (v : vec2) : Prop :=
  F32.valid (v2x v) = true /\ F32.valid (v2y v) = true.
Definition valid_vec3 (v : vec3) : Prop :=
  F32.valid (v3x v) = true /\ F32.valid (v3y v) = true /\ F32.valid (v3z v) = true.
Definition valid_vec4 (v : vec4) : Prop :=
  F32.valid (v4x v) = true /\ F32.valid (v4y v) = true
  /\ F32.valid (v4z v) = true /\ F32.valid (v4w v) = true.

(** An indexed mesh as the baker hands it to the writer: one normal, texture
    coordinate and tangent per vertex, counts and indices that fit 32 bits,
    and binary32 numbers throughout. *)
Definition wf_indexed_mesh (im : IndexedMesh) : Prop :=
  length (im_norm im) = length (im_vert im)
  /\ length (im_text im) = length (im_vert im)
  /\ length (im_tangent im) = length (im_vert im)
  /\ Z.of_nat (length (im_vert im)) < two32
  /\ Z.of_nat (length (im_indices im)) < two32
  /\ Forall (fun x => 0 <= x < two32) (im_indices im)
  /\ Forall valid_vec3 (im_vert im) /\ Forall valid_vec3 (im_norm im)
  /\ Forall valid_vec2 (im_text im) /\ Forall valid_vec4 (im_tangent im).

(** The entries of the texture map listed by their id: ids 0, 1, 2, ... *)
Definition textures_by_id (aTextures : gmap string Bake.TextureInfo_)
    (ordered : list (string * Bake.TextureInfo_)) : Prop :=
  ordered ≡ₚ map_to_list aTextures
  /\ forall k e, ordered !! k = Some e -> Bake.uniqueId (snd e) = Z.of_nat k.

(** A texture path that the loader accepts: with its terminator it is
    shorter than [kMaxString]. *)
Definition loadable_path (t : Bake.TextureInfo_) : Prop :=
  Z.of_nat (length (Bake.c_str (Bake.newPath t))) + 1 < Baked.kMaxString.

Definition required_texture (aTextures : gmap string Bake.TextureInfo_) (p : string) : Prop :=
  p <> EmptyString /\ is_Some (aTextures !! p).
Definition optional_texture (aTextures : gmap string Bake.TextureInfo_) (p : string) : Prop :=
  p = EmptyString \/ is_Some (aTextures !! p).

(** A material whose base colour, roughness and metalness textures exist,
    and whose alpha mask and normal map exist or are absent. *)
Definition wf_material (aTextures : gmap string Bake.TextureInfo_)
    (m : Bake.InputMaterialInfo) : Prop :=
  required_texture aTextures (Bake.baseColorTexturePath m)
  /\ required_texture aTextures (Bake.roughnessTexturePath m)
  /\ required_texture aTextures (Bake.metalnessTexturePath m)
  /\ optional_texture aTextures (Bake.alphaMaskTexturePath m)
  /\ optional_texture aTextures (Bake.normalMapTexturePath m).

(** What the writer is given by [process_model_]. *)
Definition wf_bake_input (aModel : Bake.InputModel) (aIndexedMeshes : list IndexedMesh)
    (aTextures : gmap string Bake.TextureInfo_)
    (ordered : list (string * Bake.TextureInfo_)) : Prop :=
  textures_by_id aTextures ordered
  /\ Forall (fun e => loadable_path (snd e)) ordered
  /\ Z.of_nat (length ordered) < two32
  /\ Forall (wf_material aTextures) (Bake.materials aModel)
  /\ Z.of_nat (length (Bake.materials aModel)) < two32
  /\ length (Bake.meshes aModel) = length aIndexedMeshes
  /\ Z.of_nat (length (Bake.meshes aModel)) < two32
  /\ Forall (fun mm => 0 <= Bake.materialIndex mm
                       < Z.of_nat (length (Bake.materials aModel))) (Bake.meshes aModel)
  /\ Forall wf_indexed_mesh aIndexedMeshes.

(** The id that [write_tex_] stores for a path. *)
Definition texture_id (aTextures : gmap string Bake.TextureInfo_) (p : string) : Z :=
  if bool_decide (p = EmptyString) then Bake.sentinel
  else match aTextures !! p with
       | Some info => Bake.uniqueId info
       | None => 0
       end.

(** The model that the loader gives back, path by path: [stored_path] is
    what the file holds of a path. *)
Definition baked_texture (prefix : string) (stored_path : Bake.TextureInfo_ -> list byte)
    (t : Bake.TextureInfo_) : Baked.BakedTextureInfo :=
  {| Baked.path := String.append prefix (string_of_list_byte (stored_path t));
     Baked.channels := Bake.channels t |}.

Definition baked_material (aTextures : gmap string Bake.TextureInfo_)
    (m : Bake.InputMaterialInfo) : Baked.BakedMaterialInfo :=
  {| Baked.baseColorTextureId := texture_id aTextures (Bake.baseColorTexturePath m);
     Baked.roughnessTextureId := texture_id aTextures (Bake.roughnessTexturePath m);
     Baked.metalnessTextureId := texture_id aTextures (Bake.metalnessTexturePath m);
     Baked.alphaMaskTextureId := texture_id aTextures (Bake.alphaMaskTexturePath m);
     Baked.normalMapTextureId := texture_id aTextures (Bake.normalMapTexturePath m) |}.

Definition baked_mesh (mi : Bake.InputMeshInfo * IndexedMesh) : Baked.BakedMeshData :=
  {| Baked.materialId := Bake.materialIndex (fst mi);
     Baked.positions := im_vert (snd mi);
     Baked.texcoords := im_text (snd mi);
     Baked.normals := im_norm (snd mi);
     Baked.tangents := im_tangent (snd mi);
     Baked.indices := im_indices (snd mi) |}.

Definition baked_model (prefix : string) (stored_path : Bake.TextureInfo_ -> list byte)
    (aModel : Bake.InputModel) (aIndexedMeshes : list IndexedMesh)
    (aTextures : gmap string Bake.TextureInfo_)
    (ordered : list (string * Bake.TextureInfo_)) : Baked.BakedModel :=
  {| Baked.textures := map (fun e => baked_texture prefix stored_path (snd e)) ordered;
     Baked.materials := map (baked_material aTextures) (Bake.materials aModel);
     Baked.meshes := map baked_mesh (zip (Bake.meshes aModel) aIndexedMeshes) |}.

Definition path_with_terminator (t : Bake.TextureInfo_) : list byte :=
  Bake.c_str (Bake.newPath t) ++ [x00].

(** The bytes of one material and of one mesh in the file. *)
Definition material_bytes (aTextures : gmap string Bake.TextureInfo_)
    (m : Bake.InputMaterialInfo) : list byte :=
  le32 (texture_id aTextures (Bake.baseColorTexturePath m))
  ++ le32 (texture_id aTextures (Bake.roughnessTexturePath m))
  ++ le32 (texture_id aTextures (Bake.metalnessTexturePath m))
  ++ le32 (texture_id aTextures (Bake.alphaMaskTexturePath m))
  ++ le32 (texture_id aTextures (Bake.normalMapTexturePath m)).

Definition mesh_bytes (mi : Bake.InputMeshInfo * IndexedMesh) : list byte :=
  le32 (Bake.materialIndex (fst mi))
  ++ le32 (Z.of_nat (length (im_vert (snd mi))))
  ++ le32 (Z.of_nat (length (im_indices (snd mi))))
  ++ concat (map vec3_bytes (im_vert (snd mi)))
  ++ concat (map vec3_bytes (im_norm (snd mi)))
  ++ concat (map vec2_bytes (im_text (snd mi)))
  ++ concat (map vec4_bytes (im_tangent (snd mi)))
  ++ concat (map le32 (im_indices (snd mi))).

(** The bytes of the container of a model: the header and the three tables,
    each behind the number of its entries. *)
Definition container_bytes (aModel : Bake.InputModel) (aIndexedMeshes : list IndexedMesh)
    (aTextures : gmap string Bake.TextureInfo_)
    (ordered : list (string * Bake.TextureInfo_)) : list byte :=
  kFileMagic ++ kFileVariant
  ++ le32 (Z.of_nat (length ordered))
  ++ concat (map (fun e => texture_entry (path_with_terminator (snd e), Bake.channels (snd e)))
                 ordered)
  ++ le32 (Z.of_nat (length (Bake.materials aModel)))
  ++ concat (map (material_bytes aTextures) (Bake.materials aModel))
  ++ le32 (Z.of_nat (length (Bake.meshes aModel)))
  ++ concat (map mesh_bytes (zip (Bake.meshes aModel) aIndexedMeshes)).

(** The grid resolution as the specification words it: the longest side
    over twice the tolerance, capped at the maximum grid size. *)
Definition spec_grid_resolution (longestSide tolerance : float) : float :=
  float_min (F32.of_Z kSparseGridMaxSize)
            (F32.div longestSide (F32.mul (F32.of_Z 2) tolerance)).

(** The longest side of the bounding volume before it is padded. *)
Definition box_longest_side (aSoup : TriangleSoup) : float :=
  let side := vec3_sub (snd (bounding_volume aSoup)) (fst (bounding_volume aSoup)) in
  float_max (v3x side) (float_max (v3y side) (v3z side)).

(** ** Concrete inputs *)

(** [std::hash<std::size_t>] of libstdc++ and libc++ is the identity. *)
Definition std_hash (x : Z) : Z := x.

(** A platform on which an out-of-range conversion yields 0. *)
Definition cast_zero (f : float) : Z := 0.

(** A tangent routine that returns no tangents. *)
Definition no_tangents (ix : list Z) (ps uvs ns : list float) (k : Z) : list float := [].

(** The tolerance [1e-4f], and [1.f]. *)
Definition tolerance_1e4 : float := S754_finite false 13743895 (-37).
Definition float_one : float := F32.of_Z 1.

(** The unit cube as a triangle soup: corner [c] of the cube has the bits of
    [c] as coordinates; two triangles per face, three corners per triangle.
    The normal and the texture coordinate of an entry depend on its corner
    only, so that the entries at one position agree. *)
Definition cube_corner (c : Z) : vec3 :=
  Vec3 (F32.of_Z (c / 4)) (F32.of_Z ((c / 2) mod 2)) (F32.of_Z (c mod 2)).

Definition cube_normal (c : Z) : vec3 :=
  Vec3 (F32.of_Z (2 * (c / 4) - 1)) (F32.of_Z (2 * ((c / 2) mod 2) - 1))
       (F32.of_Z (2 * (c mod 2) - 1)).

Definition cube_texcoord (c : Z) : vec2 :=
  Vec2 (F32.of_Z (c / 4)) (F32.of_Z ((c / 2) mod 2)).

Definition cube_triangles : list Z :=
  [ 0; 1; 3;  0; 3; 2;    4; 6; 7;  4; 7; 5;
    0; 4; 5;  0; 5; 1;    2; 3; 7;  2; 7; 6;
    0; 2; 6;  0; 6; 4;    1; 5; 7;  1; 7; 3 ].

Definition unit_cube : TriangleSoup :=
  {| vert := map cube_corner cube_triangles;
     norm := map cube_normal cube_triangles;
     text := map cube_texcoord cube_triangles |}.

(** Face [k] of the cube: two triangles, six entries. *)
Definition cube_face (k : nat) : list Z := take 6 (drop (6 * k) cube_triangles).

(** The entries of the cube that merge: those of one corner. *)
Definition cube_cls (i j : Z) : bool :=
  match cube_triangles !! Z.to_nat i, cube_triangles !! Z.to_nat j with
  | Some a, Some b => a =? b
  | _, _ => false
  end.

(** Two vertices, at the origin and at (1, 1, 1), without normals. *)
Definition two_points : TriangleSoup :=
  {| vert := [Vec3 (F32.of_Z 0) (F32.of_Z 0) (F32.of_Z 0); Vec3 float_one float_one float_one];
     norm := [];
     text := [Vec2 (F32.of_Z 0) (F32.of_Z 0); Vec2 (F32.of_Z 0) (F32.of_Z 0)] |}.

(** Three vertices of which the first has a NaN for its first coordinate. *)
Definition nan_points : TriangleSoup :=
  {| vert := [Vec3 S754_nan (F32.of_Z 0) (F32.of_Z 0);
              Vec3 (F32.of_Z 0) (F32.of_Z 0) (F32.of_Z 0);
              Vec3 (F32.of_Z 200) (F32.of_Z 0) (F32.of_Z 0)];
     norm := [];
     text := [Vec2 (F32.of_Z 0) (F32.of_Z 0); Vec2 (F32.of_Z 0) (F32.of_Z 0);
              Vec2 (F32.of_Z 0) (F32.of_Z 0)] |}.

(** Three vertices of which the first two are at 1 and at -2^-25 on the
    first axis: they are 1 + 2^-25 apart, and the binary32 nearest to that
    is 1. *)
Definition rounding_points : TriangleSoup :=
  {| vert := [Vec3 float_one (F32.of_Z 0) (F32.of_Z 0);
              Vec3 (S754_finite true 8388608 (-48)) (F32.of_Z 0) (F32.of_Z 0);
              Vec3 (F32.of_Z 200) (F32.of_Z 0) (F32.of_Z 0)];
     norm := [];
     text := [Vec2 (F32.of_Z 0) (F32.of_Z 0); Vec2 (F32.of_Z 0) (F32.of_Z 0);
              Vec2 (F32.of_Z 0) (F32.of_Z 0)] |}.

(** A model of one material and one mesh of one triangle. The material
    uses one texture for base colour, roughness and metalness and has no
    alpha mask and no normal map. *)
Definition tiny_texture : Bake.TextureInfo_ :=
  {| Bake.uniqueId := 0; Bake.channels := x04; Bake.newPath := "tiny-tex/a.png" |}.

Definition tiny_textures : gmap string Bake.TextureInfo_ :=
  {[ "src/a.png"%string := tiny_texture ]}.


Definition tiny_material : Bake.InputMaterialInfo :=
  {| Bake.materialName := "m";
     Bake.baseColor := Vec3 float_one float_one float_one;
     Bake.baseRoughness := float_one;
     Bake.baseMetalness := F32.of_Z 0;
     Bake.baseColorTexturePath := "src/a.png";
     Bake.roughnessTexturePath := "src/a.png";
     Bake.metalnessTexturePath := "src/a.png";
     Bake.alphaMaskTexturePath := "";
     Bake.normalMapTexturePath := "" |}.

Definition tiny_model : Bake.InputModel :=
  {| Bake.modelSourcePath := "tiny.obj";
     Bake.materials := [tiny_material];
     Bake.meshes := [ {| Bake.meshName := "t"; Bake.materialIndex := 0;
                         Bake.vertexStartIndex := 0; Bake.vertexCount := 3 |} ];
     Bake.positions := [];
     Bake.normals := [];
     Bake.texcoords := [] |}.

Definition tiny_mesh : IndexedMesh :=
  {| im_vert := [Vec3 (F32.of_Z 0) (F32.of_Z 0) (F32.of_Z 0);
                 Vec3 float_one (F32.of_Z 0) (F32.of_Z 0);
                 Vec3 (F32.of_Z 0) float_one (F32.of_Z 0)];
     im_norm := [Vec3 (F32.of_Z 0) (F32.of_Z 0) float_one;
                 Vec3 (F32.of_Z 0) (F32.of_Z 0) float_one;
                 Vec3 (F32.of_Z 0) (F32.of_Z 0) float_one];
     im_text := [Vec2 (F32.of_Z 0) (F32.of_Z 0);
                 Vec2 float_one (F32.of_Z 0);
                 Vec2 (F32.of_Z 0) float_one];
     im_tangent := [Vec4 float_one (F32.of_Z 0) (F32.of_Z 0) float_one;
                    Vec4 float_one (F32.of_Z 0) (F32.of_Z 0) float_one;
                    Vec4 float_one (F32.of_Z 0) (F32.of_Z 0) float_one];
     im_indices := [0; 1; 2];
     aabbMin := Vec3 (F32.of_Z 0) (F32.of_Z 0) (F32.of_Z 0);
     aabbMax := Vec3 float_one float_one (F32.of_Z 0) |}.

(** The container of the tiny model, and a file that ends in its header. *)
Definition tiny_container : list byte :=
  match Bake.write_model_data_ tiny_model [tiny_mesh] tiny_textures with
  | Ok bytes => bytes
  | Err _ => []
  end.

(** ** The order of binary32 *)

(** The place of a number among the binary32 values: the class (negative
    infinity, negative, zero, positive, positive infinity), then exponent
    and mantissa. On valid floats [<] is the lexicographic order of the
    places. *)
Definition float_rank (f : float) : Z * Z * Z :=
  match f with
  | S754_nan => (0, 0, 0)
  | S754_infinity true => (-2, 0, 0)
  | S754_finite true m e => (-1, - e, - Z.pos m)
  | S754_zero _ => (0, 0, 0)
  | S754_finite false m e => (1, e, Z.pos m)
  | S754_infinity false => (2, 0, 0)
  end.

Definition rank_lt (a b : Z * Z * Z) : Prop :=
  fst (fst a) < fst (fst b)
  \/ (fst (fst a) = fst (fst b)
      /\ (snd (fst a) < snd (fst b) \/ (snd (fst a) = snd (fst b) /\ snd a < snd b))).

Definition no_nan_vec3 (v : vec3) : Prop :=
  F32.is_nan (v3x v) = false /\ F32.is_nan (v3y v) = false /\ F32.is_nan (v3z v) = false.

(** Two vertices with negative coordinates, and a soup without vertices. *)
Definition negative_points : TriangleSoup :=
  {| vert := [Vec3 (F32.of_Z (-1)) (F32.of_Z (-1)) (F32.of_Z (-1));
              Vec3 (F32.of_Z (-2)) (F32.of_Z (-3)) (F32.of_Z (-4))];
     norm := [];
     text := [Vec2 (F32.of_Z 0) (F32.of_Z 0); Vec2 (F32.of_Z 0) (F32.of_Z 0)] |}.

Definition empty_soup : TriangleSoup := {| vert := []; norm := []; text := [] |}.

(** ** What the scan around a vertex merges *)

(** Whether the scan around the vertex [i] takes the vertex [j] into the
    slot of [i] when both are unassigned: [j] lies in one of the buckets
    that the scan visits, and the two are mergeable. *)
Definition scan_merges (gHash_ : Z -> Z) (cast_out_of_range : float -> Z) (aVM : VicinityMap_)
    (aD : Discretizer_) (aSoup : TriangleSoup) (aMaxError : float) (i j : Z) : bool :=
  match vert aSoup !! Z.to_nat i, vert aSoup !! Z.to_nat j with
  | Some pi, Some pj =>
      existsb (Z.eqb j) (scan_candidates gHash_ aVM (discretize cast_out_of_range aD pi))
      && match mergable_ aSoup i j pi pj aMaxError with
         | Ok b => b
         | Err _ => false
         end
  | _, _ => false
  end.

(** What holds of the state of [collapse_vertices_] before the iteration for
    vertex [k], on a soup of [n] vertices, when [cls] tells what a scan
    merges: every vertex before [k] has its slot and its index; the vertex
    that opened a slot is recorded for it, comes first among the vertices of
    the slot, and merged each of the others; the recorded vertices
    increase. *)
Definition grouped (cls : Z -> Z -> bool) (n k : nat) (st : CollapseState) : Prop :=
  length (collapseMap st) = n
  /\ length (aIndices st) = k
  /\ nextVertex st = Z.of_nat (length (aVertices st))
  /\ (length (aVertices st) <= k)%nat
  /\ (forall j, (j < k)%nat ->
        exists s, collapseMap st !! j = Some s /\ s <> unassigned
                  /\ aIndices st !! j = Some (s mod two32))
  /\ (forall j s, collapseMap st !! j = Some s -> s <> unassigned ->
        exists r, 0 <= s /\ aVertices st !! Z.to_nat s = Some (Z.of_nat r)
                  /\ (r <= j)%nat
                  /\ (r = j \/ cls (Z.of_nat r) (Z.of_nat j) = true))
  /\ (forall s r, aVertices st !! s = Some r ->
        0 <= r < Z.of_nat k /\ collapseMap st !! Z.to_nat r = Some (Z.of_nat s))
  /\ (forall s1 s2 r1 r2, aVertices st !! s1 = Some r1 -> aVertices st !! s2 = Some r2 ->
        (s1 < s2)%nat -> r1 < r2).

(** Two vertices with the same position, normal and texture coordinate. *)
Definition same_attributes (aSoup : TriangleSoup) (i j : nat) : Prop :=
  is_Some (vert aSoup !! i)
  /\ vert aSoup !! i = vert aSoup !! j
  /\ norm aSoup !! i = norm aSoup !! j
  /\ text aSoup !! i = text aSoup !! j.

(** ** cw2-bake/main.cpp: the textures of a model *)

(** The lambda [add_unique_] of [find_unique_textures_], on the map
    [unique] and the counter [texid] that it captures. [emplace] leaves an
    entry that exists as it is. *)
Definition add_unique_ (st : gmap string Bake.TextureInfo_ * Z) (aPath : string)
    (aChannels : byte) : gmap string Bake.TextureInfo_ * Z :=
  let '(unique, texid) := st in
  if bool_decide (aPath = EmptyString) then (unique, texid)
  else
    let info := {| Bake.uniqueId := texid;
                   Bake.channels := aChannels;
                   Bake.newPath := EmptyString |} in
    match unique !! aPath with
    | Some _ => (unique, texid)
    | None => (<[aPath := info]> unique, (texid + 1) mod two32)
    end.

(** The map and the counter of [find_unique_textures_] after the loop over
    the materials, and the map that it returns. *)
Definition unique_textures_state (aModel : Bake.InputModel) : gmap string Bake.TextureInfo_ * Z :=
  fold_left
    (fun st mat =>
       let st := add_unique_ st (Bake.baseColorTexturePath mat) x04 in
       let st := add_unique_ st (Bake.roughnessTexturePath mat) x01 in
       let st := add_unique_ st (Bake.metalnessTexturePath mat) x01 in
       let st := add_unique_ st (Bake.alphaMaskTexturePath mat) x04 in
       add_unique_ st (Bake.normalMapTexturePath mat) x04)
    (Bake.materials aModel) (∅, 0).

Definition find_unique_textures_ (aModel : Bake.InputModel) : gmap string Bake.TextureInfo_ :=
  fst (unique_textures_state aModel).

(** The uses of textures by a model, in the order in which
    [find_unique_textures_] meets them: path and channel count. *)
Definition material_uses (mat : Bake.InputMaterialInfo) : list (string * byte) :=
  [ (Bake.baseColorTexturePath mat, x04);
    (Bake.roughnessTexturePath mat, x01);
    (Bake.metalnessTexturePath mat, x01);
    (Bake.alphaMaskTexturePath mat, x04);
    (Bake.normalMapTexturePath mat, x04) ].

Definition texture_uses (aModel : Bake.InputModel) : list (string * byte) :=
  flat_map material_uses (Bake.materials aModel).

(** The number of different textures among the uses [us]. *)
Definition distinct_textures (us : list (string * byte)) : nat :=
  length (remove_dups (filter (fun p => p <> EmptyString) (map fst us))).

(** [new_paths_]. The two operations of [std::filesystem::path] that it
    uses are left to the platform: the file name of a path, and a path
    appended to a directory. *)
Definition new_paths_ (fs_filename : string -> string) (fs_append : string -> string -> string)
    (aTextures : gmap string Bake.TextureInfo_) (aTexDir : string)
    : gmap string Bake.TextureInfo_ :=
  map_imap
    (fun originalPath info =>
       let filename := fs_filename originalPath in
       let newpath := fs_append aTexDir filename in
       Some {| Bake.uniqueId := Bake.uniqueId info;
               Bake.channels := Bake.channels info;
               Bake.newPath := newpath |})
    aTextures.

(** A model with two materials that use one image, the first as roughness
    and the second as base colour. *)
Definition shared_texture_model : Bake.InputModel :=
  {| Bake.modelSourcePath := "shared.obj";
     Bake.materials :=
       [ {| Bake.materialName := "first";
            Bake.baseColor := Vec3 float_one float_one float_one;
            Bake.baseRoughness := float_one;
            Bake.baseMetalness := F32.of_Z 0;
            Bake.baseColorTexturePath := "a/base.png";
            Bake.roughnessTexturePath := "a/grey.png";
            Bake.metalnessTexturePath := "a/grey.png";
            Bake.alphaMaskTexturePath := "";
            Bake.normalMapTexturePath := "" |};
         {| Bake.materialName := "second";
            Bake.baseColor := Vec3 float_one float_one float_one;
            Bake.baseRoughness := float_one;
            Bake.baseMetalness := F32.of_Z 0;
            Bake.baseColorTexturePath := "a/grey.png";
            Bake.roughnessTexturePath := "b/base.png";
            Bake.metalnessTexturePath := "b/base.png";
            Bake.alphaMaskTexturePath := "";
            Bake.normalMapTexturePath := "a/normal.png" |} ];
     Bake.meshes := [];
     Bake.positions := [];
     Bake.normals := [];
     Bake.texcoords := [] |}.

(** [add_unique_] for each of the uses [us] in turn. *)
Definition add_uses (us : list (string * byte)) (st : gmap string Bake.TextureInfo_ * Z)
    : gmap string Bake.TextureInfo_ * Z :=
  fold_left (fun st u => add_unique_ st (fst u) (snd u)) us st.


(** ** cw2-bake/main.cpp: the meshes of a model *)

(** The tolerance [1e-5f], the default of [index_meshes_]. *)
Definition tolerance_1e5 : float := S754_finite false 10995116 (-40).

(** The loop [for( i = vertexStartIndex; i < endIndex; ++i )
    v.emplace_back( a[i] )] of [index_meshes_]. *)
Definition copy_range {A} (a : list A) (vertexStartIndex endIndex : Z)
    : result mesh_error (list A) :=
  mapM (vget a) (seqZ vertexStartIndex (endIndex - vertexStartIndex)).

Section IndexMeshes.

Variable gHash_ : Z -> Z.
Variable cast_out_of_range : float -> Z.
Variable tgen_tangents4D : list Z -> list float -> list float -> list float -> Z -> list float.

(** The body of the loop of [index_meshes_]: the soup of one mesh, indexed. *)
Definition index_mesh_of (aModel : Bake.InputModel) (aErrorTolerance : float)
    (imesh : Bake.InputMeshInfo) : result mesh_error IndexedMesh :=
  let endIndex := (Bake.vertexStartIndex imesh + Bake.vertexCount imesh) mod two64 in
  let! v := copy_range (Bake.positions aModel) (Bake.vertexStartIndex imesh) endIndex in
  let! t := copy_range (Bake.texcoords aModel) (Bake.vertexStartIndex imesh) endIndex in
  let! n := copy_range (Bake.normals aModel) (Bake.vertexStartIndex imesh) endIndex in
  make_indexed_mesh gHash_ cast_out_of_range tgen_tangents4D
    {| vert := v; norm := n; text := t |} aErrorTolerance.

Definition index_meshes_ (aModel : Bake.InputModel) (aErrorTolerance : float)
    : result mesh_error (list IndexedMesh) :=
  mapM (index_mesh_of aModel aErrorTolerance) (Bake.meshes aModel).

End IndexMeshes.

(** The vertex range of a mesh lies within the three arrays of the model. *)
Definition mesh_in_range (aModel : Bake.InputModel) (imesh : Bake.InputMeshInfo) : Prop :=
  0 <= Bake.vertexStartIndex imesh /\ 0 <= Bake.vertexCount imesh
  /\ Bake.vertexStartIndex imesh + Bake.vertexCount imesh < two64
  /\ Bake.vertexStartIndex imesh + Bake.vertexCount imesh
     <= Z.of_nat (length (Bake.positions aModel))
  /\ Bake.vertexStartIndex imesh + Bake.vertexCount imesh
     <= Z.of_nat (length (Bake.texcoords aModel))
  /\ Bake.vertexStartIndex imesh + Bake.vertexCount imesh
     <= Z.of_nat (length (Bake.normals aModel)).

(** The triangle soup of a mesh: its part of the three arrays. *)
Definition mesh_soup (aModel : Bake.InputModel) (imesh : Bake.InputMeshInfo) : TriangleSoup :=
  let part {A} (a : list A) :=
    take (Z.to_nat (Bake.vertexCount imesh)) (drop (Z.to_nat (Bake.vertexStartIndex imesh)) a) in
  {| vert := part (Bake.positions aModel);
     norm := part (Bake.normals aModel);
     text := part (Bake.texcoords aModel) |}.

(** The test of [mergable_] passes on every axis: on none of them is the
    rounded difference greater than the tolerance. *)
Definition passes_vec3 (eps : float) (a b : vec3) : Prop :=
  forall k, 0 <= k < 3 -> exceeds eps (vec3_at a k) (vec3_at b k) = false.
Definition passes_vec2 (eps : float) (a b : vec2) : Prop :=
  forall k, 0 <= k < 2 -> exceeds eps (vec2_at a k) (vec2_at b k) = false.

(** The tiny model with the three vertices of its triangle. *)
Definition triangle_model : Bake.InputModel :=
  {| Bake.modelSourcePath := "tiny.obj";
     Bake.materials := [tiny_material];
     Bake.meshes := [ {| Bake.meshName := "t"; Bake.materialIndex := 0;
                         Bake.vertexStartIndex := 0; Bake.vertexCount := 3 |} ];
     Bake.positions := im_vert tiny_mesh;
     Bake.normals := im_norm tiny_mesh;
     Bake.texcoords := im_text tiny_mesh |}.

(** ** cw2-bake/main.cpp: [process_model_] *)

Section ProcessModel.

(** [std::filesystem::path( p ).stem().string()], [path( p ).filename()] and
    [(dir / name).string()], which are left to the platform. *)
Variable fs_stem : string -> string.
Variable fs_filename : string -> string.
Variable fs_append : string -> string -> string.

Variable gHash_ : Z -> Z.
Variable cast_out_of_range : float -> Z.
Variable tgen_tangents4D : list Z -> list float -> list float -> list float -> Z -> list float.

(** The textures that [process_model_] hands to the writer. *)
Definition model_textures (aOutput : string) (model : Bake.InputModel)
    : gmap string Bake.TextureInfo_ :=
  let texdir := String.append (fs_stem aOutput) "-tex" in
  new_paths_ fs_filename fs_append (find_unique_textures_ model) texdir.

(** [process_model_], from the model that [load_wavefront_obj] returned to
    the bytes written to the output file. *)
Definition process_model_ (aOutput : string) (model : Bake.InputModel)
    : result mesh_error (list byte) :=
  let! indexed := index_meshes_ gHash_ cast_out_of_range tgen_tangents4D model tolerance_1e5 in
  let textures := model_textures aOutput model in
  Bake.write_model_data_ model indexed textures.

End ProcessModel.

(** What [write_tex_] stores for the path [p]: the mark for an empty path,
    the id of the entry of [p] otherwise. *)
Definition resolved_id (aTextures : gmap string Bake.TextureInfo_) (p : string) (id : Z) : Prop :=
  (p = EmptyString /\ id = Bake.sentinel)
  \/ (p <> EmptyString /\ id <> Bake.sentinel
      /\ exists info, aTextures !! p = Some info /\ Bake.uniqueId info = id).

(** The tangent routine gives one 4-vector of binary32 numbers per normal
    that it is given. *)
Definition tgen_per_normal
    (tgen : list Z -> list float -> list float -> list float -> Z -> list float) : Prop :=
  forall ix ps uvs ns k,
    exists r, pack_tangents (tgen ix ps uvs ns k) = Ok r
              /\ length r = (length ns / 3)%nat
              /\ Forall valid_vec4 r.

(** A model that [process_model_] turns into a container that loads: its
    numbers are binary32 numbers; the meshes lie within the arrays, have
    fewer than 2^32 vertices and name a material; the counts fit 32 bits;
    every material has a base colour, a roughness and a metalness
    texture. *)
Definition wf_input_model (aModel : Bake.InputModel) : Prop :=
  Forall valid_vec3 (Bake.positions aModel)
  /\ Forall valid_vec3 (Bake.normals aModel)
  /\ Forall valid_vec2 (Bake.texcoords aModel)
  /\ Forall (fun imesh =>
               mesh_in_range aModel imesh /\ Bake.vertexCount imesh < two32
               /\ 0 <= Bake.materialIndex imesh < Z.of_nat (length (Bake.materials aModel)))
            (Bake.meshes aModel)
  /\ Z.of_nat (length (Bake.meshes aModel)) < two32
  /\ Z.of_nat (length (Bake.materials aModel)) < two32
  /\ Forall (fun mat => Bake.baseColorTexturePath mat <> EmptyString
                        /\ Bake.roughnessTexturePath mat <> EmptyString
                        /\ Bake.metalnessTexturePath mat <> EmptyString)
            (Bake.materials aModel)
  /\ Z.of_nat (size (find_unique_textures_ aModel)) < two32.

(** File names in the manner of POSIX: the part of a path after its last
    slash, that part without its extension, and a name behind a
    directory. *)
Definition posix_filename (p : string) : string :=
  match Baked.strrchr p "/"%char with
  | Some k => substring (S k) (String.length p - S k) p
  | None => p
  end.

Definition posix_stem (p : string) : string :=
  let name := posix_filename p in
  match Baked.strrchr name "."%char with
  | Some (S k) => substring 0 (S k) name
  | _ => name
  end.

Definition posix_append (dir name : string) : string :=
  String.append dir (String.append "/" name).

(** A tangent routine that gives the same tangent for every normal. *)
Definition flat_tangents (ix : list Z) (ps uvs ns : list float) (k : Z) : list float :=
  flat_map (fun _ => [float_one; F32.of_Z 0; F32.of_Z 0; float_one])
           (seq 0 (length ns / 3)).

(** ** What a loaded model can be relied on for *)

(** A mesh with parallel attribute arrays and a material of the model. *)
Definition wf_baked_mesh (materials : list Baked.BakedMaterialInfo) (b : Baked.BakedMeshData)
    : Prop :=
  0 <= Baked.materialId b < Z.of_nat (length materials)
  /\ length (Baked.normals b) = length (Baked.positions b)
  /\ length (Baked.texcoords b) = length (Baked.positions b)
  /\ length (Baked.tangents b) = length (Baked.positions b)
  /\ Z.of_nat (length (Baked.positions b)) < two32
  /\ Z.of_nat (length (Baked.indices b)) < two32
  /\ Forall (fun x => 0 <= x < two32) (Baked.indices b).

(** A material whose base colour, roughness and metalness textures are
    textures of the model. *)
Definition wf_baked_material (textures : list Baked.BakedTextureInfo)
    (m : Baked.BakedMaterialInfo) : Prop :=
  0 <= Baked.baseColorTextureId m < Z.of_nat (length textures)
  /\ 0 <= Baked.roughnessTextureId m < Z.of_nat (length textures)
  /\ 0 <= Baked.metalnessTextureId m < Z.of_nat (length textures)
  /\ 0 <= Baked.alphaMaskTextureId m < two32
  /\ 0 <= Baked.normalMapTextureId m < two32.

Definition wf_baked_model (aInputName : string) (ret : Baked.BakedModel) : Prop :=
  Forall (fun t => exists s, Baked.path t = String.append (Baked.base_prefix aInputName) s
                             /\ Z.of_nat (String.length s) < Baked.kMaxString)
         (Baked.textures ret)
  /\ Forall (wf_baked_material (Baked.textures ret)) (Baked.materials ret)
  /\ Forall (wf_baked_mesh (Baked.materials ret)) (Baked.meshes ret)
  /\ Z.of_nat (length (Baked.textures ret)) < two32
  /\ Z.of_nat (length (Baked.materials ret)) < two32
  /\ Z.of_nat (length (Baked.meshes ret)) < two32.

(** ** A model that bakes and does not load *)

(** A material without one of the three textures that the loader asks of
    every material. *)
Definition lacks_texture (mat : Bake.InputMaterialInfo) : Prop :=
  Bake.baseColorTexturePath mat = EmptyString
  \/ Bake.roughnessTexturePath mat = EmptyString
  \/ Bake.metalnessTexturePath mat = EmptyString.

(** [wf_input_model] without its condition on the materials. *)
Definition wf_input_geometry (aModel : Bake.InputModel) : Prop :=
  Forall valid_vec3 (Bake.positions aModel)
  /\ Forall valid_vec3 (Bake.normals aModel)
  /\ Forall valid_vec2 (Bake.texcoords aModel)
  /\ Forall (fun imesh =>
               mesh_in_range aModel imesh /\ Bake.vertexCount imesh < two32
               /\ 0 <= Bake.materialIndex imesh < Z.of_nat (length (Bake.materials aModel)))
            (Bake.meshes aModel)
  /\ Z.of_nat (length (Bake.meshes aModel)) < two32
  /\ Z.of_nat (length (Bake.materials aModel)) < two32
  /\ Z.of_nat (size (find_unique_textures_ aModel)) < two32.

(** The triangle model with a material that has no roughness texture. *)
Definition rough_model : Bake.InputModel :=
  {| Bake.modelSourcePath := "rough.obj";
     Bake.materials :=
       [ {| Bake.materialName := "m";
            Bake.baseColor := Vec3 float_one float_one float_one;
            Bake.baseRoughness := float_one;
            Bake.baseMetalness := F32.of_Z 0;
            Bake.baseColorTexturePath := "src/a.png";
            Bake.roughnessTexturePath := "";
            Bake.metalnessTexturePath := "src/a.png";
            Bake.alphaMaskTexturePath := "";
            Bake.normalMapTexturePath := "" |} ];
     Bake.meshes := Bake.meshes triangle_model;
     Bake.positions := Bake.positions triangle_model;
     Bake.normals := Bake.normals triangle_model;
     Bake.texcoords := Bake.texcoords triangle_model |}.

(** ** labutils/vkimage.cpp: the levels of a mipmap *)

(** [countl_zero_]: the number of leading zero bits of a 32-bit number, by
    halving the range five times. *)
Definition countl_zero_ (aX : Z) : Z :=
  if aX =? 0 then 32
  else
    let res := 0 in
    let '(res, aX) :=
      if Z.land aX 0xffff0000 =? 0 then (res + 16, Z.shiftl aX 16 mod two32) else (res, aX) in
    let '(res, aX) :=
      if Z.land aX 0xff000000 =? 0 then (res + 8, Z.shiftl aX 8 mod two32) else (res, aX) in
    let '(res, aX) :=
      if Z.land aX 0xf0000000 =? 0 then (res + 4, Z.shiftl aX 4 mod two32) else (res, aX) in
    let '(res, aX) :=
      if Z.land aX 0xc0000000 =? 0 then (res + 2, Z.shiftl aX 2 mod two32) else (res, aX) in
    let res := if Z.land aX 0x80000000 =? 0 then res + 1 else res in
    res.

Definition compute_mip_level_count (aWidth aHeight : Z) : Z :=
  let bits := Z.lor aWidth aHeight in
  let leadingZeros := countl_zero_ bits in
  (32 - leadingZeros) mod two32.

(** [x >>= 1; if (x == 0) x = 1;] *)
Definition next_mip_extent (x : Z) : Z :=
  let x := Z.shiftr x 1 in
  if x =? 0 then 1 else x.

(** One [VkImageBlit] of the loop over the mip levels: the level written,
    the extent read from the level before and the extent written, both
    converted to [std::int32_t]. *)
Record MipBlit : Type := {
  dstLevel : Z;
  srcExtent : Z * Z;
  dstExtent : Z * Z
}.

(** The loop [for( level = 1; level < mipLevels; ++level )] of
    [load_image_texture2d] and [load_single_chanel_image_texture2d]: the
    blits that it records, in order. *)
Definition mip_blits (baseWidth baseHeight : Z) : list MipBlit :=
  let mipLevels := compute_mip_level_count baseWidth baseHeight in
  snd (fold_left
         (fun '(width, height, blits) level =>
            let width' := next_mip_extent width in
            let height' := next_mip_extent height in
            (width', height',
             blits ++ [ {| dstLevel := level;
                           srcExtent := (to_int32 width, to_int32 height);
                           dstExtent := (to_int32 width', to_int32 height') |} ]))
         (seqZ 1 (mipLevels - 1))
         (baseWidth, baseHeight, [])).

(** The extent of a mip level as Vulkan defines it: the base extent halved
    [level] times, and at least 1. *)
Definition mip_extent (base level : Z) : Z := Z.max 1 (base / 2 ^ level).

(** ** cw2/load_data_to_vk.cpp: from the loaded model to what is uploaded *)

(** The three image formats that [get_texture_format] chooses from. *)
Inductive VkFormat : Type :=
| VK_FORMAT_R8G8B8A8_SRGB
| VK_FORMAT_R8_UNORM
| VK_FORMAT_R8G8B8A8_UNORM.

#[global] Instance VkFormat_eqdec : EqDecision VkFormat.
Proof. solve_decision. Defined.

(** The loop of [get_texture_format] over the materials, with its
    [return]s. *)
Fixpoint texture_format_in (materials : list Baked.BakedMaterialInfo) (textureId : Z)
    : VkFormat :=
  match materials with
  | [] => VK_FORMAT_R8G8B8A8_SRGB
  | material :: materials' =>
      if (textureId =? Baked.baseColorTextureId material)
         || (textureId =? Baked.roughnessTextureId material)
         || (textureId =? Baked.metalnessTextureId material)
         || (textureId =? Baked.normalMapTextureId material)
      then
        if textureId =? Baked.baseColorTextureId material then VK_FORMAT_R8G8B8A8_SRGB
        else if (textureId =? Baked.roughnessTextureId material)
                || (textureId =? Baked.metalnessTextureId material)
        then VK_FORMAT_R8_UNORM
        else if textureId =? Baked.normalMapTextureId material then VK_FORMAT_R8G8B8A8_UNORM
        else texture_format_in materials' textureId
      else texture_format_in materials' textureId
  end.

Definition get_texture_format (aModel : Baked.BakedModel) (textureId : Z) : VkFormat :=
  texture_format_in (Baked.materials aModel) textureId.

(** The first loop of [set_up_model]: the interleaved vertex data of one
    mesh, twelve floats per vertex. *)
Definition vertex_data (mesh : Baked.BakedMeshData) : result mesh_error (list float) :=
  foldM
    (fun vertexData i =>
       let! p := vget (Baked.positions mesh) i in
       let! t := vget (Baked.texcoords mesh) i in
       let! n := vget (Baked.normals mesh) i in
       let! g := vget (Baked.tangents mesh) i in
       Ok (vertexData ++ [v3x p; v3y p; v3z p; v2x t; v2y t; v3x n; v3y n; v3z n;
                          v4x g; v4y g; v4z g; v4w g]))
    (index_range (length (Baked.positions mesh))) [].

(** What [set_up_model] uploads for a mesh. *)
Record MeshUpload : Type := {
  vertexData : list float;
  indexData : list Z;
  indexCount : Z;
  matID : Z
}.

Definition mesh_upload (mesh : Baked.BakedMeshData) : result mesh_error MeshUpload :=
  let! vertexData := vertex_data mesh in
  Ok {| vertexData := vertexData;
        indexData := Baked.indices mesh;
        indexCount := uint32 (Z.of_nat (length (Baked.indices mesh)));
        matID := Baked.materialId mesh |}.

(** Where a texture of the pack comes from: an image file, loaded in a
    format and through the single-channel loader or not, or the one-pixel
    normal map of [load_dummy_normal_map]. *)
Inductive TextureSource : Type :=
| FromFile (path : string) (format : VkFormat) (singleChannel : bool)
| DummyNormalMap.

(** The textures of the pack: one per texture of the model, in order, and
    the dummy normal map behind them. *)
Definition pack_textures (aModel : Baked.BakedModel) : list TextureSource :=
  imap (fun k texture =>
          let textureId := uint32 (Z.of_nat k) in
          let format := get_texture_format aModel textureId in
          FromFile (Baked.path texture) format (bool_decide (format = VK_FORMAT_R8_UNORM)))
       (Baked.textures aModel)
  ++ [DummyNormalMap].

(** The four image views of the descriptor set of a material. *)
Definition material_image_views {T} (textures : list T) (material : Baked.BakedMaterialInfo)
    : result mesh_error (T * T * T * T) :=
  let! v0 := vget textures (Baked.baseColorTextureId material) in
  let! v1 := vget textures (Baked.roughnessTextureId material) in
  let! v2 := vget textures (Baked.metalnessTextureId material) in
  let! v3 :=
    if negb (Baked.normalMapTextureId material =? 0xffffffff)
    then vget textures (Baked.normalMapTextureId material)
    else match last textures with
         | Some t => Ok t
         | None => Err OutOfRange
         end in
  Ok (v0, v1, v2, v3).

(** [set_up_model], when every call to Vulkan succeeds: the meshes
    uploaded, the textures of the pack and the image views of the descriptor
    set of each material. *)
Definition set_up_model (aModel : Baked.BakedModel)
    : result mesh_error
        (list MeshUpload * list TextureSource
         * list (TextureSource * TextureSource * TextureSource * TextureSource)) :=
  let! meshes := mapM mesh_upload (Baked.meshes aModel) in
  let textures := pack_textures aModel in
  let materialCount := uint32 (Z.of_nat (length (Baked.materials aModel))) in
  let! matDescs :=
    mapM (fun i =>
            let! material := vget (Baked.materials aModel) i in
            material_image_views textures material)
         (index_range (Z.to_nat materialCount)) in
  Ok (meshes, textures, matDescs).

(** The twelve floats of a vertex: position, texture coordinate, normal,
    tangent. *)
Definition vertex_row (p : vec3) (t : vec2) (n : vec3) (g : vec4) : list float :=
  [v3x p; v3y p; v3z p; v2x t; v2y t; v3x n; v3y n; v3z n; v4x g; v4y g; v4z g; v4w g].

(** Whether a material refers to a texture in a way that
    [get_texture_format] looks at. *)
Definition refers_to (textureId : Z) (material : Baked.BakedMaterialInfo) : Prop :=
  textureId = Baked.baseColorTextureId material
  \/ textureId = Baked.roughnessTextureId material
  \/ textureId = Baked.metalnessTextureId material
  \/ textureId = Baked.normalMapTextureId material.

(** ** cw2-bake/load_model_obj.cpp *)

(** What [rapidobj::ParseFile] and [rapidobj::Triangulate] hand to
    [load_wavefront_obj], as far as it reads it: the attribute arrays, the
    shapes with one index triple per face corner and one material id per
    face, and the materials. Indices and material ids are [int]s. *)
Module Obj.

Record Index : Type := {
  position_index : Z;
  texcoord_index : Z;
  normal_index : Z
}.

Record Material : Type := {
  name : string;
  diffuse : float * float * float;
  roughness : float;
  metallic : float;
  diffuse_texname : string;
  roughness_texname : string;
  metallic_texname : string;
  alpha_texname : string;
  normal_texname : string
}.

Record Shape : Type := {
  shape_name : string;
  indices : list Index;
  material_ids : list Z
}.

Record Result : Type := {
  positions : list float;
  texcoords : list float;
  normals : list float;
  shapes : list Shape;
  materials : list Material
}.

End Obj.

(** [std::size_t( i )] for an [int] [i]. *)
Definition size_of_int (i : Z) : Z := i mod two64.

(** One material of the OBJ file as a material of the model: a texture
    name that is not empty gets the directory of the OBJ file before it. *)
Definition convert_material (prefix : string) (mat : Obj.Material) : Bake.InputMaterialInfo :=
  let with_prefix (texname : string) :=
    if bool_decide (texname = EmptyString) then EmptyString
    else String.append prefix texname in
  {| Bake.materialName := Obj.name mat;
     Bake.baseColor := let '(r, g, b) := Obj.diffuse mat in Vec3 r g b;
     Bake.baseRoughness := Obj.roughness mat;
     Bake.baseMetalness := Obj.metallic mat;
     Bake.baseColorTexturePath := with_prefix (Obj.diffuse_texname mat);
     Bake.roughnessTexturePath := with_prefix (Obj.roughness_texname mat);
     Bake.metalnessTexturePath := with_prefix (Obj.metallic_texname mat);
     Bake.alphaMaskTexturePath := with_prefix (Obj.alpha_texname mat);
     Bake.normalMapTexturePath := with_prefix (Obj.normal_texname mat) |}.

(** The first loop over the indices of a shape: the keys that
    [activeMaterials] receives, in order. *)
Definition scan_materials (materialCount : nat) (shape : Obj.Shape) : result mesh_error (list Z) :=
  mapM (fun i =>
          let faceId := i / 3 in
          let! _ := c_assert (faceId <? Z.of_nat (length (Obj.material_ids shape))) in
          let! matId := vget (Obj.material_ids shape) faceId in
          let! _ := c_assert (matId <? to_int32 (Z.of_nat materialCount)) in
          Ok (size_of_int matId))
       (index_range (length (Obj.indices shape))).

(** The vertex of a face corner: three positions, two texture coordinates
    and three normal components of the attribute arrays. *)
Definition corner_vertex (aResult : Obj.Result) (idx : Obj.Index)
    : result mesh_error (vec3 * vec2 * vec3) :=
  let! px := vget (Obj.positions aResult) (Obj.position_index idx * 3 + 0) in
  let! py := vget (Obj.positions aResult) (Obj.position_index idx * 3 + 1) in
  let! pz := vget (Obj.positions aResult) (Obj.position_index idx * 3 + 2) in
  let! tx := vget (Obj.texcoords aResult) (Obj.texcoord_index idx * 2 + 0) in
  let! ty := vget (Obj.texcoords aResult) (Obj.texcoord_index idx * 2 + 1) in
  let! nx := vget (Obj.normals aResult) (Obj.normal_index idx * 3 + 0) in
  let! ny := vget (Obj.normals aResult) (Obj.normal_index idx * 3 + 1) in
  let! nz := vget (Obj.normals aResult) (Obj.normal_index idx * 3 + 2) in
  Ok (Vec3 px py pz, Vec2 tx ty, Vec3 nx ny nz).

(** The second loop over the indices of a shape, for one active material:
    the corners of the faces of that material are appended to the three
    arrays of the model. *)
Definition extract_material (aResult : Obj.Result) (shape : Obj.Shape) (matId : Z)
    (ret : Bake.InputModel) : result mesh_error Bake.InputModel :=
  foldM
    (fun (ret : Bake.InputModel) i =>
       let faceId := i / 3 in
       let! m := vget (Obj.material_ids shape) faceId in
       let faceMat := size_of_int m in
       if negb (faceMat =? matId) then Ok ret
       else
         let! idx := vget (Obj.indices shape) i in
         let! v := corner_vertex aResult idx in
         let '(p, t, n) := v in
         Ok {| Bake.modelSourcePath := Bake.modelSourcePath ret;
               Bake.materials := Bake.materials ret;
               Bake.meshes := Bake.meshes ret;
               Bake.positions := Bake.positions ret ++ [p];
               Bake.normals := Bake.normals ret ++ [n];
               Bake.texcoords := Bake.texcoords ret ++ [t] |})
    (index_range (length (Obj.indices shape))) ret.

Section LoadObj.

(** The order in which a [std::unordered_set] that received the given keys
    is iterated, which the C++ standard leaves to the implementation. *)
Variable set_order : list Z -> list Z.

(** The body of the loop over the shapes. *)
Definition process_shape (aResult : Obj.Result) (ret : Bake.InputModel) (shape : Obj.Shape)
    : result mesh_error Bake.InputModel :=
  let shapeName := Obj.shape_name shape in
  let! keys := scan_materials (length (Bake.materials ret)) shape in
  let activeMaterials := set_order keys in
  foldM
    (fun (ret : Bake.InputModel) matId =>
       let! meshName :=
         if (1 =? Z.of_nat (length activeMaterials)) then Ok shapeName
         else
           let! mat := vget (Bake.materials ret) matId in
           Ok (String.append shapeName (String.append "::" (Bake.materialName mat))) in
       let firstVertex := Z.of_nat (length (Bake.positions ret)) in
       let! ret := extract_material aResult shape matId ret in
       let vertexCount := Z.of_nat (length (Bake.positions ret)) - firstVertex in
       Ok {| Bake.modelSourcePath := Bake.modelSourcePath ret;
             Bake.materials := Bake.materials ret;
             Bake.meshes := Bake.meshes ret
                            ++ [ {| Bake.meshName := meshName;
                                    Bake.materialIndex := matId;
                                    Bake.vertexStartIndex := firstVertex;
                                    Bake.vertexCount := vertexCount |} ];
             Bake.positions := Bake.positions ret;
             Bake.normals := Bake.normals ret;
             Bake.texcoords := Bake.texcoords ret |})
    activeMaterials ret.

(** [load_wavefront_obj], from the parsed and triangulated file on. *)
Definition load_wavefront_obj (aPath : string) (aResult : Obj.Result)
    : result mesh_error Bake.InputModel :=
  let prefix :=
    match Baked.strrchr aPath "/"%char with
    | Some k => substring 0 (S k) aPath
    | None => EmptyString
    end in
  foldM (process_shape aResult) (Obj.shapes aResult)
        {| Bake.modelSourcePath := aPath;
           Bake.materials := map (convert_material prefix) (Obj.materials aResult);
           Bake.meshes := [];
           Bake.positions := [];
           Bake.normals := [];
           Bake.texcoords := [] |}.

End LoadObj.

(** Each key once, in some order. *)
Definition set_order_ok (set_order : list Z -> list Z) : Prop :=
  forall keys, NoDup (set_order keys) /\ forall k, k ∈ set_order keys <-> k ∈ keys.

(** The meshes lie one behind the other in the arrays, from vertex [start]
    on. *)
Fixpoint consecutive (start : Z) (meshes : list Bake.InputMeshInfo) : Prop :=
  match meshes with
  | [] => True
  | imesh :: meshes' =>
      Bake.vertexStartIndex imesh = start /\ 0 <= Bake.vertexCount imesh
      /\ consecutive (start + Bake.vertexCount imesh) meshes'
  end.

Definition total_vertices (meshes : list Bake.InputMeshInfo) : Z :=
  fold_right (fun imesh n => Bake.vertexCount imesh + n) 0 meshes.

(** A set that is iterated in the order in which its keys first came. *)
Definition first_come_order (keys : list Z) : list Z := reverse (remove_dups (reverse keys)).

(** A square of two triangles with two materials. *)
Definition square_obj : Obj.Result :=
  {| Obj.positions := map F32.of_Z [0; 0; 0;  1; 0; 0;  1; 1; 0;  0; 1; 0];
     Obj.texcoords := map F32.of_Z [0; 0;  1; 0;  1; 1;  0; 1];
     Obj.normals := map F32.of_Z [0; 0; 1];
     Obj.shapes :=
       [ {| Obj.shape_name := "square";
            Obj.indices :=
              map (fun k => {| Obj.position_index := k; Obj.texcoord_index := k;
                               Obj.normal_index := 0 |})
                  [0; 1; 2;  0; 2; 3];
            Obj.material_ids := [0; 1] |} ];
     Obj.materials :=
       [ {| Obj.name := "red"; Obj.diffuse := (float_one, F32.of_Z 0, F32.of_Z 0);
            Obj.roughness := float_one; Obj.metallic := F32.of_Z 0;
            Obj.diffuse_texname := "red.png"; Obj.roughness_texname := "";
            Obj.metallic_texname := ""; Obj.alpha_texname := "";
            Obj.normal_texname := "" |};
         {| Obj.name := "blue"; Obj.diffuse := (F32.of_Z 0, F32.of_Z 0, float_one);
            Obj.roughness := float_one; Obj.metallic := F32.of_Z 0;
            Obj.diffuse_texname := "blue.png"; Obj.roughness_texname := "";
            Obj.metallic_texname := ""; Obj.alpha_texname := "";
            Obj.normal_texname := "" |} ] |}.

(** The key of the material of the face of corner [i] of a shape, and the
    number of corners of a shape whose face has the material [matId]. *)
Definition face_material (shape : Obj.Shape) (i : Z) : option Z :=
  size_of_int <$> (Obj.material_ids shape !! Z.to_nat (i / 3)).

Definition corner_count (shape : Obj.Shape) (matId : Z) : nat :=
  length (filter (fun i => face_material shape i = Some matId)
                 (index_range (length (Obj.indices shape)))).

(** What holds of the model after every shape. *)
Definition tiled (ret : Bake.InputModel) : Prop :=
  length (Bake.texcoords ret) = length (Bake.positions ret)
  /\ length (Bake.normals ret) = length (Bake.positions ret)
  /\ consecutive 0 (Bake.meshes ret)
  /\ total_vertices (Bake.meshes ret) = Z.of_nat (length (Bake.positions ret)).

(** ** cw2/baked_model.cpp: the loader of either build

    [assert] belongs to the build. When [NDEBUG] is defined it expands to
    nothing; otherwise a failed assertion ends the program, which [Baked]
    has as the error [LoadAssertFailed]. [load_baked_model_] has four
    assertions: on the base-colour, roughness and metalness ids of a
    material and on the material id of a mesh. Here is the loader with
    the build as a parameter: [ndebug] says whether [NDEBUG] is defined. *)
Module BakedBuild.
Import Baked.

Section Build.

Variable ndebug : bool.

Definition r_assert (b : bool) : reader unit :=
  if ndebug then rret tt else Baked.r_assert b.

Definition read_material (textures : list BakedTextureInfo) : reader BakedMaterialInfo :=
  read! a := read_uint32_ in
  read! b := read_uint32_ in
  read! c := read_uint32_ in
  read! d := read_uint32_ in
  read! e := read_uint32_ in
  read! _ := r_assert (a <? Z.of_nat (List.length textures)) in
  read! _ := r_assert (b <? Z.of_nat (List.length textures)) in
  read! _ := r_assert (c <? Z.of_nat (List.length textures)) in
  rret {| baseColorTextureId := a;
          roughnessTextureId := b;
          metalnessTextureId := c;
          alphaMaskTextureId := d;
          normalMapTextureId := e |}.

Definition read_mesh (materials : list BakedMaterialInfo) : reader BakedMeshData :=
  read! m := read_uint32_ in
  read! _ := r_assert (m <? Z.of_nat (List.length materials)) in
  read! V := read_uint32_ in
  read! I' := read_uint32_ in
  read! p := checked_read_ (V * 12) in
  read! n := checked_read_ (V * 12) in
  read! t := checked_read_ (V * 8) in
  read! g := checked_read_ (V * 16) in
  read! ix := checked_read_ (I' * 4) in
  rret {| materialId := m;
          positions := vec3s_of_floats (floats_of_bytes p);
          texcoords := vec2s_of_floats (floats_of_bytes t);
          normals := vec3s_of_floats (floats_of_bytes n);
          tangents := vec4s_of_floats (floats_of_bytes g);
          indices := words_of_bytes ix |}.

Definition read_model (aInputName : string) : reader BakedModel :=
  let prefix := base_prefix aInputName in
  read! magic := checked_read_ 16 in
  if negb (bool_decide (magic = kFileMagic)) then rthrow InvalidSignature
  else
    read! variant := checked_read_ 16 in
    if negb (bool_decide (variant = kFileVariant)) then rthrow WrongVariant
    else
      read! textureCount := read_uint32_ in
      read! textures := read_n (Z.to_nat textureCount) (fun _ => read_texture prefix) [] in
      read! materialCount := read_uint32_ in
      read! materials := read_n (Z.to_nat materialCount) (fun _ => read_material textures) [] in
      read! meshCount := read_uint32_ in
      read! meshes := read_n (Z.to_nat meshCount) (fun _ => read_mesh materials) [] in
      rret {| textures := textures; materials := materials; meshes := meshes |}.

Definition load_baked_model_ (aFin : list byte) (aInputName : string)
    : result load_error (BakedModel * bool) :=
  match read_model aInputName aFin with
  | Ok (ret, rest) =>
      let check := Z.min 1 (Z.of_nat (List.length rest)) in
      Ok (ret, negb (check =? 0))
  | Err e => Err e
  end.

Definition load_baked_model (file : option (list byte)) (aModelPath : string)
    : result load_error BakedModel :=
  match file with
  | None => Err CannotOpen
  | Some fin =>
      match load_baked_model_ fin aModelPath with
      | Ok (ret, _) => Ok ret
      | Err e => Err e
      end
  end.

End Build.

End BakedBuild.

(** What the reads of the loader themselves settle, in either build: the
    ids are 32-bit numbers, the attribute arrays of a mesh have one length,
    the counts fit 32 bits, and every texture path is the directory of the
    model file followed by fewer than [kMaxString] bytes. *)
Definition read_baked_mesh (b : Baked.BakedMeshData) : Prop :=
  0 <= Baked.materialId b < two32
  /\ length (Baked.normals b) = length (Baked.positions b)
  /\ length (Baked.texcoords b) = length (Baked.positions b)
  /\ length (Baked.tangents b) = length (Baked.positions b)
  /\ Z.of_nat (length (Baked.positions b)) < two32
  /\ Z.of_nat (length (Baked.indices b)) < two32
  /\ Forall (fun x => 0 <= x < two32) (Baked.indices b).

Definition read_baked_material (m : Baked.BakedMaterialInfo) : Prop :=
  0 <= Baked.baseColorTextureId m < two32
  /\ 0 <= Baked.roughnessTextureId m < two32
  /\ 0 <= Baked.metalnessTextureId m < two32
  /\ 0 <= Baked.alphaMaskTextureId m < two32
  /\ 0 <= Baked.normalMapTextureId m < two32.

Definition read_baked_model (aInputName : string) (ret : Baked.BakedModel) : Prop :=
  Forall (fun t => exists s, Baked.path t = String.append (Baked.base_prefix aInputName) s
                             /\ Z.of_nat (String.length s) < Baked.kMaxString)
         (Baked.textures ret)
  /\ Forall read_baked_material (Baked.materials ret)
  /\ Forall read_baked_mesh (Baked.meshes ret)
  /\ Z.of_nat (length (Baked.textures ret)) < two32
  /\ Z.of_nat (length (Baked.materials ret)) < two32
  /\ Z.of_nat (length (Baked.meshes ret)) < two32.

(** The errors behind the header: a short read, a path that is too long,
    and in a build with assertions the failed assertion. *)
Definition table_error (ndebug : bool) (e : Baked.load_error) : Prop :=
  (exists expected got, e = Baked.ShortRead expected got)
  \/ (exists length, e = Baked.StringTooLong length)
  \/ (ndebug = false /\ e = Baked.LoadAssertFailed).

(** The errors of the loader of a build: those that it throws, and in a
    build with assertions the failed assertion. *)
Definition build_error (ndebug : bool) (e : Baked.load_error) : Prop :=
  e = Baked.InvalidSignature \/ e = Baked.WrongVariant
  \/ (exists expected got, e = Baked.ShortRead expected got)
  \/ (exists length, e = Baked.StringTooLong length)
  \/ (ndebug = false /\ e = Baked.LoadAssertFailed).

Definition throws {A} (P : Baked.load_error -> Prop) (p : Baked.reader A) : Prop :=
  forall fin e, p fin = Err e -> P e.

(** What the writer needs of its input, and what the loader of a build
    without assertions needs of what was written: as [wf_bake_input], but a
    material may lack any of its textures and a mesh may name any 32-bit
    material index. *)
Definition wf_writer_input (aModel : Bake.InputModel) (aIndexedMeshes : list IndexedMesh)
    (aTextures : gmap string Bake.TextureInfo_)
    (ordered : list (string * Bake.TextureInfo_)) : Prop :=
  textures_by_id aTextures ordered
  /\ Forall (fun e => loadable_path (snd e)) ordered
  /\ Z.of_nat (length ordered) < two32
  /\ Forall (fun m => optional_texture aTextures (Bake.baseColorTexturePath m)
                      /\ optional_texture aTextures (Bake.roughnessTexturePath m)
                      /\ optional_texture aTextures (Bake.metalnessTexturePath m)
                      /\ optional_texture aTextures (Bake.alphaMaskTexturePath m)
                      /\ optional_texture aTextures (Bake.normalMapTexturePath m))
            (Bake.materials aModel)
  /\ Z.of_nat (length (Bake.materials aModel)) < two32
  /\ length (Bake.meshes aModel) = length aIndexedMeshes
  /\ Z.of_nat (length (Bake.meshes aModel)) < two32
  /\ Forall (fun mm => 0 <= Bake.materialIndex mm < two32) (Bake.meshes aModel)
  /\ Forall wf_indexed_mesh aIndexedMeshes.

(** The texture ids of a material lie within the pack of [set_up_model],
    which has one texture more than the model: the three ids that every
    material has, and the normal-map id unless it is the mark of absence. *)
Definition in_pack (aModel : Baked.BakedModel) (m : Baked.BakedMaterialInfo) : Prop :=
  Baked.baseColorTextureId m <= Z.of_nat (length (Baked.textures aModel))
  /\ Baked.roughnessTextureId m <= Z.of_nat (length (Baked.textures aModel))
  /\ Baked.metalnessTextureId m <= Z.of_nat (length (Baked.textures aModel))
  /\ (Baked.normalMapTextureId m = 0xffffffff
      \/ Baked.normalMapTextureId m <= Z.of_nat (length (Baked.textures aModel))).

Definition beyond_pack (aModel : Baked.BakedModel) (m : Baked.BakedMaterialInfo) : Prop :=
  Z.of_nat (length (Baked.textures aModel)) < Baked.baseColorTextureId m
  \/ Z.of_nat (length (Baked.textures aModel)) < Baked.roughnessTextureId m
  \/ Z.of_nat (length (Baked.textures aModel)) < Baked.metalnessTextureId m
  \/ (Baked.normalMapTextureId m <> 0xffffffff
      /\ Z.of_nat (length (Baked.textures aModel)) < Baked.normalMapTextureId m).

(** ** The layout of a container

    The container as the specification lays it out: the magic and the
    variant tag, then three tables, each behind the number of its entries.
    An entry of the texture table is [texture_entry]; an entry of the
    material table is five ids of four bytes; an entry of the mesh table is
    the material id and the counts [V] and [I], followed by [V] positions
    and [V] normals of twelve bytes each, [V] texture coordinates of eight
    bytes, [V] tangents of sixteen bytes and [I] indices of four bytes.
    Nothing is asked of what the ids name or of how long a path is. *)
Record MeshEntry : Type := {
  me_material : Z;
  me_V : Z;
  me_I : Z;
  me_positions : list byte;
  me_normals : list byte;
  me_texcoords : list byte;
  me_tangents : list byte;
  me_indices : list byte
}.

Definition mesh_entry (e : MeshEntry) : list byte :=
  le32 (me_material e) ++ le32 (me_V e) ++ le32 (me_I e)
  ++ me_positions e ++ me_normals e ++ me_texcoords e ++ me_tangents e ++ me_indices e.

Definition wf_mesh_entry (e : MeshEntry) : Prop :=
  0 <= me_material e < two32 /\ 0 <= me_V e < two32 /\ 0 <= me_I e < two32
  /\ Z.of_nat (length (me_positions e)) = me_V e * 12
  /\ Z.of_nat (length (me_normals e)) = me_V e * 12
  /\ Z.of_nat (length (me_texcoords e)) = me_V e * 8
  /\ Z.of_nat (length (me_tangents e)) = me_V e * 16
  /\ Z.of_nat (length (me_indices e)) = me_I e * 4.

Definition material_entry (ids : list Z) : list byte := concat (map le32 ids).

Definition wf_material_entry (ids : list Z) : Prop :=
  length ids = 5%nat /\ Forall (fun id => 0 <= id < two32) ids.

Definition container_layout (textures : list (list byte * byte)) (materials : list (list Z))
    (meshes : list MeshEntry) : list byte :=
  kFileMagic ++ kFileVariant
  ++ le32 (Z.of_nat (length textures)) ++ concat (map texture_entry textures)
  ++ le32 (Z.of_nat (length materials)) ++ concat (map material_entry materials)
  ++ le32 (Z.of_nat (length meshes)) ++ concat (map mesh_entry meshes).

Definition is_container (full : list byte) : Prop :=
  exists textures materials meshes,
    full = container_layout textures materials meshes
    /\ Z.of_nat (length textures) < two32
    /\ Forall (fun e => Z.of_nat (length (fst e)) < two32) textures
    /\ Z.of_nat (length materials) < two32
    /\ Forall wf_material_entry materials
    /\ Z.of_nat (length meshes) < two32
    /\ Forall wf_mesh_entry meshes.

(** The three ways in which a file is not a container: another magic,
    another variant tag, or the end of the file before the end of what its
    fields declare. *)
Inductive not_a_container (fin : list byte) : Prop :=
| wrong_magic : take 16 fin <> kFileMagic -> not_a_container fin
| wrong_variant : take 16 (drop 16 fin) <> kFileVariant -> not_a_container fin
| cut_short (full : list byte) (k : nat) :
    is_container full -> (k < length full)%nat -> fin = take k full ->
    not_a_container fin.

(** A container without textures and materials and with one mesh without
    vertices, and the file that ends after two bytes of the material id of
    that mesh. No file that starts like it loads in a build with
    assertions: its mesh names a material of an empty table. *)
Definition gap_container : list byte :=
  container_layout [] []
    [ {| me_material := 0; me_V := 0; me_I := 0; me_positions := []; me_normals := [];
         me_texcoords := []; me_tangents := []; me_indices := [] |} ].

Definition gap_file : list byte := take 46 gap_container.

(** The least and the greatest coordinate of the vertices of a soup on the
    axis [k]: a number that bounds every coordinate and is the coordinate
    of some vertex. *)
Definition least_on_axis (aSoup : TriangleSoup) (k : Z) (lo : float) : Prop :=
  is_number lo = true
  /\ (forall v, v ∈ vert aSoup -> units lo <= units (vec3_at v k))
  /\ exists v, v ∈ vert aSoup /\ units (vec3_at v k) = units lo.

Definition greatest_on_axis (aSoup : TriangleSoup) (k : Z) (hi : float) : Prop :=
  is_number hi = true
  /\ (forall v, v ∈ vert aSoup -> units (vec3_at v k) <= units hi)
  /\ exists v, v ∈ vert aSoup /\ units (vec3_at v k) = units hi.

(** The side of the bounding box on one axis after the box was padded by
    ten times the tolerance on either end, in binary32. *)
Definition padded_side (lo hi tolerance : float) : float :=
  F32.sub (F32.add hi (F32.mul (F32.of_Z 10) tolerance))
          (F32.sub lo (F32.mul (F32.of_Z 10) tolerance)).

(** [s] is the longest of three sides: it is one of them and none of them
    is longer. *)
Definition longest_side (s s0 s1 s2 : float) : Prop :=
  (s = s0 \/ s = s1 \/ s = s2)
  /\ F32.leb s0 s = true /\ F32.leb s1 s = true /\ F32.leb s2 s = true.

(** The quotient of the longest side by twice the tolerance, and one half
    more: what the code cuts to an integer. *)
Definition rounded_cells (longest tolerance : float) : float :=
  F32.add (F32.div longest (F32.mul (F32.of_Z 2) tolerance)) float_half.




(** [lays_out p L]: the bytes that the reader [p] consumes are laid out as
    [L] says, and a file on which [p] comes short is the beginning of bytes
    that are. [L c a] relates the bytes to the value read from them. *)
Definition lays_out {A} (p : Baked.reader A) (L : list byte -> A -> Prop) : Prop :=
  (forall fin a rest, p fin = Ok (a, rest) -> exists c, fin = c ++ rest /\ L c a)
  /\ (forall fin x y, p fin = Err (Baked.ShortRead x y) ->
        exists more a, more <> [] /\ L (fin ++ more) a).

Definition seq_layout {A B} (Lp : list byte -> A -> Prop) (Lk : A -> list byte -> B -> Prop)
    (c : list byte) (b : B) : Prop :=
  exists c1 c2 a, c = c1 ++ c2 /\ Lp c1 a /\ Lk a c2 b.

Definition bytes_layout (n : Z) (c a : list byte) : Prop :=
  a = c /\ length c = Z.to_nat n.

Definition word_layout (c : list byte) (z : Z) : Prop :=
  length c = 4%nat /\ z = le32_decode c.

Definition ret_layout {A} (a : A) (c : list byte) (b : A) : Prop := c = [] /\ b = a.

Definition table_layout {A} (L : list byte -> A -> Prop) (n : nat) (c : list byte)
    (l : list A) : Prop :=
  exists cs, length cs = n /\ c = concat cs /\ Forall (fun ci => exists a, L ci a) cs.

Definition texture_layout (c : list byte) (t : Baked.BakedTextureInfo) : Prop :=
  exists e, c = texture_entry e /\ Z.of_nat (length (fst e)) < two32.

Definition material_layout (c : list byte) (m : Baked.BakedMaterialInfo) : Prop :=
  exists ids, c = material_entry ids /\ wf_material_entry ids.

Definition mesh_layout (c : list byte) (m : Baked.BakedMeshData) : Prop :=
  exists e, c = mesh_entry e /\ wf_mesh_entry e.

(** * Properties *)

(** ** Results and loops *)

Lemma bind_Ok {E A B} (r : result E A) (k : A -> result E B) (b : B) :
  bind r k = Ok b -> exists a, r = Ok a /\ k a = Ok b.
Proof. destruct r as [a|e]; simpl; [eauto | discriminate]. Qed.

Lemma foldM_app {E S X} (body : S -> X -> result E S) (xs ys : list X) (s : S) :
  foldM body (xs ++ ys) s = bind (foldM body xs s) (foldM body ys).
Proof.
  revert s. induction xs as [|x xs IH]; intros s; simpl; [reflexivity|].
  destruct (body s x) as [s'|e]; simpl; [apply IH | reflexivity].
Qed.

(** A loop whose body keeps an invariant, on elements that satisfy [Q],
    runs to its end and leaves the invariant. *)
Lemma foldM_invariant {E S X} (body : S -> X -> result E S) (P : S -> Prop) (Q : X -> Prop) :
  (forall s x, P s -> Q x -> exists s', body s x = Ok s' /\ P s') ->
  forall xs s, Forall Q xs -> P s -> exists s', foldM body xs s = Ok s' /\ P s'.
Proof.
  intros Hbody xs. induction xs as [|x xs IH]; intros s HQ HP; simpl.
  - eauto.
  - inversion HQ as [|? ? Hx Hxs]; subst.
    destruct (Hbody s x HP Hx) as (s' & -> & HP'). simpl. apply IH; assumption.
Qed.

(** A relation between the states before and after, reflexive and
    transitive, that every iteration establishes under an invariant. *)
Lemma foldM_rel {E S X} (body : S -> X -> result E S) (P : S -> Prop) (Q : X -> Prop)
    (R : S -> S -> Prop) :
  (forall s, R s s) ->
  (forall a b c, R a b -> R b c -> R a c) ->
  (forall s x s', P s -> Q x -> body s x = Ok s' -> P s' /\ R s s') ->
  forall xs s s', Forall Q xs -> P s -> foldM body xs s = Ok s' -> P s' /\ R s s'.
Proof.
  intros Hrefl Htrans Hbody xs. induction xs as [|x xs IH]; intros s s' HQ HP H; simpl in H.
  - injection H as <-. split; [assumption | apply Hrefl].
  - inversion HQ as [|? ? Hx Hxs]; subst.
    apply bind_Ok in H as (s1 & H1 & H2).
    destruct (Hbody s x s1 HP Hx H1) as (HP1 & HR1).
    destruct (IH s1 s' Hxs HP1 H2) as (HP2 & HR2). eauto.
Qed.

Lemma index_range_S (n : nat) : index_range (S n) = index_range n ++ [Z.of_nat n].
Proof. unfold index_range. rewrite seq_S, map_app. reflexivity. Qed.

Lemma index_range_length (n : nat) : length (index_range n) = n.
Proof. unfold index_range. rewrite length_map, length_seq. reflexivity. Qed.

Lemma index_range_lookup (n k : nat) :
  (k < n)%nat -> index_range n !! k = Some (Z.of_nat k).
Proof.
  intros Hk. unfold index_range. rewrite list_lookup_fmap.
  rewrite lookup_seq_lt by assumption. reflexivity.
Qed.

Lemma elem_of_index_range (n : nat) (i : Z) :
  i ∈ index_range n <-> 0 <= i < Z.of_nat n.
Proof.
  unfold index_range. rewrite list_elem_of_fmap. split.
  - intros (k & -> & Hk). apply elem_of_seq in Hk. lia.
  - intros Hi. exists (Z.to_nat i). split; [lia|]. apply elem_of_seq. lia.
Qed.

(** A counting loop with an invariant that depends on the counter: every
    prefix of the loop runs and leaves the invariant. *)
Lemma foldM_index_range {E St} (body : St -> Z -> result E St) (P : nat -> St -> Prop) (n : nat) :
  (forall k s, (k < n)%nat -> P k s -> exists s', body s (Z.of_nat k) = Ok s' /\ P (S k) s') ->
  forall s, P O s ->
  forall m, (m <= n)%nat -> exists s', foldM body (index_range m) s = Ok s' /\ P m s'.
Proof.
  intros Hbody s H0. induction m as [|m IH]; intros Hm.
  - exists s. split; [reflexivity | assumption].
  - destruct IH as (s1 & H1 & HP1); [lia|].
    destruct (Hbody m s1) as (s2 & H2 & HP2); [lia | assumption |].
    exists s2. split; [|assumption].
    rewrite index_range_S, foldM_app, H1. simpl. rewrite H2. reflexivity.
Qed.

(** ** Vectors *)

Lemma vget_Ok {A} (v : list A) (i : Z) (a : A) :
  vget v i = Ok a <-> 0 <= i /\ v !! Z.to_nat i = Some a.
Proof.
  unfold vget. destruct (Z.ltb_spec i 0).
  - split; [discriminate | lia].
  - destruct (v !! Z.to_nat i) as [x|]; split.
    + intros [= ->]. split; [lia | reflexivity].
    + intros [_ [= ->]]. reflexivity.
    + discriminate.
    + intros [_ [=]].
Qed.

Lemma vget_in_range {A} (v : list A) (i : Z) :
  0 <= i < Z.of_nat (length v) -> exists a, vget v i = Ok a /\ v !! Z.to_nat i = Some a.
Proof.
  intros Hi. destruct (lookup_lt_is_Some_2 v (Z.to_nat i)) as [a Ha]; [lia|].
  exists a. split; [apply vget_Ok; split; [lia | assumption] | assumption].
Qed.

Lemma vset_Ok {A} (v : list A) (i : Z) (a : A) (v' : list A) :
  vset v i a = Ok v' <-> 0 <= i < Z.of_nat (length v) /\ v' = <[Z.to_nat i := a]> v.
Proof.
  unfold vset. destruct (Z.leb_spec 0 i); destruct (Z.ltb_spec i (Z.of_nat (length v))); simpl;
    split; try discriminate; try lia.
  - intros [= <-]. split; [lia | reflexivity].
  - intros [_ ->]. reflexivity.
Qed.

Lemma vset_in_range {A} (v : list A) (i : Z) (a : A) :
  0 <= i < Z.of_nat (length v) -> vset v i a = Ok (<[Z.to_nat i := a]> v).
Proof. intros Hi. apply vset_Ok. split; [assumption | reflexivity]. Qed.

(** ** binary32 *)

Lemma SFcompare_antisym (x y : float) :
  SFcompare y x = option_map CompOpp (SFcompare x y).
Proof.
  destruct x as [sx|sx| |sx mx ex], y as [sy|sy| |sy my ey]; simpl; try reflexivity;
    try (destruct sx; reflexivity); try (destruct sy; reflexivity);
    try (destruct sx, sy; reflexivity).
  destruct sx, sy; simpl; try reflexivity;
    rewrite (Z.compare_antisym ex ey); destruct (ex ?= ey) eqn:He; simpl; try reflexivity;
    rewrite (Pos.compare_cont_antisym mx my Eq); reflexivity.
Qed.

Lemma SFcompare_Some (x y : float) :
  F32.is_nan x = false -> F32.is_nan y = false -> exists c, SFcompare x y = Some c.
Proof.
  intros Hx Hy. destruct x as [sx|sx| |sx mx ex], y as [sy|sy| |sy my ey];
    try discriminate; simpl; eauto.
Qed.

(** Without a NaN, "not greater" is "at most". *)
Lemma not_gtb_leb (x y : float) :
  F32.is_nan x = false -> F32.is_nan y = false ->
  F32.gtb x y = false <-> F32.leb x y = true.
Proof.
  intros Hx Hy. unfold F32.gtb, F32.leb, SFltb, SFleb.
  rewrite (SFcompare_antisym x y).
  destruct (SFcompare_Some x y Hx Hy) as (c & ->).
  destruct c; simpl; split; congruence.
Qed.
Lemma shr_1_nonneg (mrs : shr_record) : 0 <= shr_m mrs -> 0 <= shr_m (shr_1 mrs).
Proof.
  destruct mrs as [m r s]. simpl. intros Hm.
  destruct m as [|p|p]; [simpl; lia | | lia].
  destruct p; simpl; lia.
Qed.

Lemma iter_shr_1_nonneg (p : positive) (mrs : shr_record) :
  0 <= shr_m mrs -> 0 <= shr_m (SpecFloat.iter_pos shr_1 p mrs).
Proof.
  revert mrs. induction p as [p IH|p IH|]; intros mrs Hm; simpl.
  - apply IH, IH, shr_1_nonneg, Hm.
  - apply IH, IH, Hm.
  - apply shr_1_nonneg, Hm.
Qed.

Lemma shr_fexp_nonneg (m e : Z) (l : location) :
  0 <= m -> 0 <= shr_m (fst (shr_fexp F32.prec F32.emax m e l)).
Proof.
  intros Hm. unfold shr_fexp, shr.
  assert (H0 : 0 <= shr_m (shr_record_of_loc m l)).
  { destruct l as [|c]; [|destruct c]; simpl; assumption. }
  destruct (fexp F32.prec F32.emax (Zdigits2 m + e) - e) as [|p|p]; simpl;
    [assumption | apply iter_shr_1_nonneg, H0 | assumption].
Qed.

Lemma round_nearest_even_nonneg (m : Z) (l : location) :
  0 <= m -> 0 <= round_nearest_even m l.
Proof.
  intros Hm. destruct l as [|c]; [|destruct c]; simpl; try lia.
  destruct (Z.even m); lia.
Qed.

Lemma binary_round_aux_not_nan (sx : bool) (mx ex : Z) (lx : location) :
  0 <= mx -> F32.is_nan (binary_round_aux F32.prec F32.emax sx mx ex lx) = false.
Proof.
  intros Hm. unfold binary_round_aux.
  pose proof (shr_fexp_nonneg mx ex lx Hm) as H1.
  destruct (shr_fexp F32.prec F32.emax mx ex lx) as [mrs' e']. simpl in H1.
  pose proof (shr_fexp_nonneg _ e' loc_Exact
                (round_nearest_even_nonneg _ (loc_of_shr_record mrs') H1)) as H2.
  destruct (shr_fexp F32.prec F32.emax _ e' loc_Exact) as [mrs'' e'']. simpl in H2.
  destruct (shr_m mrs'') as [|p|p]; [reflexivity | | lia].
  destruct (e'' <=? F32.emax - F32.prec); reflexivity.
Qed.

Lemma binary_normalize_not_nan (m e : Z) (szero : bool) :
  F32.is_nan (binary_normalize F32.prec F32.emax m e szero) = false.
Proof.
  unfold binary_normalize, binary_round.
  destruct m as [|p|p]; [reflexivity | |];
    destruct (shl_align _ _ _) as [mz ez]; apply binary_round_aux_not_nan; lia.
Qed.

Lemma sub_finite_not_nan (a b : float) :
  F32.is_finite a = true -> F32.is_finite b = true -> F32.is_nan (F32.sub a b) = false.
Proof.
  intros Ha Hb. destruct a as [sa|sa| |sa ma ea], b as [sb|sb| |sb mb eb]; try discriminate.
  - simpl. destruct sa, sb; reflexivity.
  - reflexivity.
  - reflexivity.
  - apply binary_normalize_not_nan.
Qed.

Lemma abs_not_nan (a : float) : F32.is_nan a = false -> F32.is_nan (F32.abs a) = false.
Proof. destruct a; simpl; congruence. Qed.

(** ** The mergeability test *)

Lemma existsb_range3 (f : Z -> bool) :
  existsb f [0; 1; 2] = false <-> forall k, 0 <= k < 3 -> f k = false.
Proof.
  simpl. rewrite !orb_false_iff. split.
  - intros (H0 & H1 & H2 & _) k Hk.
    assert (k = 0 \/ k = 1 \/ k = 2) as [->|[->| ->]] by lia; assumption.
  - intros H. repeat split; apply H; lia.
Qed.

Lemma existsb_range2 (f : Z -> bool) :
  existsb f [0; 1] = false <-> forall k, 0 <= k < 2 -> f k = false.
Proof.
  simpl. rewrite !orb_false_iff. split.
  - intros (H0 & H1 & _) k Hk.
    assert (k = 0 \/ k = 1) as [->| ->] by lia; assumption.
  - intros H. repeat split; apply H; lia.
Qed.

Lemma lookup_in_soup {A} (l : list A) (n : nat) (i : Z) :
  length l = n -> 0 <= i < Z.of_nat n -> exists a, vget l i = Ok a /\ l !! Z.to_nat i = Some a.
Proof. intros <- Hi. apply vget_in_range, Hi. Qed.

(** [mergable_] answers, and answers [true] exactly when its test passes on
    every axis. *)
Lemma mergable_by_axes (aSoup : TriangleSoup) (aI aJ : Z) (aIPos aJPos : vec3) (eps : float) :
  wf_soup aSoup -> 0 <= aI -> 0 <= aJ ->
  vert aSoup !! Z.to_nat aI = Some aIPos -> vert aSoup !! Z.to_nat aJ = Some aJPos ->
  exists b, mergable_ aSoup aI aJ aIPos aJPos eps = Ok b
            /\ (b = true <->
                axes_mergable (fun a b => exceeds eps a b = false) aSoup aI aJ aIPos aJPos).
Proof.
  intros (Htext & Hnorm & _) HI HJ HpI HpJ.
  assert (RI : 0 <= aI < Z.of_nat (length (vert aSoup))).
  { apply lookup_lt_Some in HpI. lia. }
  assert (RJ : 0 <= aJ < Z.of_nat (length (vert aSoup))).
  { apply lookup_lt_Some in HpJ. lia. }
  destruct (lookup_in_soup (text aSoup) _ aI Htext RI) as (tI & GtI & LtI).
  destruct (lookup_in_soup (text aSoup) _ aJ Htext RJ) as (tJ & GtJ & LtJ).
  pose proof (existsb_range3 (fun i => exceeds eps (vec3_at aIPos i) (vec3_at aJPos i))) as Hpos.
  pose proof (existsb_range2 (fun i => exceeds eps (vec2_at tI i) (vec2_at tJ i))) as Htex.
  unfold mergable_, axes_mergable.
  destruct (existsb (fun i => exceeds eps (vec3_at aIPos i) (vec3_at aJPos i)) [0; 1; 2]) eqn:Epos.
  { exists false. split; [reflexivity|]. split; [discriminate|].
    intros (Hp & _). apply Hpos in Hp. discriminate. }
  destruct Hnorm as [Hnil | Hlen].
  - rewrite Hnil. cbn [bind]. rewrite GtI, GtJ. cbn [bind].
    destruct (existsb (fun i => exceeds eps (vec2_at tI i) (vec2_at tJ i)) [0; 1]) eqn:Etex.
    + exists false. split; [reflexivity|]. split; [discriminate|].
      intros (_ & _ & (tI' & tJ' & L1 & L2 & Ht)).
      rewrite LtI in L1. rewrite LtJ in L2. injection L1 as <-. injection L2 as <-.
      apply Htex in Ht. discriminate.
    + exists true. split; [reflexivity|]. split; [intros _ | reflexivity].
      split; [apply Hpos; reflexivity|]. split; [left; reflexivity|].
      exists tI, tJ. split; [assumption|]. split; [assumption|]. apply Htex. reflexivity.
  - destruct (lookup_in_soup (norm aSoup) _ aI Hlen RI) as (nI & GnI & LnI).
    destruct (lookup_in_soup (norm aSoup) _ aJ Hlen RJ) as (nJ & GnJ & LnJ).
    pose proof (existsb_range3 (fun i => exceeds eps (vec3_at nI i) (vec3_at nJ i))) as Hnrm.
    destruct (norm aSoup) as [|n0 ns] eqn:En; [destruct (Z.to_nat aI); discriminate|].
    rewrite GnI, GnJ. cbn [bind].
    destruct (existsb (fun i => exceeds eps (vec3_at nI i) (vec3_at nJ i)) [0; 1; 2]) eqn:Enrm.
    + exists false. split; [reflexivity|]. split; [discriminate|].
      intros (_ & [Hnil | (nI' & nJ' & L1 & L2 & Hn)] & _); [discriminate|].
      rewrite LnI in L1. rewrite LnJ in L2. injection L1 as <-. injection L2 as <-.
      apply Hnrm in Hn. discriminate.
    + rewrite GtI, GtJ. cbn [bind].
      destruct (existsb (fun i => exceeds eps (vec2_at tI i) (vec2_at tJ i)) [0; 1]) eqn:Etex.
      * exists false. split; [reflexivity|]. split; [discriminate|].
        intros (_ & _ & (tI' & tJ' & L1 & L2 & Ht)).
        rewrite LtI in L1. rewrite LtJ in L2. injection L1 as <-. injection L2 as <-.
        apply Htex in Ht. discriminate.
      * exists true. split; [reflexivity|]. split; [intros _ | reflexivity].
        split; [apply Hpos; reflexivity|]. split.
        { right. exists nI, nJ. split; [assumption|]. split; [assumption|].
          apply Hnrm. reflexivity. }
        exists tI, tJ. split; [assumption|]. split; [assumption|]. apply Htex. reflexivity.
Qed.

(** ** [collapse_vertices_]: the run keeps its invariant *)

Lemma mergable_total (aSoup : TriangleSoup) (aI aJ : Z) (aIPos aJPos : vec3) (eps : float) :
  wf_soup aSoup ->
  0 <= aI < Z.of_nat (length (vert aSoup)) -> 0 <= aJ < Z.of_nat (length (vert aSoup)) ->
  exists b, mergable_ aSoup aI aJ aIPos aJPos eps = Ok b.
Proof.
  intros (Htext & Hnorm & _) RI RJ. unfold mergable_.
  destruct (existsb _ [0; 1; 2]); [eauto|].
  destruct (lookup_in_soup (text aSoup) _ aI Htext RI) as (tI & GtI & _).
  destruct (lookup_in_soup (text aSoup) _ aJ Htext RJ) as (tJ & GtJ & _).
  destruct (norm aSoup) as [|n0 ns] eqn:En.
  - cbn [bind]. rewrite GtI, GtJ. cbn [bind]. destruct (existsb _ [0; 1]); eauto.
  - destruct Hnorm as [Hnil | Hlen]; [discriminate|].
    destruct (lookup_in_soup (n0 :: ns) _ aI Hlen RI) as (nI & GnI & _).
    destruct (lookup_in_soup (n0 :: ns) _ aJ Hlen RJ) as (nJ & GnJ & _).
    rewrite GnI, GnJ. cbn [bind].
    destruct (existsb _ [0; 1; 2]); [eauto|].
    rewrite GtI, GtJ. cbn [bind]. destruct (existsb _ [0; 1]); eauto.
Qed.

Lemma neighbour_total (aDP : DiscretizedPosition_) (j : Z) :
  j ∈ index_range (Z.to_nat kNeighbourCount_) -> exists dq, neighbour_ aDP j = Ok dq.
Proof.
  intros Hj. apply elem_of_index_range in Hj. change (Z.of_nat (Z.to_nat kNeighbourCount_)) with 27 in Hj.
  assert (Hk : exists k, (k < 27)%nat /\ j = Z.of_nat k) by (exists (Z.to_nat j); lia).
  destruct Hk as (k & Hk & ->).
  do 27 (destruct k as [|k]; [eexists; reflexivity|]). lia.
Qed.

Lemma mod_two32_bound (x : Z) : 0 <= x -> 0 <= x mod two32 <= x.
Proof.
  intros Hx. split; [apply Z.mod_pos_bound; reflexivity|].
  apply Z.mod_le; [assumption | reflexivity].
Qed.

Lemma collapse_ok_weaken (P : Z -> Prop) (Q : Z -> Prop) (l : list Z) :
  (forall x, P x -> Q x) -> Forall P l -> Forall Q l.
Proof. intros H HF. eapply Forall_impl; eassumption. Qed.

(** Opening a new slot for vertex [i] and recording it in the outputs. *)
Lemma open_slot_ok (n k : nat) (st : CollapseState) :
  (k < n)%nat -> Z.of_nat n < two64 ->
  collapse_ok n st -> (length (aVertices st) <= k)%nat ->
  collapse_ok n
    {| aIndices := aIndices st ++ [nextVertex st mod two32];
       aVertices := aVertices st ++ [Z.of_nat k];
       collapseMap := <[k := nextVertex st]> (collapseMap st);
       nextVertex := (nextVertex st + 1) mod two64 |}.
Proof.
  intros Hk Hn (Hlen & Hnv & Hidx & Hcm & Hav) Hle.
  assert (Hwrap : (nextVertex st + 1) mod two64 = nextVertex st + 1).
  { apply Z.mod_small. lia. }
  unfold collapse_ok. cbn [aIndices aVertices collapseMap nextVertex]. rewrite Hwrap.
  split; [rewrite length_insert; assumption|].
  split; [rewrite length_app; simpl; lia|].
  split.
  { apply Forall_app. split.
    - eapply Forall_impl; [exact Hidx|]. simpl. intros x Hx. lia.
    - constructor; [|constructor].
      pose proof (mod_two32_bound (nextVertex st)). lia. }
  split.
  { apply Forall_insert; [|right; lia].
    eapply Forall_impl; [exact Hcm|]. simpl. intros c [Hc|Hc]; [left; assumption | right; lia]. }
  apply Forall_app. split; [assumption|]. constructor; [lia | constructor].
Qed.

Section Collapse.

Variable gHash_ : Z -> Z.
Variable cast_out_of_range : float -> Z.
Variable aVM : VicinityMap_.
Variable aD : Discretizer_.
Variable aSoup : TriangleSoup.
Variable aMaxError : float.

Hypothesis Hwf : wf_soup aSoup.
Hypothesis Hvm : vm_in_range aVM aSoup.

Let n : nat := length (vert aSoup).

Lemma visit_candidate_inv (k : nat) (self : vec3) (s : ScanState) (idx : Z) :
  (k < n)%nat -> 0 <= idx < Z.of_nat n -> scan_inv n k s ->
  exists s', visit_candidate aSoup aMaxError (Z.of_nat k) self s idx = Ok s' /\ scan_inv n k s'.
Proof.
  intros Hk Hidx Hs. unfold visit_candidate.
  destruct (Z.eqb_spec idx (Z.of_nat k)) as [Heq|Hne]; [eauto|].
  pose proof Hs as (Hok & Hno & Hyes).
  pose proof Hok as (Hlen & Hnv & Hix & Hcm & Hav).
  destruct (vget_in_range (collapseMap (cst s)) idx) as (c & -> & Hc); [lia|]. cbn [bind].
  destruct (Z.eqb_spec c unassigned) as [Hun|Hasg]; cbn [negb];
    [|exists s; split; [reflexivity | exact Hs]].
  destruct (vget_in_range (vert aSoup) idx) as (other & -> & _); [exact Hidx|]. cbn [bind].
  destruct (mergable_total aSoup (Z.of_nat k) idx self other aMaxError Hwf) as (m & ->);
    [fold n; lia | exact Hidx |]. cbn [bind].
  destruct m; [|exists s; split; [reflexivity | exact Hs]].
  destruct Hwf as (_ & _ & Hn64). fold n in Hn64.
  destruct (merged s) eqn:Hm.
  - (* a slot is open already *)
    destruct (Hyes eq_refl) as (Hli & Hlv & Ht). cbn [bind].
    rewrite vset_in_range by lia. cbn [bind].
    eexists. split; [reflexivity|]. unfold scan_inv, collapse_ok.
    cbn [cst merged target aIndices aVertices collapseMap nextVertex].
    split; [|split; [discriminate | intros _; repeat split; try assumption; lia]].
    split; [rewrite length_insert; assumption|].
    split; [assumption|]. split; [assumption|].
    split; [|assumption]. apply Forall_insert; [assumption | right; assumption].
  - (* the first match opens a slot *)
    destruct (Hno eq_refl) as (Hli & Hlv & Hself).
    rewrite vset_in_range by lia. cbn [bind collapseMap].
    rewrite vset_in_range by (rewrite length_insert; lia). cbn [bind].
    eexists. split; [reflexivity|].
    pose proof (open_slot_ok n k (cst s) Hk Hn64 Hok Hlv) as Hopen.
    rewrite Nat2Z.id.
    destruct Hopen as (Hlen' & Hnv' & Hix' & Hcm' & Hav').
    cbn [aIndices aVertices collapseMap nextVertex] in *.
    assert (Hwrap : (nextVertex (cst s) + 1) mod two64 = nextVertex (cst s) + 1).
    { apply Z.mod_small. lia. }
    unfold scan_inv, collapse_ok.
    cbn [cst merged target aIndices aVertices collapseMap nextVertex].
    split; [|split; [discriminate|]].
    + split; [rewrite length_insert; assumption|].
      split; [assumption|]. split; [assumption|].
      split; [|assumption]. apply Forall_insert; [assumption|]. right. rewrite Hwrap. lia.
    + intros _. rewrite !length_app. simpl. rewrite Hwrap. lia.
Qed.

Lemma equal_range_in_range (vk : Z) :
  Forall (fun idx => 0 <= idx < Z.of_nat n) (equal_range aVM vk).
Proof.
  apply Forall_forall. intros idx Hin. unfold equal_range in Hin.
  apply list_elem_of_fmap in Hin as (kv & -> & Hkv).
  apply list_elem_of_filter in Hkv as (_ & Hkv).
  exact (proj1 (Forall_forall _ _) Hvm kv Hkv).
Qed.

Lemma scan_neighbours_inv (k : nat) (self : vec3) (dp : DiscretizedPosition_) (s : ScanState) :
  (k < n)%nat -> scan_inv n k s ->
  exists s', scan_neighbours gHash_ aVM aSoup aMaxError (Z.of_nat k) self dp s = Ok s'
             /\ scan_inv n k s'.
Proof.
  intros Hk Hs. unfold scan_neighbours.
  apply (foldM_invariant _ (scan_inv n k)
           (fun j => j ∈ index_range (Z.to_nat kNeighbourCount_))); [| |exact Hs].
  - intros s0 j Hs0 Hj. destruct (neighbour_total dp j Hj) as (dq & ->). cbn [bind].
    apply (foldM_invariant _ (scan_inv n k) (fun idx => 0 <= idx < Z.of_nat n));
      [|apply equal_range_in_range | exact Hs0].
    intros s1 idx Hs1 Hidx. apply visit_candidate_inv; assumption.
  - apply Forall_forall. intros j Hj. exact Hj.
Qed.

Lemma process_vertex_inv (k : nat) (st : CollapseState) :
  (k < n)%nat -> outer_inv n k st ->
  exists st', process_vertex gHash_ cast_out_of_range aVM aD aSoup aMaxError st (Z.of_nat k) = Ok st'
              /\ outer_inv n (S k) st'.
Proof.
  intros Hk (Hok & Hli & Hlv). unfold process_vertex.
  pose proof Hok as (Hlen & Hnv & Hix & Hcm & Hav).
  destruct (vget_in_range (collapseMap st) (Z.of_nat k)) as (c & -> & Hc); [lia|]. cbn [bind].
  rewrite Nat2Z.id in Hc.
  destruct (Z.eqb_spec unassigned c) as [Hun|Hasg]; cbn [negb].
  - destruct (vget_in_range (vert aSoup) (Z.of_nat k)) as (self & -> & _); [fold n; lia|].
    cbn [bind].
    destruct (scan_neighbours_inv k self (discretize cast_out_of_range aD self)
                {| cst := st; merged := false; target := unassigned |} Hk)
      as (s & -> & Hs).
    { split; [exact Hok|]. cbn [cst merged]. split; [|discriminate].
      intros _. subst c. repeat split; assumption. }
    cbn [bind]. destruct Hs as (Hok' & Hno & Hyes).
    destruct (merged s) eqn:Hm; cbn [negb].
    + destruct (Hyes eq_refl) as (Hli' & Hlv' & _).
      exists (cst s). split; [reflexivity|]. repeat split; try assumption; apply Hok'.
    + destruct (Hno eq_refl) as (Hli' & Hlv' & _).
      pose proof Hok' as (Hlen' & _).
      rewrite vset_in_range by lia. cbn [bind].
      eexists. split; [reflexivity|].
      destruct Hwf as (_ & _ & Hn64). fold n in Hn64.
      rewrite Nat2Z.id.
      split; [apply open_slot_ok; assumption|].
      cbn [aIndices aVertices]. rewrite !length_app. simpl. lia.
  - assert (Hrange : 0 <= c < nextVertex st).
    { pose proof (Forall_lookup_1 _ _ _ _ Hcm Hc) as [Hu|Hr]; [congruence | exact Hr]. }
    unfold c_assert. destruct (Z.ltb_spec c (Z.of_nat (length (aVertices st)))); [|lia].
    cbn [bind]. eexists. split; [reflexivity|].
    unfold outer_inv, collapse_ok. cbn [aIndices aVertices collapseMap nextVertex].
    rewrite length_app. simpl.
    repeat split; try assumption; try lia.
    apply Forall_app. split; [assumption|]. constructor; [|constructor].
    pose proof (mod_two32_bound c). lia.
Qed.

Lemma collapse_init_inv : outer_inv n 0 (collapse_init aSoup).
Proof.
  unfold outer_inv, collapse_ok, collapse_init.
  cbn [aIndices aVertices collapseMap nextVertex]. fold n.
  split; [|split; [reflexivity | simpl; lia]].
  split; [apply length_replicate|]. split; [reflexivity|]. split; [constructor|].
  split; [|constructor]. apply Forall_replicate. left. reflexivity.
Qed.

Lemma collapse_prefix_inv (k : nat) :
  (k <= n)%nat ->
  exists st, collapse_prefix gHash_ cast_out_of_range aVM aD aSoup aMaxError k = Ok st
             /\ outer_inv n k st.
Proof.
  unfold collapse_prefix.
  apply (foldM_index_range _ (outer_inv n) n); [|apply collapse_init_inv].
  intros j st Hj Hst. apply process_vertex_inv; assumption.
Qed.

Lemma collapse_run_inv :
  exists st, collapse_run gHash_ cast_out_of_range aVM aD aSoup aMaxError = Ok st
             /\ outer_inv n n st.
Proof. apply collapse_prefix_inv. lia. Qed.

End Collapse.

(** ** The run of [collapse_vertices_] and of the indexing *)

Lemma collapse_vertices_spec (gHash_ : Z -> Z) (cast_out_of_range : float -> Z)
    (aVM : VicinityMap_) (aD : Discretizer_) (aSoup : TriangleSoup) (aMaxError : float) :
  wf_soup aSoup -> vm_in_range aVM aSoup ->
  exists verts indices vertexMapping,
    collapse_vertices_ gHash_ cast_out_of_range aVM aD aSoup aMaxError
      = Ok (verts, indices, vertexMapping)
    /\ valid_indexing aSoup (verts, indices, vertexMapping)
    /\ Forall (fun v => 0 <= v < Z.of_nat (length (vert aSoup))) vertexMapping.
Proof.
  intros Hwf Hvm.
  destruct (collapse_run_inv gHash_ cast_out_of_range aVM aD aSoup aMaxError Hwf Hvm)
    as (st & Hrun & (Hlen & Hnv & Hix & _ & Hav) & Hli & _).
  exists (nextVertex st), (aIndices st), (aVertices st).
  unfold collapse_vertices_. rewrite Hrun. cbn [bind].
  split; [reflexivity|]. split; [|exact Hav].
  split; [exact Hli|]. split; [symmetry; exact Hnv | exact Hix].
Qed.

Lemma build_vicinity_map_in_range (gHash_ : Z -> Z) (cast_out_of_range : float -> Z)
    (aD : Discretizer_) (aSoup : TriangleSoup) :
  vm_in_range (build_vicinity_map_ gHash_ cast_out_of_range [] aD (vert aSoup)) aSoup.
Proof.
  unfold vm_in_range, build_vicinity_map_.
  set (Q := fun kv : Z * Z => 0 <= snd kv < Z.of_nat (length (vert aSoup))).
  assert (Hgen : forall (l : list (Z * vec3)) (m : VicinityMap_),
            Forall (fun ip => 0 <= fst ip < Z.of_nat (length (vert aSoup))) l ->
            Forall Q m ->
            Forall Q (fold_left
                        (fun m '(index, p) =>
                           m ++ [(hash_discretized_position_ gHash_
                                    (discretize cast_out_of_range aD p), index)]) l m)).
  { induction l as [|[index p] l IH]; intros m Hl Hm; simpl; [exact Hm|].
    inversion Hl as [|? ? Hx Hxs]; subst. apply IH; [exact Hxs|].
    apply Forall_app. split; [exact Hm|]. constructor; [exact Hx | constructor]. }
  apply Hgen; [|constructor].
  apply Forall_forall. intros [index p] Hin.
  apply elem_of_zip_l in Hin. apply elem_of_index_range in Hin. exact Hin.
Qed.

Lemma index_soup_spec (gHash_ : Z -> Z) (cast_out_of_range : float -> Z)
    (aSoup : TriangleSoup) (aErrorTolerance : float) :
  wf_soup aSoup ->
  exists verts indices vertexMapping,
    index_soup gHash_ cast_out_of_range aSoup aErrorTolerance
      = Ok (verts, indices, vertexMapping)
    /\ valid_indexing aSoup (verts, indices, vertexMapping)
    /\ Forall (fun v => 0 <= v < Z.of_nat (length (vert aSoup))) vertexMapping.
Proof.
  intros Hwf. unfold index_soup.
  set (dis := soup_discretizer cast_out_of_range aSoup aErrorTolerance).
  destruct (collapse_vertices_spec gHash_ cast_out_of_range _ dis aSoup aErrorTolerance Hwf
              (build_vicinity_map_in_range gHash_ cast_out_of_range dis aSoup))
    as (verts & indices & vertexMapping & -> & Hvalid & Hmap).
  exists verts, indices, vertexMapping. cbn [bind].
  pose proof Hvalid as (Hli & Hlm & _).
  rewrite Hli, Z.eqb_refl. cbn [c_assert bind].
  rewrite <- Hlm, Z.eqb_refl. cbn [bind]. rewrite Hlm.
  split; [reflexivity|]. split; assumption.
Qed.

(** ** The loop that shuffles the vertex data *)

Lemma has_normals_length (aSoup : TriangleSoup) :
  wf_soup aSoup -> has_normals aSoup = true -> length (norm aSoup) = length (vert aSoup).
Proof.
  intros (_ & [Hnil|Hlen] & _) H; [|exact Hlen].
  unfold has_normals in H. rewrite Hnil in H. discriminate.
Qed.

Lemma shuffle_spec (aSoup : TriangleSoup) (verts : Z) (vertexMapping : list Z) :
  wf_soup aSoup -> Z.of_nat (length vertexMapping) = verts ->
  Forall (fun v => 0 <= v < Z.of_nat (length (vert aSoup))) vertexMapping ->
  exists rvert rtext rnorm,
    shuffle aSoup verts vertexMapping = Ok (rvert, rtext, rnorm)
    /\ length rvert = length vertexMapping
    /\ length rtext = length vertexMapping
    /\ length rnorm = (if has_normals aSoup then length vertexMapping else O)
    /\ forall i from, vertexMapping !! i = Some from ->
         slot_copies aSoup rvert rtext rnorm i from.
Proof.
  intros Hwf <- Hmap. unfold shuffle. rewrite Nat2Z.id.
  set (n := length vertexMapping).
  set (P := fun (k : nat) (ret : list vec3 * list vec2 * list vec3) =>
              let '(rvert, rtext, rnorm) := ret in
              length rvert = n /\ length rtext = n
              /\ length rnorm = (if has_normals aSoup then n else O)
              /\ forall i from, (i < k)%nat -> vertexMapping !! i = Some from ->
                   slot_copies aSoup rvert rtext rnorm i from).
  destruct (foldM_index_range (shuffle_vertex aSoup vertexMapping) P n) with
    (s := (replicate n vec3_zero, replicate n vec2_zero,
           if has_normals aSoup then replicate n vec3_zero else [])) (m := n)
    as ([[rvert rtext] rnorm] & Hrun & HP).
  - intros k [[rvert rtext] rnorm] Hk (Hlv & Hlt & Hln & Hslots).
    unfold shuffle_vertex.
    destruct (vget_in_range vertexMapping (Z.of_nat k)) as (from & -> & Hfrom); [fold n; lia|].
    rewrite Nat2Z.id in Hfrom. cbn [bind].
    pose proof (Forall_lookup_1 _ _ _ _ Hmap Hfrom) as Hrange. simpl in Hrange.
    unfold c_assert. destruct (Z.ltb_spec from (Z.of_nat (length (vert aSoup)))); [|lia].
    cbn [bind].
    destruct (vget_in_range (vert aSoup) from Hrange) as (v & -> & Hv). cbn [bind].
    rewrite vset_in_range by lia. cbn [bind].
    destruct (lookup_in_soup (text aSoup) _ from (proj1 Hwf) Hrange) as (t & -> & Ht).
    cbn [bind]. rewrite vset_in_range by lia. cbn [bind]. rewrite Nat2Z.id.
    destruct (has_normals aSoup) eqn:Hhas.
    + destruct (lookup_in_soup (norm aSoup) _ from (has_normals_length aSoup Hwf Hhas) Hrange)
        as (nv & -> & Hn).
      cbn [bind]. rewrite vset_in_range by lia. cbn [bind]. rewrite Nat2Z.id.
      eexists. split; [reflexivity|]. unfold P, slot_copies. rewrite Hhas.
      rewrite !length_insert.
      split; [assumption|]. split; [assumption|]. split; [assumption|].
      intros i f Hi Hf. destruct (decide (i = k)) as [->|Hne].
      * rewrite Hfrom in Hf. injection Hf as <-.
        split; [lia|]. split; [eauto|].
        rewrite !list_lookup_insert_eq by lia.
        split; [congruence|]. split; [congruence|]. intros _. congruence.
      * destruct (Hslots i f) as (A & B & C & D & F); [lia | assumption |].
        split; [assumption|]. split; [assumption|].
        rewrite !list_lookup_insert_ne by lia.
        split; [assumption|]. split; [assumption|]. intros _. apply F, Hhas.
    + eexists. split; [reflexivity|]. unfold P, slot_copies. rewrite Hhas.
      rewrite !length_insert.
      split; [assumption|]. split; [assumption|]. split; [assumption|].
      intros i f Hi Hf. destruct (decide (i = k)) as [->|Hne].
      * rewrite Hfrom in Hf. injection Hf as <-.
        split; [lia|]. split; [eauto|].
        rewrite !list_lookup_insert_eq by lia.
        split; [congruence|]. split; [congruence|]. discriminate.
      * destruct (Hslots i f) as (A & B & C & D & F); [lia | assumption |].
        split; [assumption|]. split; [assumption|].
        rewrite !list_lookup_insert_ne by lia.
        split; [assumption|]. split; [assumption|]. discriminate.
  - unfold P. rewrite !length_replicate.
    split; [reflexivity|]. split; [reflexivity|]. split.
    + destruct (has_normals aSoup); [apply length_replicate | reflexivity].
    + intros i f Hi. lia.
  - lia.
  - exists rvert, rtext, rnorm. split; [exact Hrun|].
    destruct HP as (Hlv & Hlt & Hln & Hslots).
    split; [assumption|]. split; [assumption|]. split; [assumption|].
    intros i f Hi. apply Hslots; [|exact Hi]. apply lookup_lt_Some in Hi. exact Hi.
Qed.

(** ** Index validity and attribute coherence *)

(** C1. For every triangle soup and tolerance, [collapse_vertices_] (on any
    vicinity map over the vertices of the soup) and the indexing done by
    [make_indexed_mesh] return an index buffer as long as the vertex array
    of the soup, a vertex mapping as long as the returned count of unique
    vertices, and only indices below that count; the mesh returned by
    [make_indexed_mesh] has that index buffer and one vertex per unique
    vertex. *)
Theorem index_validity (gHash_ : Z -> Z) (cast_out_of_range : float -> Z)
    (aSoup : TriangleSoup) (aErrorTolerance : float) :
  wf_soup aSoup ->
  (forall aVM aD, vm_in_range aVM aSoup ->
     exists r, collapse_vertices_ gHash_ cast_out_of_range aVM aD aSoup aErrorTolerance = Ok r
               /\ valid_indexing aSoup r)
  /\ (exists r, index_soup gHash_ cast_out_of_range aSoup aErrorTolerance = Ok r
                /\ valid_indexing aSoup r)
  /\ (forall tgen, tgen_whole tgen ->
        exists mesh,
          make_indexed_mesh gHash_ cast_out_of_range tgen aSoup aErrorTolerance = Ok mesh
          /\ length (im_indices mesh) = length (vert aSoup)
          /\ Forall (fun x => 0 <= x < Z.of_nat (length (im_vert mesh))) (im_indices mesh)).
Proof.
  intros Hwf. split; [|split].
  - intros aVM aD Hvm.
    destruct (collapse_vertices_spec gHash_ cast_out_of_range aVM aD aSoup aErrorTolerance Hwf Hvm)
      as (verts & indices & vertexMapping & Hrun & Hvalid & _).
    exists (verts, indices, vertexMapping). split; assumption.
  - destruct (index_soup_spec gHash_ cast_out_of_range aSoup aErrorTolerance Hwf)
      as (verts & indices & vertexMapping & Hrun & Hvalid & _).
    exists (verts, indices, vertexMapping). split; assumption.
  - intros tgen Htgen.
    destruct (index_soup_spec gHash_ cast_out_of_range aSoup aErrorTolerance Hwf)
      as (verts & indices & vertexMapping & Hix & (Hli & Hlm & Hlt) & Hmap).
    destruct (shuffle_spec aSoup verts vertexMapping Hwf Hlm Hmap)
      as (rvert & rtext & rnorm & Hsh & Hlv & _).
    destruct (Htgen indices (flatten3 rvert) (flatten2 rtext) (flatten3 rnorm)
                (Z.of_nat (length rtext))) as (tangent & Hpack).
    unfold make_indexed_mesh. rewrite Hix. cbn [bind]. rewrite Hsh. cbn [bind].
    rewrite Hpack. cbn [bind]. eexists. split; [reflexivity|].
    cbn [im_indices im_vert]. split; [exact Hli|]. rewrite Hlv, Hlm. exact Hlt.
Qed.

(** C5. For every triangle soup and tolerance, every unique-vertex slot [i]
    of the indexed mesh holds exactly the position, the texture coordinate
    and (when the soup has normals) the normal of the vertex
    [vertexMapping[i]] of the soup: the values are copied, nothing is
    averaged or interpolated. *)
Theorem attribute_coherence (gHash_ : Z -> Z) (cast_out_of_range : float -> Z)
    (tgen : list Z -> list float -> list float -> list float -> Z -> list float)
    (aSoup : TriangleSoup) (aErrorTolerance : float) :
  wf_soup aSoup -> tgen_whole tgen ->
  exists verts indices vertexMapping mesh,
    index_soup gHash_ cast_out_of_range aSoup aErrorTolerance
      = Ok (verts, indices, vertexMapping)
    /\ make_indexed_mesh gHash_ cast_out_of_range tgen aSoup aErrorTolerance = Ok mesh
    /\ Z.of_nat (length (im_vert mesh)) = verts
    /\ Z.of_nat (length (im_text mesh)) = verts
    /\ (has_normals aSoup = true -> Z.of_nat (length (im_norm mesh)) = verts)
    /\ forall i : nat, Z.of_nat i < verts ->
         exists from, vertexMapping !! i = Some from
           /\ slot_copies aSoup (im_vert mesh) (im_text mesh) (im_norm mesh) i from.
Proof.
  intros Hwf Htgen.
  destruct (index_soup_spec gHash_ cast_out_of_range aSoup aErrorTolerance Hwf)
    as (verts & indices & vertexMapping & Hix & (Hli & Hlm & Hlt) & Hmap).
  destruct (shuffle_spec aSoup verts vertexMapping Hwf Hlm Hmap)
    as (rvert & rtext & rnorm & Hsh & Hlv & Hlx & Hln & Hslots).
  destruct (Htgen indices (flatten3 rvert) (flatten2 rtext) (flatten3 rnorm)
              (Z.of_nat (length rtext))) as (tangent & Hpack).
  exists verts, indices, vertexMapping. eexists.
  split; [exact Hix|]. unfold make_indexed_mesh. rewrite Hix. cbn [bind].
  rewrite Hsh. cbn [bind]. rewrite Hpack. cbn [bind].
  split; [reflexivity|]. cbn [im_vert im_text im_norm].
  split; [lia|]. split; [lia|]. split.
  - intros Hhas. rewrite Hhas in Hln. lia.
  - intros i Hi. destruct (lookup_lt_is_Some_2 vertexMapping i) as (f & Hf); [lia|].
    exists f. split; [exact Hf | apply Hslots, Hf].
Qed.

(** ** The collapse map is written once per entry *)

Lemma assigned_kept_refl (cm : list Z) : assigned_kept cm cm.
Proof. intros k c H _. exact H. Qed.

Lemma assigned_kept_trans (a b c : list Z) :
  assigned_kept a b -> assigned_kept b c -> assigned_kept a c.
Proof. intros Hab Hbc k v Hk Hv. apply Hbc; [apply Hab|]; assumption. Qed.

Lemma assigned_kept_insert (cm : list Z) (k : nat) (v : Z) :
  cm !! k = Some unassigned -> assigned_kept cm (<[k := v]> cm).
Proof.
  intros Hk j c Hj Hc. destruct (decide (k = j)) as [->|Hne].
  - rewrite Hk in Hj. congruence.
  - rewrite list_lookup_insert_ne by assumption. exact Hj.
Qed.

Lemma visit_candidate_kept (aSoup : TriangleSoup) (aMaxError : float) (i : Z) (self : vec3)
    (s : ScanState) (idx : Z) (s' : ScanState) :
  0 <= i -> scan_pre i s -> visit_candidate aSoup aMaxError i self s idx = Ok s' ->
  scan_pre i s' /\ assigned_kept (collapseMap (cst s)) (collapseMap (cst s')).
Proof.
  intros Hi Hpre H. unfold visit_candidate in H.
  destruct (Z.eqb_spec idx i) as [Heq|Hne].
  { injection H as <-. split; [assumption | apply assigned_kept_refl]. }
  apply bind_Ok in H as (c & Hc & H). apply vget_Ok in Hc as (Hidx & Hc).
  destruct (Z.eqb_spec c unassigned) as [->|Hasg]; cbn [negb] in H;
    [|injection H as <-; split; [assumption | apply assigned_kept_refl]].
  apply bind_Ok in H as (other & _ & H). apply bind_Ok in H as (m & _ & H).
  destruct m; [|injection H as <-; split; [assumption | apply assigned_kept_refl]].
  destruct (merged s) eqn:Hm; cbn [bind] in H.
  - apply bind_Ok in H as (cm & Hcm & H). apply vset_Ok in Hcm as (_ & ->).
    injection H as <-. cbn [cst collapseMap].
    split; [intros [=] | apply assigned_kept_insert, Hc].
  - apply bind_Ok in H as ([toWhere st] & H1 & H).
    apply bind_Ok in H1 as (cm1 & Hcm1 & H1). apply vset_Ok in Hcm1 as (_ & ->).
    injection H1 as <- <-. cbn [collapseMap aIndices aVertices nextVertex] in H.
    apply bind_Ok in H as (cm2 & Hcm2 & H). apply vset_Ok in Hcm2 as (_ & ->).
    injection H as <-. cbn [cst collapseMap].
    split; [intros [=]|].
    eapply assigned_kept_trans; [apply assigned_kept_insert, Hpre, Hm|].
    apply assigned_kept_insert. rewrite list_lookup_insert_ne by lia. exact Hc.
Qed.

Lemma scan_neighbours_kept (gHash_ : Z -> Z) (aVM : VicinityMap_) (aSoup : TriangleSoup)
    (aMaxError : float) (i : Z) (self : vec3) (dp : DiscretizedPosition_) (s s' : ScanState) :
  0 <= i -> scan_pre i s ->
  scan_neighbours gHash_ aVM aSoup aMaxError i self dp s = Ok s' ->
  scan_pre i s' /\ assigned_kept (collapseMap (cst s)) (collapseMap (cst s')).
Proof.
  intros Hi Hpre H. unfold scan_neighbours in H.
  revert H. apply (foldM_rel _ (scan_pre i) (fun _ => True)
                     (fun a b => assigned_kept (collapseMap (cst a)) (collapseMap (cst b))));
    [intros; apply assigned_kept_refl | intros; eapply assigned_kept_trans; eassumption
    | | apply Forall_forall; trivial | exact Hpre].
  intros s0 j s1 Hpre0 _ H. apply bind_Ok in H as (dq & _ & H).
  revert H. apply (foldM_rel _ (scan_pre i) (fun _ => True)
                     (fun a b => assigned_kept (collapseMap (cst a)) (collapseMap (cst b))));
    [intros; apply assigned_kept_refl | intros; eapply assigned_kept_trans; eassumption
    | | apply Forall_forall; trivial | exact Hpre0].
  intros s2 idx s3 Hpre2 _ H. eapply visit_candidate_kept; eassumption.
Qed.

Lemma process_vertex_kept (gHash_ : Z -> Z) (cast_out_of_range : float -> Z)
    (aVM : VicinityMap_) (aD : Discretizer_) (aSoup : TriangleSoup) (aMaxError : float)
    (st : CollapseState) (i : Z) (st' : CollapseState) :
  0 <= i -> process_vertex gHash_ cast_out_of_range aVM aD aSoup aMaxError st i = Ok st' ->
  assigned_kept (collapseMap st) (collapseMap st').
Proof.
  intros Hi H. unfold process_vertex in H.
  apply bind_Ok in H as (c & Hc & H). apply vget_Ok in Hc as (_ & Hc).
  destruct (Z.eqb_spec unassigned c) as [<-|Hasg]; cbn [negb] in H.
  - apply bind_Ok in H as (self & _ & H). apply bind_Ok in H as (s & Hscan & H).
    apply scan_neighbours_kept in Hscan as (Hpre & Hkept); [|exact Hi|intros _; exact Hc].
    cbn [cst] in Hkept.
    destruct (merged s) eqn:Hm; cbn [negb] in H.
    + injection H as <-. exact Hkept.
    + apply bind_Ok in H as (cm & Hcm & H). apply vset_Ok in Hcm as (_ & ->).
      injection H as <-. cbn [collapseMap].
      eapply assigned_kept_trans; [exact Hkept|]. apply assigned_kept_insert, Hpre, Hm.
  - apply bind_Ok in H as (? & _ & H). injection H as <-. apply assigned_kept_refl.
Qed.

Lemma index_range_split (k1 k2 : nat) :
  (k1 <= k2)%nat ->
  index_range k2 = index_range k1 ++ map Z.of_nat (seq k1 (k2 - k1)).
Proof.
  intros Hk. unfold index_range. rewrite <- map_app.
  replace k2 with (k1 + (k2 - k1))%nat at 1 by lia. rewrite seq_app. reflexivity.
Qed.

Lemma collapse_prefix_kept (gHash_ : Z -> Z) (cast_out_of_range : float -> Z)
    (aVM : VicinityMap_) (aD : Discretizer_) (aSoup : TriangleSoup) (aMaxError : float)
    (k1 k2 : nat) (st1 st2 : CollapseState) :
  (k1 <= k2)%nat ->
  collapse_prefix gHash_ cast_out_of_range aVM aD aSoup aMaxError k1 = Ok st1 ->
  collapse_prefix gHash_ cast_out_of_range aVM aD aSoup aMaxError k2 = Ok st2 ->
  assigned_kept (collapseMap st1) (collapseMap st2).
Proof.
  intros Hk H1 H2. unfold collapse_prefix in *.
  rewrite (index_range_split k1 k2 Hk), foldM_app, H1 in H2. cbn [bind] in H2.
  revert H2. 
  pose proof (foldM_rel (process_vertex gHash_ cast_out_of_range aVM aD aSoup aMaxError)
                (fun _ => True) (fun i => 0 <= i)
                (fun a b => assigned_kept (collapseMap a) (collapseMap b))) as Hrel.
  intros H2. eapply Hrel; [| | | |exact I|exact H2].
  - intros; apply assigned_kept_refl.
  - intros; eapply assigned_kept_trans; eassumption.
  - intros s x s' _ Hx Hs. split; [exact I|]. eapply process_vertex_kept; eassumption.
  - apply Forall_forall. intros x Hx. apply list_elem_of_fmap in Hx as (j & -> & _). lia.
Qed.

(** C6. Throughout a run of [collapse_vertices_] every entry of the collapse
    map is assigned at most once: a candidate whose entry is assigned is
    skipped with the state untouched; visiting a candidate, and the run
    between any two of its iterations, keep every assigned entry as it is;
    and on a well-formed soup every prefix of the run completes, with the
    values stored below the slot counter, which itself never passes the
    mark of an unassigned entry. *)
Theorem collapse_map_assigned_once (gHash_ : Z -> Z) (cast_out_of_range : float -> Z)
    (aVM : VicinityMap_) (aD : Discretizer_) (aSoup : TriangleSoup) (aMaxError : float) :
  (forall i self s idx c,
      0 <= idx -> collapseMap (cst s) !! Z.to_nat idx = Some c -> c <> unassigned ->
      visit_candidate aSoup aMaxError i self s idx = Ok s)
  /\ (forall i self s idx s',
        0 <= i -> scan_pre i s -> visit_candidate aSoup aMaxError i self s idx = Ok s' ->
        assigned_kept (collapseMap (cst s)) (collapseMap (cst s')))
  /\ (forall k1 k2 st1 st2,
        (k1 <= k2)%nat ->
        collapse_prefix gHash_ cast_out_of_range aVM aD aSoup aMaxError k1 = Ok st1 ->
        collapse_prefix gHash_ cast_out_of_range aVM aD aSoup aMaxError k2 = Ok st2 ->
        assigned_kept (collapseMap st1) (collapseMap st2))
  /\ (wf_soup aSoup -> vm_in_range aVM aSoup ->
      forall k, (k <= length (vert aSoup))%nat ->
        exists st, collapse_prefix gHash_ cast_out_of_range aVM aD aSoup aMaxError k = Ok st
          /\ nextVertex st <= unassigned
          /\ forall j c, collapseMap st !! j = Some c ->
               c = unassigned \/ 0 <= c < nextVertex st).
Proof.
  split; [|split; [|split]].
  - intros i self s idx c Hidx Hc Hasg. unfold visit_candidate.
    destruct (idx =? i); [reflexivity|].
    rewrite (proj2 (vget_Ok _ _ _) (conj Hidx Hc)). cbn [bind].
    destruct (Z.eqb_spec c unassigned); [contradiction | reflexivity].
  - intros i self s idx s' Hi Hpre H.
    exact (proj2 (visit_candidate_kept aSoup aMaxError i self s idx s' Hi Hpre H)).
  - intros k1 k2 st1 st2. apply collapse_prefix_kept.
  - intros Hwf Hvm k Hk.
    destruct (collapse_prefix_inv gHash_ cast_out_of_range aVM aD aSoup aMaxError Hwf Hvm k Hk)
      as (st & Hrun & (Hlen & Hnv & _ & Hcm & _) & _ & Hlv).
    exists st. split; [exact Hrun|]. split.
    + destruct Hwf as (_ & _ & Hn64). unfold unassigned. lia.
    + intros j c Hj. exact (Forall_lookup_1 _ _ _ _ Hcm Hj).
Qed.

(** ** The run in closed form, whatever the hash function *)

Lemma foldM_visited {E S X} (body : S -> X -> result E S) (P : S -> Prop)
    (Q : X -> S -> Prop) :
  (forall s x s', P s -> body s x = Ok s' ->
     P s' /\ Q x s' /\ forall y, Q y s -> Q y s') ->
  forall xs s s', P s -> foldM body xs s = Ok s' ->
    P s' /\ (forall x, x ∈ xs -> Q x s') /\ (forall y, Q y s -> Q y s').
Proof.
  intros Hbody xs. induction xs as [|x xs IH]; intros s s' HP H; simpl in H.
  - injection H as <-. split; [assumption|]. split; [|auto].
    intros x Hx. apply elem_of_nil in Hx. contradiction.
  - apply bind_Ok in H as (s1 & H1 & H2).
    destruct (Hbody s x s1 HP H1) as (HP1 & HQ1 & Hst1).
    destruct (IH s1 s' HP1 H2) as (HP2 & HQ2 & Hst2).
    split; [assumption|]. split; [|auto].
    intros y Hy. apply elem_of_cons in Hy as [->|Hy]; auto.
Qed.

Lemma to_int32_idem (z : Z) : to_int32 (to_int32 z + 0) = to_int32 z.
Proof.
  rewrite Z.add_0_r. unfold to_int32.
  pose proof (Z.mod_pos_bound z two32 ltac:(reflexivity)) as Hu.
  set (u := z mod two32) in *.
  destruct (Z.ltb_spec u (2 ^ 31)) as [Hlt|Hge].
  - rewrite (Z.mod_small u) by assumption.
    destruct (Z.ltb_spec u (2 ^ 31)); [reflexivity | lia].
  - assert (Hm : (u - two32) mod two32 = u).
    { replace (u - two32) with (u + (-1) * two32) by lia.
      rewrite Z_mod_plus_full. apply Z.mod_small. assumption. }
    rewrite Hm. destruct (Z.ltb_spec u (2 ^ 31)); [lia | reflexivity].
Qed.

Lemma neighbour_self (cast : float -> Z) (aD : Discretizer_) (p : vec3) :
  neighbour_ (discretize cast aD p) 0 = Ok (discretize cast aD p).
Proof.
  unfold neighbour_, discretize. cbn [c_assert bind dpx dpy dpz].
  change (vget offset 0) with (@Ok mesh_error _ (0, 0, 0)). cbn [bind].
  rewrite !to_int32_idem. reflexivity.
Qed.

Lemma build_vicinity_map_entries (gHash_ : Z -> Z) (cast : float -> Z) (aD : Discretizer_)
    (aPositions : list vec3) :
  build_vicinity_map_ gHash_ cast [] aD aPositions
  = map (fun ip => (hash_discretized_position_ gHash_ (discretize cast aD (snd ip)), fst ip))
        (zip (index_range (length aPositions)) aPositions).
Proof.
  unfold build_vicinity_map_.
  assert (Hgen : forall (l : list (Z * vec3)) (m : VicinityMap_),
            fold_left
              (fun m '(index, p) =>
                 m ++ [(hash_discretized_position_ gHash_ (discretize cast aD p), index)]) l m
            = m ++ map (fun ip => (hash_discretized_position_ gHash_
                                     (discretize cast aD (snd ip)), fst ip)) l).
  { induction l as [|[index p] l IH]; intros m; simpl; [rewrite app_nil_r; reflexivity|].
    rewrite IH, <- app_assoc. reflexivity. }
  rewrite Hgen. reflexivity.
Qed.

Lemma same_cell_candidate (gHash_ : Z -> Z) (cast : float -> Z) (aD : Discretizer_)
    (aPositions : list vec3) (j : Z) (p : vec3) :
  0 <= j -> aPositions !! Z.to_nat j = Some p ->
  j ∈ scan_candidates gHash_ (build_vicinity_map_ gHash_ cast [] aD aPositions)
        (discretize cast aD p).
Proof.
  intros Hj Hp. apply list_elem_of_In. unfold scan_candidates. apply in_flat_map.
  exists 0. split.
  { apply list_elem_of_In, elem_of_index_range. change (Z.of_nat (Z.to_nat kNeighbourCount_)) with 27.
    lia. }
  rewrite neighbour_self. apply list_elem_of_In.
  unfold equal_range. apply list_elem_of_fmap.
  exists (hash_discretized_position_ gHash_ (discretize cast aD p), j).
  split; [reflexivity|]. apply list_elem_of_filter. split; [reflexivity|].
  rewrite build_vicinity_map_entries. apply list_elem_of_fmap.
  exists (j, p). split; [reflexivity|].
  apply list_elem_of_lookup. exists (Z.to_nat j).
  apply lookup_zip_with_Some. exists j, p. split; [reflexivity|]. split; [|exact Hp].
  rewrite index_range_lookup by (eapply lookup_lt_Some; exact Hp).
  rewrite Z2Nat.id by assumption. reflexivity.
Qed.

Lemma scan_neighbours_flat (gHash_ : Z -> Z) (aVM : VicinityMap_) (aSoup : TriangleSoup)
    (aMaxError : float) (i : Z) (self : vec3) (dp : DiscretizedPosition_) (s : ScanState) :
  scan_neighbours gHash_ aVM aSoup aMaxError i self dp s
  = foldM (visit_candidate aSoup aMaxError i self) (scan_candidates gHash_ aVM dp) s.
Proof.
  unfold scan_neighbours, scan_candidates.
  assert (Hall : Forall (fun j => j ∈ index_range (Z.to_nat kNeighbourCount_))
                        (index_range (Z.to_nat kNeighbourCount_))).
  { apply Forall_forall. trivial. }
  revert s Hall. generalize (index_range (Z.to_nat kNeighbourCount_)) at 2 3 4.
  induction l as [|j js IH]; intros s Hall; [reflexivity|].
  inversion Hall as [|? ? Hj Hjs]; subst.
  destruct (neighbour_total dp j Hj) as (dq & Hdq).
  cbn [foldM flat_map]. rewrite Hdq. cbn [bind]. rewrite foldM_app.
  destruct (foldM _ (equal_range _ _) s) as [s1|e]; cbn [bind]; [apply IH; assumption | reflexivity].
Qed.

Lemma insert_not_unassigned (cm : list Z) (j : nat) (v : Z) (y : nat) :
  v <> unassigned -> cm !! y <> Some unassigned -> <[j := v]> cm !! y <> Some unassigned.
Proof.
  intros Hv Hy. rewrite list_lookup_insert. case_decide as Hd; [congruence | exact Hy].
Qed.

Section ClosedForm.

Variable gHash_ : Z -> Z.
Variable cast_out_of_range : float -> Z.
Variable aD : Discretizer_.
Variable aSoup : TriangleSoup.
Variable aMaxError : float.
Variable cls : Z -> Z -> bool.

Hypothesis Hwf : wf_soup aSoup.
Hypothesis Hcls : merge_classes aSoup aMaxError cls.

Lemma visit_candidate_partial (k : nat) (self : vec3) (st : CollapseState) (s : ScanState)
    (idx : Z) (s' : ScanState) :
  outer_inv (length (vert aSoup)) k st ->
  collapseMap st !! k = Some unassigned -> vert aSoup !! k = Some self ->
  scan_partial cls st k s ->
  visit_candidate aSoup aMaxError (Z.of_nat k) self s idx = Ok s' ->
  scan_partial cls st k s' /\ candidate_settled cls k idx s'
  /\ forall y, candidate_settled cls k y s -> candidate_settled cls k y s'.
Proof.
  intros ((Hlen & Hnv & _ & _ & _) & _ & Hlv) Hk Hself Hs H.
  assert (Hkn : (k < length (vert aSoup))%nat) by (eapply lookup_lt_Some; exact Hself).
  assert (Hfresh : nextVertex st <> unassigned).
  { destruct Hwf as (_ & _ & Hn64). unfold unassigned. lia. }
  pose proof Hs as (P1 & P2 & P3 & P4).
  unfold visit_candidate in H.
  destruct (Z.eqb_spec idx (Z.of_nat k)) as [Heq|Hne].
  { injection H as <-. split; [exact Hs|]. split; [intros Hc; contradiction | auto]. }
  apply bind_Ok in H as (c & Hc & H). apply vget_Ok in Hc as (Hidx & Hc).
  destruct (Z.eqb_spec c unassigned) as [->|Hasg]; cbn [negb] in H.
  2:{ injection H as <-. split; [exact Hs|]. split; [|auto].
      intros _ _. rewrite Hc. congruence. }
  apply bind_Ok in H as (other & Hother & H). apply vget_Ok in Hother as (_ & Hother).
  destruct (Hcls (Z.of_nat k) idx self other) as (Hm & _);
    [lia | assumption | rewrite Nat2Z.id; exact Hself | exact Hother |].
  rewrite Hm in H. cbn [bind] in H.
  destruct (cls (Z.of_nat k) idx) eqn:Hcl; cbn [bind] in H.
  2:{ injection H as <-. split; [exact Hs|]. split; [|auto]. intros _ Habs. congruence. }
  assert (Hidxlt : (Z.to_nat idx < length (collapseMap (cst s)))%nat)
    by (eapply lookup_lt_Some; exact Hc).
  assert (Hnek : Z.to_nat idx <> k) by lia.
  (* the entry of idx was unassigned on entry to the scan *)
  assert (Horig : collapseMap st !! Z.to_nat idx = Some unassigned).
  { destruct (lookup_lt_is_Some_2 (collapseMap st) (Z.to_nat idx)) as (c0 & Hc0); [lia|].
    destruct (P2 _ _ Hc0) as [Hsame | (_ & _ & Hnew)]; congruence. }
  destruct (merged s) eqn:Hmg; cbn [bind] in H.
  - destruct (P4 eq_refl) as (Q1 & Q2 & Q3 & Q4 & Q5).
    apply bind_Ok in H as (cm & Hcm & H). apply vset_Ok in Hcm as (_ & ->).
    injection H as <-. rewrite Q2.
    split; [|split].
    + unfold scan_partial. cbn [cst merged target aIndices aVertices collapseMap nextVertex].
      split; [rewrite length_insert; exact P1|].
      split; [|split; [discriminate|]].
      * intros j c Hj. destruct (decide (Z.to_nat idx = j)) as [<-|Hnj].
        -- right. rewrite Hj in Horig. injection Horig as ->.
           split; [reflexivity|]. split; [right; rewrite Z2Nat.id by assumption; exact Hcl|].
           apply list_lookup_insert_eq. exact Hidxlt.
        -- rewrite list_lookup_insert_ne by assumption. apply P2. exact Hj.
      * intros _. rewrite list_lookup_insert_ne by assumption. repeat split; assumption.
    + intros _ _. cbn [cst collapseMap]. rewrite list_lookup_insert_eq by assumption. congruence.
    + intros y Hy Hy1 Hy2. cbn [cst collapseMap].
      apply insert_not_unassigned; [assumption | apply Hy; assumption].
  - pose proof (P3 eq_refl) as Hst.
    apply bind_Ok in H as ([toWhere st1] & H1 & H).
    apply bind_Ok in H1 as (cm1 & Hcm1 & H1). apply vset_Ok in Hcm1 as (_ & ->).
    injection H1 as <- <-. cbn [collapseMap aIndices aVertices nextVertex] in H.
    apply bind_Ok in H as (cm2 & Hcm2 & H). apply vset_Ok in Hcm2 as (_ & ->).
    injection H as <-. rewrite Nat2Z.id, Hst.
    assert (Hklt : (k < length (collapseMap st))%nat) by lia.
    split; [|split].
    + unfold scan_partial. cbn [cst merged target aIndices aVertices collapseMap nextVertex].
      split; [rewrite !length_insert; reflexivity|].
      split; [|split; [discriminate|]].
      * intros j c Hj. destruct (decide (Z.to_nat idx = j)) as [<-|Hnj].
        -- right. rewrite Hj in Horig. injection Horig as ->.
           split; [reflexivity|]. split; [right; rewrite Z2Nat.id by assumption; exact Hcl|].
           apply list_lookup_insert_eq. rewrite length_insert. lia.
        -- rewrite list_lookup_insert_ne by assumption.
           destruct (decide (k = j)) as [<-|Hnk].
           ++ right. rewrite Hj in Hk. injection Hk as ->.
              split; [reflexivity|]. split; [left; reflexivity|].
              apply list_lookup_insert_eq. exact Hklt.
           ++ left. rewrite list_lookup_insert_ne by assumption. exact Hj.
      * intros _. rewrite list_lookup_insert_ne by assumption.
        rewrite list_lookup_insert_eq by assumption. repeat split; reflexivity.
    + intros _ _. cbn [cst collapseMap].
      rewrite list_lookup_insert_eq by (rewrite length_insert; lia). congruence.
    + intros y Hy Hy1 Hy2. cbn [cst collapseMap].
      apply insert_not_unassigned; [assumption|].
      apply insert_not_unassigned; [assumption|].
      specialize (Hy Hy1 Hy2). rewrite Hst in Hy. exact Hy.
Qed.

Lemma process_vertex_closed_form (k : nat) (st : CollapseState) :
  (k < length (vert aSoup))%nat -> outer_inv (length (vert aSoup)) k st ->
  process_vertex gHash_ cast_out_of_range
    (build_vicinity_map_ gHash_ cast_out_of_range [] aD (vert aSoup)) aD aSoup aMaxError
    st (Z.of_nat k)
  = Ok (collapse_step cls st (Z.of_nat k)).
Proof.
  intros Hk Hinv.
  destruct (process_vertex_inv gHash_ cast_out_of_range _ aD aSoup aMaxError Hwf
              (build_vicinity_map_in_range gHash_ cast_out_of_range aD aSoup) k st Hk Hinv)
    as (st' & H & _).
  rewrite H. f_equal. unfold process_vertex in H.
  pose proof Hinv as ((Hlen & Hnv & _ & _ & _) & _ & Hlv).
  assert (Hfresh : nextVertex st <> unassigned).
  { destruct Hwf as (_ & _ & Hn64). unfold unassigned. lia. }
  apply bind_Ok in H as (c & Hc & H). apply vget_Ok in Hc as (_ & Hc).
  unfold collapse_step. rewrite Hc. rewrite Nat2Z.id in Hc.
  destruct (Z.eqb_spec unassigned c) as [<-|Hasg]; cbn [negb] in H.
  2:{ apply bind_Ok in H as (? & _ & H). injection H as <-.
      destruct (Z.eqb_spec c unassigned); [congruence | reflexivity]. }
  rewrite Z.eqb_refl.
  apply bind_Ok in H as (self & Hself & H). apply vget_Ok in Hself as (_ & Hself).
  rewrite Nat2Z.id in Hself.
  apply bind_Ok in H as (s & Hscan & H).
  rewrite scan_neighbours_flat in Hscan.
  apply (foldM_visited _ (scan_partial cls st k) (candidate_settled cls k)) in Hscan
    as ((P1 & P2 & P3 & P4) & Hvisited & _).
  2:{ intros s0 idx s1 Hs0 Hv.
      exact (visit_candidate_partial k self st s0 idx s1 Hinv Hc Hself Hs0 Hv). }
  2:{ unfold scan_partial. cbn [cst merged target].
      split; [reflexivity|]. split; [intros j c0 Hj; left; exact Hj|].
      split; [reflexivity | discriminate]. }
  (* every other vertex of the class of k was a candidate *)
  assert (Hclass : forall j, (j < length (vert aSoup))%nat -> j <> k ->
            cls (Z.of_nat k) (Z.of_nat j) = true ->
            collapseMap (cst s) !! j <> Some unassigned).
  { intros j Hj Hjk Hcl.
    destruct (lookup_lt_is_Some_2 (vert aSoup) j Hj) as (pj & Hpj).
    destruct (Hcls (Z.of_nat k) (Z.of_nat j) self pj) as (_ & Hsame);
      [lia | lia | rewrite Nat2Z.id; exact Hself | rewrite Nat2Z.id; exact Hpj |].
    specialize (Hsame Hcl). subst pj.
    pose proof (Hvisited (Z.of_nat j)) as Hv. unfold candidate_settled in Hv.
    rewrite Nat2Z.id in Hv. apply Hv; [|lia|exact Hcl].
    apply same_cell_candidate; [lia | rewrite Nat2Z.id; exact Hpj]. }
  assert (Hmap : forall cm', length cm' = length (collapseMap st) ->
            cm' !! k = Some (nextVertex st) ->
            (forall j c, collapseMap st !! j = Some c ->
               cm' !! j = Some c
               \/ (c = unassigned /\ (j = k \/ cls (Z.of_nat k) (Z.of_nat j) = true)
                   /\ cm' !! j = Some (nextVertex st))) ->
            (forall j, (j < length (vert aSoup))%nat -> j <> k ->
               cls (Z.of_nat k) (Z.of_nat j) = true -> cm' !! j <> Some unassigned) ->
            cm' = assign_class cls (Z.of_nat k) (nextVertex st) (collapseMap st)).
  { intros cm' L1 L2 L3 L4. apply list_eq. intros j. unfold assign_class.
    rewrite list_lookup_imap.
    destruct (collapseMap st !! j) as [c0|] eqn:Hj; cbn [fmap option_fmap option_map].
    2:{ apply lookup_ge_None. rewrite L1. apply lookup_ge_None. exact Hj. }
    assert (Hjn : (j < length (vert aSoup))%nat).
    { rewrite <- Hlen. eapply lookup_lt_Some. exact Hj. }
    destruct (Z.eqb_spec c0 unassigned) as [->|Hc0]; cbn [andb].
    - destruct (Z.eqb_spec (Z.of_nat j) (Z.of_nat k)) as [Hjk|Hjk]; cbn [orb].
      + assert (j = k) by lia. subst j. exact L2.
      + destruct (cls (Z.of_nat k) (Z.of_nat j)) eqn:Hcl.
        * destruct (L3 _ _ Hj) as [Hsame | (_ & _ & Hnew)]; [|exact Hnew].
          exfalso. apply (L4 j); [assumption | lia | assumption | assumption].
        * destruct (L3 _ _ Hj) as [Hsame | (_ & [Hjk'|Hcl'] & _)];
            [exact Hsame | lia | congruence].
    - destruct (L3 _ _ Hj) as [Hsame | (Habs & _)]; [exact Hsame | contradiction]. }
  destruct (merged s) eqn:Hmg; cbn [negb] in H.
  - injection H as <-. destruct (P4 eq_refl) as (Q1 & Q2 & Q3 & Q4 & Q5).
    destruct (cst s) as [ai av cm nv]. cbn [aIndices aVertices collapseMap nextVertex] in *.
    subst ai av nv. f_equal. apply Hmap; assumption.
  - pose proof (P3 eq_refl) as Hst. rewrite Hst in *.
    apply bind_Ok in H as (cm & Hcm & H). apply vset_Ok in Hcm as (Hr & ->).
    injection H as <-. rewrite Nat2Z.id. f_equal.
    apply Hmap.
    + apply length_insert.
    + apply list_lookup_insert_eq. lia.
    + intros j c0 Hj. destruct (decide (k = j)) as [<-|Hnk].
      * right. rewrite Hj in Hc. injection Hc as ->.
        split; [reflexivity|]. split; [left; reflexivity|]. apply list_lookup_insert_eq. lia.
      * left. rewrite list_lookup_insert_ne by assumption. exact Hj.
    + intros j Hj Hjk Hcl. rewrite list_lookup_insert_ne by congruence.
      apply Hclass; assumption.
Qed.

Lemma collapse_prefix_closed_form (k : nat) :
  (k <= length (vert aSoup))%nat ->
  collapse_prefix gHash_ cast_out_of_range
    (build_vicinity_map_ gHash_ cast_out_of_range [] aD (vert aSoup)) aD aSoup aMaxError k
  = Ok (fold_left (collapse_step cls) (index_range k) (collapse_init aSoup)).
Proof.
  induction k as [|k IH]; intros Hk; [reflexivity|].
  destruct (collapse_prefix_inv gHash_ cast_out_of_range _ aD aSoup aMaxError Hwf
              (build_vicinity_map_in_range gHash_ cast_out_of_range aD aSoup) k)
    as (st & Hrun & Hinv); [lia|].
  rewrite IH in Hrun by lia. injection Hrun as Hrun.
  unfold collapse_prefix in *. rewrite index_range_S, foldM_app, IH by lia. cbn [bind foldM].
  rewrite fold_left_app. cbn [fold_left]. rewrite Hrun.
  rewrite process_vertex_closed_form by (assumption || lia). reflexivity.
Qed.

Lemma collapse_run_closed_form :
  collapse_run gHash_ cast_out_of_range
    (build_vicinity_map_ gHash_ cast_out_of_range [] aD (vert aSoup)) aD aSoup aMaxError
  = Ok (collapse_closed_form cls aSoup).
Proof. apply collapse_prefix_closed_form. lia. Qed.

End ClosedForm.

(** ** Bytes and words *)

Lemma Z_of_byte_of_Z (z : Z) : Z_of_byte (byte_of_Z z) = z mod 256.
Proof.
  unfold Z_of_byte, byte_of_Z.
  pose proof (Z.mod_pos_bound z 256 ltac:(lia)) as Hz.
  destruct (Byte.of_N (Z.to_N (z mod 256))) as [b|] eqn:Hb.
  - apply Byte.to_of_N in Hb. rewrite Hb. lia.
  - apply Byte.of_N_None_iff in Hb. lia.
Qed.

Lemma Z_of_byte_range (b : byte) : 0 <= Z_of_byte b < 256.
Proof. unfold Z_of_byte. pose proof (Byte.to_N_bounded b). lia. Qed.

Lemma byte_of_Z_of_byte (b : byte) : byte_of_Z (Z_of_byte b) = b.
Proof.
  unfold byte_of_Z. rewrite Z.mod_small by apply Z_of_byte_range.
  unfold Z_of_byte. rewrite N2Z.id, Byte.of_to_N. reflexivity.
Qed.

Lemma le32_decode_le32 (z : Z) : le32_decode (le32 z) = z mod two32.
Proof.
  unfold le32, le32_decode, two32. rewrite !Z_of_byte_of_Z.
  Z.div_mod_to_equations. lia.
Qed.

Lemma le32_length (z : Z) : length (le32 z) = 4%nat.
Proof. reflexivity. Qed.

Lemma le32_decode_range (bs : list byte) : 0 <= le32_decode bs < two32.
Proof.
  unfold le32_decode, two32.
  destruct bs as [|a [|b [|c [|d [|e bs]]]]]; try lia.
  pose proof (Z_of_byte_range a). pose proof (Z_of_byte_range b).
  pose proof (Z_of_byte_range c). pose proof (Z_of_byte_range d). lia.
Qed.

(** ** Readers *)

Lemma checked_read_app (n : Z) (c rest : list byte) :
  Z.of_nat (length c) = n -> Baked.checked_read_ n (c ++ rest) = Ok (c, rest).
Proof.
  intros Hn. unfold Baked.checked_read_. rewrite length_app.
  rewrite bool_decide_eq_true_2 by lia.
  replace (Z.to_nat n) with (length c) by lia.
  rewrite take_app_length, drop_app_length. reflexivity.
Qed.

Lemma checked_read_Ok (n : Z) (fin c rest : list byte) :
  Baked.checked_read_ n fin = Ok (c, rest) ->
  fin = c ++ rest /\ length c = Z.to_nat n /\ n <= Z.of_nat (length fin).
Proof.
  unfold Baked.checked_read_. intros H.
  destruct (bool_decide_reflect (n = Z.min n (Z.of_nat (length fin)))) as [Hn|Hn];
    [|discriminate].
  injection H as <- <-. split; [symmetry; apply take_drop|].
  split; [rewrite length_take; lia | lia].
Qed.

Lemma checked_read_short (n : Z) (fin : list byte) :
  Z.of_nat (length fin) < n ->
  Baked.checked_read_ n fin = Err (Baked.ShortRead n (Z.of_nat (length fin))).
Proof.
  intros Hn. unfold Baked.checked_read_.
  rewrite bool_decide_eq_false_2 by lia. rewrite Z.min_r by lia. reflexivity.
Qed.

Lemma framed_checked_read (n : Z) : framed (Baked.checked_read_ n).
Proof.
  intros fin c rest H. apply checked_read_Ok in H as (-> & Hlen & Hle).
  exists c. split; [reflexivity|]. split.
  - intros rest'. destruct (Z.le_gt_cases 0 n).
    + apply checked_read_app. lia.
    + unfold Baked.checked_read_. rewrite bool_decide_eq_true_2 by lia.
      replace (Z.to_nat n) with O in * by lia.
      destruct c; [reflexivity | discriminate].
  - intros k Hk. exists n, (Z.of_nat k).
    rewrite <- (length_take_le c k) at 2 by lia.
    apply checked_read_short. rewrite length_take. lia.
Qed.

Lemma framed_ret {A} (a : A) : framed (Baked.rret a).
Proof.
  intros fin a' rest [= <- <-]. exists []. split; [reflexivity|].
  split; [reflexivity|]. simpl. intros k Hk. lia.
Qed.

Lemma framed_throw {A} (e : Baked.load_error) : framed (@Baked.rthrow A e).
Proof. intros fin a rest [=]. Qed.

Lemma framed_bind {A B} (p : Baked.reader A) (k : A -> Baked.reader B) :
  framed p -> (forall a, framed (k a)) -> framed (Baked.rbind p k).
Proof.
  intros Hp Hk fin b rest H. unfold Baked.rbind in H.
  destruct (p fin) as [[a fin1]|e] eqn:Hpf; [|discriminate].
  destruct (Hp fin a fin1 Hpf) as (c1 & -> & Hp1 & Hp2).
  destruct (Hk a fin1 b rest H) as (c2 & -> & Hk1 & Hk2).
  exists (c1 ++ c2). split; [apply app_assoc|]. split.
  - intros rest'. unfold Baked.rbind. rewrite <- app_assoc, Hp1. apply Hk1.
  - intros j Hj. rewrite length_app in Hj. unfold Baked.rbind.
    destruct (Nat.lt_ge_cases j (length c1)) as [Hlt|Hge].
    + rewrite take_app_le by lia. destruct (Hp2 j Hlt) as (x & y & ->). eauto.
    + rewrite take_app_ge by lia.
      rewrite Hp1. apply Hk2. lia.
Qed.

Lemma framed_if {A} (b : bool) (p q : Baked.reader A) :
  framed p -> framed q -> framed (if b then p else q).
Proof. destruct b; auto. Qed.

Lemma framed_assert (b : bool) : framed (Baked.r_assert b).
Proof. destruct b; [apply framed_ret | apply framed_throw]. Qed.

Lemma framed_read_n {A} (body : list A -> Baked.reader A) (n : nat) :
  (forall acc, framed (body acc)) -> forall acc, framed (Baked.read_n n body acc).
Proof.
  intros Hbody. induction n as [|n IH]; intros acc; simpl.
  - apply framed_ret.
  - apply framed_bind; [apply Hbody | intros a; apply IH].
Qed.

Lemma framed_read_uint32 : framed Baked.read_uint32_.
Proof.
  apply framed_bind; [apply framed_checked_read | intros; apply framed_ret].
Qed.

Lemma framed_read_string : framed Baked.read_string_.
Proof.
  apply framed_bind; [apply framed_read_uint32 | intros len].
  apply framed_if; [apply framed_throw|].
  apply framed_bind; [apply framed_checked_read | intros; apply framed_ret].
Qed.

Lemma framed_read_texture (prefix : string) : framed (Baked.read_texture prefix).
Proof.
  apply framed_bind; [apply framed_read_string | intros s].
  apply framed_bind; [apply framed_checked_read | intros; apply framed_ret].
Qed.

Lemma framed_read_material (textures : list Baked.BakedTextureInfo) :
  framed (Baked.read_material textures).
Proof.
  unfold Baked.read_material.
  repeat (apply framed_bind; [first [apply framed_read_uint32 | apply framed_assert]|intros ?]).
  apply framed_ret.
Qed.

Lemma framed_read_mesh (materials : list Baked.BakedMaterialInfo) :
  framed (Baked.read_mesh materials).
Proof.
  unfold Baked.read_mesh.
  repeat (apply framed_bind;
          [first [apply framed_read_uint32 | apply framed_assert | apply framed_checked_read]
          |intros ?]).
  apply framed_ret.
Qed.

Lemma framed_read_model (aInputName : string) : framed (Baked.read_model aInputName).
Proof.
  unfold Baked.read_model.
  apply framed_bind; [apply framed_checked_read | intros magic].
  apply framed_if; [apply framed_throw|].
  apply framed_bind; [apply framed_checked_read | intros variant].
  apply framed_if; [apply framed_throw|].
  apply framed_bind; [apply framed_read_uint32 | intros textureCount].
  apply framed_bind; [apply framed_read_n; intros; apply framed_read_texture | intros textures].
  apply framed_bind; [apply framed_read_uint32 | intros materialCount].
  apply framed_bind; [apply framed_read_n; intros; apply framed_read_material | intros materials].
  apply framed_bind; [apply framed_read_uint32 | intros meshCount].
  apply framed_bind; [apply framed_read_n; intros; apply framed_read_mesh | intros meshes].
  apply framed_ret.
Qed.

Lemma read_uint32_app (z : Z) (rest : list byte) :
  0 <= z < two32 -> Baked.read_uint32_ (le32 z ++ rest) = Ok (z, rest).
Proof.
  intros Hz. unfold Baked.read_uint32_, Baked.rbind.
  rewrite checked_read_app by reflexivity. unfold Baked.rret.
  rewrite le32_decode_le32, Z.mod_small by assumption. reflexivity.
Qed.

Lemma read_uint32_take (fin : list byte) :
  (4 <= length fin)%nat ->
  Baked.read_uint32_ fin = Ok (le32_decode (take 4 fin), drop 4 fin).
Proof.
  intros Hlen. unfold Baked.read_uint32_, Baked.rbind.
  rewrite <- (take_drop 4 fin) at 1.
  rewrite checked_read_app by (rewrite length_take; lia). reflexivity.
Qed.

Lemma read_string_app (p rest : list byte) :
  Z.of_nat (length p) < Baked.kMaxString ->
  Baked.read_string_ (le32 (Z.of_nat (length p)) ++ p ++ rest)
  = Ok (string_of_list_byte p, rest).
Proof.
  intros Hp. unfold Baked.read_string_, Baked.rbind at 1.
  rewrite read_uint32_app
    by (change Baked.kMaxString with 32768 in Hp; change two32 with 4294967296; lia).
  destruct (Z.leb_spec Baked.kMaxString (Z.of_nat (length p))); [lia|].
  unfold Baked.rbind. rewrite checked_read_app by reflexivity. reflexivity.
Qed.

Lemma read_string_too_long (len : Z) (rest : list byte) :
  Baked.kMaxString <= len < two32 ->
  Baked.read_string_ (le32 len ++ rest) = Err (Baked.StringTooLong len).
Proof.
  intros Hlen. unfold Baked.read_string_, Baked.rbind at 1.
  rewrite read_uint32_app by (change Baked.kMaxString with 32768 in Hlen; lia).
  destruct (Z.leb_spec Baked.kMaxString len); [reflexivity | lia].
Qed.

Lemma read_texture_entry (prefix : string) (e : list byte * byte) (rest : list byte) :
  Z.of_nat (length (fst e)) < Baked.kMaxString ->
  Baked.read_texture prefix (texture_entry e ++ rest)
  = Ok ({| Baked.path := String.append prefix (string_of_list_byte (fst e));
           Baked.channels := snd e |}, rest).
Proof.
  intros He. unfold Baked.read_texture, texture_entry, Baked.rbind at 1.
  rewrite <- !app_assoc. rewrite read_string_app by assumption.
  unfold Baked.rbind. rewrite (checked_read_app 1 [snd e]) by reflexivity. reflexivity.
Qed.

Lemma read_textures_too_long (prefix : string) (good : list (list byte * byte))
    (len : Z) (rest : list byte) (n : nat) (acc : list Baked.BakedTextureInfo) :
  Forall (fun e => Z.of_nat (length (fst e)) < Baked.kMaxString) good ->
  (length good < n)%nat -> Baked.kMaxString <= len < two32 ->
  Baked.read_n n (fun _ => Baked.read_texture prefix) acc
    (concat (map texture_entry good) ++ le32 len ++ rest)
  = Err (Baked.StringTooLong len).
Proof.
  intros Hgood. revert n acc.
  induction Hgood as [|e good He Hgood IH]; intros n acc Hn Hlen;
    (destruct n as [|n]; [simpl in Hn; lia|]); cbn [Baked.read_n map concat app].
  - unfold Baked.rbind at 1, Baked.read_texture. unfold Baked.rbind at 1.
    rewrite read_string_too_long by assumption. reflexivity.
  - unfold Baked.rbind at 1. rewrite <- app_assoc.
    rewrite read_texture_entry by assumption.
    apply IH; [simpl in Hn; lia | assumption].
Qed.

(** ** The loader rejects what is not a container *)

Lemma load_baked_model_Err (fin : list byte) (aInputName : string) (e : Baked.load_error) :
  Baked.read_model aInputName fin = Err e ->
  Baked.load_baked_model_ fin aInputName = Err e
  /\ Baked.load_baked_model (Some fin) aInputName = Err e.
Proof.
  intros H. unfold Baked.load_baked_model, Baked.load_baked_model_. rewrite H. split; reflexivity.
Qed.

Lemma checked_read_take (n : nat) (fin c rest : list byte) :
  Baked.checked_read_ (Z.of_nat n) fin = Ok (c, rest) -> c = take n fin /\ rest = drop n fin.
Proof.
  intros H. unfold Baked.checked_read_ in H.
  destruct (bool_decide _); [|discriminate].
  rewrite Nat2Z.id in H. injection H as <- <-. split; reflexivity.
Qed.

Lemma checked_read_Err (aBytes : Z) (fin : list byte) (e : Baked.load_error) :
  Baked.checked_read_ aBytes fin = Err e -> exists expected got, e = Baked.ShortRead expected got.
Proof.
  unfold Baked.checked_read_. destruct (bool_decide _); [discriminate|].
  intros [= <-]. eauto.
Qed.

Lemma read_model_header (aInputName : string) (fin : list byte) :
  take 16 fin <> kFileMagic \/ take 16 (drop 16 fin) <> kFileVariant ->
  exists e, Baked.read_model aInputName fin = Err e /\ rejection e.
Proof.
  intros Hheader. unfold Baked.read_model, Baked.rbind at 1.
  destruct (Baked.checked_read_ 16 fin) as [[magic rest1]|e] eqn:Hread.
  2:{ exists e. split; [reflexivity|]. right; right. eapply checked_read_Err, Hread. }
  apply (checked_read_take 16) in Hread as (-> & ->).
  destruct (bool_decide (take 16 fin = kFileMagic)) eqn:Hmagic; cbn [negb].
  2:{ exists Baked.InvalidSignature. split; [reflexivity | left; reflexivity]. }
  apply bool_decide_eq_true_1 in Hmagic.
  destruct Hheader as [Hne | Hne]; [contradiction|].
  unfold Baked.rbind at 1.
  destruct (Baked.checked_read_ 16 (drop 16 fin)) as [[variant rest2]|e] eqn:Hread.
  2:{ exists e. split; [reflexivity|]. right; right. eapply checked_read_Err, Hread. }
  apply (checked_read_take 16) in Hread as (-> & ->).
  rewrite bool_decide_eq_false_2 by assumption. cbn [negb].
  exists Baked.WrongVariant. split; [reflexivity | right; left; reflexivity].
Qed.

(** C10. A container that loads, followed by one or more bytes, loads to the
    same model: the bytes after the mesh table only make the loader print
    its note. *)
Theorem trailing_bytes_tolerated (aInputName : string) (fin extra : list byte)
    (ret : Baked.BakedModel) :
  Baked.load_baked_model_ fin aInputName = Ok (ret, false) -> extra <> [] ->
  Baked.load_baked_model_ (fin ++ extra) aInputName = Ok (ret, true)
  /\ Baked.load_baked_model (Some (fin ++ extra)) aInputName = Ok ret.
Proof.
  intros Hload Hextra. unfold Baked.load_baked_model, Baked.load_baked_model_ in *.
  destruct (Baked.read_model aInputName fin) as [[ret' rest]|e] eqn:H; [|discriminate].
  injection Hload as -> Hcheck.
  assert (rest = []) as ->.
  { destruct rest; [reflexivity|]. simpl length in Hcheck.
    rewrite Z.min_l in Hcheck by lia. discriminate. }
  destruct (framed_read_model aInputName fin ret [] H) as (c & Hc & Hsame & _).
  rewrite app_nil_r in Hc. subst c. rewrite Hsame.
  assert (Z.min 1 (Z.of_nat (length extra)) = 1) as ->.
  { destruct extra; [contradiction|]. simpl length. lia. }
  split; reflexivity.
Qed.

(** C9. [read_string_] refuses a declared length of 32768 or more and reads
    in full a shorter string that the file holds; the loader applies it to
    every texture path, so that a container whose texture table reaches a
    path with such a declared length fails to load. *)
Theorem string_length_limit :
  (forall fin : list byte,
      (4 <= length fin)%nat -> Baked.kMaxString <= le32_decode (take 4 fin) ->
      Baked.read_string_ fin = Err (Baked.StringTooLong (le32_decode (take 4 fin))))
  /\ (forall fin : list byte,
        (4 <= length fin)%nat ->
        le32_decode (take 4 fin) < Baked.kMaxString ->
        4 + le32_decode (take 4 fin) <= Z.of_nat (length fin) ->
        Baked.read_string_ fin
        = Ok (string_of_list_byte (take (Z.to_nat (le32_decode (take 4 fin))) (drop 4 fin)),
              drop (Z.to_nat (le32_decode (take 4 fin))) (drop 4 fin)))
  /\ (forall aInputName good count len rest,
        Forall (fun e => Z.of_nat (length (fst e)) < Baked.kMaxString) good ->
        Z.of_nat (length good) < count < two32 ->
        Baked.kMaxString <= len < two32 ->
        Baked.load_baked_model_
          (kFileMagic ++ kFileVariant ++ le32 count
           ++ concat (map texture_entry good) ++ le32 len ++ rest) aInputName
        = Err (Baked.StringTooLong len)).
Proof.
  split; [|split].
  - intros fin Hlen Hlong. unfold Baked.read_string_, Baked.rbind.
    rewrite read_uint32_take by assumption.
    destruct (Z.leb_spec Baked.kMaxString (le32_decode (take 4 fin))); [reflexivity | lia].
  - intros fin Hlen Hshort Hfits. unfold Baked.read_string_, Baked.rbind at 1.
    rewrite read_uint32_take by assumption.
    destruct (Z.leb_spec Baked.kMaxString (le32_decode (take 4 fin))); [lia|].
    unfold Baked.rbind.
    pose proof (le32_decode_range (take 4 fin)) as Hr.
    rewrite <- (take_drop (Z.to_nat (le32_decode (take 4 fin))) (drop 4 fin)) at 1.
    rewrite checked_read_app; [reflexivity|].
    rewrite length_take, length_drop. lia.
  - intros aInputName good count len rest Hgood Hcount Hlen.
    apply load_baked_model_Err. unfold Baked.read_model, Baked.rbind at 1.
    rewrite (checked_read_app 16 kFileMagic) by reflexivity.
    rewrite bool_decide_eq_true_2 by reflexivity. cbn [negb].
    unfold Baked.rbind at 1.
    rewrite (checked_read_app 16 kFileVariant) by reflexivity.
    rewrite bool_decide_eq_true_2 by reflexivity. cbn [negb].
    unfold Baked.rbind at 1. rewrite read_uint32_app by lia.
    unfold Baked.rbind at 1.
    rewrite read_textures_too_long; [reflexivity | assumption | lia | assumption].
Qed.

(** ** The object representation of floats *)

Lemma digits2_pos_bounds (m : positive) :
  2 ^ (Z.pos (digits2_pos m) - 1) <= Z.pos m < 2 ^ Z.pos (digits2_pos m).
Proof.
  assert (Hstep : forall d, 1 <= d ->
            2 ^ (d + 1) = 2 ^ d * 2 /\ 2 ^ d = 2 ^ (d - 1) * 2).
  { intros d Hd. split; [rewrite Z.pow_add_r by lia; reflexivity|].
    replace d with (d - 1 + 1) at 1 by lia. rewrite Z.pow_add_r by lia. reflexivity. }
  induction m as [m IH|m IH|]; cbn [digits2_pos].
  - destruct (Hstep (Z.pos (digits2_pos m))) as (H1 & H2); [lia|].
    replace (Z.pos (Pos.succ (digits2_pos m))) with (Z.pos (digits2_pos m) + 1) by lia.
    replace (Z.pos (digits2_pos m) + 1 - 1) with (Z.pos (digits2_pos m)) by lia.
    change (Z.pos m~1) with (2 * Z.pos m + 1).
    set (a := 2 ^ (Z.pos (digits2_pos m) + 1)) in *.
    set (b := 2 ^ (Z.pos (digits2_pos m))) in *.
    set (c := 2 ^ (Z.pos (digits2_pos m) - 1)) in *. lia.
  - destruct (Hstep (Z.pos (digits2_pos m))) as (H1 & H2); [lia|].
    replace (Z.pos (Pos.succ (digits2_pos m))) with (Z.pos (digits2_pos m) + 1) by lia.
    replace (Z.pos (digits2_pos m) + 1 - 1) with (Z.pos (digits2_pos m)) by lia.
    change (Z.pos m~0) with (2 * Z.pos m).
    set (a := 2 ^ (Z.pos (digits2_pos m) + 1)) in *.
    set (b := 2 ^ (Z.pos (digits2_pos m))) in *.
    set (c := 2 ^ (Z.pos (digits2_pos m) - 1)) in *. lia.
  - cbn. lia.
Qed.

(** A valid finite binary32 is subnormal, with the least exponent, or
    normal, with a mantissa of 24 bits. *)
Lemma valid_finite (s : bool) (m : positive) (e : Z) :
  F32.valid (S754_finite s m e) = true ->
  (Z.pos m < 2 ^ 23 /\ e = -149) \/ (2 ^ 23 <= Z.pos m < 2 ^ 24 /\ -149 <= e <= 104).
Proof.
  unfold F32.valid, valid_binary, bounded, canonical_mantissa, fexp, emin, F32.prec, F32.emax.
  intros H. apply andb_true_iff in H as (Hc & He).
  apply Z.eqb_eq in Hc. apply Z.leb_le in He.
  pose proof (digits2_pos_bounds m) as Hd.
  set (d := Z.pos (digits2_pos m)) in *.
  assert (Hd1 : 1 <= d) by (unfold d; lia).
  destruct (Z.lt_ge_cases (Z.pos m) (2 ^ 23)) as [Hsub|Hnorm].
  - left. split; [assumption|].
    assert (d <= 23).
    { destruct (Z.le_gt_cases d 23); [assumption|]. exfalso.
      assert (2 ^ 23 <= 2 ^ (d - 1)) by (apply Z.pow_le_mono_r; lia). lia. }
    lia.
  - right.
    assert (24 <= d).
    { destruct (Z.le_gt_cases 24 d); [assumption|]. exfalso.
      assert (2 ^ d <= 2 ^ 23) by (apply Z.pow_le_mono_r; lia). lia. }
    assert (d = 24) by lia.
    split; [|lia]. split; [assumption|].
    replace 24 with d by assumption. apply Hd.
Qed.

Lemma to_bits_range (f : float) : F32.valid f = true -> 0 <= F32.to_bits f < two32.
Proof.
  intros Hv. unfold two32. destruct f as [s|s| |s m e]; simpl F32.to_bits.
  - destruct s; lia.
  - destruct s; lia.
  - lia.
  - destruct (valid_finite s m e Hv) as [(Hm & ->) | (Hm & He)].
    + rewrite (proj2 (Z.ltb_lt _ _) Hm). destruct s; lia.
    + rewrite (proj2 (Z.ltb_ge _ _)) by lia. destruct s; lia.
Qed.

Lemma of_bits_to_bits (f : float) : F32.valid f = true -> F32.of_bits (F32.to_bits f) = f.
Proof.
  intros Hv. destruct f as [s|s| |s m e].
  - destruct s; reflexivity.
  - destruct s; reflexivity.
  - reflexivity.
  - pose proof (to_bits_range _ Hv) as Hr. unfold two32 in Hr.
    unfold F32.of_bits. rewrite (Z.mod_small _ (2 ^ 32)) by exact Hr.
    simpl F32.to_bits in *.
    destruct (valid_finite s m e Hv) as [(Hm & ->) | (Hm & He)].
    + rewrite (proj2 (Z.ltb_lt _ _) Hm) in *.
      set (sgn := if s then 2 ^ 31 else 0) in *.
      assert (Hs : (2 ^ 31 <=? sgn + Z.pos m) = s).
      { unfold sgn. destruct s; [apply Z.leb_le | apply Z.leb_gt]; lia. }
      assert (He0 : ((sgn + Z.pos m) / 2 ^ 23) mod 256 = 0).
      { unfold sgn. destruct s.
        - replace (2 ^ 31 + Z.pos m) with (Z.pos m + 256 * 2 ^ 23) by lia.
          rewrite Z.div_add by lia. rewrite Z.div_small by lia. reflexivity.
        - rewrite Z.add_0_l, Z.div_small by lia. reflexivity. }
      assert (Hf : (sgn + Z.pos m) mod 2 ^ 23 = Z.pos m).
      { unfold sgn. destruct s.
        - replace (2 ^ 31 + Z.pos m) with (Z.pos m + 256 * 2 ^ 23) by lia.
          rewrite Z.mod_add by lia. apply Z.mod_small. lia.
        - rewrite Z.add_0_l. apply Z.mod_small. lia. }
      rewrite Hs, He0, Hf. simpl. reflexivity.
    + rewrite (proj2 (Z.ltb_ge _ _)) in * by lia.
      set (sgn := if s then 2 ^ 31 else 0) in *.
      set (frac := Z.pos m - 2 ^ 23).
      assert (Hb : sgn + ((e + 149) * 2 ^ 23 + Z.pos m)
                   = frac + ((if s then 256 else 0) + (e + 150)) * 2 ^ 23).
      { unfold sgn, frac. destruct s; lia. }
      assert (Hfr : 0 <= frac < 2 ^ 23) by (unfold frac; lia).
      assert (Hs : (2 ^ 31 <=? sgn + ((e + 149) * 2 ^ 23 + Z.pos m)) = s).
      { unfold sgn. destruct s; [apply Z.leb_le | apply Z.leb_gt]; lia. }
      rewrite Hs, Hb. rewrite Z.div_add, Z.mod_add by lia.
      rewrite (Z.div_small frac), (Z.mod_small frac) by lia. rewrite Z.add_0_l.
      assert (He1 : ((if s then 256 else 0) + (e + 150)) mod 256 = e + 150).
      { destruct s.
        - replace (256 + (e + 150)) with (e + 150 + 1 * 256) by lia.
          rewrite Z.mod_add by lia. apply Z.mod_small. lia.
        - rewrite Z.add_0_l. apply Z.mod_small. lia. }
      rewrite He1.
      destruct (Z.eqb_spec (e + 150) 0); [lia|].
      destruct (Z.eqb_spec (e + 150) 255); [lia|].
      unfold frac. replace (Z.pos m - 2 ^ 23 + 2 ^ 23) with (Z.pos m) by lia.
      replace (e + 150 - 150) with e by lia. reflexivity.
Qed.

(** ** Rounding to binary32, in whole units *)

Lemma pos_iter_xO (p d : positive) : Z.pos (Pos.iter xO p d) = Z.pos p * 2 ^ Z.pos d.
Proof.
  induction d as [|d IH] using Pos.peano_ind.
  - simpl. lia.
  - rewrite Pos.iter_succ. rewrite Pos2Z.inj_succ, Z.pow_succ_r by lia.
    change (Z.pos (Pos.iter xO p d)~0) with (2 * Z.pos (Pos.iter xO p d)). rewrite IH. lia.
Qed.

Lemma digits2_pos_unique (m : positive) (k : Z) :
  2 ^ (k - 1) <= Z.pos m < 2 ^ k -> Z.pos (digits2_pos m) = k.
Proof.
  intros Hk. pose proof (digits2_pos_bounds m) as Hd.
  set (d := Z.pos (digits2_pos m)) in *.
  assert (Hd1 : 1 <= d) by (unfold d; lia).
  assert (Hk1 : 1 <= k).
  { destruct (Z.le_gt_cases 1 k); [assumption|]. exfalso.
    rewrite (Z.pow_neg_r 2 (k - 1)) in Hk by lia.
    assert (2 ^ k <= 2 ^ 0) by (apply Z.pow_le_mono_r; lia). simpl in *. lia. }
  destruct (Z.lt_trichotomy d k) as [Hlt | [Heq | Hgt]]; [exfalso | exact Heq | exfalso].
  - assert (2 ^ d <= 2 ^ (k - 1)) by (apply Z.pow_le_mono_r; lia). lia.
  - assert (2 ^ k <= 2 ^ (d - 1)) by (apply Z.pow_le_mono_r; lia). lia.
Qed.

Lemma shifted_shr_1 (x : shr_record) : 0 <= shr_m x -> shifted 1 x (shr_1 x).
Proof.
  destruct x as [m r s]. cbn [shr_m shr_r shr_s]. intros Hm. unfold shifted.
  change (2 ^ 1) with 2.
  destruct m as [|p|p]; [| |lia].
  - cbn. split; [reflexivity|]. intros -> -> _. split; reflexivity.
  - destruct p as [p|p|]; cbn [shr_1 shr_m shr_r shr_s].
    + split.
      * change (Z.pos p~1) with (2 * Z.pos p + 1).
        apply (Z.div_unique _ 2 _ 1); lia.
      * intros _ _ H. exfalso. change (Z.pos p~1) with (2 * Z.pos p + 1) in H.
        rewrite Z.add_comm, Z.mul_comm, Z.mod_add in H by lia. discriminate.
    + split.
      * change (Z.pos p~0) with (2 * Z.pos p).
        apply (Z.div_unique _ 2 _ 0); lia.
      * intros -> -> _. split; reflexivity.
    + split; [reflexivity|]. intros _ _ H. discriminate.
Qed.

Lemma shifted_nonneg (n : Z) (x y : shr_record) :
  0 <= n -> 0 <= shr_m x -> shifted n x y -> 0 <= shr_m y.
Proof. intros Hn Hx (-> & _). apply Z.div_pos; [assumption | apply Z.pow_pos_nonneg; lia]. Qed.

Lemma shifted_trans (a b : Z) (x y z : shr_record) :
  0 <= a -> 0 <= b -> 0 <= shr_m x ->
  shifted a x y -> shifted b y z -> shifted (a + b) x z.
Proof.
  intros Ha Hb Hx (Hy & Ey) (Hz & Ez). unfold shifted.
  assert (Pa : 0 < 2 ^ a) by (apply Z.pow_pos_nonneg; lia).
  assert (Pb : 0 < 2 ^ b) by (apply Z.pow_pos_nonneg; lia).
  rewrite Z.pow_add_r by assumption. split.
  - rewrite Hz, Hy. apply Z.div_div; lia.
  - intros Hr Hs Hmod.
    apply Z.mod_divide in Hmod; [|lia]. destruct Hmod as (k & Hk).
    assert (Hma : shr_m x mod 2 ^ a = 0).
    { rewrite Hk. replace (k * (2 ^ a * 2 ^ b)) with (k * 2 ^ b * 2 ^ a) by lia.
      apply Z.mod_mul. lia. }
    destruct (Ey Hr Hs Hma) as (Hr' & Hs').
    apply Ez; [assumption | assumption|].
    rewrite Hy, Hk. replace (k * (2 ^ a * 2 ^ b)) with (k * 2 ^ b * 2 ^ a) by lia.
    rewrite Z.div_mul by lia. apply Z.mod_mul. lia.
Qed.

Lemma shifted_iter (p : positive) (x : shr_record) :
  0 <= shr_m x -> shifted (Z.pos p) x (SpecFloat.iter_pos shr_1 p x).
Proof.
  revert x. induction p as [p IH|p IH|]; intros x Hx; cbn [SpecFloat.iter_pos].
  - pose proof (shifted_shr_1 x Hx) as H1.
    pose proof (shifted_nonneg 1 _ _ ltac:(lia) Hx H1) as N1.
    pose proof (IH _ N1) as H2.
    pose proof (shifted_nonneg (Z.pos p) _ _ ltac:(lia) N1 H2) as N2.
    pose proof (IH _ N2) as H3.
    replace (Z.pos p~1) with (1 + Z.pos p + Z.pos p) by lia.
    eapply shifted_trans; [lia | lia | assumption | | exact H3].
    eapply shifted_trans; [lia | lia | assumption | exact H1 | exact H2].
  - pose proof (IH _ Hx) as H1.
    pose proof (shifted_nonneg (Z.pos p) _ _ ltac:(lia) Hx H1) as N1.
    pose proof (IH _ N1) as H2.
    replace (Z.pos p~0) with (Z.pos p + Z.pos p) by lia.
    eapply shifted_trans; [lia | lia | assumption | exact H1 | exact H2].
  - apply shifted_shr_1, Hx.
Qed.

Lemma round_nearest_even_cases (m : Z) (x : shr_record) :
  round_nearest_even m (loc_of_shr_record x) = m
  \/ (round_nearest_even m (loc_of_shr_record x) = m + 1
      /\ ~ (shr_r x = false /\ shr_s x = false)).
Proof.
  destruct x as [m0 r s]. destruct r, s; cbn.
  - right. split; [reflexivity|]. intros (H & _). discriminate.
  - destruct (Z.even m); [left; reflexivity|].
    right. split; [reflexivity|]. intros (H & _). discriminate.
  - left. reflexivity.
  - left. reflexivity.
Qed.

Lemma rounds_to_refl (X : Z) : rounds_to X X.
Proof. intros mf ef _. split; intros H; exact H. Qed.

Lemma rounds_to_grid (E q X Y : Z) :
  -149 <= E -> 2 ^ 23 <= q ->
  q * 2 ^ (E + 149) <= X < (q + 1) * 2 ^ (E + 149) ->
  (Y = q * 2 ^ (E + 149) \/ (Y = (q + 1) * 2 ^ (E + 149) /\ X <> q * 2 ^ (E + 149))) ->
  rounds_to X Y.
Proof.
  intros HE Hq HX HY mf ef Hv.
  set (G := 2 ^ (E + 149)) in *.
  assert (PG : 0 < G) by (apply Z.pow_pos_nonneg; lia).
  set (u := Z.pos mf * 2 ^ (ef + 149)).
  assert (Hu : (exists k, u = k * G) \/ u < 2 ^ 23 * G).
  { destruct (Z.le_gt_cases E ef) as [Hle | Hgt].
    - left. exists (Z.pos mf * 2 ^ (ef - E)). unfold u, G.
      replace (ef + 149) with ((ef - E) + (E + 149)) by lia.
      rewrite Z.pow_add_r by lia. lia.
    - right. unfold u, G.
      destruct (valid_finite false mf ef Hv) as [(Hm & ->) | (Hm & He)].
      + assert (2 ^ (-149 + 149) = 1) as -> by reflexivity.
        assert (1 <= 2 ^ (E + 149)) by (apply (Z.pow_le_mono_r 2 0); lia). nia.
      + assert (2 ^ (ef + 149) * 2 <= 2 ^ (E + 149)).
        { replace (E + 149) with ((ef + 149) + (E - ef)) by lia.
          rewrite (Z.pow_add_r 2 (ef + 149) (E - ef)) by lia.
          assert (2 ^ 1 <= 2 ^ (E - ef)) by (apply Z.pow_le_mono_r; lia).
          assert (0 < 2 ^ (ef + 149)) by (apply Z.pow_pos_nonneg; lia).
          change (2 ^ 1) with 2 in *. nia. }
        assert (0 < 2 ^ (ef + 149)) by (apply Z.pow_pos_nonneg; lia).
        change (2 ^ 24) with (2 ^ 23 * 2) in Hm. nia. }
  fold u. destruct Hu as [(k & Hk) | Hsmall].
  - split; intros H.
    + destruct HY as [-> | (-> & Hne)].
      * lia.
      * assert (q < k) by nia. nia.
    + assert (k <= q) by nia. destruct HY as [-> | (-> & _)]; nia.
  - split; intros H; [nia|]. destruct HY as [-> | (-> & _)]; nia.
Qed.

Lemma fexp_32 (k : Z) : fexp F32.prec F32.emax k = Z.max (k - 24) (-149).
Proof. reflexivity. Qed.

Lemma valid_normal (s : bool) (m : positive) (e : Z) :
  2 ^ 23 <= Z.pos m < 2 ^ 24 -> -149 <= e <= 104 -> F32.valid (S754_finite s m e) = true.
Proof.
  intros Hm He. unfold F32.valid, valid_binary, bounded, canonical_mantissa.
  rewrite (digits2_pos_unique m 24) by (simpl; lia). rewrite fexp_32.
  apply andb_true_iff. split; [apply Z.eqb_eq; lia | apply Z.leb_le; unfold F32.emax, F32.prec; lia].
Qed.

Lemma binary_round_aux_units (s : bool) (m : positive) (e : Z) :
  -149 <= e -> e <= fexp F32.prec F32.emax (Z.pos (digits2_pos m) + e) ->
  rounded s (Z.pos m * 2 ^ (e + 149)) (binary_round_aux F32.prec F32.emax s (Z.pos m) e loc_Exact).
Proof.
  intros He Hfexp. rewrite fexp_32 in Hfexp.
  pose proof (digits2_pos_bounds m) as Hd.
  set (d := Z.pos (digits2_pos m)) in *.
  assert (Hd1 : 1 <= d) by (unfold d; lia).
  assert (Pe : 0 < 2 ^ (e + 149)) by (apply Z.pow_pos_nonneg; lia).
  unfold binary_round_aux, shr_fexp at 1. cbn [Zdigits2]. fold d. rewrite fexp_32.
  cbn [shr_record_of_loc].
  destruct (Z.eq_dec (Z.max (d + e - 24) (-149)) e) as [Hcan | Hshift].
  - (* nothing to shift: the number is a binary32 number *)
    rewrite Hcan, Z.sub_diag. cbn [shr shr_m loc_of_shr_record round_nearest_even].
    unfold shr_fexp. cbn [Zdigits2]. fold d. rewrite fexp_32, Hcan, Z.sub_diag.
    cbn [shr_record_of_loc shr shr_m].
    exists (Z.pos m * 2 ^ (e + 149)). split; [apply rounds_to_refl|].
    change (F32.emax - F32.prec) with 104.
    destruct (Z.leb_spec e 104) as [Hle | Hgt].
    + right. exists m, e. split; [reflexivity|]. split; [|reflexivity].
      unfold F32.valid, valid_binary, bounded, canonical_mantissa. fold d.
      rewrite fexp_32, Hcan, Z.eqb_refl. apply Z.leb_le. exact Hle.
    + left. split; [reflexivity|].
      assert (d = 24) by lia.
      assert (2 ^ 23 <= Z.pos m) by (replace 23 with (d - 1) by lia; apply Hd).
      assert (2 ^ 254 <= 2 ^ (e + 149)) by (apply Z.pow_le_mono_r; lia).
      change (2 ^ 277) with (2 ^ 23 * 2 ^ 254). nia.
  - (* the mantissa has [n] bits too many *)
    assert (HE : Z.max (d + e - 24) (-149) = d + e - 24) by lia.
    rewrite HE.
    set (n := d + e - 24 - e).
    assert (Hn : 0 < n) by (unfold n; lia).
    assert (Hnd : n = d - 24) by (unfold n; lia).
    destruct n as [|pn|pn] eqn:En; [lia | | lia].
    cbn [shr].
    pose proof (shifted_iter pn {| shr_m := Z.pos m; shr_r := false; shr_s := false |}
                  ltac:(cbn; lia)) as (Hq & Hexact).
    cbn [shr_m shr_r shr_s] in Hq, Hexact.
    set (x1 := SpecFloat.iter_pos shr_1 pn {| shr_m := Z.pos m; shr_r := false; shr_s := false |})
      in *.
    set (q := shr_m x1) in *.
    assert (Pn : 0 < 2 ^ Z.pos pn) by (apply Z.pow_pos_nonneg; lia).
    pose proof (Z.div_mod (Z.pos m) (2 ^ Z.pos pn) ltac:(lia)) as Hdm.
    pose proof (Z.mod_pos_bound (Z.pos m) (2 ^ Z.pos pn) Pn) as Hrem.
    rewrite <- Hq in Hdm.
    assert (Hpow : 2 ^ d = 2 ^ 24 * 2 ^ Z.pos pn /\ 2 ^ (d - 1) = 2 ^ 23 * 2 ^ Z.pos pn).
    { split.
      - replace d with (24 + Z.pos pn) by lia. apply Z.pow_add_r; lia.
      - replace (d - 1) with (23 + Z.pos pn) by lia. apply Z.pow_add_r; lia. }
    destruct Hpow as (Hp24 & Hp23).
    assert (Hq23 : 2 ^ 23 <= q < 2 ^ 24).
    { rewrite Hp24, Hp23 in Hd. split; nia. }
    set (E := e + Z.pos pn) in *.
    assert (HEe : E = d + e - 24) by (unfold E; lia).
    assert (HG : 2 ^ (E + 149) = 2 ^ Z.pos pn * 2 ^ (e + 149)).
    { unfold E. replace (e + Z.pos pn + 149) with (Z.pos pn + (e + 149)) by lia.
      apply Z.pow_add_r; lia. }
    assert (HX : q * 2 ^ (E + 149) <= Z.pos m * 2 ^ (e + 149) < (q + 1) * 2 ^ (E + 149)).
    { rewrite HG. split; nia. }
    set (m1 := round_nearest_even q (loc_of_shr_record x1)).
    assert (Hm1 : m1 = q \/ (m1 = q + 1 /\ Z.pos m * 2 ^ (e + 149) <> q * 2 ^ (E + 149))).
    { destruct (round_nearest_even_cases q x1) as [H | (H & Hne)]; [left; exact H|].
      right. split; [exact H|]. intros Heq. apply Hne. apply Hexact; try reflexivity.
      rewrite HG in Heq. nia. }
    assert (Hround : rounds_to (Z.pos m * 2 ^ (e + 149)) (m1 * 2 ^ (E + 149))).
    { apply (rounds_to_grid E q); [lia | lia | exact HX|].
      destruct Hm1 as [-> | (-> & Hne)]; [left; reflexivity | right; split; [reflexivity | exact Hne]]. }
    assert (Hm1r : 2 ^ 23 <= m1 <= 2 ^ 24) by (destruct Hm1 as [-> | (-> & _)]; lia).
    exists (m1 * 2 ^ (E + 149)). split; [exact Hround|].
    destruct m1 as [|p1|p1] eqn:Em1; [lia | | lia].
    unfold shr_fexp. cbn [Zdigits2 shr_record_of_loc]. rewrite fexp_32.
    change (F32.emax - F32.prec) with 104.
    destruct (Z.eq_dec (Z.pos p1) (2 ^ 24)) as [Htop | Hlow].
    + (* the mantissa was rounded up to 2^24 *)
      rewrite (digits2_pos_unique p1 25) by (rewrite Htop; simpl; lia).
      replace (Z.max (25 + E - 24) (-149) - E) with 1 by lia.
      assert (p1 = 16777216%positive) as -> by lia.
      cbn [shr SpecFloat.iter_pos shr_1 shr_m].
      destruct (Z.leb_spec (E + 1) 104) as [Hle | Hgt].
      * right. exists 8388608%positive, (E + 1). split; [reflexivity|].
        split; [apply valid_normal; simpl; lia|].
        replace (E + 1 + 149) with (1 + (E + 149)) by lia.
        rewrite (Z.pow_add_r 2 1 (E + 149)) by lia. change (2 ^ 1) with 2. lia.
      * left. split; [reflexivity|].
        assert (2 ^ 253 <= 2 ^ (E + 149)) by (apply Z.pow_le_mono_r; lia).
        change (2 ^ 277) with (16777216 * 2 ^ 253). nia.
    + rewrite (digits2_pos_unique p1 24) by (simpl; simpl in Hm1r; lia).
      replace (Z.max (24 + E - 24) (-149) - E) with 0 by lia.
      cbn [shr shr_m].
      destruct (Z.leb_spec E 104) as [Hle | Hgt].
      * right. exists p1, E. split; [reflexivity|].
        split; [apply valid_normal; simpl; simpl in Hm1r; lia | reflexivity].
      * left. split; [reflexivity|].
        assert (2 ^ 254 <= 2 ^ (E + 149)) by (apply Z.pow_le_mono_r; lia).
        change (2 ^ 277) with (2 ^ 23 * 2 ^ 254). nia.
Qed.

Lemma binary_round_units (s : bool) (m : positive) (e : Z) :
  -149 <= e ->
  rounded s (Z.pos m * 2 ^ (e + 149)) (binary_round F32.prec F32.emax s m e).
Proof.
  intros He. unfold binary_round, shl_align. rewrite fexp_32.
  pose proof (digits2_pos_bounds m) as Hd.
  set (d := Z.pos (digits2_pos m)) in *.
  destruct (Z.max (d + e - 24) (-149) - e) as [|pn|pn] eqn:En.
  - apply binary_round_aux_units; [exact He|]. fold d. rewrite fexp_32. lia.
  - apply binary_round_aux_units; [exact He|]. fold d. rewrite fexp_32. lia.
  - set (e' := Z.max (d + e - 24) (-149)) in *.
    assert (He' : e = e' + Z.pos pn) by lia.
    assert (HX : Z.pos m * 2 ^ (e + 149) = Z.pos (Pos.iter xO m pn) * 2 ^ (e' + 149)).
    { rewrite pos_iter_xO, He'.
      replace (e' + Z.pos pn + 149) with (Z.pos pn + (e' + 149)) by lia.
      rewrite Z.pow_add_r by lia. lia. }
    rewrite HX. apply binary_round_aux_units; [lia|].
    rewrite (digits2_pos_unique _ (d + Z.pos pn)).
    + rewrite fexp_32. lia.
    + rewrite pos_iter_xO.
      assert (Pn : 0 < 2 ^ Z.pos pn) by (apply Z.pow_pos_nonneg; lia).
      replace (d + Z.pos pn - 1) with ((d - 1) + Z.pos pn) by lia.
      rewrite !Z.pow_add_r by lia. nia.
Qed.

(** ** The difference of two binary32 numbers, and its comparison *)

Lemma is_number_cases (f : float) :
  is_number f = true ->
  (exists s, f = S754_zero s)
  \/ exists s m e, f = S754_finite s m e /\ F32.valid f = true /\ -149 <= e <= 104
                   /\ Z.pos m < 2 ^ 24.
Proof.
  unfold is_number. intros H. apply andb_true_iff in H as (Hv & Hf).
  destruct f as [s|s| |s m e]; try discriminate.
  - left. eauto.
  - right. exists s, m, e. split; [reflexivity|]. split; [exact Hv|].
    destruct (valid_finite s m e Hv) as [(Hm & ->) | (Hm & He)]; lia.
Qed.

Lemma shl_align_units (m : positive) (e ez : Z) :
  -149 <= ez -> ez <= e ->
  Z.pos (fst (shl_align m e ez)) * 2 ^ (ez + 149) = Z.pos m * 2 ^ (e + 149).
Proof.
  intros Hpos Hle. unfold shl_align. destruct (ez - e) as [|p|p] eqn:Ed; cbn [fst].
  - replace e with ez by lia. reflexivity.
  - lia.
  - rewrite pos_iter_xO. replace (e + 149) with (Z.pos p + (ez + 149)) by lia.
    rewrite (Z.pow_add_r 2 (Z.pos p) (ez + 149)) by lia. lia.
Qed.

(** The absolute value of the difference of two numbers, as [mergable_]
    computes it: zero when they are equal, their distance rounded
    otherwise. *)
Lemma abs_sub_units (a b : float) :
  is_number a = true -> is_number b = true ->
  (distance a b = 0 /\ F32.abs (F32.sub a b) = S754_zero false)
  \/ (0 < distance a b /\ rounded false (distance a b) (F32.abs (F32.sub a b))).
Proof.
  intros Ha Hb. unfold distance.
  assert (Hexact : forall s m e, F32.valid (S754_finite s m e) = true ->
            rounded false (Z.pos m * 2 ^ (e + 149)) (S754_finite false m e)).
  { intros s m e Hv. exists (Z.pos m * 2 ^ (e + 149)). split; [apply rounds_to_refl|].
    right. exists m, e. split; [reflexivity|]. split; [exact Hv | reflexivity]. }
  destruct (is_number_cases a Ha) as [(sa & ->) | (sa & ma & ea & -> & Va & Ea & Ma)];
    destruct (is_number_cases b Hb) as [(sb & ->) | (sb & mb & eb & -> & Vb & Eb & Mb)].
  - left. split; [reflexivity|]. destruct sa, sb; reflexivity.
  - right. cbn [units F32.sub SFsub F32.abs SFabs].
    assert (P : 0 < Z.pos mb * 2 ^ (eb + 149)).
    { apply Z.mul_pos_pos; [lia | apply Z.pow_pos_nonneg; lia]. }
    replace (Z.abs (0 - cond_Zopp sb (Z.pos mb * 2 ^ (eb + 149))))
      with (Z.pos mb * 2 ^ (eb + 149)) by (destruct sb; cbn [cond_Zopp]; lia).
    split; [exact P | apply (Hexact sb), Vb].
  - right. cbn [units F32.sub SFsub F32.abs SFabs].
    assert (P : 0 < Z.pos ma * 2 ^ (ea + 149)).
    { apply Z.mul_pos_pos; [lia | apply Z.pow_pos_nonneg; lia]. }
    replace (Z.abs (cond_Zopp sa (Z.pos ma * 2 ^ (ea + 149)) - 0))
      with (Z.pos ma * 2 ^ (ea + 149)) by (destruct sa; cbn [cond_Zopp]; lia).
    split; [exact P | apply (Hexact sa), Va].
  - cbn [units]. unfold F32.sub, SFsub.
    set (ez := Z.min ea eb).
    pose proof (shl_align_units ma ea ez ltac:(unfold ez; lia) ltac:(unfold ez; lia)) as HA.
    pose proof (shl_align_units mb eb ez ltac:(unfold ez; lia) ltac:(unfold ez; lia)) as HB.
    set (D := cond_Zopp sa (Z.pos (fst (shl_align ma ea ez)))
              - cond_Zopp sb (Z.pos (fst (shl_align mb eb ez)))).
    assert (HD : cond_Zopp sa (Z.pos ma * 2 ^ (ea + 149)) - cond_Zopp sb (Z.pos mb * 2 ^ (eb + 149))
                 = D * 2 ^ (ez + 149)).
    { unfold D. rewrite <- HA, <- HB. destruct sa, sb; cbn [cond_Zopp]; lia. }
    rewrite HD.
    assert (Pz : 0 < 2 ^ (ez + 149)) by (apply Z.pow_pos_nonneg; unfold ez; lia).
    unfold binary_normalize. destruct D as [|p|p] eqn:ED.
    + left. split; reflexivity.
    + right. split; [lia|].
      replace (Z.abs (Z.pos p * 2 ^ (ez + 149))) with (Z.pos p * 2 ^ (ez + 149)) by lia.
      pose proof (binary_round_units false p ez ltac:(unfold ez; lia)) as (Y & HY & Hr).
      exists Y. split; [exact HY|]. destruct Hr as [(-> & Hbig) | (m & e & -> & Hv & HYe)].
      * left. split; [reflexivity | exact Hbig].
      * right. exists m, e. split; [reflexivity|]. split; [exact Hv | exact HYe].
    + right. split; [lia|].
      replace (Z.abs (Z.neg p * 2 ^ (ez + 149))) with (Z.pos p * 2 ^ (ez + 149)) by lia.
      pose proof (binary_round_units true p ez ltac:(unfold ez; lia)) as (Y & HY & Hr).
      exists Y. split; [exact HY|]. destruct Hr as [(-> & Hbig) | (m & e & -> & Hv & HYe)].
      * left. split; [reflexivity | exact Hbig].
      * right. exists m, e. split; [reflexivity|]. split; [exact Hv | exact HYe].
Qed.

Lemma units_pos (m : positive) (e : Z) : -149 <= e -> 0 < Z.pos m * 2 ^ (e + 149).
Proof. intros He. apply Z.mul_pos_pos; [lia | apply Z.pow_pos_nonneg; lia]. Qed.

Lemma valid_exponent (s : bool) (m : positive) (e : Z) :
  F32.valid (S754_finite s m e) = true -> -149 <= e <= 104 /\ Z.pos m < 2 ^ 24.
Proof. intros Hv. destruct (valid_finite s m e Hv) as [(Hm & ->) | (Hm & He)]; lia. Qed.

(** On binary32 numbers the comparison of [SpecFloat] is that of the
    numbers. *)
Lemma SFcompare_units (m1 m2 : positive) (e1 e2 : Z) :
  F32.valid (S754_finite false m1 e1) = true -> F32.valid (S754_finite false m2 e2) = true ->
  SFcompare (S754_finite false m1 e1) (S754_finite false m2 e2)
  = Some (Z.pos m1 * 2 ^ (e1 + 149) ?= Z.pos m2 * 2 ^ (e2 + 149)).
Proof.
  intros V1 V2. cbn [SFcompare]. f_equal.
  assert (Hstep : forall ma mb ea eb,
            F32.valid (S754_finite false ma ea) = true ->
            F32.valid (S754_finite false mb eb) = true -> ea < eb ->
            Z.pos ma * 2 ^ (ea + 149) < Z.pos mb * 2 ^ (eb + 149)).
  { intros ma mb ea eb Va Vb Hlt.
    destruct (valid_exponent _ _ _ Va) as (Ea & Ma).
    destruct (valid_finite _ _ _ Vb) as [(Mb & ->) | (Mb & Eb)]; [lia|].
    assert (P : 0 < 2 ^ (ea + 149)) by (apply Z.pow_pos_nonneg; lia).
    assert (2 ^ (ea + 149) * 2 <= 2 ^ (eb + 149)).
    { replace (eb + 149) with ((ea + 149) + (eb - ea)) by lia.
      rewrite (Z.pow_add_r 2 (ea + 149) (eb - ea)) by lia.
      assert (2 ^ 1 <= 2 ^ (eb - ea)) by (apply Z.pow_le_mono_r; lia).
      change (2 ^ 1) with 2 in *. nia. }
    change (2 ^ 24) with (2 ^ 23 * 2) in Ma. nia. }
  destruct (Z.compare_spec e1 e2) as [-> | Hlt | Hgt].
  - destruct (valid_exponent _ _ _ V2) as (E2 & _).
    change (Pos.compare_cont Eq m1 m2) with (Z.pos m1 ?= Z.pos m2).
    apply Zmult_compare_compat_r. apply Z.lt_gt, Z.pow_pos_nonneg; lia.
  - symmetry. apply Z.compare_lt_iff. apply Hstep; assumption.
  - symmetry. apply Z.compare_gt_iff. apply Hstep; assumption.
Qed.

Lemma at_most_le (n n' : Z) (eps : float) : n' <= n -> at_most n eps -> at_most n' eps.
Proof. intros Hle. destruct eps as [s|[|]| |s m e]; cbn; try tauto; lia. Qed.

Lemma ltb_finite_units (eps : float) (m : positive) (e : Z) :
  F32.valid eps = true -> F32.is_nan eps = false ->
  F32.valid (S754_finite false m e) = true ->
  F32.gtb (S754_finite false m e) eps = false <-> at_most (Z.pos m * 2 ^ (e + 149)) eps.
Proof.
  intros Ve Hn Vr. unfold F32.gtb, SFltb.
  destruct (valid_exponent _ _ _ Vr) as (Er & _).
  pose proof (units_pos m e ltac:(lia)) as P.
  destruct eps as [s|[|]| |[|] me ee]; try discriminate.
  - cbn. split; [discriminate | lia].
  - cbn. split; [discriminate | tauto].
  - cbn. split; tauto.
  - cbn [SFcompare at_most units cond_Zopp].
    destruct (valid_exponent _ _ _ Ve) as (Ee & _).
    pose proof (units_pos me ee ltac:(lia)). split; [discriminate | lia].
  - rewrite (SFcompare_units me m ee e Ve Vr). cbn [at_most units cond_Zopp].
    destruct (Z.compare_spec (Z.pos me * 2 ^ (ee + 149)) (Z.pos m * 2 ^ (e + 149)));
      split; intros; try reflexivity; try discriminate; lia.
Qed.

Lemma ltb_zero_units (eps : float) :
  F32.valid eps = true -> F32.is_nan eps = false ->
  F32.gtb (S754_zero false) eps = false <-> at_most 0 eps.
Proof.
  intros Ve Hn. unfold F32.gtb, SFltb.
  destruct eps as [s|[|]| |[|] me ee]; try discriminate; cbn [SFcompare at_most units cond_Zopp].
  - split; [lia | reflexivity].
  - split; [discriminate | tauto].
  - split; [tauto | reflexivity].
  - split; [discriminate|]. destruct (valid_exponent _ _ _ Ve) as (Ee & _).
    pose proof (units_pos me ee ltac:(lia)). lia.
  - split; [|reflexivity]. intros _. destruct (valid_exponent _ _ _ Ve) as (Ee & _).
    pose proof (units_pos me ee ltac:(lia)). lia.
Qed.

Lemma at_most_bound (n : Z) (eps : float) :
  F32.valid eps = true -> at_most n eps -> eps = S754_infinity false \/ n < 2 ^ 277.
Proof.
  intros Ve H. destruct eps as [s|[|]| |s me ee]; cbn [at_most] in H; try tauto.
  - right. cbn [units] in H. lia.
  - right. destruct (valid_exponent _ _ _ Ve) as (Ee & Me).
    assert (H1 : 2 ^ (ee + 149) <= 2 ^ 253) by (apply Z.pow_le_mono_r; lia).
    assert (H0 : 0 < 2 ^ (ee + 149)) by (apply Z.pow_pos_nonneg; lia).
    assert (H2 : units (S754_finite s me ee) <= Z.pos me * 2 ^ (ee + 149))
      by (destruct s; cbn [units cond_Zopp]; lia).
    assert (H3 : Z.pos me * 2 ^ (ee + 149) <= Z.pos me * 2 ^ 253)
      by (apply Z.mul_le_mono_nonneg_l; lia).
    assert (H4 : Z.pos me * 2 ^ 253 < 2 ^ 24 * 2 ^ 253)
      by (apply Z.mul_lt_mono_pos_r; [reflexivity | exact Me]).
    change (2 ^ 277) with (2 ^ 24 * 2 ^ 253). lia.
Qed.

(** The test of [mergable_] on one axis, against the numbers: it passes when
    the two numbers differ by at most the tolerance, and only when they do
    so up to the rounding of their difference. *)
Lemma exceeds_units (eps a b : float) :
  is_number a = true -> is_number b = true ->
  F32.valid eps = true -> F32.is_nan eps = false ->
  (differ_at_most eps a b -> exceeds eps a b = false)
  /\ (exceeds eps a b = false -> differ_at_most_rounded eps a b).
Proof.
  intros Ha Hb Ve Hn. unfold exceeds, differ_at_most, differ_at_most_rounded.
  destruct (abs_sub_units a b Ha Hb) as [(Hd & ->) | (Hd & Y & HY & Hr)].
  - rewrite Hd. split.
    + intros (_ & _ & H). apply ltb_zero_units; assumption.
    + intros H. split; [exact Ha|]. split; [exact Hb|]. intros f _ Hf.
      apply (at_most_le 0); [exact Hf|]. apply ltb_zero_units; assumption.
  - assert (Hup : at_most (distance a b) eps -> eps = S754_infinity false \/ at_most Y eps).
    { intros H. destruct eps as [s|[|]| |[|] me ee]; cbn in H; try tauto; try discriminate.
      - lia.
      - destruct (valid_exponent _ _ _ Ve) as (Ee & _).
        pose proof (units_pos me ee ltac:(lia)). lia.
      - right. cbn [at_most units cond_Zopp]. apply (HY me ee Ve). exact H. }
    assert (Hdown : at_most Y eps ->
              forall f, is_number f = true -> units f <= distance a b -> at_most (units f) eps).
    { intros H f Hf Hle.
      assert (HYpos : 0 <= Y).
      { destruct (is_number_cases f Hf) as [(sf & ->) | (sf & mf & ef & -> & Vf & Ef & Mf)].
        - destruct (HY 8388608%positive (-149) eq_refl) as (_ & Hlow).
          destruct (Z.le_gt_cases (8388608 * 2 ^ (-149 + 149)) (distance a b)) as [Hge | Hlt].
          + specialize (Hlow Hge). simpl in Hlow. lia.
          + destruct (HY 1%positive (-149) eq_refl) as (_ & Hlow1).
            apply Z.le_trans with (1 * 2 ^ (-149 + 149)); [simpl; lia|]. apply Hlow1.
            simpl. lia.
        - destruct (HY 1%positive (-149) eq_refl) as (_ & Hlow1).
          apply Z.le_trans with (1 * 2 ^ (-149 + 149)); [simpl; lia|]. apply Hlow1.
          simpl. lia. }
      destruct (is_number_cases f Hf) as [(sf & ->) | (sf & mf & ef & -> & Vf & Ef & Mf)].
      - apply (at_most_le Y); [cbn; lia | exact H].
      - destruct sf.
        + apply (at_most_le Y); [|exact H]. cbn [units cond_Zopp].
          pose proof (units_pos mf ef ltac:(lia)). lia.
        + apply (at_most_le Y); [|exact H]. cbn [units cond_Zopp] in *.
          apply (HY mf ef Vf). exact Hle. }
    destruct Hr as [(-> & Hbig) | (m & e & -> & Vr & HYe)].
    + split.
      * intros (_ & _ & H). destruct (Hup H) as [-> | H']; [reflexivity|].
        destruct (at_most_bound Y eps Ve H') as [-> | Hlt]; [reflexivity | lia].
      * intros H. split; [exact Ha|]. split; [exact Hb|].
        assert (eps = S754_infinity false) as ->.
        { unfold F32.gtb, SFltb in H.
          destruct eps as [s|[|]| |[|] me ee]; try discriminate; reflexivity. }
        intros f _ _. exact I.
    + subst Y. split.
      * intros (_ & _ & H). apply ltb_finite_units; try assumption.
        destruct (Hup H) as [-> | H']; [exact I | exact H'].
      * intros H. split; [exact Ha|]. split; [exact Hb|].
        apply Hdown. apply ltb_finite_units in H; assumption.
Qed.

(** ** The mergeability test against the numbers *)

Lemma number_vec3_at (v : vec3) (k : Z) : number_vec3 v -> is_number (vec3_at v k) = true.
Proof.
  intros (Hx & Hy & Hz). unfold vec3_at.
  destruct (k =? 0); [assumption|]. destruct (k =? 1); assumption.
Qed.

Lemma number_vec2_at (v : vec2) (k : Z) : number_vec2 v -> is_number (vec2_at v k) = true.
Proof. intros (Hx & Hy). unfold vec2_at. destruct (k =? 0); assumption. Qed.

(** From one relation between coordinates to another, on the coordinates of
    a soup of numbers. *)
Lemma axes_mergable_impl (P Q : float -> float -> Prop) (aSoup : TriangleSoup) (aI aJ : Z)
    (aIPos aJPos : vec3) :
  number_soup aSoup ->
  vert aSoup !! Z.to_nat aI = Some aIPos -> vert aSoup !! Z.to_nat aJ = Some aJPos ->
  (forall a b, is_number a = true -> is_number b = true -> P a b -> Q a b) ->
  axes_mergable P aSoup aI aJ aIPos aJPos -> axes_mergable Q aSoup aI aJ aIPos aJPos.
Proof.
  intros (Nv & Nn & Nt) HpI HpJ HPQ (Hp & Hn & (tI & tJ & LtI & LtJ & Ht)).
  pose proof (Forall_lookup_1 _ _ _ _ Nv HpI) as NpI.
  pose proof (Forall_lookup_1 _ _ _ _ Nv HpJ) as NpJ.
  pose proof (Forall_lookup_1 _ _ _ _ Nt LtI) as NtI.
  pose proof (Forall_lookup_1 _ _ _ _ Nt LtJ) as NtJ.
  split; [|split].
  - intros k Hk. apply HPQ; [apply number_vec3_at, NpI | apply number_vec3_at, NpJ | apply Hp, Hk].
  - destruct Hn as [Hnil | (nI & nJ & LnI & LnJ & Hn)]; [left; exact Hnil | right].
    pose proof (Forall_lookup_1 _ _ _ _ Nn LnI) as NnI.
    pose proof (Forall_lookup_1 _ _ _ _ Nn LnJ) as NnJ.
    exists nI, nJ. split; [exact LnI|]. split; [exact LnJ|].
    intros k Hk. apply HPQ; [apply number_vec3_at, NnI | apply number_vec3_at, NnJ | apply Hn, Hk].
  - exists tI, tJ. split; [exact LtI|]. split; [exact LtJ|].
    intros k Hk. apply HPQ; [apply number_vec2_at, NtI | apply number_vec2_at, NtJ | apply Ht, Hk].
Qed.

(** C2 (as stated) fails twice. A NaN among the coordinates never blocks a
    merge: the vertex at (NaN, 0, 0) merges with the vertex at the origin.
    And the difference is rounded before it is compared: the vertices at 1
    and at -2^-25 are 1 + 2^-25 apart, which is more than the tolerance 1,
    and merge. *)
Lemma mergable_counterexample :
  (mergable_ nan_points 0 1 (Vec3 S754_nan (F32.of_Z 0) (F32.of_Z 0))
             (Vec3 (F32.of_Z 0) (F32.of_Z 0) (F32.of_Z 0)) tolerance_1e5 = Ok true
   /\ ~ spec_mergable nan_points 0 1 (Vec3 S754_nan (F32.of_Z 0) (F32.of_Z 0))
          (Vec3 (F32.of_Z 0) (F32.of_Z 0) (F32.of_Z 0)) tolerance_1e5)
  /\ (mergable_ rounding_points 0 1 (Vec3 float_one (F32.of_Z 0) (F32.of_Z 0))
                (Vec3 (S754_finite true 8388608 (-48)) (F32.of_Z 0) (F32.of_Z 0)) float_one
      = Ok true
      /\ distance float_one (S754_finite true 8388608 (-48)) = units float_one + 2 ^ 124
      /\ ~ spec_mergable rounding_points 0 1 (Vec3 float_one (F32.of_Z 0) (F32.of_Z 0))
             (Vec3 (S754_finite true 8388608 (-48)) (F32.of_Z 0) (F32.of_Z 0)) float_one).
Proof.
  split; [split|split; [|split]].
  - vm_compute. reflexivity.
  - intros (Hp & _). destruct (Hp 0 ltac:(lia)) as (Hnum & _). vm_compute in Hnum. discriminate.
  - vm_compute. reflexivity.
  - vm_compute. reflexivity.
  - intros (Hp & _). destruct (Hp 0 ltac:(lia)) as (_ & _ & Hle). vm_compute in Hle.
    apply Hle. reflexivity.
Qed.

(** C2 (as amended). On a soup of numbers and for a tolerance that is not a
    NaN, [mergable_] answers [true] when every axis of the position, of the
    normal (when the soup has normals) and of the texture coordinate of the
    two vertices differs in absolute value by at most the tolerance, and
    only when every such axis does so up to the rounding of the difference:
    no binary32 number lies above the tolerance and at or below the
    difference. One threshold per attribute and per axis, no Euclidean
    distance. *)
Theorem mergable_up_to_rounding (aSoup : TriangleSoup) (aI aJ : Z) (aIPos aJPos : vec3)
    (eps : float) :
  wf_soup aSoup -> number_soup aSoup -> F32.valid eps = true -> F32.is_nan eps = false ->
  0 <= aI -> 0 <= aJ ->
  vert aSoup !! Z.to_nat aI = Some aIPos -> vert aSoup !! Z.to_nat aJ = Some aJPos ->
  exists b, mergable_ aSoup aI aJ aIPos aJPos eps = Ok b
            /\ (axes_mergable (differ_at_most eps) aSoup aI aJ aIPos aJPos -> b = true)
            /\ (b = true ->
                axes_mergable (differ_at_most_rounded eps) aSoup aI aJ aIPos aJPos).
Proof.
  intros Hwf Hnum Ve Hn HI HJ HpI HpJ.
  destruct (mergable_by_axes aSoup aI aJ aIPos aJPos eps Hwf HI HJ HpI HpJ) as (b & Hb & Hiff).
  exists b. split; [exact Hb|]. split.
  - intros H. apply Hiff. revert H. apply axes_mergable_impl; try assumption.
    intros x y Hx Hy. apply (exceeds_units eps x y Hx Hy Ve Hn).
  - intros H. apply Hiff in H. revert H. apply axes_mergable_impl; try assumption.
    intros x y Hx Hy. apply (exceeds_units eps x y Hx Hy Ve Hn).
Qed.

(** ** Arrays in the file *)

Lemma words_of_bytes_le32 (z : Z) (rest : list byte) :
  words_of_bytes (le32 z ++ rest) = z mod two32 :: words_of_bytes rest.
Proof.
  rewrite <- le32_decode_le32. reflexivity.
Qed.

Lemma words_of_bytes_concat (zs : list Z) :
  Forall (fun x => 0 <= x < two32) zs ->
  words_of_bytes (concat (map le32 zs)) = zs.
Proof.
  induction 1 as [|z zs Hz _ IH]; [reflexivity|].
  cbn [map concat]. rewrite words_of_bytes_le32, IH, Z.mod_small by assumption. reflexivity.
Qed.

Lemma floats_of_bytes_cons (f : float) (rest : list byte) :
  F32.valid f = true ->
  floats_of_bytes (float_bytes f ++ rest) = f :: floats_of_bytes rest.
Proof.
  intros Hv. unfold floats_of_bytes, float_bytes. rewrite words_of_bytes_le32.
  cbn [map]. rewrite Z.mod_small by (apply to_bits_range, Hv).
  rewrite of_bits_to_bits by assumption. reflexivity.
Qed.

Lemma vec2s_of_bytes (vs : list vec2) :
  Forall valid_vec2 vs ->
  vec2s_of_floats (floats_of_bytes (concat (map vec2_bytes vs))) = vs.
Proof.
  induction 1 as [|[x y] vs (Hx & Hy) _ IH]; [reflexivity|].
  cbn [map concat]. unfold vec2_bytes at 1. cbn [v2x v2y] in *.
  rewrite <- !app_assoc, !floats_of_bytes_cons by assumption.
  cbn [vec2s_of_floats]. rewrite IH. reflexivity.
Qed.

Lemma vec3s_of_bytes (vs : list vec3) :
  Forall valid_vec3 vs ->
  vec3s_of_floats (floats_of_bytes (concat (map vec3_bytes vs))) = vs.
Proof.
  induction 1 as [|[x y z] vs (Hx & Hy & Hz) _ IH]; [reflexivity|].
  cbn [map concat]. unfold vec3_bytes at 1. cbn [v3x v3y v3z] in *.
  rewrite <- !app_assoc, !floats_of_bytes_cons by assumption.
  cbn [vec3s_of_floats]. rewrite IH. reflexivity.
Qed.

Lemma vec4s_of_bytes (vs : list vec4) :
  Forall valid_vec4 vs ->
  vec4s_of_floats (floats_of_bytes (concat (map vec4_bytes vs))) = vs.
Proof.
  induction 1 as [|[x y z w] vs (Hx & Hy & Hz & Hw) _ IH]; [reflexivity|].
  cbn [map concat]. unfold vec4_bytes at 1. cbn [v4x v4y v4z v4w] in *.
  rewrite <- !app_assoc, !floats_of_bytes_cons by assumption.
  cbn [vec4s_of_floats]. rewrite IH. reflexivity.
Qed.

Lemma concat_fixed_length {A} (enc : A -> list byte) (n : nat) (xs : list A) :
  (forall x, length (enc x) = n) -> length (concat (map enc xs)) = (n * length xs)%nat.
Proof.
  intros Henc. induction xs as [|x xs IH]; cbn [map concat length]; [lia|].
  rewrite length_app, Henc, IH. lia.
Qed.

Lemma write_array_all {A} (enc : A -> list byte) (v : list A) :
  Bake.write_array enc (Z.of_nat (length v)) v = Ok (concat (map enc v)).
Proof.
  unfold Bake.write_array. rewrite Z.leb_refl, Nat2Z.id, firstn_all. reflexivity.
Qed.

Lemma mapM_Ok {E X Y} (f : X -> result E Y) (g : X -> Y) (xs : list X) :
  Forall (fun x => f x = Ok (g x)) xs -> mapM f xs = Ok (map g xs).
Proof.
  induction 1 as [|x xs Hx _ IH]; [reflexivity|].
  cbn [mapM map]. rewrite Hx. cbn [bind]. rewrite IH. reflexivity.
Qed.

(** A table of [n] entries, each read by [body] from its own bytes. *)
Lemma read_n_table {X A} (enc : X -> list byte) (dec : X -> A) (body : Baked.reader A)
    (xs : list X) (acc : list A) (rest : list byte) :
  Forall (fun x => forall more, body (enc x ++ more) = Ok (dec x, more)) xs ->
  Baked.read_n (length xs) (fun _ => body) acc (concat (map enc xs) ++ rest)
  = Ok (acc ++ map dec xs, rest).
Proof.
  intros H. revert acc. induction H as [|x xs Hx _ IH]; intros acc.
  - cbn. rewrite app_nil_r. reflexivity.
  - cbn [length Baked.read_n map concat]. unfold Baked.rbind at 1.
    rewrite <- app_assoc, Hx, IH, <- app_assoc. reflexivity.
Qed.

(** ** The texture table is written in the order of the ids *)

Lemma order_unique_fill (ordered : list (string * Bake.TextureInfo_))
    (l2 l1 : list (string * Bake.TextureInfo_)) (slots : list (option Bake.TextureInfo_)) :
  NoDup ordered ->
  (forall k e, ordered !! k = Some e -> Bake.uniqueId (snd e) = Z.of_nat k) ->
  NoDup (l1 ++ l2) -> (forall e, e ∈ l1 ++ l2 -> e ∈ ordered) ->
  length slots = length ordered ->
  (forall k e, ordered !! k = Some e ->
     (e ∈ l1 -> slots !! k = Some (Some (snd e))) /\ (e ∉ l1 -> slots !! k = Some None)) ->
  exists slots',
    foldM (fun ordered (tex : string * Bake.TextureInfo_) =>
             bind (vget ordered (Bake.uniqueId (snd tex))) (fun slot =>
             bind (c_assert (bool_decide (slot = None))) (fun _ =>
             vset ordered (Bake.uniqueId (snd tex)) (Some (snd tex)))))
          l2 slots = Ok slots'
    /\ length slots' = length ordered
    /\ forall k e, ordered !! k = Some e ->
         (e ∈ l1 ++ l2 -> slots' !! k = Some (Some (snd e)))
         /\ (e ∉ l1 ++ l2 -> slots' !! k = Some None).
Proof.
  intros Hnd Hid. revert l1 slots.
  induction l2 as [|e l2 IH]; intros l1 slots Hnd12 Hin Hlen Hinv.
  - exists slots. rewrite app_nil_r. repeat split; try assumption; apply Hinv; assumption.
  - assert (He : e ∈ ordered).
    { apply Hin, elem_of_app. right. apply elem_of_cons. left. reflexivity. }
    apply list_elem_of_lookup in He as (k & Hk).
    pose proof (Hid k e Hk) as Hide.
    assert (Hfresh : e ∉ l1).
    { apply NoDup_app in Hnd12 as (_ & Hdisj & _). intros Hl1.
      apply (Hdisj e Hl1). apply elem_of_cons. left. reflexivity. }
    pose proof (proj2 (Hinv k e Hk) Hfresh) as Hslot.
    cbn [foldM]. rewrite Hide.
    rewrite (proj2 (vget_Ok slots (Z.of_nat k) None)) by (rewrite Nat2Z.id; split; [lia | exact Hslot]).
    cbn [bind]. rewrite bool_decide_eq_true_2 by reflexivity. cbn [c_assert bind].
    pose proof (lookup_lt_Some _ _ _ Hk) as Hklt.
    rewrite vset_in_range by lia. cbn [bind]. rewrite Nat2Z.id.
    destruct (IH (l1 ++ [e]) (<[k := Some (snd e)]> slots)) as (slots' & Hrun & Hlen' & Hinv').
    + rewrite <- app_assoc. exact Hnd12.
    + intros e' He'. apply Hin. rewrite <- app_assoc in He'. exact He'.
    + rewrite length_insert. exact Hlen.
    + intros k' e' Hk'. destruct (decide (k' = k)) as [->|Hne].
      * rewrite Hk in Hk'. injection Hk' as <-.
        rewrite list_lookup_insert_eq by lia. split; [reflexivity|].
        intros Hnot. exfalso. apply Hnot, elem_of_app. right.
        apply list_elem_of_singleton. reflexivity.
      * rewrite list_lookup_insert_ne by lia.
        assert (Hee : e' <> e).
        { intros ->. apply Hne. exact (NoDup_lookup ordered k' k e Hnd Hk' Hk). }
        destruct (Hinv k' e' Hk') as (Hyes & Hno). split.
        -- intros He'. apply Hyes. apply elem_of_app in He' as [He'|He']; [exact He'|].
           apply list_elem_of_singleton in He'. contradiction.
        -- intros He'. apply Hno. intros Hl1. apply He', elem_of_app. left. exact Hl1.
    + exists slots'. split; [exact Hrun|]. split; [exact Hlen'|].
      intros k' e' Hk'. rewrite <- app_assoc in Hinv'. exact (Hinv' k' e' Hk').
Qed.

Lemma order_unique_spec (aTextures : gmap string Bake.TextureInfo_)
    (ordered : list (string * Bake.TextureInfo_)) :
  textures_by_id aTextures ordered ->
  Bake.order_unique aTextures = Ok (map (fun e => Some (snd e)) ordered).
Proof.
  intros (Hperm & Hid). unfold Bake.order_unique.
  assert (Hnd : NoDup ordered).
  { rewrite Hperm. apply NoDup_map_to_list. }
  assert (Hsize : size aTextures = length ordered).
  { rewrite <- length_map_to_list. symmetry. apply Permutation_length, Hperm. }
  destruct (order_unique_fill ordered (map_to_list aTextures) [] (replicate (size aTextures) None)
              Hnd Hid) as (slots & Hrun & Hlen & Hinv).
  - apply NoDup_map_to_list.
  - intros e He. rewrite Hperm. exact He.
  - rewrite length_replicate. exact Hsize.
  - intros k e Hk. split; [intros He; exfalso; exact (not_elem_of_nil _ He)|].
    intros _. apply lookup_replicate_2. apply lookup_lt_Some in Hk. lia.
  - rewrite Hrun. f_equal. apply list_eq. intros k.
    rewrite list_lookup_fmap.
    destruct (ordered !! k) as [e|] eqn:Hk; cbn.
    + apply (Hinv k e Hk). cbn [app]. rewrite <- Hperm. apply list_elem_of_lookup. eauto.
    + apply lookup_ge_None. apply lookup_ge_None in Hk. lia.
Qed.

Lemma texture_lookup_id (aTextures : gmap string Bake.TextureInfo_)
    (ordered : list (string * Bake.TextureInfo_)) (p : string) (info : Bake.TextureInfo_) :
  textures_by_id aTextures ordered -> aTextures !! p = Some info ->
  0 <= Bake.uniqueId info < Z.of_nat (length ordered).
Proof.
  intros (Hperm & Hid) Hp.
  assert (Hin : (p, info) ∈ ordered).
  { rewrite Hperm. apply elem_of_map_to_list. exact Hp. }
  apply list_elem_of_lookup in Hin as (k & Hk).
  pose proof (Hid k _ Hk) as Hidk. cbn in Hidk. rewrite Hidk.
  apply lookup_lt_Some in Hk. lia.
Qed.

(** ** Entry by entry: what is written is what is read *)

Lemma uint32_small (z : Z) : 0 <= z < two32 -> uint32 z = z.
Proof. intros Hz. unfold uint32. apply Z.mod_small, Hz. Qed.

Lemma write_texture_entry (t : Bake.TextureInfo_) :
  loadable_path t ->
  Bake.write_texture (Some t)
  = Ok (texture_entry (path_with_terminator t, Bake.channels t)).
Proof.
  unfold loadable_path, path_with_terminator, Bake.write_texture, Bake.write_string_, texture_entry.
  change Baked.kMaxString with 32768. intros Hp. cbn [fst snd].
  set (s := Bake.c_str (Bake.newPath t)) in *.
  rewrite uint32_small by (change two32 with 4294967296; lia).
  assert (Hlen : length (s ++ [x00]) = Z.to_nat (Z.of_nat (length s) + 1)).
  { rewrite length_app. simpl. lia. }
  rewrite <- Hlen, firstn_all. rewrite <- app_assoc.
  replace (Z.of_nat (length s) + 1) with (Z.of_nat (length (s ++ [x00])))
    by (rewrite length_app; simpl; lia).
  rewrite <- app_assoc. reflexivity.
Qed.

Lemma write_tex_id (aTextures : gmap string Bake.TextureInfo_) (p : string) :
  optional_texture aTextures p ->
  Bake.write_tex_ aTextures p = Ok (le32 (texture_id aTextures p)).
Proof.
  unfold Bake.write_tex_, texture_id. intros [-> | (info & Hinfo)].
  - rewrite bool_decide_eq_true_2 by reflexivity. reflexivity.
  - destruct (bool_decide (p = EmptyString)); [reflexivity|]. rewrite Hinfo. reflexivity.
Qed.

Lemma required_optional (aTextures : gmap string Bake.TextureInfo_) (p : string) :
  required_texture aTextures p -> optional_texture aTextures p.
Proof. intros (_ & H). right. exact H. Qed.

Lemma write_material_bytes (aTextures : gmap string Bake.TextureInfo_)
    (m : Bake.InputMaterialInfo) :
  wf_material aTextures m ->
  Bake.write_material aTextures m = Ok (material_bytes aTextures m).
Proof.
  intros (Ha & Hb & Hc & Hd & He). unfold Bake.write_material, material_bytes.
  rewrite !write_tex_id by first [assumption | apply required_optional; assumption].
  reflexivity.
Qed.

Lemma texture_id_range (aTextures : gmap string Bake.TextureInfo_)
    (ordered : list (string * Bake.TextureInfo_)) (p : string) :
  textures_by_id aTextures ordered -> Z.of_nat (length ordered) < two32 ->
  optional_texture aTextures p -> 0 <= texture_id aTextures p < two32.
Proof.
  intros Hby Hn Hp. unfold texture_id.
  destruct (bool_decide (p = EmptyString)) eqn:Hempty.
  - unfold Bake.sentinel. change two32 with 4294967296. lia.
  - destruct Hp as [-> | (info & Hinfo)].
    + rewrite bool_decide_eq_true_2 in Hempty by reflexivity. discriminate.
    + rewrite Hinfo. pose proof (texture_lookup_id _ _ _ _ Hby Hinfo). lia.
Qed.

Lemma texture_id_required (aTextures : gmap string Bake.TextureInfo_)
    (ordered : list (string * Bake.TextureInfo_)) (p : string) :
  textures_by_id aTextures ordered -> required_texture aTextures p ->
  0 <= texture_id aTextures p < Z.of_nat (length ordered).
Proof.
  intros Hby (Hne & info & Hinfo). unfold texture_id.
  rewrite bool_decide_eq_false_2 by assumption. rewrite Hinfo.
  exact (texture_lookup_id _ _ _ _ Hby Hinfo).
Qed.

Lemma read_material_bytes (aTextures : gmap string Bake.TextureInfo_)
    (ordered : list (string * Bake.TextureInfo_)) (textures : list Baked.BakedTextureInfo)
    (m : Bake.InputMaterialInfo) (more : list byte) :
  textures_by_id aTextures ordered -> Z.of_nat (length ordered) < two32 ->
  length textures = length ordered -> wf_material aTextures m ->
  Baked.read_material textures (material_bytes aTextures m ++ more)
  = Ok (baked_material aTextures m, more).
Proof.
  intros Hby Hn Hlen (Ha & Hb & Hc & Hd & He).
  unfold Baked.read_material, material_bytes. rewrite <- !app_assoc.
  pose proof (texture_id_required _ _ _ Hby Ha) as Ra.
  pose proof (texture_id_required _ _ _ Hby Hb) as Rb.
  pose proof (texture_id_required _ _ _ Hby Hc) as Rc.
  pose proof (texture_id_range _ _ _ Hby Hn Hd) as Rd.
  pose proof (texture_id_range _ _ _ Hby Hn He) as Re.
  unfold Baked.rbind.
  rewrite !read_uint32_app by lia.
  rewrite Hlen.
  rewrite !(proj2 (Z.ltb_lt _ _)) by lia. reflexivity.
Qed.

Lemma vec3_bytes_length (v : vec3) : length (vec3_bytes v) = 12%nat.
Proof. reflexivity. Qed.
Lemma vec2_bytes_length (v : vec2) : length (vec2_bytes v) = 8%nat.
Proof. reflexivity. Qed.
Lemma vec4_bytes_length (v : vec4) : length (vec4_bytes v) = 16%nat.
Proof. reflexivity. Qed.

Lemma write_mesh_bytes (aIndexedMeshes : list IndexedMesh) (k : nat)
    (mm : Bake.InputMeshInfo) (im : IndexedMesh) :
  aIndexedMeshes !! k = Some im -> wf_indexed_mesh im ->
  0 <= Bake.materialIndex mm < two32 ->
  Bake.write_mesh aIndexedMeshes (Z.of_nat k) mm = Ok (mesh_bytes (mm, im)).
Proof.
  intros Hk (Hn & Ht & Hg & HV & HI & _) Hmi. unfold Bake.write_mesh, mesh_bytes.
  rewrite (proj2 (vget_Ok aIndexedMeshes (Z.of_nat k) im))
    by (rewrite Nat2Z.id; split; [lia | exact Hk]).
  cbn [bind fst snd]. rewrite !uint32_small by lia.
  rewrite write_array_all. cbn [bind].
  rewrite <- Hn at 1. rewrite write_array_all. cbn [bind].
  rewrite <- Ht at 1. rewrite write_array_all. cbn [bind].
  rewrite <- Hg at 1. rewrite write_array_all. cbn [bind].
  rewrite write_array_all. cbn [bind]. reflexivity.
Qed.

Lemma read_mesh_bytes (materials : list Baked.BakedMaterialInfo)
    (mi : Bake.InputMeshInfo * IndexedMesh) (more : list byte) :
  wf_indexed_mesh (snd mi) ->
  0 <= Bake.materialIndex (fst mi) < Z.of_nat (length materials) ->
  Z.of_nat (length materials) < two32 ->
  Baked.read_mesh materials (mesh_bytes mi ++ more) = Ok (baked_mesh mi, more).
Proof.
  destruct mi as [mm im]. cbn [fst snd].
  intros (Hn & Ht & Hg & HV & HI & Hix & Fv & Fn & Ft & Fg) Hmi Hmats.
  unfold Baked.read_mesh, mesh_bytes, baked_mesh. cbn [fst snd].
  rewrite <- !app_assoc. unfold Baked.rbind at 1.
  rewrite read_uint32_app by lia.
  unfold Baked.rbind at 1. rewrite (proj2 (Z.ltb_lt _ _)) by lia. cbn [Baked.r_assert Baked.rret].
  unfold Baked.rbind at 1. rewrite read_uint32_app by lia.
  unfold Baked.rbind at 1. rewrite read_uint32_app by lia.
  unfold Baked.rbind at 1.
  rewrite checked_read_app
    by (rewrite (concat_fixed_length vec3_bytes 12) by apply vec3_bytes_length; lia).
  unfold Baked.rbind at 1.
  rewrite checked_read_app
    by (rewrite (concat_fixed_length vec3_bytes 12) by apply vec3_bytes_length; lia).
  unfold Baked.rbind at 1.
  rewrite checked_read_app
    by (rewrite (concat_fixed_length vec2_bytes 8) by apply vec2_bytes_length; lia).
  unfold Baked.rbind at 1.
  rewrite checked_read_app
    by (rewrite (concat_fixed_length vec4_bytes 16) by apply vec4_bytes_length; lia).
  unfold Baked.rbind at 1.
  rewrite checked_read_app
    by (rewrite (concat_fixed_length le32 4) by apply le32_length; lia).
  unfold Baked.rret.
  rewrite !vec3s_of_bytes, vec2s_of_bytes, vec4s_of_bytes, words_of_bytes_concat by assumption.
  reflexivity.
Qed.

Lemma mapM_zip_index {E X Y B} (f : Z -> X -> result E B) (g : X * Y -> B)
    (xs : list X) (ys : list Y) (s : nat) :
  length xs = length ys ->
  (forall k x y, xs !! k = Some x -> ys !! k = Some y ->
     f (Z.of_nat (s + k)) x = Ok (g (x, y))) ->
  mapM (fun p => f (fst p) (snd p)) (zip (map Z.of_nat (seq s (length xs))) xs)
  = Ok (map g (zip xs ys)).
Proof.
  revert ys s. induction xs as [|x xs IH]; intros ys s Hlen Hf.
  - reflexivity.
  - destruct ys as [|y ys]; [discriminate|]. cbn [length seq map zip zip_with mapM fst snd].
    rewrite <- (Nat.add_0_r s) at 1. rewrite (Hf O x y) by reflexivity. cbn [bind].
    rewrite (IH ys (S s)).
    + reflexivity.
    + simpl in Hlen. lia.
    + intros k x' y' Hx Hy. replace (S s + k)%nat with (s + S k)%nat by lia.
      apply Hf; assumption.
Qed.

Lemma mapM_map_Ok {E W X Y} (f : W -> result E Y) (h : X -> W) (g : X -> Y) (xs : list X) :
  Forall (fun x => f (h x) = Ok (g x)) xs -> mapM f (map h xs) = Ok (map g xs).
Proof.
  induction 1 as [|x xs Hx _ IH]; [reflexivity|].
  cbn [mapM map]. rewrite Hx. cbn [bind]. rewrite IH. reflexivity.
Qed.

(** ** The round trip *)

Section RoundTrip.

Variable aInputName : string.
Variable aModel : Bake.InputModel.
Variable aIndexedMeshes : list IndexedMesh.
Variable aTextures : gmap string Bake.TextureInfo_.
Variable ordered : list (string * Bake.TextureInfo_).

Hypothesis Hwf : wf_bake_input aModel aIndexedMeshes aTextures ordered.

Lemma write_model_data_container :
  Bake.write_model_data_ aModel aIndexedMeshes aTextures
  = Ok (container_bytes aModel aIndexedMeshes aTextures ordered).
Proof.
  destruct Hwf as (Hby & Hpaths & Hn & Hmats & Hnm & Hlen & Hnmesh & Hmi & Himesh).
  unfold Bake.write_model_data_. rewrite (order_unique_spec _ _ Hby). cbn [bind].
  rewrite (mapM_map_Ok Bake.write_texture (fun e => Some (snd e))
             (fun e => texture_entry (path_with_terminator (snd e), Bake.channels (snd e)))).
  2:{ eapply Forall_impl; [exact Hpaths|]. intros e He. apply write_texture_entry, He. }
  cbn [bind].
  rewrite (mapM_Ok (Bake.write_material aTextures) (material_bytes aTextures)).
  2:{ eapply Forall_impl; [exact Hmats|]. intros m Hm. apply write_material_bytes, Hm. }
  cbn [bind]. rewrite bool_decide_eq_true_2 by exact Hlen. cbn [c_assert bind].
  unfold index_range.
  rewrite (mapM_zip_index (Bake.write_mesh aIndexedMeshes) mesh_bytes
             (Bake.meshes aModel) aIndexedMeshes 0 Hlen).
  2:{ intros k mm im Hmm Him. apply write_mesh_bytes; [exact Him | |].
      - exact (Forall_lookup_1 _ _ _ _ Himesh Him).
      - pose proof (Forall_lookup_1 _ _ _ _ Hmi Hmm) as Hr. simpl in Hr. lia. }
  cbn [bind]. rewrite length_map. rewrite !uint32_small by lia. unfold container_bytes. reflexivity.
Qed.

Lemma load_container :
  Baked.load_baked_model_ (container_bytes aModel aIndexedMeshes aTextures ordered) aInputName
  = Ok (baked_model (Baked.base_prefix aInputName) path_with_terminator
          aModel aIndexedMeshes aTextures ordered, false).
Proof.
  destruct Hwf as (Hby & Hpaths & Hn & Hmats & Hnm & Hlen & Hnmesh & Hmi & Himesh).
  unfold Baked.load_baked_model_, Baked.read_model, container_bytes.
  unfold Baked.rbind at 1. rewrite (checked_read_app 16 kFileMagic) by reflexivity.
  rewrite bool_decide_eq_true_2 by reflexivity. cbn [negb].
  unfold Baked.rbind at 1. rewrite (checked_read_app 16 kFileVariant) by reflexivity.
  rewrite bool_decide_eq_true_2 by reflexivity. cbn [negb].
  unfold Baked.rbind at 1. rewrite read_uint32_app by lia. rewrite Nat2Z.id.
  unfold Baked.rbind at 1.
  rewrite (read_n_table
             (fun e => texture_entry (path_with_terminator (snd e), Bake.channels (snd e)))
             (fun e => baked_texture (Baked.base_prefix aInputName) path_with_terminator (snd e))).
  2:{ eapply Forall_impl; [exact Hpaths|]. intros e He more.
      rewrite read_texture_entry; [reflexivity|].
      unfold loadable_path in He. unfold path_with_terminator. cbn [fst].
      rewrite length_app. simpl length. lia. }
  cbn [app].
  unfold Baked.rbind at 1. rewrite read_uint32_app by lia. rewrite Nat2Z.id.
  unfold Baked.rbind at 1.
  rewrite (read_n_table (material_bytes aTextures) (baked_material aTextures)).
  2:{ eapply Forall_impl; [exact Hmats|]. intros m Hm more.
      apply (read_material_bytes aTextures ordered); try assumption.
      apply length_map. }
  cbn [app].
  unfold Baked.rbind at 1. rewrite read_uint32_app by lia. rewrite Nat2Z.id.
  unfold Baked.rbind at 1.
  assert (Hzip : length (zip (Bake.meshes aModel) aIndexedMeshes) = length (Bake.meshes aModel)).
  { rewrite length_zip_with. lia. }
  rewrite <- Hzip.
  rewrite <- (app_nil_r (concat (map mesh_bytes (zip (Bake.meshes aModel) aIndexedMeshes)))).
  rewrite (read_n_table mesh_bytes baked_mesh).
  2:{ apply Forall_forall. intros [mm im] Hin more.
      apply read_mesh_bytes; cbn [fst snd].
      - apply elem_of_zip_r in Hin. exact (proj1 (Forall_forall _ _) Himesh im Hin).
      - apply elem_of_zip_l in Hin. rewrite length_map.
        exact (proj1 (Forall_forall _ _) Hmi mm Hin).
      - rewrite length_map. exact Hnm. }
  reflexivity.
Qed.

End RoundTrip.




(** ** The concrete scenarios *)

Lemma unit_cube_wf : wf_soup unit_cube.
Proof. unfold wf_soup. split; [reflexivity|]. split; [right; reflexivity | reflexivity]. Qed.

Lemma no_tangents_whole : tgen_whole no_tangents.
Proof. intros ix ps uvs ns k. exists []. reflexivity. Qed.

Lemma cube_merge_classes : merge_classes unit_cube tolerance_1e4 cube_cls.
Proof.
  assert (Hcheck :
    forallb (fun i => forallb (fun j =>
      match vert unit_cube !! Z.to_nat i, vert unit_cube !! Z.to_nat j with
      | Some pi, Some pj =>
          match mergable_ unit_cube i j pi pj tolerance_1e4 with
          | Ok b => Bool.eqb b (cube_cls i j)
          | Err _ => false
          end
      | _, _ => false
      end) (index_range 36)) (index_range 36) = true) by (vm_compute; reflexivity).
  intros i j pi pj Hi Hj Hpi Hpj.
  assert (Ri : i ∈ index_range 36).
  { apply elem_of_index_range. apply lookup_lt_Some in Hpi. cbn in Hpi. lia. }
  assert (Rj : j ∈ index_range 36).
  { apply elem_of_index_range. apply lookup_lt_Some in Hpj. cbn in Hpj. lia. }
  split.
  - rewrite forallb_forall in Hcheck. apply list_elem_of_In in Ri, Rj.
    specialize (Hcheck i Ri). rewrite forallb_forall in Hcheck. specialize (Hcheck j Rj).
    rewrite Hpi, Hpj in Hcheck.
    destruct (mergable_ unit_cube i j pi pj tolerance_1e4) as [b|e]; [|discriminate].
    apply eqb_prop in Hcheck. rewrite Hcheck. reflexivity.
  - unfold cube_cls. unfold unit_cube in Hpi, Hpj. cbn [vert] in Hpi, Hpj.
    change (map cube_corner cube_triangles) with (cube_corner <$> cube_triangles) in Hpi, Hpj.
    rewrite list_lookup_fmap in Hpi, Hpj.
    destruct (cube_triangles !! Z.to_nat i) as [a|]; [|discriminate].
    destruct (cube_triangles !! Z.to_nat j) as [b|]; [|discriminate].
    cbn in Hpi, Hpj. injection Hpi as <-. injection Hpj as <-.
    intros Hab. apply Z.eqb_eq in Hab. subst b. reflexivity.
Qed.

Lemma unit_cube_index_soup (gHash_ : Z -> Z) (cast : float -> Z) :
  index_soup gHash_ cast unit_cube tolerance_1e4
  = Ok (8, [0; 1; 2; 0; 2; 3; 4; 5; 6; 4; 6; 7; 0; 4; 7; 0; 7; 1;
            3; 2; 6; 3; 6; 5; 0; 3; 5; 0; 5; 4; 1; 7; 6; 1; 6; 2],
        [0; 1; 2; 5; 6; 7; 8; 11]).
Proof.
  unfold index_soup, collapse_vertices_.
  rewrite (collapse_run_closed_form gHash_ cast _ unit_cube tolerance_1e4 cube_cls
             unit_cube_wf cube_merge_classes).
  vm_compute. reflexivity.
Qed.

(** C7. The unit cube as a soup of 36 corner entries (12 triangles, 6
    faces) over 8 distinct positions, each position on 3 faces and used by
    at least 3 entries, the entries at one position agreeing on normal and
    texture coordinate, indexed with the tolerance 1e-4, gives exactly 8
    unique vertices and 36 indices, each of them in the range from 0 to 7;
    and this whatever the hash function of the vicinity map. *)
Theorem unit_cube_indexing :
  length (vert unit_cube) = 36%nat
  /\ NoDup (map cube_corner (index_range 8))
  /\ forallb (fun c =>
                (length (List.filter (fun k => existsb (Z.eqb c) (cube_face k)) (seq 0 6)) =? 3)%nat
                && (3 <=? length (filter (fun x => x = c) cube_triangles))%nat)
             (index_range 8) = true
  /\ (forall i j p, vert unit_cube !! i = Some p -> vert unit_cube !! j = Some p ->
        norm unit_cube !! i = norm unit_cube !! j /\ text unit_cube !! i = text unit_cube !! j)
  /\ (forall gHash_ cast, exists indices vertexMapping,
        index_soup gHash_ cast unit_cube tolerance_1e4 = Ok (8, indices, vertexMapping)
        /\ length indices = 36%nat /\ length vertexMapping = 8%nat
        /\ Forall (fun x => 0 <= x < 8) indices)
  /\ (forall gHash_ cast tgen, tgen_whole tgen ->
        exists mesh,
          make_indexed_mesh gHash_ cast tgen unit_cube tolerance_1e4 = Ok mesh
          /\ length (im_vert mesh) = 8%nat /\ length (im_norm mesh) = 8%nat
          /\ length (im_text mesh) = 8%nat /\ length (im_indices mesh) = 36%nat
          /\ Forall (fun x => 0 <= x < 8) (im_indices mesh)).
Proof.
  split; [reflexivity|]. split.
  { vm_compute. repeat (constructor; [rewrite ?elem_of_cons, elem_of_nil; intuition discriminate|]).
    constructor. }
  split; [vm_compute; reflexivity|]. split; [|split].
  - intros i j p Hi Hj. unfold unit_cube in *. cbn [vert norm text] in *.
    change (map cube_corner cube_triangles) with (cube_corner <$> cube_triangles) in Hi, Hj.
    change (map cube_normal cube_triangles) with (cube_normal <$> cube_triangles).
    change (map cube_texcoord cube_triangles) with (cube_texcoord <$> cube_triangles).
    rewrite list_lookup_fmap in Hi, Hj. rewrite !list_lookup_fmap.
    destruct (cube_triangles !! i) as [a|] eqn:Ha; [|discriminate].
    destruct (cube_triangles !! j) as [b|] eqn:Hb; [|discriminate].
    cbn in Hi, Hj. injection Hi as Hi. injection Hj as Hj.
    assert (Hcorners : Forall (fun c => 0 <= c < 8) cube_triangles)
      by (repeat constructor; lia).
    pose proof (Forall_lookup_1 _ _ _ _ Hcorners Ha) as Ra.
    pose proof (Forall_lookup_1 _ _ _ _ Hcorners Hb) as Rb.
    cbn beta in Ra, Rb.
    assert (Hab : a = b); [|subst b; split; reflexivity].
    rewrite <- Hj in Hi. clear -Hi Ra Rb.
    assert (Ea : a = 0 \/ a = 1 \/ a = 2 \/ a = 3 \/ a = 4 \/ a = 5 \/ a = 6 \/ a = 7) by lia.
    assert (Eb : b = 0 \/ b = 1 \/ b = 2 \/ b = 3 \/ b = 4 \/ b = 5 \/ b = 6 \/ b = 7) by lia.
    destruct Ea as [->|[->|[->|[->|[->|[->|[->| ->]]]]]]];
      destruct Eb as [->|[->|[->|[->|[->|[->|[->| ->]]]]]]];
      try reflexivity; vm_compute in Hi; discriminate Hi.
  - intros gHash_ cast. eexists. eexists. split; [apply unit_cube_index_soup|].
    split; [reflexivity|]. split; [reflexivity|]. repeat constructor; lia.
  - intros gHash_ cast tgen Htgen. unfold make_indexed_mesh.
    rewrite unit_cube_index_soup. cbn [bind].
    destruct (shuffle_spec unit_cube 8 [0; 1; 2; 5; 6; 7; 8; 11] unit_cube_wf eq_refl)
      as (rvert & rtext & rnorm & Hsh & Hlv & Hlt & Hln & _).
    { repeat constructor; cbn; lia. }
    rewrite Hsh. cbn [bind].
    destruct (Htgen [0; 1; 2; 0; 2; 3; 4; 5; 6; 4; 6; 7; 0; 4; 7; 0; 7; 1;
                     3; 2; 6; 3; 6; 5; 0; 3; 5; 0; 5; 4; 1; 7; 6; 1; 6; 2]
                (flatten3 rvert) (flatten2 rtext) (flatten3 rnorm) (Z.of_nat (length rtext)))
      as (tangent & ->).
    cbn [bind]. eexists. split; [reflexivity|]. cbn [im_vert im_norm im_text im_indices].
    split; [exact Hlv|]. split; [exact Hln|]. split; [exact Hlt|].
    split; [reflexivity|]. repeat constructor; lia.
Qed.

Lemma unit_cube_indexing_witness :
  tgen_whole no_tangents
  /\ exists mesh,
       make_indexed_mesh std_hash cast_zero no_tangents unit_cube tolerance_1e4 = Ok mesh
       /\ length (im_vert mesh) = 8%nat /\ length (im_indices mesh) = 36%nat.
Proof.
  split; [exact no_tangents_whole|].
  destruct unit_cube_indexing as (_ & _ & _ & _ & _ & Hmesh).
  destruct (Hmesh std_hash cast_zero no_tangents no_tangents_whole)
    as (mesh & Hm & Hv & _ & _ & Hi & _).
  exists mesh. repeat split; assumption.
Defined.

(** C8 (as stated) fails: for the two points and the tolerance 1 the grid
    has 11 cells to a side, while the longest side over twice the tolerance
    is 10.5 for the padded bounding volume (10 when cut to an integer) and
    0.5 for the bounding box itself. *)
Lemma grid_resolution_counterexample :
  grid_subdiv cast_zero two_points float_one = 11
  /\ spec_grid_resolution (max_side two_points float_one) float_one
     = S754_finite false 11010048 (-20)
  /\ F32.trunc (spec_grid_resolution (max_side two_points float_one) float_one) = Some 10
  /\ spec_grid_resolution (box_longest_side two_points) float_one
     = S754_finite false 8388608 (-24)
  /\ F32.of_Z (grid_subdiv cast_zero two_points float_one)
     <> spec_grid_resolution (max_side two_points float_one) float_one
  /\ F32.of_Z (grid_subdiv cast_zero two_points float_one)
     <> spec_grid_resolution (box_longest_side two_points) float_one.
Proof.
  split; [vm_compute; reflexivity|]. split; [vm_compute; reflexivity|].
  split; [vm_compute; reflexivity|]. split; [vm_compute; reflexivity|].
  split; vm_compute; discriminate.
Qed.

(** ** Witnesses on the concrete inputs *)

Lemma index_validity_witness :
  wf_soup unit_cube
  /\ exists r, index_soup std_hash cast_zero unit_cube tolerance_1e4 = Ok r
               /\ valid_indexing unit_cube r.
Proof.
  split; [exact unit_cube_wf|].
  exact (proj1 (proj2 (index_validity std_hash cast_zero unit_cube tolerance_1e4 unit_cube_wf))).
Defined.

Lemma unit_cube_numbers : number_soup unit_cube.
Proof.
  unfold number_soup, number_vec3, number_vec2. cbn.
  repeat split; repeat constructor.
Qed.

Lemma mergable_up_to_rounding_witness :
  exists b, mergable_ unit_cube 0 3 (cube_corner 0) (cube_corner 0) tolerance_1e4 = Ok b
            /\ (axes_mergable (differ_at_most tolerance_1e4) unit_cube 0 3
                  (cube_corner 0) (cube_corner 0) -> b = true)
            /\ (b = true ->
                axes_mergable (differ_at_most_rounded tolerance_1e4) unit_cube 0 3
                  (cube_corner 0) (cube_corner 0)).
Proof.
  apply mergable_up_to_rounding;
    [exact unit_cube_wf | exact unit_cube_numbers | reflexivity | reflexivity | lia | lia
    | reflexivity | reflexivity].
Defined.

Lemma attribute_coherence_witness :
  wf_soup unit_cube /\ tgen_whole no_tangents
  /\ exists (mesh : IndexedMesh) (vertexMapping : list Z),
       make_indexed_mesh std_hash cast_zero no_tangents unit_cube tolerance_1e4 = Ok mesh
       /\ forall i : nat, (i < 8)%nat ->
            exists from, vertexMapping !! i = Some from
              /\ slot_copies unit_cube (im_vert mesh) (im_text mesh) (im_norm mesh) i from.
Proof.
  split; [exact unit_cube_wf|]. split; [exact no_tangents_whole|].
  destruct (attribute_coherence std_hash cast_zero no_tangents unit_cube tolerance_1e4
              unit_cube_wf no_tangents_whole)
    as (verts & indices & vertexMapping & mesh & Hsoup & Hmesh & Hv & _ & _ & Hslots).
  exists mesh, vertexMapping. split; [exact Hmesh|].
  intros i Hi. apply Hslots.
  assert (Hverts : verts = 8).
  { vm_compute in Hsoup. injection Hsoup as <- _ _. reflexivity. }
  lia.
Defined.

Lemma collapse_map_assigned_once_witness :
  let dis := soup_discretizer cast_zero unit_cube tolerance_1e4 in
  let vm := build_vicinity_map_ std_hash cast_zero [] dis (vert unit_cube) in
  exists st1 st2,
    collapse_prefix std_hash cast_zero vm dis unit_cube tolerance_1e4 10 = Ok st1
    /\ collapse_prefix std_hash cast_zero vm dis unit_cube tolerance_1e4 36 = Ok st2
    /\ assigned_kept (collapseMap st1) (collapseMap st2)
    /\ nextVertex st2 <= unassigned.
Proof.
  intros dis vm.
  destruct (collapse_map_assigned_once std_hash cast_zero vm dis unit_cube tolerance_1e4)
    as (_ & _ & Hkept & Hruns).
  pose proof (Hruns unit_cube_wf (build_vicinity_map_in_range std_hash cast_zero dis unit_cube))
    as Hrun.
  destruct (Hrun 10%nat) as (st1 & H1 & _); [vm_compute; lia|].
  destruct (Hrun 36%nat) as (st2 & H2 & Hnv & _); [vm_compute; lia|].
  exists st1, st2. split; [exact H1|]. split; [exact H2|]. split; [|exact Hnv].
  apply (Hkept 10%nat 36%nat st1 st2); [lia | exact H1 | exact H2].
Defined.

Lemma trailing_bytes_tolerated_witness :
  exists ret,
    Baked.load_baked_model_ tiny_container "assets/tiny.comp5822mesh" = Ok (ret, false)
    /\ Baked.load_baked_model_ (tiny_container ++ [x00; x2a]) "assets/tiny.comp5822mesh"
       = Ok (ret, true).
Proof.
  eexists. split; [vm_compute; reflexivity|].
  refine (proj1 (trailing_bytes_tolerated "assets/tiny.comp5822mesh" tiny_container
                   [x00; x2a] _ _ _)); [vm_compute; reflexivity | discriminate].
Defined.

Lemma string_length_limit_witness :
  Baked.read_string_ (le32 32768 ++ [x61]) = Err (Baked.StringTooLong 32768)
  /\ Baked.read_string_ (le32 3 ++ [x61; x62; x00; x04])
     = Ok (string_of_list_byte [x61; x62; x00], [x04])
  /\ Baked.load_baked_model_
       (kFileMagic ++ kFileVariant ++ le32 2
        ++ concat (map texture_entry [([x61; x00], x04)]) ++ le32 40000 ++ [x61])
       "assets/tiny.comp5822mesh"
     = Err (Baked.StringTooLong 40000).
Proof.
  destruct string_length_limit as (Hlong & Hshort & Hload).
  split; [|split].
  - apply (Hlong (le32 32768 ++ [x61])); [vm_compute; lia | vm_compute; discriminate].
  - apply (Hshort (le32 3 ++ [x61; x62; x00; x04]));
      [vm_compute; lia | vm_compute; reflexivity | vm_compute; discriminate].
  - apply (Hload "assets/tiny.comp5822mesh"%string [([x61; x00], x04)] 2 40000 [x61]).
    + constructor; [vm_compute; reflexivity | constructor].
    + vm_compute. split; reflexivity.
    + vm_compute. split; [discriminate | reflexivity].
Defined.

(** ** The order of binary32 *)

Lemma ltb_rank (x y : float) :
  F32.is_nan x = false -> F32.is_nan y = false ->
  F32.ltb x y = true <-> rank_lt (float_rank x) (float_rank y).
Proof.
  intros Hx Hy. unfold F32.ltb, SFltb, rank_lt.
  destruct x as [sx|sx| |sx mx ex], y as [sy|sy| |sy my ey]; try discriminate;
    try (destruct sx); try (destruct sy); cbn [SFcompare float_rank fst snd];
    try (split; [discriminate | lia]); try (split; [lia | reflexivity]);
    try (split; [reflexivity | lia]); try (split; [lia | discriminate]).
  - destruct (Z.compare_spec ex ey) as [He|He|He].
    + rewrite Pos.compare_cont_spec. cbn [Pos.switch_Eq].
      destruct (Pos.compare_spec mx my) as [Hm|Hm|Hm]; cbn [CompOpp];
        (split; [try discriminate; intros _; lia | try reflexivity; lia]).
    + split; [discriminate | lia].
    + split; [lia | reflexivity].
  - destruct (Z.compare_spec ex ey) as [He|He|He].
    + rewrite Pos.compare_cont_spec. cbn [Pos.switch_Eq].
      destruct (Pos.compare_spec mx my) as [Hm|Hm|Hm];
        (split; [try discriminate; intros _; lia | try reflexivity; lia]).
    + split; [lia | reflexivity].
    + split; [discriminate | lia].
Qed.

Lemma leb_rank (x y : float) :
  F32.is_nan x = false -> F32.is_nan y = false ->
  F32.leb x y = true <-> ~ rank_lt (float_rank y) (float_rank x).
Proof.
  intros Hx Hy. rewrite <- (ltb_rank y x Hy Hx).
  rewrite <- (not_gtb_leb x y Hx Hy). unfold F32.gtb, F32.ltb.
  destruct (SFltb y x); split; congruence.
Qed.

Lemma float_max_cases (x y : float) :
  F32.is_nan x = false ->
  F32.is_nan (float_max x y) = false
  /\ F32.leb x (float_max x y) = true
  /\ (F32.is_nan y = false -> F32.leb y (float_max x y) = true)
  /\ (float_max x y = x \/ float_max x y = y).
Proof.
  intros Hx. unfold float_max. destruct (F32.ltb x y) eqn:Hlt.
  - assert (Hy : F32.is_nan y = false).
    { destruct y; try reflexivity. unfold F32.ltb, SFltb in Hlt.
      destruct x; discriminate. }
    apply (ltb_rank x y Hx Hy) in Hlt.
    split; [exact Hy|]. split; [|split; [|right; reflexivity]].
    + apply leb_rank; [assumption | assumption |]. unfold rank_lt in *. lia.
    + intros _. apply leb_rank; [assumption | assumption |]. unfold rank_lt. lia.
  - split; [exact Hx|]. split; [|split; [|left; reflexivity]].
    + apply leb_rank; [assumption | assumption |]. unfold rank_lt. lia.
    + intros Hy. apply leb_rank; [assumption | assumption |].
      rewrite <- (ltb_rank x y Hx Hy). congruence.
Qed.

Lemma float_min_cases (x y : float) :
  F32.is_nan x = false ->
  F32.is_nan (float_min x y) = false
  /\ F32.leb (float_min x y) x = true
  /\ (F32.is_nan y = false -> F32.leb (float_min x y) y = true)
  /\ (float_min x y = x \/ float_min x y = y).
Proof.
  intros Hx. unfold float_min. destruct (F32.ltb y x) eqn:Hlt.
  - assert (Hy : F32.is_nan y = false).
    { destruct y; try reflexivity. discriminate. }
    apply (ltb_rank y x Hy Hx) in Hlt.
    split; [exact Hy|]. split; [|split; [|right; reflexivity]].
    + apply leb_rank; [assumption | assumption |]. unfold rank_lt in *. lia.
    + intros _. apply leb_rank; [assumption | assumption |]. unfold rank_lt. lia.
  - split; [exact Hx|]. split; [|split; [|left; reflexivity]].
    + apply leb_rank; [assumption | assumption |]. unfold rank_lt. lia.
    + intros Hy. apply leb_rank; [assumption | assumption |].
      rewrite <- (ltb_rank y x Hy Hx). congruence.
Qed.

Lemma leb_trans (x y z : float) :
  F32.is_nan x = false -> F32.is_nan y = false -> F32.is_nan z = false ->
  F32.leb x y = true -> F32.leb y z = true -> F32.leb x z = true.
Proof.
  intros Hx Hy Hz Hxy Hyz.
  apply leb_rank in Hxy; [|assumption|assumption].
  apply leb_rank in Hyz; [|assumption|assumption].
  apply leb_rank; [assumption | assumption |]. unfold rank_lt in *. lia.
Qed.

(** ** The bounding volume *)

(** The running maximum of a sequence of numbers, started from [init]. *)
Lemma fold_float_max (l : list float) (init : float) :
  F32.is_nan init = false ->
  let r := fold_left float_max l init in
  F32.is_nan r = false /\ F32.leb init r = true
  /\ (forall x, x ∈ l -> F32.is_nan x = false -> F32.leb x r = true)
  /\ (r = init \/ r ∈ l).
Proof.
  revert init. induction l as [|a l IH]; intros init Hinit; cbn [fold_left].
  - split; [assumption|]. split; [|split; [|left; reflexivity]].
    + apply leb_rank; [assumption | assumption |]. unfold rank_lt. lia.
    + intros x Hx. apply elem_of_nil in Hx. contradiction.
  - destruct (float_max_cases init a Hinit) as (Hn & Hle & Hla & Hcase).
    destruct (IH (float_max init a) Hn) as (Hrn & Hrle & Hrall & Hrcase).
    split; [exact Hrn|]. split; [|split].
    + eapply leb_trans; [exact Hinit | exact Hn | exact Hrn | exact Hle | exact Hrle].
    + intros x Hx Hxn. apply elem_of_cons in Hx as [->|Hx]; [|apply Hrall; assumption].
      eapply leb_trans; [exact Hxn | exact Hn | exact Hrn | apply Hla, Hxn | exact Hrle].
    + destruct Hrcase as [Hr|Hr]; [|right; apply elem_of_cons; right; exact Hr].
      cbn zeta. rewrite Hr.
      destruct Hcase as [->| ->]; [left; reflexivity | right; apply elem_of_cons; left; reflexivity].
Qed.

Lemma fold_float_min (l : list float) (init : float) :
  F32.is_nan init = false ->
  let r := fold_left float_min l init in
  F32.is_nan r = false /\ F32.leb r init = true
  /\ (forall x, x ∈ l -> F32.is_nan x = false -> F32.leb r x = true)
  /\ (r = init \/ r ∈ l).
Proof.
  revert init. induction l as [|a l IH]; intros init Hinit; cbn [fold_left].
  - split; [assumption|]. split; [|split; [|left; reflexivity]].
    + apply leb_rank; [assumption | assumption |]. unfold rank_lt. lia.
    + intros x Hx. apply elem_of_nil in Hx. contradiction.
  - destruct (float_min_cases init a Hinit) as (Hn & Hle & Hla & Hcase).
    destruct (IH (float_min init a) Hn) as (Hrn & Hrle & Hrall & Hrcase).
    split; [exact Hrn|]. split; [|split].
    + eapply leb_trans; [exact Hrn | exact Hn | exact Hinit | exact Hrle | exact Hle].
    + intros x Hx Hxn. apply elem_of_cons in Hx as [->|Hx]; [|apply Hrall; assumption].
      eapply leb_trans; [exact Hrn | exact Hn | exact Hxn | exact Hrle | apply Hla, Hxn].
    + destruct Hrcase as [Hr|Hr]; [|right; apply elem_of_cons; right; exact Hr].
      cbn zeta. rewrite Hr.
      destruct Hcase as [->| ->]; [left; reflexivity | right; apply elem_of_cons; left; reflexivity].
Qed.

(** The loop over the vertices works on the three axes separately. *)
Lemma bounding_volume_axes (vs : list vec3) (bmin bmax : vec3) :
  fold_left (fun '(bmin, bmax) v => (vec3_min bmin v, vec3_max bmax v)) vs (bmin, bmax)
  = (Vec3 (fold_left float_min (map v3x vs) (v3x bmin))
          (fold_left float_min (map v3y vs) (v3y bmin))
          (fold_left float_min (map v3z vs) (v3z bmin)),
     Vec3 (fold_left float_max (map v3x vs) (v3x bmax))
          (fold_left float_max (map v3y vs) (v3y bmax))
          (fold_left float_max (map v3z vs) (v3z bmax))).
Proof.
  revert bmin bmax. induction vs as [|v vs IH]; intros bmin bmax; cbn [fold_left map].
  - destruct bmin, bmax. reflexivity.
  - rewrite IH. reflexivity.
Qed.

Lemma vec3_at_cases (v : vec3) (k : Z) :
  0 <= k < 3 ->
  (k = 0 /\ vec3_at v k = v3x v) \/ (k = 1 /\ vec3_at v k = v3y v)
  \/ (k = 2 /\ vec3_at v k = v3z v).
Proof.
  intros Hk. assert (k = 0 \/ k = 1 \/ k = 2) as [->|[->| ->]] by lia; auto.
Qed.

(** X1. The bounding volume of [make_indexed_mesh] encloses the vertices: on
    every axis [aabbMin] is at most, and [aabbMax] at least, the coordinate
    of every vertex (coordinates that are numbers). *)
Theorem bounding_volume_encloses (aSoup : TriangleSoup) (v : vec3) (k : Z) :
  Forall no_nan_vec3 (vert aSoup) -> v ∈ vert aSoup -> 0 <= k < 3 ->
  F32.leb (vec3_at (fst (bounding_volume aSoup)) k) (vec3_at v k) = true
  /\ F32.leb (vec3_at v k) (vec3_at (snd (bounding_volume aSoup)) k) = true.
Proof.
  intros Hnan Hv Hk. unfold bounding_volume. rewrite bounding_volume_axes.
  cbn [fst snd vec3_splat v3x v3y v3z].
  pose proof (proj1 (Forall_forall _ _) Hnan v Hv) as (Nx & Ny & Nz).
  destruct (vec3_at_cases v k Hk) as [(-> & _)|[(-> & _)|(-> & _)]];
    cbn [vec3_at Z.eqb v3x v3y v3z].
  - destruct (fold_float_min (map v3x (vert aSoup)) F32.flt_max eq_refl) as (_ & _ & Hmin & _).
    destruct (fold_float_max (map v3x (vert aSoup)) F32.flt_min eq_refl) as (_ & _ & Hmax & _).
    split; [apply Hmin | apply Hmax]; try exact Nx;
      apply list_elem_of_fmap; exists v; (split; [reflexivity | exact Hv]).
  - destruct (fold_float_min (map v3y (vert aSoup)) F32.flt_max eq_refl) as (_ & _ & Hmin & _).
    destruct (fold_float_max (map v3y (vert aSoup)) F32.flt_min eq_refl) as (_ & _ & Hmax & _).
    split; [apply Hmin | apply Hmax]; try exact Ny;
      apply list_elem_of_fmap; exists v; (split; [reflexivity | exact Hv]).
  - destruct (fold_float_min (map v3z (vert aSoup)) F32.flt_max eq_refl) as (_ & _ & Hmin & _).
    destruct (fold_float_max (map v3z (vert aSoup)) F32.flt_min eq_refl) as (_ & _ & Hmax & _).
    split; [apply Hmin | apply Hmax]; try exact Nz;
      apply list_elem_of_fmap; exists v; (split; [reflexivity | exact Hv]).
Qed.

Lemma bounding_volume_encloses_witness :
  F32.leb (vec3_at (fst (bounding_volume unit_cube)) 0) (vec3_at (cube_corner 7) 0) = true
  /\ F32.leb (vec3_at (cube_corner 7) 0) (vec3_at (snd (bounding_volume unit_cube)) 0) = true.
Proof.
  apply (bounding_volume_encloses unit_cube (cube_corner 7) 0).
  - unfold no_nan_vec3. vm_compute. repeat constructor.
  - apply list_elem_of_In. vm_compute. tauto.
  - lia.
Defined.

Lemma fold_float_max_floor (l : list float) (init : float) :
  (forall x, x ∈ l -> F32.ltb init x = false) -> fold_left float_max l init = init.
Proof.
  induction l as [|a l IH]; intros Hall; cbn [fold_left]; [reflexivity|].
  unfold float_max at 2. rewrite (Hall a) by (apply elem_of_cons; left; reflexivity).
  apply IH. intros x Hx. apply Hall, elem_of_cons. right. exact Hx.
Qed.

(** X2. [aabbMax] starts from [std::numeric_limits<float>::min()], the
    smallest positive normal number: on every axis it is at least that
    number, and on an axis where no vertex lies above that number (all
    coordinates negative or zero, say) it is that number, not the largest
    coordinate. *)
Theorem aabb_max_floor (aSoup : TriangleSoup) (k : Z) :
  0 <= k < 3 ->
  F32.leb F32.flt_min (vec3_at (snd (bounding_volume aSoup)) k) = true
  /\ ((forall v, v ∈ vert aSoup -> F32.ltb F32.flt_min (vec3_at v k) = false) ->
      vec3_at (snd (bounding_volume aSoup)) k = F32.flt_min).
Proof.
  intros Hk. unfold bounding_volume. rewrite bounding_volume_axes.
  cbn [fst snd vec3_splat v3x v3y v3z].
  assert (Hk' : k = 0 \/ k = 1 \/ k = 2) by lia.
  destruct Hk' as [->|[->| ->]]; cbn [vec3_at Z.eqb v3x v3y v3z].
  - split; [exact (proj1 (proj2 (fold_float_max (map v3x (vert aSoup)) F32.flt_min eq_refl)))|].
    intros Hall. apply fold_float_max_floor. intros x Hx.
    apply list_elem_of_fmap in Hx as (v & -> & Hv). exact (Hall v Hv).
  - split; [exact (proj1 (proj2 (fold_float_max (map v3y (vert aSoup)) F32.flt_min eq_refl)))|].
    intros Hall. apply fold_float_max_floor. intros x Hx.
    apply list_elem_of_fmap in Hx as (v & -> & Hv). exact (Hall v Hv).
  - split; [exact (proj1 (proj2 (fold_float_max (map v3z (vert aSoup)) F32.flt_min eq_refl)))|].
    intros Hall. apply fold_float_max_floor. intros x Hx.
    apply list_elem_of_fmap in Hx as (v & -> & Hv). exact (Hall v Hv).
Qed.

Lemma aabb_max_floor_witness :
  vec3_at (snd (bounding_volume negative_points)) 0 = F32.flt_min
  /\ F32.ltb (F32.of_Z (-1)) (vec3_at (snd (bounding_volume negative_points)) 0) = true.
Proof.
  destruct (aabb_max_floor negative_points 0) as (_ & Hfloor); [lia|].
  split; [|vm_compute; reflexivity].
  apply Hfloor. intros v Hv.
  apply elem_of_cons in Hv as [->|Hv]; [reflexivity|].
  apply elem_of_cons in Hv as [->|Hv]; [reflexivity|].
  apply elem_of_nil in Hv. contradiction.
Defined.

(** ** The empty soup *)

(** X3. A soup without vertices gives a mesh without vertices and indices,
    whose bounding volume is the pair of initial values
    ([aabbMin] the largest float, [aabbMax] the smallest positive one). *)
Theorem empty_soup_indexed (gHash_ : Z -> Z) (cast_out_of_range : float -> Z)
    (tgen : list Z -> list float -> list float -> list float -> Z -> list float)
    (aSoup : TriangleSoup) (aErrorTolerance : float) :
  vert aSoup = [] -> tgen_whole tgen ->
  index_soup gHash_ cast_out_of_range aSoup aErrorTolerance = Ok (0, [], [])
  /\ exists mesh,
       make_indexed_mesh gHash_ cast_out_of_range tgen aSoup aErrorTolerance = Ok mesh
       /\ im_vert mesh = [] /\ im_norm mesh = [] /\ im_text mesh = [] /\ im_indices mesh = []
       /\ aabbMin mesh = vec3_splat F32.flt_max /\ aabbMax mesh = vec3_splat F32.flt_min.
Proof.
  intros Hempty Htgen.
  assert (Hix : index_soup gHash_ cast_out_of_range aSoup aErrorTolerance = Ok (0, [], [])).
  { unfold index_soup, collapse_vertices_, collapse_run, collapse_prefix, collapse_init.
    rewrite Hempty. reflexivity. }
  split; [exact Hix|].
  unfold make_indexed_mesh. rewrite Hix. cbn [bind].
  assert (Hsh : shuffle aSoup 0 [] = Ok ([], [], [])).
  { unfold shuffle. destruct (has_normals aSoup); reflexivity. }
  rewrite Hsh. cbn [bind length flatten3 flatten2 flat_map].
  destruct (Htgen [] [] [] [] (Z.of_nat 0)) as (tangent & ->). cbn [bind].
  eexists. split; [reflexivity|]. cbn [im_vert im_norm im_text im_indices aabbMin aabbMax].
  unfold bounding_volume. rewrite Hempty. repeat split; reflexivity.
Qed.

Lemma empty_soup_indexed_witness :
  index_soup std_hash cast_zero empty_soup tolerance_1e4 = Ok (0, [], [])
  /\ exists mesh,
       make_indexed_mesh std_hash cast_zero no_tangents empty_soup tolerance_1e4 = Ok mesh
       /\ im_vert mesh = [] /\ im_norm mesh = [] /\ im_text mesh = [] /\ im_indices mesh = []
       /\ aabbMin mesh = vec3_splat F32.flt_max /\ aabbMax mesh = vec3_splat F32.flt_min.
Proof.
  exact (empty_soup_indexed std_hash cast_zero no_tangents empty_soup tolerance_1e4
           eq_refl no_tangents_whole).
Defined.

(** ** The mergeability test is symmetric *)

Lemma abs_binary_round (s : bool) (m : positive) (e : Z) :
  F32.abs (binary_round F32.prec F32.emax s m e)
  = F32.abs (binary_round F32.prec F32.emax (negb s) m e).
Proof.
  unfold binary_round.
  destruct (shl_align m e _) as [mz ez]. unfold binary_round_aux.
  destruct (shr_fexp _ _ _ _ _) as [mrs e1].
  destruct (shr_fexp _ _ _ _ _) as [mrs2 e2].
  destruct (shr_m mrs2); [reflexivity| |reflexivity].
  destruct (e2 <=? F32.emax - F32.prec); reflexivity.
Qed.

Lemma abs_binary_normalize_opp (m e : Z) :
  F32.abs (binary_normalize F32.prec F32.emax m e false)
  = F32.abs (binary_normalize F32.prec F32.emax (- m) e false).
Proof.
  destruct m as [|p|p]; cbn [binary_normalize Z.opp]; [reflexivity| |].
  - apply (abs_binary_round false).
  - apply (abs_binary_round true).
Qed.

Lemma abs_sub_comm (a b : float) : F32.abs (F32.sub a b) = F32.abs (F32.sub b a).
Proof.
  unfold F32.sub.
  destruct a as [sa|sa| |sa ma ea], b as [sb|sb| |sb mb eb]; cbn [SFsub];
    try reflexivity; try (destruct sa, sb; reflexivity); try (destruct sa; reflexivity);
    try (destruct sb; reflexivity).
  rewrite (Z.min_comm eb ea).
  rewrite (abs_binary_normalize_opp (_ - _)). f_equal. f_equal. lia.
Qed.

Lemma exceeds_comm (eps a b : float) : exceeds eps a b = exceeds eps b a.
Proof. unfold exceeds. rewrite abs_sub_comm. reflexivity. Qed.

Lemma vget_pair_comm {A B} (v : list A) (i j : Z) (k : A -> A -> result mesh_error B) :
  (forall x y, k x y = k y x) ->
  (let! a := vget v i in let! b := vget v j in k a b)
  = (let! b := vget v j in let! a := vget v i in k b a).
Proof.
  intros Hk. destruct (vget v i) as [a|[]] eqn:Hi, (vget v j) as [b|[]] eqn:Hj;
    cbn [bind]; rewrite ?Hi, ?Hj; cbn [bind]; try reflexivity.
  - apply Hk.
  - unfold vget in Hj. destruct (j <? 0); [discriminate|].
    destruct (v !! Z.to_nat j); discriminate.
  - unfold vget in Hi. destruct (i <? 0); [discriminate|].
    destruct (v !! Z.to_nat i); discriminate.
Qed.

(** X4. [mergable_] does not depend on the order of the two vertices. *)
Theorem mergable_symmetric (aSoup : TriangleSoup) (aI aJ : Z) (aIPos aJPos : vec3)
    (aErrorTolerance : float) :
  mergable_ aSoup aI aJ aIPos aJPos aErrorTolerance
  = mergable_ aSoup aJ aI aJPos aIPos aErrorTolerance.
Proof.
  unfold mergable_.
  assert (H3 : forall a b : vec3,
            existsb (fun i => exceeds aErrorTolerance (vec3_at a i) (vec3_at b i)) [0; 1; 2]
            = existsb (fun i => exceeds aErrorTolerance (vec3_at b i) (vec3_at a i)) [0; 1; 2]).
  { intros a b. cbn [existsb]. rewrite !(exceeds_comm aErrorTolerance (vec3_at a _)). reflexivity. }
  assert (H2 : forall a b : vec2,
            existsb (fun i => exceeds aErrorTolerance (vec2_at a i) (vec2_at b i)) [0; 1]
            = existsb (fun i => exceeds aErrorTolerance (vec2_at b i) (vec2_at a i)) [0; 1]).
  { intros a b. cbn [existsb]. rewrite !(exceeds_comm aErrorTolerance (vec2_at a _)). reflexivity. }
  rewrite (H3 aIPos aJPos).
  destruct (existsb _ [0; 1; 2]); [reflexivity|].
  assert (Htex : (let! tI := vget (text aSoup) aI in
                  let! tJ := vget (text aSoup) aJ in
                  if existsb (fun i => exceeds aErrorTolerance (vec2_at tI i) (vec2_at tJ i)) [0; 1]
                  then Ok false else Ok true)
                 = (let! tI := vget (text aSoup) aJ in
                    let! tJ := vget (text aSoup) aI in
                    if existsb (fun i => exceeds aErrorTolerance (vec2_at tI i) (vec2_at tJ i)) [0; 1]
                    then Ok false else @Ok mesh_error _ true)).
  { apply (vget_pair_comm (text aSoup) aI aJ
             (fun tI tJ =>
                if existsb (fun i => exceeds aErrorTolerance (vec2_at tI i) (vec2_at tJ i)) [0; 1]
                then Ok false else Ok true)).
    intros x y. rewrite (H2 x y). reflexivity. }
  destruct (norm aSoup) as [|n0 ns] eqn:En.
  - cbn [bind]. exact Htex.
  - assert (Hnorm : (let! nI := vget (n0 :: ns) aI in
                     let! nJ := vget (n0 :: ns) aJ in
                     Ok (existsb (fun i => exceeds aErrorTolerance (vec3_at nI i) (vec3_at nJ i))
                                 [0; 1; 2]))
                    = (let! nI := vget (n0 :: ns) aJ in
                       let! nJ := vget (n0 :: ns) aI in
                       @Ok mesh_error _
                         (existsb (fun i => exceeds aErrorTolerance (vec3_at nI i) (vec3_at nJ i))
                                  [0; 1; 2]))).
    { apply (vget_pair_comm (n0 :: ns) aI aJ
               (fun nI nJ =>
                  Ok (existsb (fun i => exceeds aErrorTolerance (vec3_at nI i) (vec3_at nJ i))
                              [0; 1; 2]))).
      intros x y. rewrite (H3 x y). reflexivity. }
    rewrite Hnorm.
    destruct (let! nI := vget (n0 :: ns) aJ in _) as [[|]|e]; cbn [bind];
      [reflexivity | exact Htex | reflexivity].
Qed.

(** ** The neighbours of a cell *)


(** ** The vicinity map *)

Lemma build_vicinity_map_append (gHash_ : Z -> Z) (cast : float -> Z) (aMap : VicinityMap_)
    (aD : Discretizer_) (aPositions : list vec3) :
  build_vicinity_map_ gHash_ cast aMap aD aPositions
  = aMap ++ build_vicinity_map_ gHash_ cast [] aD aPositions.
Proof.
  unfold build_vicinity_map_.
  assert (Hgen : forall (l : list (Z * vec3)) (m : VicinityMap_),
            fold_left
              (fun m '(index, p) =>
                 m ++ [(hash_discretized_position_ gHash_ (discretize cast aD p), index)]) l m
            = m ++ map (fun ip => (hash_discretized_position_ gHash_
                                     (discretize cast aD (snd ip)), fst ip)) l).
  { induction l as [|[index p] l IH]; intros m; simpl; [rewrite app_nil_r; reflexivity|].
    rewrite IH, <- app_assoc. reflexivity. }
  rewrite !Hgen. reflexivity.
Qed.

(** X6. [build_vicinity_map_] adds one entry per position, in order, after
    the entries that the map has; in the map built from nothing, looking up
    the key of the cell of a vertex finds that vertex, and whatever a lookup
    finds is the index of a vertex whose cell has that key. *)
Theorem vicinity_map_lookup (gHash_ : Z -> Z) (cast : float -> Z) (aD : Discretizer_)
    (aPositions : list vec3) :
  (forall aMap,
     build_vicinity_map_ gHash_ cast aMap aD aPositions
     = aMap ++ build_vicinity_map_ gHash_ cast [] aD aPositions)
  /\ map snd (build_vicinity_map_ gHash_ cast [] aD aPositions)
     = index_range (length aPositions)
  /\ (forall i p, 0 <= i -> aPositions !! Z.to_nat i = Some p ->
        i ∈ equal_range (build_vicinity_map_ gHash_ cast [] aD aPositions)
              (hash_discretized_position_ gHash_ (discretize cast aD p)))
  /\ (forall vk i,
        i ∈ equal_range (build_vicinity_map_ gHash_ cast [] aD aPositions) vk ->
        exists p, 0 <= i /\ aPositions !! Z.to_nat i = Some p
                  /\ vk = hash_discretized_position_ gHash_ (discretize cast aD p)).
Proof.
  split; [intros aMap; apply build_vicinity_map_append|].
  rewrite build_vicinity_map_entries. split; [|split].
  - rewrite map_map. cbn [snd].
    change (map (fun x : Z * vec3 => fst x) (zip (index_range (length aPositions)) aPositions))
      with ((zip (index_range (length aPositions)) aPositions).*1).
    apply fst_zip. rewrite index_range_length. lia.
  - intros i p Hi Hp. unfold equal_range. apply list_elem_of_fmap.
    exists (hash_discretized_position_ gHash_ (discretize cast aD p), i).
    split; [reflexivity|]. apply list_elem_of_filter. split; [reflexivity|].
    apply list_elem_of_fmap. exists (i, p). split; [reflexivity|].
    apply list_elem_of_lookup. exists (Z.to_nat i).
    apply lookup_zip_with_Some. exists i, p. split; [reflexivity|]. split; [|exact Hp].
    rewrite index_range_lookup by (eapply lookup_lt_Some; exact Hp).
    rewrite Z2Nat.id by assumption. reflexivity.
  - intros vk i Hin. unfold equal_range in Hin.
    apply list_elem_of_fmap in Hin as ([key idx] & -> & Hin).
    apply list_elem_of_filter in Hin as (Hkey & Hin). cbn [fst snd] in *.
    apply list_elem_of_fmap in Hin as ([i' p] & Heq & Hin). cbn [fst snd] in Heq.
    injection Heq as -> ->.
    apply list_elem_of_lookup in Hin as (k & Hk).
    apply lookup_zip_with_Some in Hk as (x & y & Hxy & Hx & Hy). injection Hxy as -> ->.
    assert (Hklt : (k < length aPositions)%nat) by (eapply lookup_lt_Some; exact Hy).
    rewrite index_range_lookup in Hx by assumption. injection Hx as <-.
    exists y. split; [lia|]. rewrite Nat2Z.id. split; [exact Hy | symmetry; exact Hkey].
Qed.

(** ** The run of [collapse_vertices_], step by step *)

Lemma existsb_eqb_elem_of (j : Z) (l : list Z) : existsb (Z.eqb j) l = true <-> j ∈ l.
Proof.
  rewrite existsb_exists. split.
  - intros (x & Hx & Heq). apply Z.eqb_eq in Heq. subst x. apply list_elem_of_In. exact Hx.
  - intros Hj. exists j. split; [apply list_elem_of_In; exact Hj | apply Z.eqb_refl].
Qed.

Lemma foldM_visited_in {E S X} (body : S -> X -> result E S) (P : S -> Prop)
    (Q : X -> S -> Prop) (R : X -> Prop) :
  (forall s x s', R x -> P s -> body s x = Ok s' ->
     P s' /\ Q x s' /\ forall y, Q y s -> Q y s') ->
  forall xs s s', Forall R xs -> P s -> foldM body xs s = Ok s' ->
    P s' /\ (forall x, x ∈ xs -> Q x s') /\ (forall y, Q y s -> Q y s').
Proof.
  intros Hbody xs. induction xs as [|x xs IH]; intros s s' HR HP H; simpl in H.
  - injection H as <-. split; [assumption|]. split; [|auto].
    intros x Hx. apply elem_of_nil in Hx. contradiction.
  - inversion HR as [|? ? Hx Hxs]; subst.
    apply bind_Ok in H as (s1 & H1 & H2).
    destruct (Hbody s x s1 Hx HP H1) as (HP1 & HQ1 & Hst1).
    destruct (IH s1 s' Hxs HP1 H2) as (HP2 & HQ2 & Hst2).
    split; [assumption|]. split; [|auto].
    intros y Hy. apply elem_of_cons in Hy as [->|Hy]; auto.
Qed.

Lemma scan_candidates_in_range (gHash_ : Z -> Z) (aVM : VicinityMap_) (aSoup : TriangleSoup)
    (dp : DiscretizedPosition_) :
  vm_in_range aVM aSoup ->
  Forall (fun idx => 0 <= idx < Z.of_nat (length (vert aSoup))) (scan_candidates gHash_ aVM dp).
Proof.
  intros Hvm. apply Forall_forall. intros idx Hin.
  apply list_elem_of_In in Hin. unfold scan_candidates in Hin.
  apply in_flat_map in Hin as (j & _ & Hin).
  destruct (neighbour_ dp j) as [dq|e]; [|contradiction].
  apply list_elem_of_In in Hin.
  exact (proj1 (Forall_forall _ _) (equal_range_in_range aVM aSoup Hvm _) idx Hin).
Qed.

Section ScanForm.

Variable gHash_ : Z -> Z.
Variable cast_out_of_range : float -> Z.
Variable aVM : VicinityMap_.
Variable aD : Discretizer_.
Variable aSoup : TriangleSoup.
Variable aMaxError : float.

Hypothesis Hwf : wf_soup aSoup.
Hypothesis Hvm : vm_in_range aVM aSoup.

Local Abbreviation cls := (scan_merges gHash_ cast_out_of_range aVM aD aSoup aMaxError).

Lemma visit_candidate_scan (k : nat) (self : vec3) (st : CollapseState) (s : ScanState)
    (idx : Z) (s' : ScanState) :
  idx ∈ scan_candidates gHash_ aVM (discretize cast_out_of_range aD self) ->
  outer_inv (length (vert aSoup)) k st ->
  collapseMap st !! k = Some unassigned -> vert aSoup !! k = Some self ->
  scan_partial cls st k s ->
  visit_candidate aSoup aMaxError (Z.of_nat k) self s idx = Ok s' ->
  scan_partial cls st k s' /\ candidate_settled cls k idx s'
  /\ forall y, candidate_settled cls k y s -> candidate_settled cls k y s'.
Proof.
  intros Hcand ((Hlen & Hnv & _ & _ & _) & _ & Hlv) Hk Hself Hs H.
  assert (Hkn : (k < length (vert aSoup))%nat) by (eapply lookup_lt_Some; exact Hself).
  assert (Hfresh : nextVertex st <> unassigned).
  { destruct Hwf as (_ & _ & Hn64). unfold unassigned. lia. }
  pose proof Hs as (P1 & P2 & P3 & P4).
  unfold visit_candidate in H.
  destruct (Z.eqb_spec idx (Z.of_nat k)) as [Heq|Hne].
  { injection H as <-. split; [exact Hs|]. split; [intros Hc; contradiction | auto]. }
  apply bind_Ok in H as (c & Hc & H). apply vget_Ok in Hc as (Hidx & Hc).
  destruct (Z.eqb_spec c unassigned) as [->|Hasg]; cbn [negb] in H.
  2:{ injection H as <-. split; [exact Hs|]. split; [|auto].
      intros _ _. rewrite Hc. congruence. }
  apply bind_Ok in H as (other & Hother & H). apply vget_Ok in Hother as (_ & Hother).
  apply bind_Ok in H as (m & Hm & H).
  assert (Hcls : cls (Z.of_nat k) idx = m).
  { unfold scan_merges. rewrite Nat2Z.id, Hself, Hother, Hm.
    rewrite (proj2 (existsb_eqb_elem_of idx _) Hcand). reflexivity. }
  destruct m.
  2:{ injection H as <-. split; [exact Hs|]. split; [|auto]. intros _ Habs. congruence. }
  assert (Hidxlt : (Z.to_nat idx < length (collapseMap (cst s)))%nat)
    by (eapply lookup_lt_Some; exact Hc).
  assert (Hnek : Z.to_nat idx <> k) by lia.
  assert (Horig : collapseMap st !! Z.to_nat idx = Some unassigned).
  { destruct (lookup_lt_is_Some_2 (collapseMap st) (Z.to_nat idx)) as (c0 & Hc0); [lia|].
    destruct (P2 _ _ Hc0) as [Hsame | (_ & _ & Hnew)]; congruence. }
  destruct (merged s) eqn:Hmg; cbn [bind] in H.
  - destruct (P4 eq_refl) as (Q1 & Q2 & Q3 & Q4 & Q5).
    apply bind_Ok in H as (cm & Hcm & H). apply vset_Ok in Hcm as (_ & ->).
    injection H as <-. rewrite Q2.
    split; [|split].
    + unfold scan_partial. cbn [cst merged target aIndices aVertices collapseMap nextVertex].
      split; [rewrite length_insert; exact P1|].
      split; [|split; [discriminate|]].
      * intros j c Hj. destruct (decide (Z.to_nat idx = j)) as [<-|Hnj].
        -- right. rewrite Hj in Horig. injection Horig as ->.
           split; [reflexivity|]. split; [right; rewrite Z2Nat.id by assumption; exact Hcls|].
           apply list_lookup_insert_eq. exact Hidxlt.
        -- rewrite list_lookup_insert_ne by assumption. apply P2. exact Hj.
      * intros _. rewrite list_lookup_insert_ne by assumption. repeat split; assumption.
    + intros _ _. cbn [cst collapseMap]. rewrite list_lookup_insert_eq by assumption. congruence.
    + intros y Hy Hy1 Hy2. cbn [cst collapseMap].
      apply insert_not_unassigned; [assumption | apply Hy; assumption].
  - pose proof (P3 eq_refl) as Hst.
    apply bind_Ok in H as ([toWhere st1] & H1 & H).
    apply bind_Ok in H1 as (cm1 & Hcm1 & H1). apply vset_Ok in Hcm1 as (_ & ->).
    injection H1 as <- <-. cbn [collapseMap aIndices aVertices nextVertex] in H.
    apply bind_Ok in H as (cm2 & Hcm2 & H). apply vset_Ok in Hcm2 as (_ & ->).
    injection H as <-. rewrite Nat2Z.id, Hst.
    assert (Hklt : (k < length (collapseMap st))%nat) by lia.
    split; [|split].
    + unfold scan_partial. cbn [cst merged target aIndices aVertices collapseMap nextVertex].
      split; [rewrite !length_insert; reflexivity|].
      split; [|split; [discriminate|]].
      * intros j c Hj. destruct (decide (Z.to_nat idx = j)) as [<-|Hnj].
        -- right. rewrite Hj in Horig. injection Horig as ->.
           split; [reflexivity|]. split; [right; rewrite Z2Nat.id by assumption; exact Hcls|].
           apply list_lookup_insert_eq. rewrite length_insert. lia.
        -- rewrite list_lookup_insert_ne by assumption.
           destruct (decide (k = j)) as [<-|Hnk].
           ++ right. rewrite Hj in Hk. injection Hk as ->.
              split; [reflexivity|]. split; [left; reflexivity|].
              apply list_lookup_insert_eq. exact Hklt.
           ++ left. rewrite list_lookup_insert_ne by assumption. exact Hj.
      * intros _. rewrite list_lookup_insert_ne by assumption.
        rewrite list_lookup_insert_eq by assumption. repeat split; reflexivity.
    + intros _ _. cbn [cst collapseMap].
      rewrite list_lookup_insert_eq by (rewrite length_insert; lia). congruence.
    + intros y Hy Hy1 Hy2. cbn [cst collapseMap].
      apply insert_not_unassigned; [assumption|].
      apply insert_not_unassigned; [assumption|].
      specialize (Hy Hy1 Hy2). rewrite Hst in Hy. exact Hy.
Qed.

Lemma process_vertex_step (k : nat) (st : CollapseState) :
  (k < length (vert aSoup))%nat -> outer_inv (length (vert aSoup)) k st ->
  process_vertex gHash_ cast_out_of_range aVM aD aSoup aMaxError st (Z.of_nat k)
  = Ok (collapse_step cls st (Z.of_nat k)).
Proof.
  intros Hk Hinv.
  destruct (process_vertex_inv gHash_ cast_out_of_range aVM aD aSoup aMaxError Hwf Hvm k st
              Hk Hinv) as (st' & H & _).
  rewrite H. f_equal. unfold process_vertex in H.
  pose proof Hinv as ((Hlen & Hnv & _ & _ & _) & _ & Hlv).
  assert (Hfresh : nextVertex st <> unassigned).
  { destruct Hwf as (_ & _ & Hn64). unfold unassigned. lia. }
  apply bind_Ok in H as (c & Hc & H). apply vget_Ok in Hc as (_ & Hc).
  unfold collapse_step. rewrite Hc. rewrite Nat2Z.id in Hc.
  destruct (Z.eqb_spec unassigned c) as [<-|Hasg]; cbn [negb] in H.
  2:{ apply bind_Ok in H as (? & _ & H). injection H as <-.
      destruct (Z.eqb_spec c unassigned); [congruence | reflexivity]. }
  rewrite Z.eqb_refl.
  apply bind_Ok in H as (self & Hself & H). apply vget_Ok in Hself as (_ & Hself).
  rewrite Nat2Z.id in Hself.
  apply bind_Ok in H as (s & Hscan & H).
  rewrite scan_neighbours_flat in Hscan.
  apply (foldM_visited_in _ (scan_partial cls st k) (candidate_settled cls k)
           (fun idx => idx ∈ scan_candidates gHash_ aVM (discretize cast_out_of_range aD self)))
    in Hscan as ((P1 & P2 & P3 & P4) & Hvisited & _).
  2:{ intros s0 idx s1 Hin Hs0 Hv.
      exact (visit_candidate_scan k self st s0 idx s1 Hin Hinv Hc Hself Hs0 Hv). }
  2:{ apply Forall_forall. trivial. }
  2:{ unfold scan_partial. cbn [cst merged target].
      split; [reflexivity|]. split; [intros j c0 Hj; left; exact Hj|].
      split; [reflexivity | discriminate]. }
  assert (Hclass : forall j, (j < length (vert aSoup))%nat -> j <> k ->
            cls (Z.of_nat k) (Z.of_nat j) = true ->
            collapseMap (cst s) !! j <> Some unassigned).
  { intros j Hj Hjk Hcl.
    pose proof (Hvisited (Z.of_nat j)) as Hv. unfold candidate_settled in Hv.
    rewrite Nat2Z.id in Hv. apply Hv; [|lia|exact Hcl].
    unfold scan_merges in Hcl. rewrite Nat2Z.id, Hself in Hcl.
    destruct (vert aSoup !! Z.to_nat (Z.of_nat j)); [|discriminate].
    apply andb_true_iff in Hcl as (Hin & _). apply existsb_eqb_elem_of. exact Hin. }
  assert (Hmap : forall cm', length cm' = length (collapseMap st) ->
            cm' !! k = Some (nextVertex st) ->
            (forall j c, collapseMap st !! j = Some c ->
               cm' !! j = Some c
               \/ (c = unassigned /\ (j = k \/ cls (Z.of_nat k) (Z.of_nat j) = true)
                   /\ cm' !! j = Some (nextVertex st))) ->
            (forall j, (j < length (vert aSoup))%nat -> j <> k ->
               cls (Z.of_nat k) (Z.of_nat j) = true -> cm' !! j <> Some unassigned) ->
            cm' = assign_class cls (Z.of_nat k) (nextVertex st) (collapseMap st)).
  { intros cm' L1 L2 L3 L4. apply list_eq. intros j. unfold assign_class.
    rewrite list_lookup_imap.
    destruct (collapseMap st !! j) as [c0|] eqn:Hj; cbn [fmap option_fmap option_map].
    2:{ apply lookup_ge_None. rewrite L1. apply lookup_ge_None. exact Hj. }
    assert (Hjn : (j < length (vert aSoup))%nat).
    { rewrite <- Hlen. eapply lookup_lt_Some. exact Hj. }
    destruct (Z.eqb_spec c0 unassigned) as [->|Hc0]; cbn [andb].
    - destruct (Z.eqb_spec (Z.of_nat j) (Z.of_nat k)) as [Hjk|Hjk]; cbn [orb].
      + assert (j = k) by lia. subst j. exact L2.
      + destruct (cls (Z.of_nat k) (Z.of_nat j)) eqn:Hcl.
        * destruct (L3 _ _ Hj) as [Hsame | (_ & _ & Hnew)]; [|exact Hnew].
          exfalso. apply (L4 j); [assumption | lia | assumption | assumption].
        * destruct (L3 _ _ Hj) as [Hsame | (_ & [Hjk'|Hcl'] & _)];
            [exact Hsame | lia | congruence].
    - destruct (L3 _ _ Hj) as [Hsame | (Habs & _)]; [exact Hsame | contradiction]. }
  destruct (merged s) eqn:Hmg; cbn [negb] in H.
  - injection H as <-. destruct (P4 eq_refl) as (Q1 & Q2 & Q3 & Q4 & Q5).
    destruct (cst s) as [ai av cm nv]. cbn [aIndices aVertices collapseMap nextVertex] in *.
    subst ai av nv. f_equal. apply Hmap; assumption.
  - pose proof (P3 eq_refl) as Hst. rewrite Hst in *.
    apply bind_Ok in H as (cm & Hcm & H). apply vset_Ok in Hcm as (Hr & ->).
    injection H as <-. rewrite Nat2Z.id. f_equal.
    apply Hmap.
    + apply length_insert.
    + apply list_lookup_insert_eq. lia.
    + intros j c0 Hj. destruct (decide (k = j)) as [<-|Hnk].
      * right. rewrite Hj in Hc. injection Hc as ->.
        split; [reflexivity|]. split; [left; reflexivity|]. apply list_lookup_insert_eq. lia.
      * left. rewrite list_lookup_insert_ne by assumption. exact Hj.
    + intros j Hj Hjk Hcl. rewrite list_lookup_insert_ne by congruence.
      apply Hclass; assumption.
Qed.

Lemma collapse_prefix_steps (k : nat) :
  (k <= length (vert aSoup))%nat ->
  collapse_prefix gHash_ cast_out_of_range aVM aD aSoup aMaxError k
  = Ok (fold_left (collapse_step cls) (index_range k) (collapse_init aSoup)).
Proof.
  induction k as [|k IH]; intros Hk; [reflexivity|].
  destruct (collapse_prefix_inv gHash_ cast_out_of_range aVM aD aSoup aMaxError Hwf Hvm k)
    as (st & Hrun & Hinv); [lia|].
  rewrite IH in Hrun by lia. injection Hrun as Hrun.
  unfold collapse_prefix in *. rewrite index_range_S, foldM_app, IH by lia. cbn [bind foldM].
  rewrite fold_left_app. cbn [fold_left]. rewrite Hrun.
  rewrite process_vertex_step by (assumption || lia). reflexivity.
Qed.

End ScanForm.

(** ** The groups that the run forms *)

Lemma assign_class_lookup (cls : Z -> Z -> bool) (i toWhere : Z) (cm : list Z) (j : nat) (c : Z) :
  cm !! j = Some c ->
  assign_class cls i toWhere cm !! j
  = Some (if (c =? unassigned) && ((Z.of_nat j =? i) || cls i (Z.of_nat j)) then toWhere else c).
Proof. intros Hj. unfold assign_class. rewrite list_lookup_imap, Hj. reflexivity. Qed.

Lemma assign_class_assigned (cls : Z -> Z -> bool) (i toWhere : Z) (cm : list Z) (j : nat) (c : Z) :
  cm !! j = Some c -> c <> unassigned -> assign_class cls i toWhere cm !! j = Some c.
Proof.
  intros Hj Hc. rewrite (assign_class_lookup _ _ _ _ _ _ Hj).
  destruct (Z.eqb_spec c unassigned); [contradiction | reflexivity].
Qed.

Lemma grouped_init (cls : Z -> Z -> bool) (aSoup : TriangleSoup) :
  grouped cls (length (vert aSoup)) 0 (collapse_init aSoup).
Proof.
  unfold grouped, collapse_init. cbn [aIndices aVertices collapseMap nextVertex length].
  split; [apply length_replicate|]. split; [reflexivity|]. split; [reflexivity|].
  split; [lia|]. split; [intros j Hj; lia|]. split.
  - intros j s Hj Hs. apply lookup_replicate in Hj as (-> & _). contradiction.
  - split; intros; discriminate.
Qed.

Lemma grouped_step (cls : Z -> Z -> bool) (n k : nat) (st : CollapseState) :
  (k < n)%nat -> Z.of_nat n < two64 -> grouped cls n k st ->
  grouped cls n (S k) (collapse_step cls st (Z.of_nat k)).
Proof.
  intros Hk Hn (G1 & G2 & G3 & G4 & G5 & G6 & G7 & G8).
  unfold collapse_step. rewrite Nat2Z.id.
  destruct (lookup_lt_is_Some_2 (collapseMap st) k) as (c & Hc); [lia|]. rewrite Hc.
  destruct (Z.eqb_spec c unassigned) as [->|Hasg].
  - (* a new slot *)
    set (nv := nextVertex st) in *.
    assert (Hnvk : nv <= Z.of_nat k) by lia.
    assert (Hfresh : nv <> unassigned) by (unfold unassigned; lia).
    assert (Hafter : forall j c0, collapseMap st !! j = Some c0 -> c0 = unassigned -> (k <= j)%nat).
    { intros j c0 Hj ->. destruct (le_lt_dec k j) as [|Hlt]; [assumption|].
      destruct (G5 j Hlt) as (s & Hs & Hsn & _). congruence. }
    unfold grouped. cbn [aIndices aVertices collapseMap nextVertex].
    split; [unfold assign_class; rewrite length_imap; exact G1|].
    split; [rewrite length_app; simpl; lia|].
    split; [rewrite length_app; simpl; rewrite Z.mod_small by lia; lia|].
    split; [rewrite length_app; simpl; lia|].
    split; [|split; [|split]].
    + intros j Hj. destruct (decide (j = k)) as [->|Hne].
      * exists nv. rewrite (assign_class_lookup _ _ _ _ _ _ Hc).
        rewrite Z.eqb_refl, Z.eqb_refl. cbn [andb orb].
        split; [reflexivity|]. split; [assumption|].
        rewrite lookup_app_r by lia. rewrite G2, Nat.sub_diag. reflexivity.
      * destruct (G5 j) as (s & Hs & Hsn & Hix); [lia|].
        exists s. split; [apply assign_class_assigned; assumption|]. split; [assumption|].
        rewrite lookup_app_l by lia. exact Hix.
    + intros j s Hj Hs.
      destruct (lookup_lt_is_Some_2 (collapseMap st) j) as (c0 & Hc0).
      { apply lookup_lt_Some in Hj. unfold assign_class in Hj. rewrite length_imap in Hj. exact Hj. }
      rewrite (assign_class_lookup _ _ _ _ _ _ Hc0) in Hj. injection Hj as Hj.
      destruct (Z.eqb_spec c0 unassigned) as [Hc0u|Hc0n]; cbn [andb] in Hj.
      * destruct ((Z.of_nat j =? Z.of_nat k) || cls (Z.of_nat k) (Z.of_nat j)) eqn:Hcond;
          [|congruence].
        subst s c0. exists k. split; [lia|].
        split; [rewrite lookup_app_r by lia;
                replace (Z.to_nat nv - length (aVertices st))%nat with O by lia; reflexivity|].
        split; [exact (Hafter j unassigned Hc0 eq_refl)|].
        apply orb_true_iff in Hcond as [Heq|Hcl]; [left; apply Z.eqb_eq in Heq; lia | right; exact Hcl].
      * subst s. destruct (G6 j c0 Hc0 Hc0n) as (r & Hs0 & Hr & Hrj & Hrel).
        exists r. split; [assumption|]. split; [|split; assumption].
        rewrite lookup_app_l by (eapply lookup_lt_Some; exact Hr). exact Hr.
    + intros s r Hs. destruct (decide (s = length (aVertices st))) as [->|Hne].
      * rewrite lookup_app_r in Hs by lia. rewrite Nat.sub_diag in Hs. injection Hs as <-.
        split; [lia|]. rewrite Nat2Z.id. rewrite (assign_class_lookup _ _ _ _ _ _ Hc).
        rewrite Z.eqb_refl, Z.eqb_refl. cbn [andb orb]. f_equal. lia.
      * assert (Hlt : (s < length (aVertices st))%nat).
        { apply lookup_lt_Some in Hs. rewrite length_app in Hs. simpl in Hs. lia. }
        rewrite lookup_app_l in Hs by assumption.
        destruct (G7 s r Hs) as (Hr & Hcm). split; [lia|].
        apply assign_class_assigned; [exact Hcm|]. unfold unassigned. lia.
    + intros s1 s2 r1 r2 H1 H2 Hlt.
      assert (Hs2 : (s2 < S (length (aVertices st)))%nat).
      { apply lookup_lt_Some in H2. rewrite length_app in H2. simpl in H2. lia. }
      rewrite lookup_app_l in H1 by lia.
      destruct (decide (s2 = length (aVertices st))) as [->|Hne].
      * rewrite lookup_app_r in H2 by lia. rewrite Nat.sub_diag in H2. injection H2 as <-.
        destruct (G7 s1 r1 H1) as (Hr & _). lia.
      * rewrite lookup_app_l in H2 by lia. exact (G8 s1 s2 r1 r2 H1 H2 Hlt).
  - (* the vertex has its slot *)
    unfold grouped. cbn [aIndices aVertices collapseMap nextVertex].
    split; [exact G1|]. split; [rewrite length_app; simpl; lia|].
    split; [exact G3|]. split; [lia|]. split; [|split; [exact G6|split; [|exact G8]]].
    + intros j Hj. destruct (decide (j = k)) as [->|Hne].
      * exists c. split; [exact Hc|]. split; [exact Hasg|].
        rewrite lookup_app_r by lia. rewrite G2, Nat.sub_diag. reflexivity.
      * destruct (G5 j) as (s & Hs & Hsn & Hix); [lia|].
        exists s. split; [assumption|]. split; [assumption|].
        rewrite lookup_app_l by lia. exact Hix.
    + intros s r Hs. destruct (G7 s r Hs) as (Hr & Hcm). split; [lia | exact Hcm].
Qed.

Lemma grouped_fold (cls : Z -> Z -> bool) (aSoup : TriangleSoup) (k : nat) :
  Z.of_nat (length (vert aSoup)) < two64 -> (k <= length (vert aSoup))%nat ->
  grouped cls (length (vert aSoup)) k
    (fold_left (collapse_step cls) (index_range k) (collapse_init aSoup)).
Proof.
  intros Hn. induction k as [|k IH]; intros Hk; [apply grouped_init|].
  rewrite index_range_S, fold_left_app. cbn [fold_left].
  apply grouped_step; [lia | assumption | apply IH; lia].
Qed.

Lemma collapse_vertices_grouped (gHash_ : Z -> Z) (cast_out_of_range : float -> Z)
    (aVM : VicinityMap_) (aD : Discretizer_) (aSoup : TriangleSoup) (aMaxError : float) :
  wf_soup aSoup -> vm_in_range aVM aSoup ->
  exists st,
    collapse_vertices_ gHash_ cast_out_of_range aVM aD aSoup aMaxError
    = Ok (nextVertex st, aIndices st, aVertices st)
    /\ st = fold_left (collapse_step (scan_merges gHash_ cast_out_of_range aVM aD aSoup aMaxError))
                      (index_range (length (vert aSoup))) (collapse_init aSoup)
    /\ grouped (scan_merges gHash_ cast_out_of_range aVM aD aSoup aMaxError)
               (length (vert aSoup)) (length (vert aSoup)) st.
Proof.
  intros Hwf Hvm. eexists. split; [|split; [reflexivity|]].
  - unfold collapse_vertices_, collapse_run.
    rewrite (collapse_prefix_steps gHash_ cast_out_of_range aVM aD aSoup aMaxError Hwf Hvm)
      by lia.
    reflexivity.
  - apply grouped_fold; [apply Hwf | lia].
Qed.

(** X7. Every vertex is mergeable with the vertex recorded for its slot: the
    index of vertex [j] names a slot of the vertex mapping, the vertex [r]
    recorded there is [j] itself or an earlier vertex, and in the second
    case [mergable_] holds of [r] and [j]. *)
Theorem merged_with_representative (gHash_ : Z -> Z) (cast_out_of_range : float -> Z)
    (aVM : VicinityMap_) (aD : Discretizer_) (aSoup : TriangleSoup) (aMaxError : float) :
  wf_soup aSoup -> vm_in_range aVM aSoup -> Z.of_nat (length (vert aSoup)) < two32 ->
  exists verts indices vertexMapping,
    collapse_vertices_ gHash_ cast_out_of_range aVM aD aSoup aMaxError
    = Ok (verts, indices, vertexMapping)
    /\ forall (j : nat) (idx : Z), indices !! j = Some idx ->
         exists (r : nat) (pr pj : vec3),
           0 <= idx /\ vertexMapping !! Z.to_nat idx = Some (Z.of_nat r)
           /\ (r <= j)%nat
           /\ vert aSoup !! r = Some pr /\ vert aSoup !! j = Some pj
           /\ (r = j \/ mergable_ aSoup (Z.of_nat r) (Z.of_nat j) pr pj aMaxError = Ok true).
Proof.
  intros Hwf Hvm Hn32.
  destruct (collapse_vertices_grouped gHash_ cast_out_of_range aVM aD aSoup aMaxError Hwf Hvm)
    as (st & Hrun & _ & (G1 & G2 & G3 & G4 & G5 & G6 & G7 & G8)).
  exists (nextVertex st), (aIndices st), (aVertices st). split; [exact Hrun|].
  intros j idx Hj.
  assert (Hjn : (j < length (vert aSoup))%nat) by (rewrite <- G2; eapply lookup_lt_Some; exact Hj).
  destruct (G5 j Hjn) as (s & Hs & Hsn & Hix).
  destruct (G6 j s Hs Hsn) as (r & Hs0 & Hr & Hrj & Hrel).
  assert (Hslt : s < two32).
  { apply lookup_lt_Some in Hr. lia. }
  rewrite Hix in Hj. injection Hj as <-. rewrite Z.mod_small by lia.
  destruct (lookup_lt_is_Some_2 (vert aSoup) r) as (pr & Hpr); [lia|].
  destruct (lookup_lt_is_Some_2 (vert aSoup) j) as (pj & Hpj); [lia|].
  exists r, pr, pj. split; [assumption|]. split; [assumption|]. split; [assumption|].
  split; [assumption|]. split; [assumption|].
  destruct Hrel as [->|Hcl]; [left; reflexivity | right].
  unfold scan_merges in Hcl. rewrite !Nat2Z.id, Hpr, Hpj in Hcl.
  apply andb_true_iff in Hcl as (_ & Hm).
  destruct (mergable_ aSoup (Z.of_nat r) (Z.of_nat j) pr pj aMaxError) as [b|e];
    [subst b; reflexivity | discriminate].
Qed.

(** X8. The vertex mapping lists, in increasing order, the vertices that
    opened the slots, and the index of the vertex recorded for slot [s] is
    [s]; a soup that has vertices gives slot 0 to vertex 0; there are no
    more slots than vertices. *)
Theorem vertex_mapping_section (gHash_ : Z -> Z) (cast_out_of_range : float -> Z)
    (aVM : VicinityMap_) (aD : Discretizer_) (aSoup : TriangleSoup) (aMaxError : float) :
  wf_soup aSoup -> vm_in_range aVM aSoup -> Z.of_nat (length (vert aSoup)) < two32 ->
  exists verts indices vertexMapping,
    collapse_vertices_ gHash_ cast_out_of_range aVM aD aSoup aMaxError
    = Ok (verts, indices, vertexMapping)
    /\ (forall (s : nat) (r : Z), vertexMapping !! s = Some r ->
          0 <= r /\ indices !! Z.to_nat r = Some (Z.of_nat s))
    /\ (forall (s1 s2 : nat) (r1 r2 : Z),
          vertexMapping !! s1 = Some r1 -> vertexMapping !! s2 = Some r2 ->
          (s1 < s2)%nat -> r1 < r2)
    /\ (vert aSoup <> [] -> vertexMapping !! 0%nat = Some 0)
    /\ 0 <= verts <= Z.of_nat (length (vert aSoup)).
Proof.
  intros Hwf Hvm Hn32.
  destruct (collapse_vertices_grouped gHash_ cast_out_of_range aVM aD aSoup aMaxError Hwf Hvm)
    as (st & Hrun & _ & (G1 & G2 & G3 & G4 & G5 & G6 & G7 & G8)).
  exists (nextVertex st), (aIndices st), (aVertices st). split; [exact Hrun|].
  split; [|split; [exact G8|split; [|lia]]].
  - intros s r Hs. destruct (G7 s r Hs) as (Hr & Hcm). split; [lia|].
    destruct (G5 (Z.to_nat r)) as (s' & Hs' & _ & Hix); [lia|].
    rewrite Hcm in Hs'. injection Hs' as <-. rewrite Hix. f_equal.
    apply Z.mod_small. apply lookup_lt_Some in Hs. lia.
  - intros Hne.
    assert (Hpos : (0 < length (vert aSoup))%nat).
    { destruct (vert aSoup); [contradiction | simpl; lia]. }
    destruct (G5 O Hpos) as (s & Hs & Hsn & _).
    destruct (G6 O s Hs Hsn) as (r & Hs0 & Hr & Hr0 & _).
    assert (r = O) by lia. subst r.
    destruct (Z.to_nat s) as [|s'] eqn:Es; [exact Hr|].
    destruct (lookup_lt_is_Some_2 (aVertices st) O) as (r0 & Hr0'); [apply lookup_lt_Some in Hr; lia|].
    pose proof (G8 O (S s') r0 0 Hr0' Hr ltac:(lia)).
    destruct (G7 O r0 Hr0') as (? & _). lia.
Qed.

(** ** Vertices with the same attributes *)

Lemma exceeds_self (eps a : float) :
  F32.ltb eps (F32.of_Z 0) = false -> exceeds eps a a = false.
Proof.
  intros Heps. change (F32.of_Z 0) with (S754_zero false) in Heps.
  unfold exceeds, F32.gtb, F32.abs, F32.sub.
  destruct a as [s|s| |s m e]; cbn [SFsub SFabs].
  - destruct s; cbn [SFabs]; exact Heps.
  - destruct s; cbn [SFabs]; unfold SFltb; destruct eps; reflexivity.
  - unfold SFltb. destruct eps; reflexivity.
  - rewrite Z.sub_diag. cbn [binary_normalize SFabs]. exact Heps.
Qed.

Lemma vget_of_nat {A} (v : list A) (i : nat) :
  vget v (Z.of_nat i) = match v !! i with Some a => Ok a | None => Err OutOfRange end.
Proof.
  unfold vget. destruct (Z.ltb_spec (Z.of_nat i) 0); [lia|]. rewrite Nat2Z.id. reflexivity.
Qed.

Lemma mergable_same_attributes (aSoup : TriangleSoup) (i j : nat) (p : vec3) (eps : float) :
  wf_soup aSoup -> F32.ltb eps (F32.of_Z 0) = false ->
  vert aSoup !! i = Some p -> same_attributes aSoup i j ->
  mergable_ aSoup (Z.of_nat i) (Z.of_nat j) p p eps = Ok true.
Proof.
  intros (Htext & Hnorm & _) Heps Hp (_ & Hv & Hn & Ht).
  assert (Hi : (i < length (vert aSoup))%nat) by (eapply lookup_lt_Some; exact Hp).
  unfold mergable_. cbn [existsb]. rewrite !exceeds_self by assumption. cbn [orb].
  rewrite !vget_of_nat, <- Hn, <- Ht.
  destruct (lookup_lt_is_Some_2 (text aSoup) i) as (t & Hti); [lia|]. rewrite Hti.
  destruct (norm aSoup) as [|n0 ns] eqn:En.
  - cbn [bind]. rewrite !exceeds_self by assumption. reflexivity.
  - destruct Hnorm as [Hnil|Hlen]; [discriminate|].
    destruct (lookup_lt_is_Some_2 (n0 :: ns) i) as (nI & HnI); [lia|]. rewrite HnI.
    cbn [bind existsb]. rewrite ?exceeds_self by assumption. cbn [orb bind].
    rewrite ?exceeds_self by assumption. reflexivity.
Qed.

Lemma mergable_second_attributes (aSoup : TriangleSoup) (k : Z) (i j : nat) (pk p : vec3)
    (eps : float) :
  norm aSoup !! i = norm aSoup !! j -> text aSoup !! i = text aSoup !! j ->
  mergable_ aSoup k (Z.of_nat i) pk p eps = mergable_ aSoup k (Z.of_nat j) pk p eps.
Proof.
  intros Hn Ht. unfold mergable_. rewrite !(vget_of_nat _ i), !(vget_of_nat _ j), Hn, Ht.
  reflexivity.
Qed.

Lemma scan_candidates_elem_of (gHash_ : Z -> Z) (aVM : VicinityMap_) (dp : DiscretizedPosition_)
    (i : Z) :
  i ∈ scan_candidates gHash_ aVM dp
  <-> exists j dq, j ∈ index_range (Z.to_nat kNeighbourCount_) /\ neighbour_ dp j = Ok dq
                   /\ i ∈ equal_range aVM (hash_discretized_position_ gHash_ dq).
Proof.
  unfold scan_candidates. rewrite list_elem_of_In, in_flat_map. split.
  - intros (j & Hj & Hin). destruct (neighbour_ dp j) as [dq|e] eqn:Hn; [|contradiction].
    exists j, dq. rewrite !list_elem_of_In. auto.
  - intros (j & dq & Hj & Hn & Hin). exists j. rewrite Hn, <- !list_elem_of_In. auto.
Qed.

Lemma equal_range_build (gHash_ : Z -> Z) (cast : float -> Z) (aD : Discretizer_)
    (aPositions : list vec3) (vk i : Z) :
  i ∈ equal_range (build_vicinity_map_ gHash_ cast [] aD aPositions) vk
  <-> exists p, 0 <= i /\ aPositions !! Z.to_nat i = Some p
                /\ vk = hash_discretized_position_ gHash_ (discretize cast aD p).
Proof.
  rewrite build_vicinity_map_entries. split.
  - intros Hin. unfold equal_range in Hin.
    apply list_elem_of_fmap in Hin as ([key idx] & -> & Hin).
    apply list_elem_of_filter in Hin as (Hkey & Hin). cbn [fst snd] in *.
    apply list_elem_of_fmap in Hin as ([i' p] & Heq & Hin). cbn [fst snd] in Heq.
    injection Heq as -> ->.
    apply list_elem_of_lookup in Hin as (k & Hk).
    apply lookup_zip_with_Some in Hk as (x & y & Hxy & Hx & Hy). injection Hxy as -> ->.
    assert (Hklt : (k < length aPositions)%nat) by (eapply lookup_lt_Some; exact Hy).
    rewrite index_range_lookup in Hx by assumption. injection Hx as <-.
    exists y. split; [lia|]. rewrite Nat2Z.id. split; [exact Hy | symmetry; exact Hkey].
  - intros (p & Hi & Hp & ->). unfold equal_range. apply list_elem_of_fmap.
    exists (hash_discretized_position_ gHash_ (discretize cast aD p), i).
    split; [reflexivity|]. apply list_elem_of_filter. split; [reflexivity|].
    apply list_elem_of_fmap. exists (i, p). split; [reflexivity|].
    apply list_elem_of_lookup. exists (Z.to_nat i).
    apply lookup_zip_with_Some. exists i, p. split; [reflexivity|]. split; [|exact Hp].
    rewrite index_range_lookup by (eapply lookup_lt_Some; exact Hp).
    rewrite Z2Nat.id by assumption. reflexivity.
Qed.

(** The slots of two vertices that every scan treats alike stay equal. *)
Lemma twins_fold (cls : Z -> Z -> bool) (twin : nat -> nat -> Prop) (aSoup : TriangleSoup) :
  (forall i j, twin i j -> twin j i) ->
  (forall i j, twin i j -> (i < length (vert aSoup))%nat) ->
  (forall i j, twin i j -> i <> j -> cls (Z.of_nat i) (Z.of_nat j) = true) ->
  (forall i j k, twin i j -> k <> i -> k <> j ->
     cls (Z.of_nat k) (Z.of_nat i) = cls (Z.of_nat k) (Z.of_nat j)) ->
  forall k i j, twin i j ->
    collapseMap (fold_left (collapse_step cls) (index_range k) (collapse_init aSoup)) !! i
    = collapseMap (fold_left (collapse_step cls) (index_range k) (collapse_init aSoup)) !! j.
Proof.
  intros Hsym Hrange Hself Hother. induction k as [|k IH]; intros i j Htw.
  - cbn [index_range seq map fold_left collapse_init collapseMap].
    rewrite !lookup_replicate_2; [reflexivity | |].
    + exact (Hrange j i (Hsym i j Htw)).
    + exact (Hrange i j Htw).
  - rewrite index_range_S, fold_left_app. cbn [fold_left].
    specialize (IH i j Htw). revert IH.
    generalize (fold_left (collapse_step cls) (index_range k) (collapse_init aSoup)).
    intros st IH. unfold collapse_step. rewrite Nat2Z.id.
    destruct (collapseMap st !! k) as [c|]; [|exact IH].
    destruct (c =? unassigned); cbn [collapseMap]; [|exact IH].
    unfold assign_class. rewrite !list_lookup_imap, IH.
    destruct (collapseMap st !! j) as [c0|]; [|reflexivity].
    cbn [fmap option_fmap option_map]. f_equal.
    destruct (c0 =? unassigned); cbn [andb]; [|reflexivity].
    assert (Hcond : (Z.of_nat i =? Z.of_nat k) || cls (Z.of_nat k) (Z.of_nat i)
                    = (Z.of_nat j =? Z.of_nat k) || cls (Z.of_nat k) (Z.of_nat j)).
    { destruct (Z.eqb_spec (Z.of_nat i) (Z.of_nat k)) as [Hik|Hik];
        destruct (Z.eqb_spec (Z.of_nat j) (Z.of_nat k)) as [Hjk|Hjk]; cbn [orb].
      - reflexivity.
      - assert (i = k) by lia. subst i. symmetry. apply Hself; [exact Htw | lia].
      - assert (j = k) by lia. subst j. apply Hself; [apply Hsym; exact Htw | lia].
      - apply Hother; [exact Htw | lia | lia]. }
    rewrite Hcond. reflexivity.
Qed.

Lemma same_attributes_sym (aSoup : TriangleSoup) (i j : nat) :
  same_attributes aSoup i j -> same_attributes aSoup j i.
Proof.
  intros (Hs & Hv & Hn & Ht). split; [rewrite <- Hv; exact Hs|].
  split; [|split]; congruence.
Qed.

Section Duplicates.

Variable gHash_ : Z -> Z.
Variable cast_out_of_range : float -> Z.
Variable aD : Discretizer_.
Variable aSoup : TriangleSoup.
Variable aMaxError : float.

Hypothesis Hwf : wf_soup aSoup.
Hypothesis Heps : F32.ltb aMaxError (F32.of_Z 0) = false.

Local Abbreviation vm := (build_vicinity_map_ gHash_ cast_out_of_range [] aD (vert aSoup)).
Local Abbreviation cls := (scan_merges gHash_ cast_out_of_range vm aD aSoup aMaxError).

Lemma scan_merges_duplicate (i j : nat) :
  same_attributes aSoup i j -> i <> j -> cls (Z.of_nat i) (Z.of_nat j) = true.
Proof.
  intros Hsame Hne. pose proof Hsame as ((p & Hp) & Hv & _).
  unfold scan_merges. rewrite !Nat2Z.id, <- Hv, Hp.
  apply andb_true_iff. split.
  - apply existsb_eqb_elem_of. apply same_cell_candidate; [lia|].
    rewrite Nat2Z.id, <- Hv. exact Hp.
  - rewrite (mergable_same_attributes aSoup i j p aMaxError Hwf Heps Hp Hsame). reflexivity.
Qed.

Lemma scan_merges_alike (i j k : nat) :
  same_attributes aSoup i j ->
  cls (Z.of_nat k) (Z.of_nat i) = cls (Z.of_nat k) (Z.of_nat j).
Proof.
  intros ((p & Hp) & Hv & Hn & Ht).
  unfold scan_merges. rewrite !Nat2Z.id, <- Hv, Hp.
  destruct (vert aSoup !! k) as [pk|]; [|reflexivity].
  rewrite (mergable_second_attributes aSoup (Z.of_nat k) i j pk p aMaxError Hn Ht).
  f_equal. apply Bool.eq_iff_eq_true. rewrite !existsb_eqb_elem_of, !scan_candidates_elem_of.
  split; intros (nb & dq & Hnb & Hdq & Hin); exists nb, dq;
    (split; [exact Hnb|]; split; [exact Hdq|]);
    apply equal_range_build; apply equal_range_build in Hin as (q & _ & Hq & Hkey);
    rewrite Nat2Z.id in Hq; exists p; (split; [lia|]); rewrite Nat2Z.id.
  - rewrite Hp in Hq. injection Hq as <-. split; [rewrite <- Hv; exact Hp | exact Hkey].
  - rewrite <- Hv, Hp in Hq. injection Hq as <-. split; [exact Hp | exact Hkey].
Qed.

Lemma duplicates_same_slot (k i j : nat) :
  same_attributes aSoup i j ->
  collapseMap (fold_left (collapse_step cls) (index_range k) (collapse_init aSoup)) !! i
  = collapseMap (fold_left (collapse_step cls) (index_range k) (collapse_init aSoup)) !! j.
Proof.
  apply (twins_fold cls (same_attributes aSoup) aSoup).
  - apply same_attributes_sym.
  - intros a b ((p & Hp) & _). eapply lookup_lt_Some. exact Hp.
  - intros a b Hab Hne. apply scan_merges_duplicate; assumption.
  - intros a b c Hab _ _. apply scan_merges_alike. exact Hab.
Qed.

End Duplicates.

(** X9. With a tolerance that is not negative, two vertices with the same
    position, normal and texture coordinate get the same index, whatever
    lies between them in the soup. *)
Theorem duplicates_share_index (gHash_ : Z -> Z) (cast_out_of_range : float -> Z)
    (aSoup : TriangleSoup) (aErrorTolerance : float) :
  wf_soup aSoup -> F32.ltb aErrorTolerance (F32.of_Z 0) = false ->
  (forall aD, exists verts indices vertexMapping,
     collapse_vertices_ gHash_ cast_out_of_range
       (build_vicinity_map_ gHash_ cast_out_of_range [] aD (vert aSoup)) aD aSoup aErrorTolerance
     = Ok (verts, indices, vertexMapping)
     /\ forall i j, same_attributes aSoup i j -> indices !! i = indices !! j)
  /\ (exists verts indices vertexMapping,
        index_soup gHash_ cast_out_of_range aSoup aErrorTolerance
        = Ok (verts, indices, vertexMapping)
        /\ forall i j, same_attributes aSoup i j -> indices !! i = indices !! j).
Proof.
  intros Hwf Heps.
  assert (Hgen : forall aD, exists verts indices vertexMapping,
     collapse_vertices_ gHash_ cast_out_of_range
       (build_vicinity_map_ gHash_ cast_out_of_range [] aD (vert aSoup)) aD aSoup aErrorTolerance
     = Ok (verts, indices, vertexMapping)
     /\ length indices = length (vert aSoup)
     /\ verts = Z.of_nat (length vertexMapping)
     /\ forall i j, same_attributes aSoup i j -> indices !! i = indices !! j).
  { intros aD.
    destruct (collapse_vertices_grouped gHash_ cast_out_of_range _ aD aSoup aErrorTolerance Hwf
                (build_vicinity_map_in_range gHash_ cast_out_of_range aD aSoup))
      as (st & Hrun & Hst & (G1 & G2 & G3 & G4 & G5 & _)).
    exists (nextVertex st), (aIndices st), (aVertices st). split; [exact Hrun|].
    split; [exact G2|]. split; [exact G3|].
    intros i j Hsame.
    pose proof (duplicates_same_slot gHash_ cast_out_of_range aD aSoup aErrorTolerance Hwf Heps
                  (length (vert aSoup)) i j Hsame) as Hslot.
    rewrite <- Hst in Hslot.
    pose proof Hsame as ((p & Hp) & Hv & _).
    assert (Hi : (i < length (vert aSoup))%nat) by (eapply lookup_lt_Some; exact Hp).
    assert (Hj : (j < length (vert aSoup))%nat).
    { rewrite Hv in Hp. eapply lookup_lt_Some. exact Hp. }
    destruct (G5 i Hi) as (si & Hsi & _ & Hxi). destruct (G5 j Hj) as (sj & Hsj & _ & Hxj).
    rewrite Hxi, Hxj. rewrite Hsi, Hsj in Hslot. injection Hslot as ->. reflexivity. }
  split.
  - intros aD. destruct (Hgen aD) as (verts & indices & vertexMapping & Hrun & _ & _ & Hdup).
    exists verts, indices, vertexMapping. split; assumption.
  - unfold index_soup.
    destruct (Hgen (soup_discretizer cast_out_of_range aSoup aErrorTolerance))
      as (verts & indices & vertexMapping & Hrun & Hlen & Hverts & Hdup).
    exists verts, indices, vertexMapping. rewrite Hrun. cbn [bind].
    rewrite Hlen, Z.eqb_refl. cbn [c_assert bind]. rewrite <- Hverts, Z.eqb_refl. cbn [bind].
    split; [reflexivity | exact Hdup].
Qed.

(** X10. When only vertices at one position merge ([cls] decides the
    mergeability test and holds of no two vertices at different positions),
    the result of [collapse_vertices_] on the vicinity map of the soup is
    the same for every hash function, every out-of-range conversion and
    every discretizer. *)
Theorem collapse_hash_independent (aSoup : TriangleSoup) (aMaxError : float)
    (cls : Z -> Z -> bool)
    (gHash1 gHash2 : Z -> Z) (cast1 cast2 : float -> Z) (aD1 aD2 : Discretizer_) :
  wf_soup aSoup -> merge_classes aSoup aMaxError cls ->
  collapse_vertices_ gHash1 cast1 (build_vicinity_map_ gHash1 cast1 [] aD1 (vert aSoup)) aD1
    aSoup aMaxError
  = collapse_vertices_ gHash2 cast2 (build_vicinity_map_ gHash2 cast2 [] aD2 (vert aSoup)) aD2
      aSoup aMaxError.
Proof.
  intros Hwf Hcls. unfold collapse_vertices_.
  rewrite (collapse_run_closed_form gHash1 cast1 aD1 aSoup aMaxError cls Hwf Hcls).
  rewrite (collapse_run_closed_form gHash2 cast2 aD2 aSoup aMaxError cls Hwf Hcls).
  reflexivity.
Qed.

Lemma collapse_hash_independent_witness :
  collapse_vertices_ std_hash cast_zero
    (build_vicinity_map_ std_hash cast_zero [] (soup_discretizer cast_zero unit_cube tolerance_1e4)
       (vert unit_cube))
    (soup_discretizer cast_zero unit_cube tolerance_1e4) unit_cube tolerance_1e4
  = collapse_vertices_ (fun x => 7 * x + 1) cast_zero
      (build_vicinity_map_ (fun x => 7 * x + 1) cast_zero []
         (mk_Discretizer_ 1 (Vec3 (F32.of_Z 0) (F32.of_Z 0) (F32.of_Z 0)) (F32.of_Z 1))
         (vert unit_cube))
      (mk_Discretizer_ 1 (Vec3 (F32.of_Z 0) (F32.of_Z 0) (F32.of_Z 0)) (F32.of_Z 1))
      unit_cube tolerance_1e4.
Proof.
  exact (collapse_hash_independent unit_cube tolerance_1e4 cube_cls _ _ _ _ _ _
           unit_cube_wf cube_merge_classes).
Defined.

Lemma unit_cube_vertex_count : Z.of_nat (length (vert unit_cube)) < two32.
Proof. reflexivity. Qed.

Lemma merged_with_representative_witness :
  exists verts indices vertexMapping,
    collapse_vertices_ std_hash cast_zero
      (build_vicinity_map_ std_hash cast_zero []
         (soup_discretizer cast_zero unit_cube tolerance_1e4) (vert unit_cube))
      (soup_discretizer cast_zero unit_cube tolerance_1e4) unit_cube tolerance_1e4
    = Ok (verts, indices, vertexMapping)
    /\ forall (j : nat) (idx : Z), indices !! j = Some idx ->
         exists (r : nat) (pr pj : vec3),
           0 <= idx /\ vertexMapping !! Z.to_nat idx = Some (Z.of_nat r)
           /\ (r <= j)%nat
           /\ vert unit_cube !! r = Some pr /\ vert unit_cube !! j = Some pj
           /\ (r = j \/ mergable_ unit_cube (Z.of_nat r) (Z.of_nat j) pr pj tolerance_1e4
                         = Ok true).
Proof.
  exact (merged_with_representative std_hash cast_zero _
           (soup_discretizer cast_zero unit_cube tolerance_1e4) unit_cube tolerance_1e4
           unit_cube_wf
           (build_vicinity_map_in_range std_hash cast_zero _ unit_cube)
           unit_cube_vertex_count).
Defined.

Lemma vertex_mapping_section_witness :
  exists verts indices vertexMapping,
    collapse_vertices_ std_hash cast_zero
      (build_vicinity_map_ std_hash cast_zero []
         (soup_discretizer cast_zero unit_cube tolerance_1e4) (vert unit_cube))
      (soup_discretizer cast_zero unit_cube tolerance_1e4) unit_cube tolerance_1e4
    = Ok (verts, indices, vertexMapping)
    /\ (forall (s : nat) (r : Z), vertexMapping !! s = Some r ->
          0 <= r /\ indices !! Z.to_nat r = Some (Z.of_nat s))
    /\ (forall (s1 s2 : nat) (r1 r2 : Z),
          vertexMapping !! s1 = Some r1 -> vertexMapping !! s2 = Some r2 ->
          (s1 < s2)%nat -> r1 < r2)
    /\ (vert unit_cube <> [] -> vertexMapping !! 0%nat = Some 0)
    /\ 0 <= verts <= Z.of_nat (length (vert unit_cube)).
Proof.
  exact (vertex_mapping_section std_hash cast_zero _
           (soup_discretizer cast_zero unit_cube tolerance_1e4) unit_cube tolerance_1e4
           unit_cube_wf
           (build_vicinity_map_in_range std_hash cast_zero _ unit_cube)
           unit_cube_vertex_count).
Defined.

Lemma duplicates_share_index_witness :
  exists verts indices vertexMapping,
    index_soup std_hash cast_zero unit_cube tolerance_1e4 = Ok (verts, indices, vertexMapping)
    /\ forall i j, same_attributes unit_cube i j -> indices !! i = indices !! j.
Proof.
  exact (proj2 (duplicates_share_index std_hash cast_zero unit_cube tolerance_1e4
                  unit_cube_wf eq_refl)).
Defined.

(** ** The textures that [find_unique_textures_] finds *)

Lemma unique_textures_uses (aModel : Bake.InputModel) :
  unique_textures_state aModel = add_uses (texture_uses aModel) (∅, 0).
Proof.
  unfold unique_textures_state, texture_uses, add_uses.
  generalize (∅ : gmap string Bake.TextureInfo_, 0) as st.
  induction (Bake.materials aModel) as [|mat mats IH]; intros st; [reflexivity|].
  cbn [fold_left flat_map]. rewrite fold_left_app. rewrite IH. reflexivity.
Qed.

Lemma add_uses_snoc (us : list (string * byte)) (u : string * byte)
    (st : gmap string Bake.TextureInfo_ * Z) :
  add_uses (us ++ [u]) st = add_unique_ (add_uses us st) (fst u) (snd u).
Proof. unfold add_uses. rewrite fold_left_app. reflexivity. Qed.

Lemma add_unique_keeps (st : gmap string Bake.TextureInfo_ * Z) (p : string) (c : byte)
    (q : string) (info : Bake.TextureInfo_) :
  fst st !! q = Some info -> fst (add_unique_ st p c) !! q = Some info.
Proof.
  destruct st as [unique texid]. cbn [fst]. intros Hq. unfold add_unique_.
  destruct (bool_decide (p = EmptyString)); [exact Hq|].
  destruct (unique !! p) eqn:Hp; cbn [fst]; [exact Hq|].
  rewrite lookup_insert_ne; [exact Hq|]. intros ->. congruence.
Qed.

Lemma add_uses_keeps (us : list (string * byte)) (st : gmap string Bake.TextureInfo_ * Z)
    (q : string) (info : Bake.TextureInfo_) :
  fst st !! q = Some info -> fst (add_uses us st) !! q = Some info.
Proof.
  revert st. induction us as [|u us IH]; intros st Hq; [exact Hq|].
  cbn [add_uses fold_left]. apply IH, add_unique_keeps, Hq.
Qed.

Lemma add_unique_new (unique : gmap string Bake.TextureInfo_) (texid : Z) (p : string)
    (c : byte) :
  p <> EmptyString -> unique !! p = None ->
  add_unique_ (unique, texid) p c
  = (<[p := {| Bake.uniqueId := texid; Bake.channels := c; Bake.newPath := EmptyString |}]> unique,
     (texid + 1) mod two32).
Proof.
  intros Hp Hnone. unfold add_unique_.
  rewrite bool_decide_eq_false_2 by exact Hp. rewrite Hnone. reflexivity.
Qed.

Lemma add_unique_old (unique : gmap string Bake.TextureInfo_) (texid : Z) (p : string)
    (c : byte) :
  p = EmptyString \/ is_Some (unique !! p) ->
  add_unique_ (unique, texid) p c = (unique, texid).
Proof.
  intros [->|(info & Hinfo)]; unfold add_unique_.
  - rewrite bool_decide_eq_true_2 by reflexivity. reflexivity.
  - destruct (bool_decide (p = EmptyString)); [reflexivity|]. rewrite Hinfo. reflexivity.
Qed.

(** What holds of the map and the counter after any number of uses. *)
Lemma add_uses_inv (us : list (string * byte)) :
  let st := add_uses us (∅, 0) in
  snd st = Z.of_nat (size (fst st)) mod two32
  /\ (forall p, is_Some (fst st !! p) <-> p <> EmptyString /\ p ∈ map fst us)
  /\ (forall p info, fst st !! p = Some info ->
        Bake.newPath info = EmptyString /\ (p, Bake.channels info) ∈ us)
  /\ exists ordered,
       ordered ≡ₚ map_to_list (fst st)
       /\ forall k e, ordered !! k = Some e -> Bake.uniqueId (snd e) = Z.of_nat k mod two32.
Proof.
  induction us as [|u us IH] using rev_ind.
  - cbn. split; [reflexivity|]. split; [|split].
    + intros p. rewrite lookup_empty. split.
      * intros H. destruct H as (x & Hx). discriminate.
      * intros (_ & H). exfalso. exact (not_elem_of_nil _ H).
    + intros p info H. rewrite lookup_empty in H. discriminate.
    + exists []. split; [rewrite map_to_list_empty; reflexivity|].
      intros k e H. rewrite lookup_nil in H. discriminate.
  - cbn zeta in *. rewrite add_uses_snoc.
    destruct (add_uses us (∅, 0)) as [unique texid] eqn:Hst. cbn [fst snd] in IH.
    destruct IH as (Hid & Hkeys & Hinfo & ordered & Hperm & Hord).
    destruct u as [p c]. cbn [fst snd].
    destruct (decide (p = EmptyString \/ is_Some (unique !! p))) as [Hold|Hnew].
    + rewrite add_unique_old by exact Hold. cbn [fst snd].
      split; [exact Hid|]. split; [|split].
      * intros q. rewrite Hkeys, map_app, elem_of_app. cbn [map fst].
        rewrite list_elem_of_singleton. split; [tauto|].
        intros (Hq & [Hin| ->]); [tauto|].
        destruct Hold as [He|Hs]; [contradiction|]. apply Hkeys, Hs.
      * intros q info Hq. destruct (Hinfo q info Hq) as (Hn & Hin).
        split; [exact Hn|]. apply elem_of_app. left. exact Hin.
      * exists ordered. split; assumption.
    + assert (Hp : p <> EmptyString) by tauto.
      assert (Hnone : unique !! p = None).
      { destruct (unique !! p) eqn:E; [|reflexivity]. exfalso. apply Hnew. right. eauto. }
      rewrite add_unique_new by assumption. cbn [fst snd].
      split; [|split; [|split]].
      * rewrite map_size_insert_None by exact Hnone. rewrite Hid.
        rewrite Nat2Z.inj_succ. unfold Z.succ. rewrite Zplus_mod_idemp_l. reflexivity.
      * intros q. rewrite map_app, elem_of_app. cbn [map fst].
        rewrite list_elem_of_singleton. destruct (decide (q = p)) as [->|Hne].
        -- rewrite lookup_insert_eq. split; [intros _; tauto | intros _; eauto].
        -- rewrite lookup_insert_ne by congruence. rewrite Hkeys. tauto.
      * intros q info. destruct (decide (q = p)) as [->|Hne].
        -- rewrite lookup_insert_eq. intros [= <-]. cbn. split; [reflexivity|].
           apply elem_of_app. right. apply list_elem_of_singleton. reflexivity.
        -- rewrite lookup_insert_ne by congruence. intros Hq.
           destruct (Hinfo q info Hq) as (Hn & Hin).
           split; [exact Hn|]. apply elem_of_app. left. exact Hin.
      * eexists (ordered ++ [(p, _)]). split.
        -- rewrite map_to_list_insert by exact Hnone.
           rewrite <- Hperm. symmetry. apply Permutation_cons_append.
        -- intros k e Hk. apply lookup_app_Some in Hk as [Hk|(Hge & Hk)].
           ++ apply Hord, Hk.
           ++ apply list_lookup_singleton_Some in Hk as (Hk0 & <-). cbn [snd Bake.uniqueId].
              rewrite Hid. f_equal.
              assert (size unique = length ordered) as ->.
              { rewrite <- length_map_to_list. symmetry. apply Permutation_length, Hperm. }
              f_equal. lia.
Qed.

Lemma add_uses_size (us : list (string * byte)) :
  size (fst (add_uses us (∅, 0))) = distinct_textures us.
Proof.
  destruct (add_uses_inv us) as (_ & Hkeys & _).
  rewrite <- (size_dom (D := gset string)). unfold distinct_textures.
  rewrite <- (size_list_to_set (C := gset string)) by apply NoDup_remove_dups.
  f_equal. apply set_eq. intros p.
  rewrite elem_of_dom, Hkeys, elem_of_list_to_set, elem_of_remove_dups, list_elem_of_filter.
  reflexivity.
Qed.

Lemma length_remove_dups (l : list string) : (length (remove_dups l) <= length l)%nat.
Proof.
  induction l as [|x l IH]; [reflexivity|]. cbn [remove_dups].
  destruct (decide_rel elem_of x l); cbn [length]; lia.
Qed.

Lemma find_unique_textures_uses (aModel : Bake.InputModel) :
  find_unique_textures_ aModel = fst (add_uses (texture_uses aModel) (∅, 0)).
Proof. unfold find_unique_textures_. rewrite unique_textures_uses. reflexivity. Qed.

Lemma elem_of_texture_uses (aModel : Bake.InputModel) (p : string) :
  p ∈ map fst (texture_uses aModel)
  <-> exists mat, mat ∈ Bake.materials aModel
        /\ (p = Bake.baseColorTexturePath mat \/ p = Bake.roughnessTexturePath mat
            \/ p = Bake.metalnessTexturePath mat \/ p = Bake.alphaMaskTexturePath mat
            \/ p = Bake.normalMapTexturePath mat).
Proof.
  unfold texture_uses. rewrite list_elem_of_fmap. split.
  - intros ([q c] & -> & Hin). apply list_elem_of_In, in_flat_map in Hin as (mat & Hmat & Hin).
    exists mat. split; [apply list_elem_of_In, Hmat|].
    cbn in Hin. cbn [fst]. intuition congruence.
  - intros (mat & Hmat & Hp).
    assert (Hin : exists c, In (p, c) (material_uses mat)).
    { unfold material_uses.
      destruct Hp as [->|[->|[->|[->| ->]]]]; eexists; cbn; eauto 10. }
    destruct Hin as (c & Hin). exists (p, c). split; [reflexivity|].
    apply list_elem_of_In, in_flat_map. exists mat.
    split; [apply list_elem_of_In|]; assumption.
Qed.

(** X11. [find_unique_textures_] registers exactly the texture paths that
    are not empty and that some material of the model uses, as base colour,
    roughness, metalness, alpha mask or normal map; every entry has an empty
    new path and 1 or 4 channels, and there are at most five entries per
    material. *)
Theorem unique_textures_keys (aModel : Bake.InputModel) :
  (forall p, is_Some (find_unique_textures_ aModel !! p)
     <-> p <> EmptyString
         /\ exists mat, mat ∈ Bake.materials aModel
              /\ (p = Bake.baseColorTexturePath mat \/ p = Bake.roughnessTexturePath mat
                  \/ p = Bake.metalnessTexturePath mat \/ p = Bake.alphaMaskTexturePath mat
                  \/ p = Bake.normalMapTexturePath mat))
  /\ (forall p info, find_unique_textures_ aModel !! p = Some info ->
        Bake.newPath info = EmptyString
        /\ (Bake.channels info = x01 \/ Bake.channels info = x04))
  /\ (size (find_unique_textures_ aModel) <= 5 * length (Bake.materials aModel))%nat.
Proof.
  rewrite find_unique_textures_uses.
  destruct (add_uses_inv (texture_uses aModel)) as (_ & Hkeys & Hinfo & _).
  cbn zeta in *. split; [|split].
  - intros p. rewrite Hkeys, elem_of_texture_uses. reflexivity.
  - intros p info Hp. destruct (Hinfo p info Hp) as (Hn & Hin). split; [exact Hn|].
    unfold texture_uses in Hin.
    apply list_elem_of_In, in_flat_map in Hin as (mat & _ & Hin).
    cbn in Hin. intuition congruence.
  - rewrite add_uses_size. unfold distinct_textures.
    etransitivity; [apply length_remove_dups|].
    etransitivity; [apply length_filter|].
    rewrite length_map. unfold texture_uses.
    induction (Bake.materials aModel) as [|mat mats IH]; [reflexivity|].
    cbn [flat_map]. rewrite length_app. cbn [material_uses length]. lia.
Qed.

Lemma add_uses_first (l1 l2 : list (string * byte)) (p : string) (c : byte) :
  p ∉ map fst l1 -> p <> EmptyString ->
  fst (add_uses (l1 ++ (p, c) :: l2) (∅, 0)) !! p
  = Some {| Bake.uniqueId := Z.of_nat (distinct_textures l1) mod two32;
            Bake.channels := c;
            Bake.newPath := EmptyString |}.
Proof.
  intros Hnew Hp. unfold add_uses. rewrite fold_left_app. cbn [fold_left fst snd].
  fold (add_uses l1 (∅, 0)).
  match goal with |- fst (fold_left ?f l2 ?st) !! _ = _ => change (fold_left f l2 st) with (add_uses l2 st) end.
  apply add_uses_keeps.
  pose proof (add_uses_size l1) as Hsize.
  destruct (add_uses_inv l1) as (Hid & Hkeys & _). cbn zeta in *.
  destruct (add_uses l1 (∅, 0)) as [unique texid]. cbn [fst snd] in *.
  assert (Hnone : unique !! p = None).
  { destruct (unique !! p) eqn:E; [|reflexivity]. exfalso. apply Hnew.
    apply (Hkeys p). eauto. }
  rewrite add_unique_new by assumption. cbn [fst]. rewrite lookup_insert_eq.
  rewrite Hid, Hsize. reflexivity.
Qed.

(** X12. The first use of a texture decides its entry: when the uses of a
    model, taken material by material in the order base colour, roughness,
    metalness, alpha mask, normal map, meet the path [p] for the first time
    with [c] channels, the entry of [p] has [c] channels, whatever the later
    uses ask for, and its id is the number of different textures met before
    it (as a 32-bit number). *)
Theorem first_use_decides (aModel : Bake.InputModel) (l1 l2 : list (string * byte))
    (p : string) (c : byte) :
  texture_uses aModel = l1 ++ (p, c) :: l2 ->
  p ∉ map fst l1 -> p <> EmptyString ->
  find_unique_textures_ aModel !! p
  = Some {| Bake.uniqueId := Z.of_nat (distinct_textures l1) mod two32;
            Bake.channels := c;
            Bake.newPath := EmptyString |}.
Proof.
  intros Huses Hnew Hp. rewrite find_unique_textures_uses, Huses.
  apply add_uses_first; assumption.
Qed.

Lemma unique_textures_by_id (aModel : Bake.InputModel) :
  Z.of_nat (size (find_unique_textures_ aModel)) <= two32 ->
  exists ordered,
    textures_by_id (find_unique_textures_ aModel) ordered
    /\ length ordered = distinct_textures (texture_uses aModel).
Proof.
  rewrite find_unique_textures_uses. intros Hsize.
  pose proof (add_uses_size (texture_uses aModel)) as Hdist.
  destruct (add_uses_inv (texture_uses aModel)) as (_ & _ & _ & ordered & Hperm & Hord).
  cbn zeta in *. exists ordered.
  assert (Hlen : length ordered = size (fst (add_uses (texture_uses aModel) (∅, 0)))).
  { rewrite <- length_map_to_list. apply Permutation_length, Hperm. }
  split; [split; [exact Hperm|] | congruence].
  intros k e Hk. rewrite (Hord k e Hk). apply Z.mod_small.
  apply lookup_lt_Some in Hk. lia.
Qed.

(** ** [new_paths_] *)

Section Filesystem.

Variable fs_filename : string -> string.
Variable fs_append : string -> string -> string.

Lemma new_paths_lookup (aTextures : gmap string Bake.TextureInfo_) (aTexDir p : string) :
  new_paths_ fs_filename fs_append aTextures aTexDir !! p
  = (fun info => {| Bake.uniqueId := Bake.uniqueId info;
                    Bake.channels := Bake.channels info;
                    Bake.newPath := fs_append aTexDir (fs_filename p) |}) <$> aTextures !! p.
Proof.
  unfold new_paths_. rewrite map_lookup_imap. destruct (aTextures !! p); reflexivity.
Qed.

Lemma new_paths_by_id (aTextures : gmap string Bake.TextureInfo_) (aTexDir : string)
    (ordered : list (string * Bake.TextureInfo_)) :
  textures_by_id aTextures ordered ->
  textures_by_id (new_paths_ fs_filename fs_append aTextures aTexDir)
    (map (fun e => (fst e, {| Bake.uniqueId := Bake.uniqueId (snd e);
                              Bake.channels := Bake.channels (snd e);
                              Bake.newPath := fs_append aTexDir (fs_filename (fst e)) |}))
         ordered).
Proof.
  intros (Hperm & Hid). split.
  - rewrite Hperm. symmetry. apply NoDup_Permutation.
    + apply NoDup_map_to_list.
    + apply NoDup_fmap_2_strong; [|apply NoDup_map_to_list].
      intros [p i] [q j] Hp Hq [= -> _].
      apply elem_of_map_to_list in Hp, Hq. congruence.
    + intros [p i]. rewrite elem_of_map_to_list, new_paths_lookup, list_elem_of_fmap.
      split.
      * intros H. destruct (aTextures !! p) as [j|] eqn:Hj; [|discriminate].
        cbn in H. injection H as <-. exists (p, j). split; [reflexivity|].
        apply elem_of_map_to_list, Hj.
      * intros ([q j] & [= -> ->] & Hin). apply elem_of_map_to_list in Hin.
        cbn [fst snd]. rewrite Hin. reflexivity.
  - intros k e Hk. rewrite list_lookup_fmap in Hk.
    destruct (ordered !! k) as [e0|] eqn:He0; [|discriminate].
    cbn in Hk. injection Hk as <-. cbn [snd Bake.uniqueId]. apply (Hid k e0 He0).
Qed.

End Filesystem.

(** ** The indexed mesh against its soup *)

Lemma mergable_true (aSoup : TriangleSoup) (i j : nat) (pi pj : vec3) (eps : float) :
  mergable_ aSoup (Z.of_nat i) (Z.of_nat j) pi pj eps = Ok true ->
  passes_vec3 eps pi pj
  /\ (forall nI nJ, norm aSoup !! i = Some nI -> norm aSoup !! j = Some nJ ->
        passes_vec3 eps nI nJ)
  /\ (forall tI tJ, text aSoup !! i = Some tI -> text aSoup !! j = Some tJ ->
        passes_vec2 eps tI tJ).
Proof.
  unfold mergable_, passes_vec3, passes_vec2. intros H.
  destruct (existsb _ [0; 1; 2]) eqn:Hpos; [discriminate|].
  split; [exact (proj1 (existsb_range3 _) Hpos)|]. clear Hpos.
  rewrite !vget_of_nat in H.
  destruct (norm aSoup) as [|n0 ns] eqn:En.
  - split; [intros nI nJ HnI; rewrite lookup_nil in HnI; discriminate|].
    cbn [bind] in H.
    destruct (text aSoup !! i) as [tI|]; [|discriminate].
    destruct (text aSoup !! j) as [tJ|]; [|discriminate]. cbn [bind] in H.
    destruct (existsb _ [0; 1]) eqn:Htex; [discriminate|].
    intros ? ? [= <-] [= <-]. exact (proj1 (existsb_range2 _) Htex).
  - destruct ((n0 :: ns) !! i) as [nI|]; [|discriminate].
    destruct ((n0 :: ns) !! j) as [nJ|]; [|discriminate]. cbn [bind] in H.
    destruct (existsb _ [0; 1; 2]) eqn:Hnorm; [discriminate|].
    split; [intros ? ? [= <-] [= <-]; exact (proj1 (existsb_range3 _) Hnorm)|]. clear Hnorm.
    destruct (text aSoup !! i) as [tI|]; [|discriminate].
    destruct (text aSoup !! j) as [tJ|]; [|discriminate]. cbn [bind] in H.
    destruct (existsb _ [0; 1]) eqn:Htex; [discriminate|].
    intros ? ? [= <-] [= <-]. exact (proj1 (existsb_range2 _) Htex).
Qed.

Lemma index_soup_grouped (gHash_ : Z -> Z) (cast_out_of_range : float -> Z)
    (aSoup : TriangleSoup) (aErrorTolerance : float) :
  wf_soup aSoup ->
  exists st,
    index_soup gHash_ cast_out_of_range aSoup aErrorTolerance
    = Ok (nextVertex st, aIndices st, aVertices st)
    /\ grouped (scan_merges gHash_ cast_out_of_range
                  (build_vicinity_map_ gHash_ cast_out_of_range []
                     (soup_discretizer cast_out_of_range aSoup aErrorTolerance) (vert aSoup))
                  (soup_discretizer cast_out_of_range aSoup aErrorTolerance)
                  aSoup aErrorTolerance)
               (length (vert aSoup)) (length (vert aSoup)) st.
Proof.
  intros Hwf. unfold index_soup.
  set (dis := soup_discretizer cast_out_of_range aSoup aErrorTolerance).
  destruct (collapse_vertices_grouped gHash_ cast_out_of_range _ dis aSoup aErrorTolerance Hwf
              (build_vicinity_map_in_range gHash_ cast_out_of_range dis aSoup))
    as (st & Hrun & _ & G).
  exists st. rewrite Hrun. cbn [bind].
  pose proof G as (_ & G2 & G3 & _).
  rewrite G2, Z.eqb_refl. cbn [c_assert bind]. rewrite G3, Z.eqb_refl. cbn [bind].
  split; [reflexivity | exact G].
Qed.

(** The mesh that [make_indexed_mesh] makes of a soup of fewer than 2^32
    vertices. *)
Lemma make_indexed_mesh_of_soup (gHash_ : Z -> Z) (cast_out_of_range : float -> Z)
    (tgen : list Z -> list float -> list float -> list float -> Z -> list float)
    (aSoup : TriangleSoup) (aErrorTolerance : float) :
  wf_soup aSoup -> tgen_whole tgen -> Z.of_nat (length (vert aSoup)) < two32 ->
  exists mesh,
    make_indexed_mesh gHash_ cast_out_of_range tgen aSoup aErrorTolerance = Ok mesh
    /\ length (im_indices mesh) = length (vert aSoup)
    /\ (length (im_vert mesh) <= length (vert aSoup))%nat
    /\ length (im_text mesh) = length (im_vert mesh)
    /\ length (im_norm mesh) = (if has_normals aSoup then length (im_vert mesh) else O)
    /\ pack_tangents (tgen (im_indices mesh) (flatten3 (im_vert mesh)) (flatten2 (im_text mesh))
                        (flatten3 (im_norm mesh)) (Z.of_nat (length (im_text mesh))))
       = Ok (im_tangent mesh)
    /\ (forall i, (i < length (im_vert mesh))%nat ->
          exists from : nat,
            is_Some (vert aSoup !! from)
            /\ im_vert mesh !! i = vert aSoup !! from
            /\ im_text mesh !! i = text aSoup !! from
            /\ (has_normals aSoup = true -> im_norm mesh !! i = norm aSoup !! from))
    /\ (forall j, (j < length (vert aSoup))%nat ->
          exists (idx : Z) (r : nat),
            im_indices mesh !! j = Some idx
            /\ 0 <= idx < Z.of_nat (length (im_vert mesh))
            /\ (r <= j)%nat
            /\ im_vert mesh !! Z.to_nat idx = vert aSoup !! r
            /\ im_text mesh !! Z.to_nat idx = text aSoup !! r
            /\ (has_normals aSoup = true -> im_norm mesh !! Z.to_nat idx = norm aSoup !! r)
            /\ (r = j
                \/ exists pr pj, vert aSoup !! r = Some pr /\ vert aSoup !! j = Some pj
                     /\ mergable_ aSoup (Z.of_nat r) (Z.of_nat j) pr pj aErrorTolerance
                        = Ok true)).
Proof.
  intros Hwf Htgen Hn32.
  destruct (index_soup_grouped gHash_ cast_out_of_range aSoup aErrorTolerance Hwf)
    as (st & Hix & (G1 & G2 & G3 & G4 & G5 & G6 & G7 & G8)).
  assert (Hmap : Forall (fun v => 0 <= v < Z.of_nat (length (vert aSoup))) (aVertices st)).
  { apply Forall_forall. intros r Hr. apply list_elem_of_lookup in Hr as (s & Hs).
    destruct (G7 s r Hs) as (Hr & _). exact Hr. }
  destruct (shuffle_spec aSoup (nextVertex st) (aVertices st) Hwf (eq_sym G3) Hmap)
    as (rvert & rtext & rnorm & Hsh & Hlv & Hlx & Hln & Hslots).
  destruct (Htgen (aIndices st) (flatten3 rvert) (flatten2 rtext) (flatten3 rnorm)
              (Z.of_nat (length rtext))) as (tangent & Hpack).
  unfold make_indexed_mesh. rewrite Hix. cbn [bind]. rewrite Hsh. cbn [bind].
  rewrite Hpack. cbn [bind]. eexists. split; [reflexivity|].
  cbn [im_indices im_vert im_text im_norm im_tangent].
  split; [exact G2|]. split; [lia|]. split; [lia|].
  split; [rewrite Hln, Hlv; reflexivity|]. split; [exact Hpack|]. split.
  - intros i Hi. destruct (lookup_lt_is_Some_2 (aVertices st) i) as (from & Hfrom); [lia|].
    destruct (Hslots i from Hfrom) as (Hf0 & Hsome & Hv & Ht & Hn).
    exists (Z.to_nat from). tauto.
  - intros j Hj. destruct (G5 j Hj) as (s & Hs & Hsn & Hxj).
    destruct (G6 j s Hs Hsn) as (r & Hs0 & Hr & Hrj & Hrel).
    pose proof (lookup_lt_Some _ _ _ Hr) as Hslt.
    exists s, r. rewrite Hxj. rewrite Z.mod_small by lia.
    destruct (Hslots _ _ Hr) as (_ & _ & Hv & Ht & Hn). rewrite Nat2Z.id in Hv, Ht, Hn.
    split; [reflexivity|]. split; [lia|]. split; [exact Hrj|].
    split; [exact Hv|]. split; [exact Ht|]. split; [exact Hn|].
    destruct Hrel as [->|Hcl]; [left; reflexivity | right].
    destruct (lookup_lt_is_Some_2 (vert aSoup) r) as (pr & Hpr); [lia|].
    destruct (lookup_lt_is_Some_2 (vert aSoup) j) as (pj & Hpj); [lia|].
    exists pr, pj. split; [exact Hpr|]. split; [exact Hpj|].
    unfold scan_merges in Hcl. rewrite !Nat2Z.id, Hpr, Hpj in Hcl.
    apply andb_true_iff in Hcl as (_ & Hm).
    destruct (mergable_ aSoup (Z.of_nat r) (Z.of_nat j) pr pj aErrorTolerance) as [b|e];
      [subst b; reflexivity | discriminate].
Qed.

Lemma passes_within_vec3 (eps : float) (a b : vec3) :
  F32.valid eps = true -> F32.is_nan eps = false -> number_vec3 a -> number_vec3 b ->
  passes_vec3 eps a b -> within_vec3 eps a b.
Proof.
  intros Ve Hn Na Nb H k Hk.
  apply (exceeds_units eps _ _ (number_vec3_at a k Na) (number_vec3_at b k Nb) Ve Hn).
  apply H, Hk.
Qed.

Lemma passes_within_vec2 (eps : float) (a b : vec2) :
  F32.valid eps = true -> F32.is_nan eps = false -> number_vec2 a -> number_vec2 b ->
  passes_vec2 eps a b -> within_vec2 eps a b.
Proof.
  intros Ve Hn Na Nb H k Hk.
  apply (exceeds_units eps _ _ (number_vec2_at a k Na) (number_vec2_at b k Nb) Ve Hn).
  apply H, Hk.
Qed.

(** A tolerance that is at least zero is not a NaN and not below zero. *)
Lemma tolerance_at_least_zero (eps : float) :
  F32.leb (F32.of_Z 0) eps = true ->
  F32.is_nan eps = false /\ F32.ltb eps (F32.of_Z 0) = false.
Proof.
  change (F32.of_Z 0) with (S754_zero false).
  destruct eps as [s|[|]| |[|] m e]; cbn; intros H; try discriminate; split; reflexivity.
Qed.

(** X13. Indexing keeps every corner of every triangle within the
    tolerance: for a soup of numbers with fewer than 2^32 vertices and a
    tolerance that is at least zero, the mesh has, at the index of each
    vertex of the soup, a position, a texture coordinate and (when the soup
    has normals) a normal that differ from those of that vertex by no more
    than the tolerance on any axis, up to the rounding of the difference:
    no binary32 number lies above the tolerance and at or below the
    difference. *)
Theorem indexed_mesh_within_tolerance (gHash_ : Z -> Z) (cast_out_of_range : float -> Z)
    (tgen : list Z -> list float -> list float -> list float -> Z -> list float)
    (aSoup : TriangleSoup) (aErrorTolerance : float) :
  wf_soup aSoup -> number_soup aSoup -> tgen_whole tgen ->
  Z.of_nat (length (vert aSoup)) < two32 ->
  F32.valid aErrorTolerance = true -> F32.leb (F32.of_Z 0) aErrorTolerance = true ->
  exists mesh,
    make_indexed_mesh gHash_ cast_out_of_range tgen aSoup aErrorTolerance = Ok mesh
    /\ forall (j : nat) (p : vec3) (t : vec2),
         vert aSoup !! j = Some p -> text aSoup !! j = Some t ->
         exists (idx : Z) (q : vec3) (u : vec2),
           im_indices mesh !! j = Some idx /\ 0 <= idx
           /\ im_vert mesh !! Z.to_nat idx = Some q /\ within_vec3 aErrorTolerance q p
           /\ im_text mesh !! Z.to_nat idx = Some u /\ within_vec2 aErrorTolerance u t
           /\ forall n, norm aSoup !! j = Some n ->
                exists m, im_norm mesh !! Z.to_nat idx = Some m
                          /\ within_vec3 aErrorTolerance m n.
Proof.
  intros Hwf (Nv & Nn & Nt) Htgen Hn32 Ve Hpos.
  destruct (tolerance_at_least_zero _ Hpos) as (Hnan & Heps).
  destruct (make_indexed_mesh_of_soup gHash_ cast_out_of_range tgen aSoup aErrorTolerance
              Hwf Htgen Hn32) as (mesh & Hmesh & _ & _ & _ & _ & _ & _ & Hrep).
  exists mesh. split; [exact Hmesh|]. intros j p t Hp Ht.
  destruct (Hrep j) as (idx & r & Hidx & Hrange & Hrj & Hv & Hx & Hn & Hrel);
    [eapply lookup_lt_Some; exact Hp|].
  assert (Hhas : forall n, norm aSoup !! j = Some n -> has_normals aSoup = true).
  { intros n Hnj. unfold has_normals. destruct (norm aSoup); [|reflexivity].
    rewrite lookup_nil in Hnj. discriminate. }
  pose proof (Forall_lookup_1 _ _ _ _ Nv Hp) as Np.
  pose proof (Forall_lookup_1 _ _ _ _ Nt Ht) as Ntt.
  assert (Hself3 : forall v, number_vec3 v -> within_vec3 aErrorTolerance v v).
  { intros v Hv'. apply passes_within_vec3; try assumption.
    intros k _. apply exceeds_self, Heps. }
  assert (Hself2 : forall v, number_vec2 v -> within_vec2 aErrorTolerance v v).
  { intros v Hv'. apply passes_within_vec2; try assumption.
    intros k _. apply exceeds_self, Heps. }
  destruct Hrel as [->|(pr & pj & Hpr & Hpj & Hm)].
  - exists idx, p, t. rewrite Hv, Hx. split; [exact Hidx|]. split; [lia|].
    split; [exact Hp|]. split; [apply Hself3, Np|].
    split; [exact Ht|]. split; [apply Hself2, Ntt|].
    intros n Hnj. exists n. rewrite (Hn (Hhas n Hnj)).
    split; [exact Hnj | apply Hself3, (Forall_lookup_1 _ _ _ _ Nn Hnj)].
  - assert (pj = p) by congruence. subst pj.
    destruct (mergable_true aSoup r j pr p aErrorTolerance Hm) as (Cv & Cn & Ct).
    destruct Hwf as (Hlt & Hln & _).
    destruct (lookup_lt_is_Some_2 (text aSoup) r) as (u & Hu).
    { apply lookup_lt_Some in Hpr. lia. }
    exists idx, pr, u. rewrite Hv, Hx. split; [exact Hidx|]. split; [lia|].
    split; [exact Hpr|].
    split; [apply passes_within_vec3; try assumption;
            exact (Forall_lookup_1 _ _ _ _ Nv Hpr)|].
    split; [exact Hu|].
    split; [apply passes_within_vec2; try assumption;
            [exact (Forall_lookup_1 _ _ _ _ Nt Hu) | exact (Ct u t Hu Ht)]|].
    intros n Hnj. rewrite (Hn (Hhas n Hnj)).
    destruct (lookup_lt_is_Some_2 (norm aSoup) r) as (m & Hmr).
    { destruct Hln as [Hnil|Hlen]; [rewrite Hnil, lookup_nil in Hnj; discriminate|].
      apply lookup_lt_Some in Hpr. lia. }
    exists m. split; [exact Hmr|].
    apply passes_within_vec3; try assumption;
      [exact (Forall_lookup_1 _ _ _ _ Nn Hmr) | exact (Forall_lookup_1 _ _ _ _ Nn Hnj)
      | exact (Cn m n Hmr Hnj)].
Qed.

Lemma indexed_mesh_within_tolerance_witness :
  exists mesh,
    make_indexed_mesh std_hash cast_zero no_tangents unit_cube tolerance_1e4 = Ok mesh
    /\ forall (j : nat) (p : vec3) (t : vec2),
         vert unit_cube !! j = Some p -> text unit_cube !! j = Some t ->
         exists (idx : Z) (q : vec3) (u : vec2),
           im_indices mesh !! j = Some idx /\ 0 <= idx
           /\ im_vert mesh !! Z.to_nat idx = Some q /\ within_vec3 tolerance_1e4 q p
           /\ im_text mesh !! Z.to_nat idx = Some u /\ within_vec2 tolerance_1e4 u t
           /\ forall n, norm unit_cube !! j = Some n ->
                exists m, im_norm mesh !! Z.to_nat idx = Some m
                          /\ within_vec3 tolerance_1e4 m n.
Proof.
  exact (indexed_mesh_within_tolerance std_hash cast_zero no_tangents unit_cube tolerance_1e4
           unit_cube_wf unit_cube_numbers no_tangents_whole unit_cube_vertex_count
           eq_refl eq_refl).
Defined.

(** ** [index_meshes_] *)

Lemma copy_range_seq {A} (a : list A) (s : Z) (n k : nat) :
  0 <= s -> (Z.to_nat s + k + n <= length a)%nat ->
  mapM (vget a) (map (fun i : nat => Z.of_nat i + s) (seq k n))
  = Ok (take n (drop (Z.to_nat s + k) a)).
Proof.
  intros Hs. revert k. induction n as [|n IH]; intros k Hlen; [reflexivity|].
  cbn [seq map mapM].
  destruct (lookup_lt_is_Some_2 a (Z.to_nat s + k)) as (x & Hx); [lia|].
  assert (Hget : vget a (Z.of_nat k + s) = Ok x).
  { apply vget_Ok. split; [lia|]. rewrite <- Hx. f_equal. lia. }
  rewrite Hget. cbn [bind]. rewrite IH by lia. cbn [bind].
  rewrite (drop_S a x (Z.to_nat s + k) Hx). cbn [take].
  replace (Z.to_nat s + S k)%nat with (S (Z.to_nat s + k)) by lia. reflexivity.
Qed.

Lemma copy_range_Ok {A} (a : list A) (s c : Z) :
  0 <= s -> 0 <= c -> s + c <= Z.of_nat (length a) ->
  copy_range a s (s + c) = Ok (take (Z.to_nat c) (drop (Z.to_nat s) a)).
Proof.
  intros Hs Hc Hlen. unfold copy_range, seqZ.
  replace (s + c - s) with c by lia.
  change (fmap (M := list)) with (@map nat Z).
  rewrite (copy_range_seq a s (Z.to_nat c) 0 Hs) by lia.
  rewrite Nat.add_0_r. reflexivity.
Qed.

Lemma mapM_vget_error {A} (a : list A) (l : list Z) :
  (exists r, mapM (vget a) l = Ok r) \/ mapM (vget a) l = Err OutOfRange.
Proof.
  induction l as [|i l IH]; [left; eexists; reflexivity|]. cbn [mapM].
  assert (Hi : (exists x, vget a i = Ok x) \/ vget a i = Err OutOfRange).
  { unfold vget. destruct (i <? 0); [right; reflexivity|].
    destruct (a !! Z.to_nat i); [left; eexists; reflexivity | right; reflexivity]. }
  destruct Hi as [(x & ->)| ->]; [|right; reflexivity]. cbn [bind].
  destruct IH as [(r & ->)| ->]; [left; eexists; reflexivity | right; reflexivity].
Qed.

Lemma mapM_vget_in_range {A} (a : list A) (l : list Z) (r : list A) (i : Z) :
  mapM (vget a) l = Ok r -> i ∈ l -> 0 <= i < Z.of_nat (length a).
Proof.
  revert r. induction l as [|x l IH]; intros r H Hin.
  - exfalso. exact (not_elem_of_nil _ Hin).
  - cbn [mapM] in H. destruct (vget a x) as [y|] eqn:Hx; [|discriminate]. cbn [bind] in H.
    destruct (mapM (vget a) l) as [ys|] eqn:Hl; [|discriminate].
    apply elem_of_cons in Hin as [->|Hin]; [|exact (IH ys eq_refl Hin)].
    apply vget_Ok in Hx as (H0 & Hx). apply lookup_lt_Some in Hx. lia.
Qed.

Lemma copy_range_Err {A} (a : list A) (s c : Z) :
  0 <= s -> 0 < c -> Z.of_nat (length a) < s + c ->
  copy_range a s (s + c) = Err OutOfRange.
Proof.
  intros Hs Hc Hlen. unfold copy_range.
  destruct (mapM_vget_error a (seqZ s (s + c - s))) as [(r & Hr)|H]; [|exact H].
  exfalso.
  pose proof (mapM_vget_in_range a _ r (s + c - 1) Hr) as Hin.
  rewrite elem_of_seqZ in Hin. lia.
Qed.

Lemma mapM_length {E X Y} (f : X -> result E Y) (xs : list X) (ys : list Y) :
  mapM f xs = Ok ys ->
  length ys = length xs /\ forall k x, xs !! k = Some x -> exists y, ys !! k = Some y /\ f x = Ok y.
Proof.
  revert ys. induction xs as [|x xs IH]; intros ys H.
  - injection H as <-. split; [reflexivity|]. intros k x Hk. rewrite lookup_nil in Hk. discriminate.
  - cbn [mapM] in H. destruct (f x) as [y|] eqn:Hx; [|discriminate]. cbn [bind] in H.
    destruct (mapM f xs) as [ys'|] eqn:Hxs; [|discriminate]. injection H as <-.
    destruct (IH ys' eq_refl) as (Hlen & Hall). split; [simpl; lia|].
    intros [|k] x' Hk.
    + injection Hk as <-. exists y. split; [reflexivity | exact Hx].
    + exact (Hall k x' Hk).
Qed.

Section IndexMeshesFacts.

Variable gHash_ : Z -> Z.
Variable cast_out_of_range : float -> Z.
Variable tgen : list Z -> list float -> list float -> list float -> Z -> list float.
Variable aModel : Bake.InputModel.
Variable aErrorTolerance : float.

Lemma mesh_soup_wf (imesh : Bake.InputMeshInfo) :
  mesh_in_range aModel imesh ->
  wf_soup (mesh_soup aModel imesh)
  /\ length (vert (mesh_soup aModel imesh)) = Z.to_nat (Bake.vertexCount imesh)
  /\ length (norm (mesh_soup aModel imesh)) = Z.to_nat (Bake.vertexCount imesh).
Proof.
  intros (Hs & Hc & H64 & Hp & Ht & Hn). unfold wf_soup, mesh_soup. cbn [vert norm text].
  rewrite !length_take, !length_drop. split; [|lia].
  split; [lia|]. split; [right; lia|]. lia.
Qed.

Lemma index_mesh_of_in_range (imesh : Bake.InputMeshInfo) :
  mesh_in_range aModel imesh ->
  index_mesh_of gHash_ cast_out_of_range tgen aModel aErrorTolerance imesh
  = make_indexed_mesh gHash_ cast_out_of_range tgen (mesh_soup aModel imesh) aErrorTolerance.
Proof.
  intros (Hs & Hc & H64 & Hp & Ht & Hn). unfold index_mesh_of.
  rewrite Z.mod_small by lia.
  rewrite !copy_range_Ok by assumption. reflexivity.
Qed.

Lemma index_mesh_of_error (imesh : Bake.InputMeshInfo) :
  tgen_whole tgen ->
  0 <= Bake.vertexStartIndex imesh -> 0 <= Bake.vertexCount imesh ->
  Bake.vertexStartIndex imesh + Bake.vertexCount imesh < two64 ->
  (exists mesh, index_mesh_of gHash_ cast_out_of_range tgen aModel aErrorTolerance imesh = Ok mesh)
  \/ index_mesh_of gHash_ cast_out_of_range tgen aModel aErrorTolerance imesh = Err OutOfRange.
Proof.
  intros Htgen Hs Hc H64.
  destruct (Z.eq_dec (Bake.vertexCount imesh) 0) as [H0|H0].
  { left. unfold index_mesh_of. rewrite H0, Z.add_0_r, Z.mod_small by lia.
    unfold copy_range. rewrite Z.sub_diag. cbn [seqZ Z.to_nat seq fmap list_fmap mapM bind].
    destruct (make_indexed_mesh_of_soup gHash_ cast_out_of_range tgen
                {| vert := []; norm := []; text := [] |} aErrorTolerance) as (mesh & Hm & _).
    - split; [reflexivity|]. split; [left; reflexivity | reflexivity].
    - exact Htgen.
    - reflexivity.
    - exists mesh. exact Hm. }
  destruct (Z_le_gt_dec (Bake.vertexStartIndex imesh + Bake.vertexCount imesh)
              (Z.of_nat (length (Bake.positions aModel)))) as [Hp|Hp].
  2:{ right. unfold index_mesh_of. rewrite Z.mod_small by lia.
      rewrite copy_range_Err by lia. reflexivity. }
  destruct (Z_le_gt_dec (Bake.vertexStartIndex imesh + Bake.vertexCount imesh)
              (Z.of_nat (length (Bake.texcoords aModel)))) as [Ht|Ht].
  2:{ right. unfold index_mesh_of. rewrite Z.mod_small by lia.
      rewrite copy_range_Ok by lia. cbn [bind].
      rewrite copy_range_Err by lia. reflexivity. }
  destruct (Z_le_gt_dec (Bake.vertexStartIndex imesh + Bake.vertexCount imesh)
              (Z.of_nat (length (Bake.normals aModel)))) as [Hn|Hn].
  2:{ right. unfold index_mesh_of. rewrite Z.mod_small by lia.
      rewrite !copy_range_Ok by lia. cbn [bind].
      rewrite copy_range_Err by lia. reflexivity. }
  left. assert (Hin : mesh_in_range aModel imesh) by (unfold mesh_in_range; lia).
  rewrite (index_mesh_of_in_range imesh Hin).
  destruct (mesh_soup_wf imesh Hin) as (Hwf & Hlen & _).
  destruct (index_soup_spec gHash_ cast_out_of_range (mesh_soup aModel imesh) aErrorTolerance Hwf)
    as (verts & indices & vertexMapping & Hix & (Hli & Hlm & Hlt) & Hmap).
  destruct (shuffle_spec (mesh_soup aModel imesh) verts vertexMapping Hwf Hlm Hmap)
    as (rvert & rtext & rnorm & Hsh & _).
  destruct (Htgen indices (flatten3 rvert) (flatten2 rtext) (flatten3 rnorm)
              (Z.of_nat (length rtext))) as (tangent & Hpack).
  unfold make_indexed_mesh. rewrite Hix. cbn [bind]. rewrite Hsh. cbn [bind].
  rewrite Hpack. cbn [bind]. eexists. reflexivity.
Qed.

End IndexMeshesFacts.

Lemma index_meshes_Ok (gHash_ : Z -> Z) (cast_out_of_range : float -> Z)
    (tgen : list Z -> list float -> list float -> list float -> Z -> list float)
    (aModel : Bake.InputModel) (aErrorTolerance : float) (Q : Bake.InputMeshInfo -> IndexedMesh -> Prop)
    (ms : list Bake.InputMeshInfo) :
  Forall (fun imesh => exists mesh,
            index_mesh_of gHash_ cast_out_of_range tgen aModel aErrorTolerance imesh = Ok mesh
            /\ Q imesh mesh) ms ->
  exists indexed,
    mapM (index_mesh_of gHash_ cast_out_of_range tgen aModel aErrorTolerance) ms = Ok indexed
    /\ Forall2 Q ms indexed.
Proof.
  induction 1 as [|imesh ms (mesh & Hmesh & HQ) _ (indexed & IH & IHQ)].
  - exists []. split; [reflexivity | constructor].
  - exists (mesh :: indexed). cbn [mapM]. rewrite Hmesh. cbn [bind]. rewrite IH.
    split; [reflexivity | constructor; assumption].
Qed.

Lemma mesh_of_range (gHash_ : Z -> Z) (cast_out_of_range : float -> Z)
    (tgen : list Z -> list float -> list float -> list float -> Z -> list float)
    (aModel : Bake.InputModel) (aErrorTolerance : float) (imesh : Bake.InputMeshInfo) :
  tgen_whole tgen -> mesh_in_range aModel imesh -> Bake.vertexCount imesh < two32 ->
  exists mesh,
    index_mesh_of gHash_ cast_out_of_range tgen aModel aErrorTolerance imesh = Ok mesh
    /\ make_indexed_mesh gHash_ cast_out_of_range tgen (mesh_soup aModel imesh) aErrorTolerance
       = Ok mesh
    /\ Z.of_nat (length (im_indices mesh)) = Bake.vertexCount imesh
    /\ Forall (fun x => 0 <= x < Z.of_nat (length (im_vert mesh))) (im_indices mesh)
    /\ Z.of_nat (length (im_vert mesh)) <= Bake.vertexCount imesh
    /\ length (im_text mesh) = length (im_vert mesh)
    /\ length (im_norm mesh) = length (im_vert mesh).
Proof.
  intros Htgen Hin H32.
  destruct (mesh_soup_wf aModel imesh Hin) as (Hwf & Hlen & Hlenn).
  pose proof Hin as (Hs & Hc & _).
  destruct (make_indexed_mesh_of_soup gHash_ cast_out_of_range tgen (mesh_soup aModel imesh)
              aErrorTolerance Hwf Htgen) as (mesh & Hm & Hli & Hlv & Hlt & Hln & _ & _ & Hrep).
  { rewrite Hlen. lia. }
  exists mesh. rewrite (index_mesh_of_in_range _ _ _ _ _ _ Hin).
  split; [exact Hm|]. split; [exact Hm|]. split; [lia|]. split; [|split; [lia|split; [exact Hlt|]]].
  - apply Forall_forall. intros x Hx. apply list_elem_of_lookup in Hx as (j & Hj).
    destruct (Hrep j) as (idx & r & Hidx & Hrange & _).
    { rewrite <- Hli. eapply lookup_lt_Some. exact Hj. }
    congruence.
  - rewrite Hln. unfold has_normals.
    destruct (norm (mesh_soup aModel imesh)) eqn:En; [|reflexivity].
    simpl in Hlenn. lia.
Qed.

(** X14. When the vertex range of every mesh of the model lies within the
    position, texture-coordinate and normal arrays and holds fewer than
    2^32 vertices, [index_meshes_] succeeds and returns one indexed mesh per
    mesh of the model, in order: the result of [make_indexed_mesh] on the
    part of the arrays that the mesh names, with one index per vertex of the
    range, every index below the number of unique vertices, no more unique
    vertices than vertices, and as many texture coordinates and normals as
    unique vertices. *)
Theorem index_meshes_in_range (gHash_ : Z -> Z) (cast_out_of_range : float -> Z)
    (tgen : list Z -> list float -> list float -> list float -> Z -> list float)
    (aModel : Bake.InputModel) (aErrorTolerance : float) :
  tgen_whole tgen ->
  Forall (fun imesh => mesh_in_range aModel imesh /\ Bake.vertexCount imesh < two32)
         (Bake.meshes aModel) ->
  exists indexed,
    index_meshes_ gHash_ cast_out_of_range tgen aModel aErrorTolerance = Ok indexed
    /\ Forall2
         (fun imesh mesh =>
            make_indexed_mesh gHash_ cast_out_of_range tgen (mesh_soup aModel imesh)
              aErrorTolerance = Ok mesh
            /\ Z.of_nat (length (im_indices mesh)) = Bake.vertexCount imesh
            /\ Forall (fun x => 0 <= x < Z.of_nat (length (im_vert mesh))) (im_indices mesh)
            /\ Z.of_nat (length (im_vert mesh)) <= Bake.vertexCount imesh
            /\ length (im_text mesh) = length (im_vert mesh)
            /\ length (im_norm mesh) = length (im_vert mesh))
         (Bake.meshes aModel) indexed.
Proof.
  intros Htgen Hall. unfold index_meshes_. apply index_meshes_Ok.
  eapply Forall_impl; [exact Hall|]. intros imesh (Hin & H32). cbn beta.
  destruct (mesh_of_range gHash_ cast_out_of_range tgen aModel aErrorTolerance imesh
              Htgen Hin H32) as (mesh & Hm & Hrest).
  exists mesh. split; assumption.
Qed.

(** X15. A mesh whose vertex range is not empty and ends beyond the
    position, the texture-coordinate or the normal array makes
    [index_meshes_] read out of the bounds of that array (start and count
    being sizes that do not wrap); no mesh is returned. *)
Theorem index_meshes_out_of_range (gHash_ : Z -> Z) (cast_out_of_range : float -> Z)
    (tgen : list Z -> list float -> list float -> list float -> Z -> list float)
    (aModel : Bake.InputModel) (aErrorTolerance : float) (imesh : Bake.InputMeshInfo) :
  tgen_whole tgen ->
  Forall (fun m => 0 <= Bake.vertexStartIndex m /\ 0 <= Bake.vertexCount m
                   /\ Bake.vertexStartIndex m + Bake.vertexCount m < two64)
         (Bake.meshes aModel) ->
  imesh ∈ Bake.meshes aModel -> 0 < Bake.vertexCount imesh ->
  Z.of_nat (length (Bake.positions aModel)) < Bake.vertexStartIndex imesh + Bake.vertexCount imesh
  \/ Z.of_nat (length (Bake.texcoords aModel)) < Bake.vertexStartIndex imesh + Bake.vertexCount imesh
  \/ Z.of_nat (length (Bake.normals aModel)) < Bake.vertexStartIndex imesh + Bake.vertexCount imesh ->
  index_meshes_ gHash_ cast_out_of_range tgen aModel aErrorTolerance = Err OutOfRange.
Proof.
  intros Htgen Hsizes Hin Hc Hout. unfold index_meshes_.
  assert (Hbad : index_mesh_of gHash_ cast_out_of_range tgen aModel aErrorTolerance imesh
                 = Err OutOfRange).
  { pose proof (proj1 (Forall_forall _ _) Hsizes imesh Hin) as (Hs & _ & H64).
    unfold index_mesh_of. rewrite Z.mod_small by lia.
    destruct (Z_le_gt_dec (Bake.vertexStartIndex imesh + Bake.vertexCount imesh)
                (Z.of_nat (length (Bake.positions aModel)))) as [Hp|Hp];
      [|rewrite copy_range_Err by lia; reflexivity].
    rewrite copy_range_Ok by lia. cbn [bind].
    destruct (Z_le_gt_dec (Bake.vertexStartIndex imesh + Bake.vertexCount imesh)
                (Z.of_nat (length (Bake.texcoords aModel)))) as [Ht|Ht];
      [|rewrite copy_range_Err by lia; reflexivity].
    rewrite copy_range_Ok by lia. cbn [bind].
    rewrite copy_range_Err by lia. reflexivity. }
  induction (Bake.meshes aModel) as [|m ms IH].
  - exfalso. exact (not_elem_of_nil _ Hin).
  - inversion Hsizes as [|? ? (Hs & Hc0 & H64) Hrest]; subst. cbn [mapM].
    destruct (index_mesh_of_error gHash_ cast_out_of_range tgen aModel aErrorTolerance m
                Htgen Hs Hc0 H64) as [(mesh & Hm)|Hm]; [|rewrite Hm; reflexivity].
    apply elem_of_cons in Hin as [->|Hin]; [congruence|].
    rewrite Hm. cbn [bind]. rewrite (IH Hrest Hin). reflexivity.
Qed.

Lemma triangle_model_in_range :
  Forall (fun imesh => mesh_in_range triangle_model imesh /\ Bake.vertexCount imesh < two32)
         (Bake.meshes triangle_model).
Proof.
  repeat constructor; cbn; try lia; try reflexivity.
Qed.

Lemma index_meshes_in_range_witness :
  exists indexed,
    index_meshes_ std_hash cast_zero no_tangents triangle_model tolerance_1e5 = Ok indexed
    /\ Forall2
         (fun imesh mesh =>
            make_indexed_mesh std_hash cast_zero no_tangents (mesh_soup triangle_model imesh)
              tolerance_1e5 = Ok mesh
            /\ Z.of_nat (length (im_indices mesh)) = Bake.vertexCount imesh
            /\ Forall (fun x => 0 <= x < Z.of_nat (length (im_vert mesh))) (im_indices mesh)
            /\ Z.of_nat (length (im_vert mesh)) <= Bake.vertexCount imesh
            /\ length (im_text mesh) = length (im_vert mesh)
            /\ length (im_norm mesh) = length (im_vert mesh))
         (Bake.meshes triangle_model) indexed.
Proof.
  exact (index_meshes_in_range std_hash cast_zero no_tangents triangle_model tolerance_1e5
           no_tangents_whole triangle_model_in_range).
Defined.

Lemma tiny_model_sizes :
  Forall (fun m => 0 <= Bake.vertexStartIndex m /\ 0 <= Bake.vertexCount m
                   /\ Bake.vertexStartIndex m + Bake.vertexCount m < two64)
         (Bake.meshes tiny_model).
Proof. repeat constructor; cbn; lia. Qed.

Lemma index_meshes_out_of_range_witness :
  index_meshes_ std_hash cast_zero no_tangents tiny_model tolerance_1e5 = Err OutOfRange.
Proof.
  refine (index_meshes_out_of_range std_hash cast_zero no_tangents tiny_model tolerance_1e5
            {| Bake.meshName := "t"; Bake.materialIndex := 0;
               Bake.vertexStartIndex := 0; Bake.vertexCount := 3 |}
            no_tangents_whole tiny_model_sizes _ _ _).
  - apply list_elem_of_here.
  - reflexivity.
  - left. reflexivity.
Defined.

(** ** What [process_model_] hands to the writer *)

Lemma unique_textures_lookup (aModel : Bake.InputModel) (p : string) :
  is_Some (find_unique_textures_ aModel !! p)
  <-> p <> EmptyString /\ p ∈ map fst (texture_uses aModel).
Proof.
  rewrite find_unique_textures_uses.
  destruct (add_uses_inv (texture_uses aModel)) as (_ & Hkeys & _). apply Hkeys.
Qed.

Lemma material_use (aModel : Bake.InputModel) (mat : Bake.InputMaterialInfo) (p : string) :
  mat ∈ Bake.materials aModel ->
  p = Bake.baseColorTexturePath mat \/ p = Bake.roughnessTexturePath mat
  \/ p = Bake.metalnessTexturePath mat \/ p = Bake.alphaMaskTexturePath mat
  \/ p = Bake.normalMapTexturePath mat ->
  p = EmptyString \/ is_Some (find_unique_textures_ aModel !! p).
Proof.
  intros Hmat Hp. destruct (decide (p = EmptyString)) as [->|Hne]; [left; reflexivity|].
  right. apply unique_textures_lookup. split; [exact Hne|].
  apply elem_of_texture_uses. exists mat. split; assumption.
Qed.

Section Textures.

Variable fs_stem : string -> string.
Variable fs_filename : string -> string.
Variable fs_append : string -> string -> string.
Variable aOutput : string.
Variable aModel : Bake.InputModel.

Lemma model_textures_lookup (p : string) :
  model_textures fs_stem fs_filename fs_append aOutput aModel !! p
  = (fun info => {| Bake.uniqueId := Bake.uniqueId info;
                    Bake.channels := Bake.channels info;
                    Bake.newPath := fs_append (String.append (fs_stem aOutput) "-tex")
                                              (fs_filename p) |})
    <$> find_unique_textures_ aModel !! p.
Proof. unfold model_textures. apply new_paths_lookup. Qed.

Lemma model_textures_by_id :
  Z.of_nat (size (find_unique_textures_ aModel)) <= two32 ->
  exists ordered,
    textures_by_id (model_textures fs_stem fs_filename fs_append aOutput aModel) ordered
    /\ length ordered = distinct_textures (texture_uses aModel)
    /\ length ordered = size (find_unique_textures_ aModel).
Proof.
  intros Hsize. destruct (unique_textures_by_id aModel Hsize) as (ordered & Hby & Hlen).
  eexists. split; [apply new_paths_by_id, Hby|]. rewrite length_map.
  split; [exact Hlen|]. destruct Hby as (Hperm & _).
  rewrite <- length_map_to_list. apply Permutation_length, Hperm.
Qed.

Lemma model_textures_optional (mat : Bake.InputMaterialInfo) (p : string) :
  mat ∈ Bake.materials aModel ->
  p = Bake.baseColorTexturePath mat \/ p = Bake.roughnessTexturePath mat
  \/ p = Bake.metalnessTexturePath mat \/ p = Bake.alphaMaskTexturePath mat
  \/ p = Bake.normalMapTexturePath mat ->
  optional_texture (model_textures fs_stem fs_filename fs_append aOutput aModel) p.
Proof.
  intros Hmat Hp. destruct (material_use aModel mat p Hmat Hp) as [He|(info & Hs)].
  - left. exact He.
  - right. rewrite model_textures_lookup, Hs. cbn. eauto.
Qed.

Lemma model_textures_resolved (mat : Bake.InputMaterialInfo) (p : string) :
  Z.of_nat (size (find_unique_textures_ aModel)) < two32 ->
  mat ∈ Bake.materials aModel ->
  p = Bake.baseColorTexturePath mat \/ p = Bake.roughnessTexturePath mat
  \/ p = Bake.metalnessTexturePath mat \/ p = Bake.alphaMaskTexturePath mat
  \/ p = Bake.normalMapTexturePath mat ->
  resolved_id (model_textures fs_stem fs_filename fs_append aOutput aModel) p
    (texture_id (model_textures fs_stem fs_filename fs_append aOutput aModel) p).
Proof.
  intros Hsize Hmat Hp. unfold resolved_id, texture_id.
  destruct (decide (p = EmptyString)) as [->|Hne].
  - left. rewrite bool_decide_eq_true_2 by reflexivity. split; reflexivity.
  - right. rewrite bool_decide_eq_false_2 by exact Hne. split; [exact Hne|].
    destruct (model_textures_optional mat p Hmat Hp) as [He|(info & Hinfo)]; [contradiction|].
    rewrite Hinfo. split; [|eauto].
    destruct model_textures_by_id as (ordered & Hby & _ & Hlen); [lia|].
    pose proof (texture_lookup_id _ ordered p info Hby Hinfo) as Hr.
    unfold Bake.sentinel. lia.
Qed.

End Textures.

(** X16. The textures that [process_model_] hands to the writer, when there
    are at most 2^32 of them: their ids are 0, 1, 2, ... without gap or
    repetition, one for each different texture of the model, and the
    assertion of [write_model_data_] on the ids holds: the table of textures
    lists them by id. Each keeps the channel count that
    [find_unique_textures_] recorded, and its new path is made of the
    texture directory and of the file name of the original path alone. *)
Theorem texture_table_by_id (fs_stem fs_filename : string -> string)
    (fs_append : string -> string -> string) (aOutput : string) (aModel : Bake.InputModel) :
  Z.of_nat (size (find_unique_textures_ aModel)) <= two32 ->
  exists ordered,
    textures_by_id (model_textures fs_stem fs_filename fs_append aOutput aModel) ordered
    /\ length ordered = distinct_textures (texture_uses aModel)
    /\ Bake.order_unique (model_textures fs_stem fs_filename fs_append aOutput aModel)
       = Ok (map (fun e => Some (snd e)) ordered)
    /\ forall k p info, ordered !! k = Some (p, info) ->
         Bake.uniqueId info = Z.of_nat k
         /\ Bake.newPath info
            = fs_append (String.append (fs_stem aOutput) "-tex") (fs_filename p)
         /\ find_unique_textures_ aModel !! p
            = Some {| Bake.uniqueId := Z.of_nat k;
                      Bake.channels := Bake.channels info;
                      Bake.newPath := EmptyString |}.
Proof.
  intros Hsize.
  destruct (model_textures_by_id fs_stem fs_filename fs_append aOutput aModel Hsize)
    as (ordered & Hby & Hlen & _).
  exists ordered. split; [exact Hby|]. split; [exact Hlen|].
  split; [apply order_unique_spec, Hby|].
  intros k p info Hk. destruct Hby as (Hperm & Hid).
  pose proof (Hid k _ Hk) as Hidk. cbn [snd] in Hidk. split; [exact Hidk|].
  assert (Hin : (p, info) ∈ ordered) by (apply list_elem_of_lookup; eauto).
  rewrite Hperm in Hin. apply elem_of_map_to_list in Hin.
  rewrite model_textures_lookup in Hin.
  destruct (find_unique_textures_ aModel !! p) as [i0|] eqn:Hp; [|discriminate].
  cbn in Hin. injection Hin as <-. cbn [Bake.newPath Bake.channels]. split; [reflexivity|].
  cbn [Bake.uniqueId] in Hidk. rewrite <- Hidk.
  rewrite find_unique_textures_uses in Hp.
  destruct (add_uses_inv (texture_uses aModel)) as (_ & _ & Hinfo & _).
  destruct (Hinfo p i0 Hp) as (Hn & _). destruct i0 as [id ch np]. cbn in *. subst np.
  reflexivity.
Qed.

Lemma texture_table_by_id_witness :
  exists ordered,
    textures_by_id (model_textures posix_stem posix_filename posix_append
                      "out/shared.comp5822mesh" shared_texture_model) ordered
    /\ length ordered = distinct_textures (texture_uses shared_texture_model)
    /\ Bake.order_unique (model_textures posix_stem posix_filename posix_append
                            "out/shared.comp5822mesh" shared_texture_model)
       = Ok (map (fun e => Some (snd e)) ordered)
    /\ forall k p info, ordered !! k = Some (p, info) ->
         Bake.uniqueId info = Z.of_nat k
         /\ Bake.newPath info
            = posix_append (String.append (posix_stem "out/shared.comp5822mesh") "-tex")
                           (posix_filename p)
         /\ find_unique_textures_ shared_texture_model !! p
            = Some {| Bake.uniqueId := Z.of_nat k;
                      Bake.channels := Bake.channels info;
                      Bake.newPath := EmptyString |}.
Proof.
  apply (texture_table_by_id posix_stem posix_filename posix_append
           "out/shared.comp5822mesh" shared_texture_model).
  vm_compute. discriminate.
Defined.

(** X17. The writer finds every texture that a material of the model names:
    with fewer than 2^32 textures, [write_material] succeeds on every
    material of the model with the textures of [process_model_], and each
    of the five ids that it writes is the mark 0xFFFFFFFF exactly when the
    path is empty, and otherwise the id of the entry of that path. *)
Theorem material_textures_resolved (fs_stem fs_filename : string -> string)
    (fs_append : string -> string -> string) (aOutput : string) (aModel : Bake.InputModel)
    (mat : Bake.InputMaterialInfo) :
  Z.of_nat (size (find_unique_textures_ aModel)) < two32 ->
  mat ∈ Bake.materials aModel ->
  exists a b c d e,
    Bake.write_material (model_textures fs_stem fs_filename fs_append aOutput aModel) mat
    = Ok (le32 a ++ le32 b ++ le32 c ++ le32 d ++ le32 e)
    /\ resolved_id (model_textures fs_stem fs_filename fs_append aOutput aModel)
         (Bake.baseColorTexturePath mat) a
    /\ resolved_id (model_textures fs_stem fs_filename fs_append aOutput aModel)
         (Bake.roughnessTexturePath mat) b
    /\ resolved_id (model_textures fs_stem fs_filename fs_append aOutput aModel)
         (Bake.metalnessTexturePath mat) c
    /\ resolved_id (model_textures fs_stem fs_filename fs_append aOutput aModel)
         (Bake.alphaMaskTexturePath mat) d
    /\ resolved_id (model_textures fs_stem fs_filename fs_append aOutput aModel)
         (Bake.normalMapTexturePath mat) e.
Proof.
  intros Hsize Hmat.
  set (textures := model_textures fs_stem fs_filename fs_append aOutput aModel).
  exists (texture_id textures (Bake.baseColorTexturePath mat)),
         (texture_id textures (Bake.roughnessTexturePath mat)),
         (texture_id textures (Bake.metalnessTexturePath mat)),
         (texture_id textures (Bake.alphaMaskTexturePath mat)),
         (texture_id textures (Bake.normalMapTexturePath mat)).
  split.
  - unfold Bake.write_material.
    rewrite !write_tex_id
      by (apply (model_textures_optional fs_stem fs_filename fs_append aOutput aModel mat);
          [exact Hmat | tauto]).
    reflexivity.
  - repeat split;
      apply (model_textures_resolved fs_stem fs_filename fs_append aOutput aModel mat);
      first [exact Hsize | exact Hmat | tauto].
Qed.

Lemma triangle_model_textures : Z.of_nat (size (find_unique_textures_ triangle_model)) < two32.
Proof. vm_compute. reflexivity. Qed.

Lemma material_textures_resolved_witness :
  exists a b c d e,
    Bake.write_material (model_textures posix_stem posix_filename posix_append
                           "out/tiny.comp5822mesh" triangle_model)
      tiny_material
    = Ok (le32 a ++ le32 b ++ le32 c ++ le32 d ++ le32 e)
    /\ resolved_id (model_textures posix_stem posix_filename posix_append
                      "out/tiny.comp5822mesh" triangle_model)
         (Bake.baseColorTexturePath tiny_material) a
    /\ resolved_id (model_textures posix_stem posix_filename posix_append
                      "out/tiny.comp5822mesh" triangle_model)
         (Bake.roughnessTexturePath tiny_material) b
    /\ resolved_id (model_textures posix_stem posix_filename posix_append
                      "out/tiny.comp5822mesh" triangle_model)
         (Bake.metalnessTexturePath tiny_material) c
    /\ resolved_id (model_textures posix_stem posix_filename posix_append
                      "out/tiny.comp5822mesh" triangle_model)
         (Bake.alphaMaskTexturePath tiny_material) d
    /\ resolved_id (model_textures posix_stem posix_filename posix_append
                      "out/tiny.comp5822mesh" triangle_model)
         (Bake.normalMapTexturePath tiny_material) e.
Proof.
  apply (material_textures_resolved posix_stem posix_filename posix_append
           "out/tiny.comp5822mesh" triangle_model tiny_material triangle_model_textures).
  apply list_elem_of_here.
Defined.

Lemma first_use_decides_witness :
  find_unique_textures_ shared_texture_model !! "a/grey.png"%string
  = Some {| Bake.uniqueId := Z.of_nat (distinct_textures [("a/base.png"%string, x04)]) mod two32;
            Bake.channels := x01;
            Bake.newPath := EmptyString |}.
Proof.
  refine (first_use_decides shared_texture_model [("a/base.png"%string, x04)] _
            "a/grey.png" x01 eq_refl _ _).
  - intros H. apply list_elem_of_singleton in H. discriminate.
  - discriminate.
Defined.

(** ** From the model to the loaded container *)

Lemma flatten3_length (vs : list vec3) : length (flatten3 vs) = (length vs * 3)%nat.
Proof.
  induction vs as [|v vs IH]; [reflexivity|].
  unfold flatten3 in *. cbn [flat_map app length]. rewrite IH. reflexivity.
Qed.

Lemma tgen_per_normal_whole
    (tgen : list Z -> list float -> list float -> list float -> Z -> list float) :
  tgen_per_normal tgen -> tgen_whole tgen.
Proof. intros H ix ps uvs ns k. destruct (H ix ps uvs ns k) as (r & Hr & _). eauto. Qed.

Lemma mesh_soup_vert (aModel : Bake.InputModel) (imesh : Bake.InputMeshInfo) (j : nat) :
  Z.of_nat j < Bake.vertexCount imesh ->
  vert (mesh_soup aModel imesh) !! j
  = Bake.positions aModel !! (Z.to_nat (Bake.vertexStartIndex imesh) + j)%nat.
Proof.
  intros Hj. unfold mesh_soup. cbn [vert]. rewrite lookup_take_lt by lia.
  apply lookup_drop.
Qed.

Lemma mesh_soup_valid (aModel : Bake.InputModel) (imesh : Bake.InputMeshInfo) :
  Forall valid_vec3 (Bake.positions aModel) -> Forall valid_vec3 (Bake.normals aModel) ->
  Forall valid_vec2 (Bake.texcoords aModel) ->
  Forall valid_vec3 (vert (mesh_soup aModel imesh))
  /\ Forall valid_vec3 (norm (mesh_soup aModel imesh))
  /\ Forall valid_vec2 (text (mesh_soup aModel imesh)).
Proof.
  intros Hp Hn Ht. unfold mesh_soup. cbn [vert norm text].
  repeat split; apply Forall_take, Forall_drop; assumption.
Qed.

Lemma Forall_copied {A} (P : A -> Prop) (src dst : list A) :
  Forall P src ->
  (forall i, (i < length dst)%nat -> exists from : nat, dst !! i = src !! from) ->
  Forall P dst.
Proof.
  intros Hsrc Hcopy. apply Forall_lookup. intros i x Hi.
  destruct (Hcopy i) as (from & Hfrom); [eapply lookup_lt_Some; exact Hi|].
  rewrite Hi in Hfrom. symmetry in Hfrom. exact (Forall_lookup_1 _ _ _ _ Hsrc Hfrom).
Qed.

Section Pipeline.

Variable gHash_ : Z -> Z.
Variable cast_out_of_range : float -> Z.
Variable tgen : list Z -> list float -> list float -> list float -> Z -> list float.
Variable aModel : Bake.InputModel.
Variable aErrorTolerance : float.

Hypothesis Htgen : tgen_per_normal tgen.
Hypothesis Hpositions : Forall valid_vec3 (Bake.positions aModel).
Hypothesis Hnormals : Forall valid_vec3 (Bake.normals aModel).
Hypothesis Htexcoords : Forall valid_vec2 (Bake.texcoords aModel).
Hypothesis Heps : F32.ltb aErrorTolerance (F32.of_Z 0) = false.

Lemma mesh_of_range_wf (imesh : Bake.InputMeshInfo) :
  mesh_in_range aModel imesh -> Bake.vertexCount imesh < two32 ->
  exists mesh,
    index_mesh_of gHash_ cast_out_of_range tgen aModel aErrorTolerance imesh = Ok mesh
    /\ wf_indexed_mesh mesh
    /\ Z.of_nat (length (im_indices mesh)) = Bake.vertexCount imesh
    /\ Forall (fun x => 0 <= x < Z.of_nat (length (im_vert mesh))) (im_indices mesh)
    /\ forall (j : nat) (p : vec3),
         Z.of_nat j < Bake.vertexCount imesh ->
         Bake.positions aModel !! (Z.to_nat (Bake.vertexStartIndex imesh) + j)%nat = Some p ->
         exists idx q, im_indices mesh !! j = Some idx
                       /\ im_vert mesh !! Z.to_nat idx = Some q
                       /\ passes_vec3 aErrorTolerance q p.
Proof.
  intros Hin H32.
  destruct (mesh_soup_wf aModel imesh Hin) as (Hwf & Hlen & Hlenn).
  destruct (mesh_soup_valid aModel imesh Hpositions Hnormals Htexcoords) as (Vv & Vn & Vt).
  pose proof Hin as (Hs & Hc & _).
  destruct (make_indexed_mesh_of_soup gHash_ cast_out_of_range tgen (mesh_soup aModel imesh)
              aErrorTolerance Hwf (tgen_per_normal_whole tgen Htgen))
    as (mesh & Hm & Hli & Hlv & Hlt & Hln & Hpack & Hcopy & Hrep).
  { rewrite Hlen. lia. }
  exists mesh. rewrite (index_mesh_of_in_range _ _ _ _ _ _ Hin). split; [exact Hm|].
  assert (Hlnv : length (im_norm mesh) = length (im_vert mesh)).
  { rewrite Hln. unfold has_normals.
    destruct (norm (mesh_soup aModel imesh)) eqn:En; [|reflexivity]. simpl in Hlenn. lia. }
  assert (Hix : Forall (fun x => 0 <= x < Z.of_nat (length (im_vert mesh))) (im_indices mesh)).
  { apply Forall_forall. intros x Hx. apply list_elem_of_lookup in Hx as (j & Hj).
    destruct (Hrep j) as (idx & r & Hidx & Hrange & _).
    { rewrite <- Hli. eapply lookup_lt_Some. exact Hj. }
    congruence. }
  split; [|split; [lia|split; [exact Hix|]]].
  - destruct (Htgen (im_indices mesh) (flatten3 (im_vert mesh)) (flatten2 (im_text mesh))
                (flatten3 (im_norm mesh)) (Z.of_nat (length (im_text mesh))))
      as (r & Hr & Hlr & Vr).
    rewrite Hpack in Hr. injection Hr as <-.
    rewrite flatten3_length, Nat.div_mul in Hlr by lia.
    unfold wf_indexed_mesh.
    split; [exact Hlnv|]. split; [exact Hlt|]. split; [lia|]. split; [lia|]. split; [lia|].
    split; [eapply Forall_impl; [exact Hix|]; cbn; intros; lia|].
    split; [|split; [|split; [|exact Vr]]].
    + apply (Forall_copied _ _ _ Vv). intros i Hi.
      destruct (Hcopy i Hi) as (from & _ & Hv & _). eauto.
    + apply (Forall_copied _ _ _ Vn). intros i Hi.
      destruct (has_normals (mesh_soup aModel imesh)) eqn:Hhas; [|rewrite Hln in Hi; lia].
      destruct (Hcopy i) as (from & _ & _ & _ & Hn); [lia|]. eauto.
    + apply (Forall_copied _ _ _ Vt). intros i Hi.
      destruct (Hcopy i) as (from & _ & _ & Ht & _); [lia|]. eauto.
  - intros j p Hj Hp. rewrite <- (mesh_soup_vert aModel imesh j Hj) in Hp.
    destruct (Hrep j) as (idx & r & Hidx & Hrange & Hrj & Hv & _ & _ & Hrel); [lia|].
    exists idx. destruct Hrel as [->|(pr & pj & Hpr & Hpj & Hmg)].
    + exists p. rewrite Hv. split; [exact Hidx|]. split; [exact Hp|].
      intros k _. apply exceeds_self, Heps.
    + assert (pj = p) by congruence. subst pj. exists pr. rewrite Hv.
      split; [exact Hidx|]. split; [exact Hpr|].
      exact (proj1 (mergable_true _ r j pr p aErrorTolerance Hmg)).
Qed.

End Pipeline.

Section PipelineNumbers.

Variable gHash_ : Z -> Z.
Variable cast_out_of_range : float -> Z.
Variable tgen : list Z -> list float -> list float -> list float -> Z -> list float.
Variable aModel : Bake.InputModel.
Variable aErrorTolerance : float.

Hypothesis Htgen : tgen_per_normal tgen.
Hypothesis Hnumbers : Forall number_vec3 (Bake.positions aModel).
Hypothesis Hvalid : F32.valid aErrorTolerance = true.
Hypothesis Heps : F32.leb (F32.of_Z 0) aErrorTolerance = true.

Lemma mesh_of_range_within (imesh : Bake.InputMeshInfo) (mesh : IndexedMesh) :
  mesh_in_range aModel imesh -> Bake.vertexCount imesh < two32 ->
  index_mesh_of gHash_ cast_out_of_range tgen aModel aErrorTolerance imesh = Ok mesh ->
  forall (j : nat) (p : vec3),
    Z.of_nat j < Bake.vertexCount imesh ->
    Bake.positions aModel !! (Z.to_nat (Bake.vertexStartIndex imesh) + j)%nat = Some p ->
    exists idx q, im_indices mesh !! j = Some idx
                  /\ im_vert mesh !! Z.to_nat idx = Some q
                  /\ within_vec3 aErrorTolerance q p.
Proof.
  intros Hin H32 Hmesh j p Hj Hp.
  destruct (tolerance_at_least_zero _ Heps) as (Hnan & Hge).
  destruct (mesh_soup_wf aModel imesh Hin) as (Hwf & Hlen & Hlenn).
  pose proof Hin as (Hs & Hc & _).
  destruct (make_indexed_mesh_of_soup gHash_ cast_out_of_range tgen (mesh_soup aModel imesh)
              aErrorTolerance Hwf (tgen_per_normal_whole tgen Htgen))
    as (mesh' & Hm & _ & _ & _ & _ & _ & _ & Hrep).
  { rewrite Hlen. lia. }
  rewrite (index_mesh_of_in_range _ _ _ _ _ _ Hin) in Hmesh.
  rewrite Hm in Hmesh. injection Hmesh as ->.
  assert (Nsoup : Forall number_vec3 (vert (mesh_soup aModel imesh))).
  { unfold mesh_soup. cbn [vert]. apply Forall_take, Forall_drop, Hnumbers. }
  rewrite <- (mesh_soup_vert aModel imesh j Hj) in Hp.
  pose proof (Forall_lookup_1 _ _ _ _ Nsoup Hp) as Np.
  destruct (Hrep j) as (idx & r & Hidx & Hrange & Hrj & Hv & _ & _ & Hrel); [lia|].
  exists idx. destruct Hrel as [->|(pr & pj & Hpr & Hpj & Hmg)].
  - exists p. rewrite Hv. split; [exact Hidx|]. split; [exact Hp|].
    apply passes_within_vec3; try assumption. intros k _. apply exceeds_self, Hge.
  - assert (pj = p) by congruence. subst pj. exists pr. rewrite Hv.
    split; [exact Hidx|]. split; [exact Hpr|].
    apply passes_within_vec3; try assumption.
    + exact (Forall_lookup_1 _ _ _ _ Nsoup Hpr).
    + exact (proj1 (mergable_true _ r j pr p aErrorTolerance Hmg)).
Qed.

End PipelineNumbers.

Lemma Forall2_baked_mesh (Q : Bake.InputMeshInfo -> IndexedMesh -> Prop)
    (ms : list Bake.InputMeshInfo) (indexed : list IndexedMesh) :
  Forall2 Q ms indexed ->
  Forall2 (fun imesh b => exists mesh, Q imesh mesh /\ b = baked_mesh (imesh, mesh))
          ms (map baked_mesh (zip ms indexed)).
Proof.
  induction 1 as [|imesh mesh ms indexed HQ _ IH]; [constructor|].
  cbn [zip zip_with map]. constructor; [|exact IH]. exists mesh. split; [exact HQ | reflexivity].
Qed.

(** X18. What the baker writes, the loader accepts. For a model whose
    meshes lie within its arrays and name a material, whose materials all
    have a base colour, a roughness and a metalness texture, whose counts
    fit 32 bits and whose new texture paths are shorter than 32767 bytes,
    [process_model_] writes a container that [load_baked_model] loads
    without error: one texture per different texture of the model, one
    material per material, one mesh per mesh; each loaded mesh has the
    material of its mesh, one index per vertex of the mesh, only indices
    that name one of its vertices, as many texture coordinates, normals and
    tangents as positions; and when the positions of the model are numbers
    (no infinity, no NaN), the mesh has at the index of each vertex of the
    model a position that differs from the position of that vertex by no
    more than the tolerance 1e-5 on any axis, up to the rounding of the
    difference (no binary32 number lies above the tolerance and at or below
    the difference). *)
Theorem baked_model_loads (fs_stem fs_filename : string -> string)
    (fs_append : string -> string -> string) (gHash_ : Z -> Z) (cast_out_of_range : float -> Z)
    (tgen : list Z -> list float -> list float -> list float -> Z -> list float)
    (aOutput aModelPath : string) (model : Bake.InputModel) :
  wf_input_model model -> tgen_per_normal tgen ->
  map_Forall (fun _ t => loadable_path t)
             (model_textures fs_stem fs_filename fs_append aOutput model) ->
  exists bytes ret,
    process_model_ fs_stem fs_filename fs_append gHash_ cast_out_of_range tgen aOutput model
    = Ok bytes
    /\ Baked.load_baked_model (Some bytes) aModelPath = Ok ret
    /\ length (Baked.textures ret) = distinct_textures (texture_uses model)
    /\ length (Baked.materials ret) = length (Bake.materials model)
    /\ Forall2
         (fun imesh b =>
            Baked.materialId b = Bake.materialIndex imesh
            /\ Z.of_nat (length (Baked.indices b)) = Bake.vertexCount imesh
            /\ Forall (fun x => 0 <= x < Z.of_nat (length (Baked.positions b))) (Baked.indices b)
            /\ length (Baked.texcoords b) = length (Baked.positions b)
            /\ length (Baked.normals b) = length (Baked.positions b)
            /\ length (Baked.tangents b) = length (Baked.positions b)
            /\ (Forall number_vec3 (Bake.positions model) ->
                forall (j : nat) (p : vec3),
                  Z.of_nat j < Bake.vertexCount imesh ->
                  Bake.positions model !! (Z.to_nat (Bake.vertexStartIndex imesh) + j)%nat
                  = Some p ->
                  exists idx q, Baked.indices b !! j = Some idx
                                /\ Baked.positions b !! Z.to_nat idx = Some q
                                /\ within_vec3 tolerance_1e5 q p))
         (Bake.meshes model) (Baked.meshes ret).
Proof.
  intros (Vp & Vn & Vt & Hmeshes & Hnmesh & Hnmat & Hmats & Hsize) Htgen Hpaths.
  set (textures := model_textures fs_stem fs_filename fs_append aOutput model) in *.
  set (Q := fun (imesh : Bake.InputMeshInfo) (mesh : IndexedMesh) =>
              wf_indexed_mesh mesh
              /\ Z.of_nat (length (im_indices mesh)) = Bake.vertexCount imesh
              /\ Forall (fun x => 0 <= x < Z.of_nat (length (im_vert mesh))) (im_indices mesh)
              /\ (Forall number_vec3 (Bake.positions model) ->
                  forall (j : nat) (p : vec3),
                    Z.of_nat j < Bake.vertexCount imesh ->
                    Bake.positions model !! (Z.to_nat (Bake.vertexStartIndex imesh) + j)%nat
                    = Some p ->
                    exists idx q, im_indices mesh !! j = Some idx
                                  /\ im_vert mesh !! Z.to_nat idx = Some q
                                  /\ within_vec3 tolerance_1e5 q p)).
  destruct (index_meshes_Ok gHash_ cast_out_of_range tgen model tolerance_1e5 Q
              (Bake.meshes model)) as (indexed & Hindexed & HQ).
  { eapply Forall_impl; [exact Hmeshes|]. intros imesh (Hin & H32 & _). cbn beta.
    destruct (mesh_of_range_wf gHash_ cast_out_of_range tgen model tolerance_1e5
                Htgen Vp Vn Vt eq_refl imesh Hin H32) as (mesh & Hm & Hw & Hli & Hix & _).
    exists mesh. split; [exact Hm|]. unfold Q.
    split; [exact Hw|]. split; [exact Hli|]. split; [exact Hix|].
    intros Hnum.
    exact (mesh_of_range_within gHash_ cast_out_of_range tgen model tolerance_1e5
             Htgen Hnum eq_refl eq_refl imesh mesh Hin H32 Hm). }
  destruct (model_textures_by_id fs_stem fs_filename fs_append aOutput model)
    as (ordered & Hby & Hdist & _); [lia|]. fold textures in Hby.
  assert (Hwf : wf_bake_input model indexed textures ordered).
  { unfold wf_bake_input. split; [exact Hby|]. split; [|split; [|split; [|split]]].
    - destruct Hby as (Hperm & _). apply Forall_forall. intros [p t] Hin.
      rewrite Hperm in Hin. apply elem_of_map_to_list in Hin. exact (Hpaths p t Hin).
    - destruct (model_textures_by_id fs_stem fs_filename fs_append aOutput model)
        as (ordered' & Hby' & _ & Hlen'); [lia|]. fold textures in Hby'.
      destruct Hby as (Hperm & _), Hby' as (Hperm' & _).
      rewrite (Permutation_length Hperm), <- (Permutation_length Hperm'). lia.
    - apply Forall_forall. intros mat Hmat.
      pose proof (proj1 (Forall_forall _ _) Hmats mat Hmat) as (Ha & Hb & Hc).
      assert (Hopt : forall p,
                p = Bake.baseColorTexturePath mat \/ p = Bake.roughnessTexturePath mat
                \/ p = Bake.metalnessTexturePath mat \/ p = Bake.alphaMaskTexturePath mat
                \/ p = Bake.normalMapTexturePath mat -> optional_texture textures p).
      { intros p Hp.
        exact (model_textures_optional fs_stem fs_filename fs_append aOutput model mat p Hmat Hp). }
      assert (Hreq : forall p, p <> EmptyString -> optional_texture textures p ->
                               required_texture textures p).
      { intros p Hp [He|Hs]; [contradiction | split; assumption]. }
      unfold wf_material. split; [apply Hreq; [exact Ha | apply Hopt; tauto]|].
      split; [apply Hreq; [exact Hb | apply Hopt; tauto]|].
      split; [apply Hreq; [exact Hc | apply Hopt; tauto]|].
      split; apply Hopt; tauto.
    - exact Hnmat.
    - split; [exact (Forall2_length _ _ _ HQ)|]. split; [exact Hnmesh|]. split.
      + eapply Forall_impl; [exact Hmeshes|]. intros imesh (_ & _ & Hmi). exact Hmi.
      + clear -HQ. induction HQ as [|? ? ? ? (Hw & _) _ IH]; constructor; assumption. }
  exists (container_bytes model indexed textures ordered).
  exists (baked_model (Baked.base_prefix aModelPath) path_with_terminator
            model indexed textures ordered).
  split.
  { unfold process_model_. fold (index_meshes_ gHash_ cast_out_of_range tgen model tolerance_1e5).
    unfold index_meshes_. rewrite Hindexed. cbn [bind]. fold textures.
    apply (write_model_data_container model indexed textures ordered Hwf). }
  split.
  { unfold Baked.load_baked_model.
    rewrite (load_container aModelPath model indexed textures ordered Hwf). reflexivity. }
  cbn [baked_model Baked.textures Baked.materials Baked.meshes]. rewrite !length_map.
  split; [exact Hdist|]. split; [reflexivity|].
  eapply Forall2_impl; [apply (Forall2_baked_mesh Q), HQ|].
  intros imesh b (mesh & (Hw & Hli & Hix & Hrep) & ->).
  unfold baked_mesh. cbn [fst snd Baked.materialId Baked.indices Baked.positions
                          Baked.texcoords Baked.normals Baked.tangents].
  destruct Hw as (Hln & Hlt & Hlg & _).
  split; [reflexivity|]. split; [exact Hli|]. split; [exact Hix|].
  split; [exact Hlt|]. split; [exact Hln|]. split; [exact Hlg|]. exact Hrep.
Qed.

Lemma flat_tangents_per_normal : tgen_per_normal flat_tangents.
Proof.
  intros ix ps uvs ns k. unfold flat_tangents.
  exists (map (fun _ => Vec4 float_one (F32.of_Z 0) (F32.of_Z 0) float_one)
              (seq 0 (length ns / 3))).
  split; [|split].
  - induction (seq 0 (length ns / 3)) as [|x l IH]; [reflexivity|].
    cbn [flat_map app map pack_tangents]. rewrite IH. reflexivity.
  - rewrite length_map, length_seq. reflexivity.
  - apply Forall_forall. intros v Hv. apply list_elem_of_fmap in Hv as (x & -> & _).
    repeat split; reflexivity.
Qed.

Lemma triangle_model_wf : wf_input_model triangle_model.
Proof.
  unfold wf_input_model.
  split; [repeat constructor; reflexivity|]. split; [repeat constructor; reflexivity|].
  split; [repeat constructor; reflexivity|].
  split; [repeat constructor; cbn; try lia; reflexivity|].
  split; [reflexivity|]. split; [reflexivity|].
  split; [repeat constructor; discriminate|]. exact triangle_model_textures.
Qed.

Lemma triangle_model_numbers : Forall number_vec3 (Bake.positions triangle_model).
Proof. repeat constructor. Qed.

Lemma triangle_model_paths :
  map_Forall (fun _ t => loadable_path t)
             (model_textures posix_stem posix_filename posix_append
                "out/tiny.comp5822mesh" triangle_model).
Proof.
  apply map_Forall_to_list. vm_compute map_to_list.
  repeat constructor; vm_compute; reflexivity.
Qed.

Lemma baked_model_loads_witness :
  exists bytes ret,
    process_model_ posix_stem posix_filename posix_append std_hash cast_zero flat_tangents
      "out/tiny.comp5822mesh" triangle_model
    = Ok bytes
    /\ Baked.load_baked_model (Some bytes) "assets/tiny.comp5822mesh" = Ok ret
    /\ length (Baked.textures ret) = distinct_textures (texture_uses triangle_model)
    /\ length (Baked.materials ret) = length (Bake.materials triangle_model)
    /\ Forall2
         (fun imesh b =>
            Z.of_nat (length (Baked.indices b)) = Bake.vertexCount imesh
            /\ forall (j : nat) (p : vec3),
                 Z.of_nat j < Bake.vertexCount imesh ->
                 Bake.positions triangle_model
                   !! (Z.to_nat (Bake.vertexStartIndex imesh) + j)%nat
                 = Some p ->
                 exists idx q, Baked.indices b !! j = Some idx
                               /\ Baked.positions b !! Z.to_nat idx = Some q
                               /\ within_vec3 tolerance_1e5 q p)
         (Bake.meshes triangle_model) (Baked.meshes ret).
Proof.
  destruct (baked_model_loads posix_stem posix_filename posix_append std_hash cast_zero
              flat_tangents "out/tiny.comp5822mesh" "assets/tiny.comp5822mesh" triangle_model
              triangle_model_wf flat_tangents_per_normal triangle_model_paths)
    as (bytes & ret & Hb & Hl & Ht & Hm & Hmeshes).
  exists bytes, ret. split; [exact Hb|]. split; [exact Hl|]. split; [exact Ht|].
  split; [exact Hm|].
  eapply Forall2_impl; [exact Hmeshes|].
  intros imesh b (_ & Hli & _ & _ & _ & _ & Hclose).
  split; [exact Hli | exact (Hclose triangle_model_numbers)].
Defined.

(** ** What the loader has checked *)

Lemma rbind_Ok {A B} (r : Baked.reader A) (k : A -> Baked.reader B) (fin : list byte)
    (b : B) (rest : list byte) :
  Baked.rbind r k fin = Ok (b, rest) ->
  exists a mid, r fin = Ok (a, mid) /\ k a mid = Ok (b, rest).
Proof.
  unfold Baked.rbind. destruct (r fin) as [[a mid]|e]; [|discriminate]. eauto.
Qed.

Lemma read_n_Forall {A} (P : A -> Prop) (body : list A -> Baked.reader A) (n : nat)
    (acc : list A) (fin : list byte) (l : list A) (rest : list byte) :
  (forall acc' fin' a rest', body acc' fin' = Ok (a, rest') -> P a) ->
  Baked.read_n n body acc fin = Ok (l, rest) ->
  Forall P acc -> Forall P l /\ length l = (length acc + n)%nat.
Proof.
  intros Hbody. revert acc fin. induction n as [|n IH]; intros acc fin H Hacc.
  - injection H as <- _. split; [exact Hacc | lia].
  - cbn [Baked.read_n] in H. apply rbind_Ok in H as (a & mid & Ha & H).
    destruct (IH _ _ H) as (Hl & Hlen).
    + apply Forall_app. split; [exact Hacc|]. constructor; [|constructor].
      exact (Hbody _ _ _ _ Ha).
    + split; [exact Hl|]. rewrite Hlen, length_app. simpl. lia.
Qed.

Lemma read_uint32_range (fin : list byte) (z : Z) (rest : list byte) :
  Baked.read_uint32_ fin = Ok (z, rest) -> 0 <= z < two32.
Proof.
  unfold Baked.read_uint32_. intros H. apply rbind_Ok in H as (c & mid & _ & H).
  injection H as <- _. apply le32_decode_range.
Qed.

Lemma r_assert_Ok (b : bool) (fin : list byte) (u : unit) (rest : list byte) :
  Baked.r_assert b fin = Ok (u, rest) -> b = true /\ rest = fin.
Proof.
  unfold Baked.r_assert. destruct b; [|discriminate]. intros [= _ <-]. split; reflexivity.
Qed.

Lemma words_of_bytes_length (bs : list byte) :
  length (words_of_bytes bs) = (length bs / 4)%nat.
Proof.
  assert (H : forall n bs, (length bs < 4 * n)%nat ->
                           length (words_of_bytes bs) = (length bs / 4)%nat).
  { induction n as [|n IH]; intros l Hl; [lia|].
    destruct l as [|a [|b [|c [|d l]]]]; try reflexivity.
    cbn [words_of_bytes length]. rewrite IH by (simpl in Hl; lia).
    change (S (S (S (S (length l))))) with (4 + length l)%nat.
    replace (4 + length l)%nat with (length l + 1 * 4)%nat by lia.
    rewrite Nat.div_add by lia. lia. }
  apply (H (S (length bs))). lia.
Qed.

Lemma vec3s_of_floats_length (fs : list float) :
  length (vec3s_of_floats fs) = (length fs / 3)%nat.
Proof.
  assert (H : forall n fs, (length fs < 3 * n)%nat ->
                           length (vec3s_of_floats fs) = (length fs / 3)%nat).
  { induction n as [|n IH]; intros l Hl; [lia|].
    destruct l as [|a [|b [|c l]]]; try reflexivity.
    cbn [vec3s_of_floats length]. rewrite IH by (simpl in Hl; lia).
    replace (S (S (S (length l)))) with (length l + 1 * 3)%nat by lia.
    rewrite Nat.div_add by lia. lia. }
  apply (H (S (length fs))). lia.
Qed.

Lemma vec2s_of_floats_length (fs : list float) :
  length (vec2s_of_floats fs) = (length fs / 2)%nat.
Proof.
  assert (H : forall n fs, (length fs < 2 * n)%nat ->
                           length (vec2s_of_floats fs) = (length fs / 2)%nat).
  { induction n as [|n IH]; intros l Hl; [lia|].
    destruct l as [|a [|b l]]; try reflexivity.
    cbn [vec2s_of_floats length]. rewrite IH by (simpl in Hl; lia).
    replace (S (S (length l))) with (length l + 1 * 2)%nat by lia.
    rewrite Nat.div_add by lia. lia. }
  apply (H (S (length fs))). lia.
Qed.

Lemma vec4s_of_floats_length (fs : list float) :
  length (vec4s_of_floats fs) = (length fs / 4)%nat.
Proof.
  assert (H : forall n fs, (length fs < 4 * n)%nat ->
                           length (vec4s_of_floats fs) = (length fs / 4)%nat).
  { induction n as [|n IH]; intros l Hl; [lia|].
    destruct l as [|a [|b [|c [|d l]]]]; try reflexivity.
    cbn [vec4s_of_floats length]. rewrite IH by (simpl in Hl; lia).
    replace (S (S (S (S (length l))))) with (length l + 1 * 4)%nat by lia.
    rewrite Nat.div_add by lia. lia. }
  apply (H (S (length fs))). lia.
Qed.

Lemma floats_of_bytes_length (bs : list byte) :
  length (floats_of_bytes bs) = (length bs / 4)%nat.
Proof. unfold floats_of_bytes. rewrite length_map. apply words_of_bytes_length. Qed.

Lemma words_of_bytes_range (bs : list byte) :
  Forall (fun x => 0 <= x < two32) (words_of_bytes bs).
Proof.
  assert (H : forall n bs, (length bs < 4 * n)%nat ->
                           Forall (fun x => 0 <= x < two32) (words_of_bytes bs)).
  { induction n as [|n IH]; intros l Hl; [lia|].
    destruct l as [|a [|b [|c [|d l]]]]; try constructor.
    - apply le32_decode_range.
    - apply IH. simpl in Hl. lia. }
  apply (H (S (length bs))). lia.
Qed.

Lemma read_mesh_wf (materials : list Baked.BakedMaterialInfo) (fin : list byte)
    (b : Baked.BakedMeshData) (rest : list byte) :
  Baked.read_mesh materials fin = Ok (b, rest) -> wf_baked_mesh materials b.
Proof.
  unfold Baked.read_mesh. intros H.
  apply rbind_Ok in H as (m & f1 & Hm & H). apply read_uint32_range in Hm.
  apply rbind_Ok in H as (u & f2 & Hassert & H). apply r_assert_Ok in Hassert as (Hlt & ->).
  apply rbind_Ok in H as (V & f3 & HV & H). apply read_uint32_range in HV.
  apply rbind_Ok in H as (I' & f4 & HI & H). apply read_uint32_range in HI.
  apply rbind_Ok in H as (p & f5 & Hp & H). apply checked_read_Ok in Hp as (_ & Hp & _).
  apply rbind_Ok in H as (n & f6 & Hn & H). apply checked_read_Ok in Hn as (_ & Hn & _).
  apply rbind_Ok in H as (t & f7 & Ht & H). apply checked_read_Ok in Ht as (_ & Ht & _).
  apply rbind_Ok in H as (g & f8 & Hg & H). apply checked_read_Ok in Hg as (_ & Hg & _).
  apply rbind_Ok in H as (ix & f9 & Hix & H). apply checked_read_Ok in Hix as (_ & Hix & _).
  injection H as <- _. unfold wf_baked_mesh.
  cbn [Baked.materialId Baked.positions Baked.normals Baked.texcoords Baked.tangents
       Baked.indices].
  rewrite !vec3s_of_floats_length, vec2s_of_floats_length, vec4s_of_floats_length,
    !floats_of_bytes_length, words_of_bytes_length, Hp, Hn, Ht, Hg, Hix.
  assert (E12 : (Z.to_nat (V * 12) / 4 / 3 = Z.to_nat V)%nat).
  { replace (Z.to_nat (V * 12)) with (Z.to_nat V * 3 * 4)%nat by lia.
    rewrite !Nat.div_mul by lia. reflexivity. }
  assert (E8 : (Z.to_nat (V * 8) / 4 / 2 = Z.to_nat V)%nat).
  { replace (Z.to_nat (V * 8)) with (Z.to_nat V * 2 * 4)%nat by lia.
    rewrite !Nat.div_mul by lia. reflexivity. }
  assert (E16 : (Z.to_nat (V * 16) / 4 / 4 = Z.to_nat V)%nat).
  { replace (Z.to_nat (V * 16)) with (Z.to_nat V * 4 * 4)%nat by lia.
    rewrite !Nat.div_mul by lia. reflexivity. }
  assert (E4 : (Z.to_nat (I' * 4) / 4 = Z.to_nat I')%nat).
  { replace (Z.to_nat (I' * 4)) with (Z.to_nat I' * 4)%nat by lia.
    rewrite Nat.div_mul by lia. reflexivity. }
  rewrite E12, E8, E16, E4.
  split; [apply Z.ltb_lt in Hlt; lia|]. split; [reflexivity|]. split; [reflexivity|].
  split; [reflexivity|]. split; [lia|]. split; [lia|]. apply words_of_bytes_range.
Qed.

Lemma read_material_wf (textures : list Baked.BakedTextureInfo) (fin : list byte)
    (m : Baked.BakedMaterialInfo) (rest : list byte) :
  Baked.read_material textures fin = Ok (m, rest) -> wf_baked_material textures m.
Proof.
  unfold Baked.read_material. intros H.
  apply rbind_Ok in H as (a & f1 & Ha & H). apply read_uint32_range in Ha.
  apply rbind_Ok in H as (b & f2 & Hb & H). apply read_uint32_range in Hb.
  apply rbind_Ok in H as (c & f3 & Hc & H). apply read_uint32_range in Hc.
  apply rbind_Ok in H as (d & f4 & Hd & H). apply read_uint32_range in Hd.
  apply rbind_Ok in H as (e & f5 & He & H). apply read_uint32_range in He.
  apply rbind_Ok in H as (u1 & f6 & H1 & H). apply r_assert_Ok in H1 as (H1 & ->).
  apply rbind_Ok in H as (u2 & f7 & H2 & H). apply r_assert_Ok in H2 as (H2 & ->).
  apply rbind_Ok in H as (u3 & f8 & H3 & H). apply r_assert_Ok in H3 as (H3 & ->).
  injection H as <- _. unfold wf_baked_material. cbn.
  apply Z.ltb_lt in H1, H2, H3. lia.
Qed.

Lemma read_texture_path (prefix : string) (fin : list byte) (t : Baked.BakedTextureInfo)
    (rest : list byte) :
  Baked.read_texture prefix fin = Ok (t, rest) ->
  exists s, Baked.path t = String.append prefix s
            /\ Z.of_nat (String.length s) < Baked.kMaxString.
Proof.
  unfold Baked.read_texture. intros H.
  apply rbind_Ok in H as (s & f1 & Hs & H).
  apply rbind_Ok in H as (c & f2 & _ & H). injection H as <- _.
  exists s. split; [reflexivity|].
  unfold Baked.read_string_ in Hs. apply rbind_Ok in Hs as (len & f0 & Hlen & Hs).
  apply read_uint32_range in Hlen.
  destruct (Z.leb_spec Baked.kMaxString len) as [Hge|Hlt]; [discriminate|].
  apply rbind_Ok in Hs as (bs & f3 & Hbs & Hs). injection Hs as <- _.
  apply checked_read_Ok in Hbs as (_ & Hbs & _).
  assert (Hsl : String.length (string_of_list_byte bs) = length bs).
  { clear. unfold string_of_list_byte.
    induction bs as [|b bs IH]; [reflexivity|]. simpl. rewrite IH. reflexivity. }
  rewrite Hsl, Hbs. lia.
Qed.

Lemma read_model_wf (aInputName : string) (fin : list byte) (ret : Baked.BakedModel)
    (rest : list byte) :
  Baked.read_model aInputName fin = Ok (ret, rest) -> wf_baked_model aInputName ret.
Proof.
  unfold Baked.read_model. intros H.
  apply rbind_Ok in H as (magic & f1 & _ & H).
  destruct (negb (bool_decide (magic = kFileMagic))); [discriminate|].
  apply rbind_Ok in H as (variant & f2 & _ & H).
  destruct (negb (bool_decide (variant = kFileVariant))); [discriminate|].
  apply rbind_Ok in H as (textureCount & f3 & Htc & H). apply read_uint32_range in Htc.
  apply rbind_Ok in H as (textures & f4 & Htex & H).
  apply rbind_Ok in H as (materialCount & f5 & Hmc & H). apply read_uint32_range in Hmc.
  apply rbind_Ok in H as (materials & f6 & Hmat & H).
  apply rbind_Ok in H as (meshCount & f7 & Hnc & H). apply read_uint32_range in Hnc.
  apply rbind_Ok in H as (meshes & f8 & Hmesh & H).
  injection H as <- _. unfold wf_baked_model. cbn [Baked.textures Baked.materials Baked.meshes].
  eapply read_n_Forall in Htex as (Ftex & Ltex);
    [|intros acc' fin' a rest' Ha; exact (read_texture_path _ _ _ _ Ha) | constructor].
  eapply read_n_Forall in Hmat as (Fmat & Lmat);
    [|intros acc' fin' a rest' Ha; exact (read_material_wf _ _ _ _ Ha) | constructor].
  eapply read_n_Forall in Hmesh as (Fmesh & Lmesh);
    [|intros acc' fin' a rest' Ha; exact (read_mesh_wf _ _ _ _ Ha) | constructor].
  simpl in Ltex, Lmat, Lmesh.
  split; [exact Ftex|]. split; [exact Fmat|]. split; [exact Fmesh|]. lia.
Qed.

(** ** A material without a required texture *)

Lemma write_material_optional (aTextures : gmap string Bake.TextureInfo_)
    (m : Bake.InputMaterialInfo) :
  optional_texture aTextures (Bake.baseColorTexturePath m) ->
  optional_texture aTextures (Bake.roughnessTexturePath m) ->
  optional_texture aTextures (Bake.metalnessTexturePath m) ->
  optional_texture aTextures (Bake.alphaMaskTexturePath m) ->
  optional_texture aTextures (Bake.normalMapTexturePath m) ->
  Bake.write_material aTextures m = Ok (material_bytes aTextures m).
Proof.
  intros Ha Hb Hc Hd He. unfold Bake.write_material, material_bytes.
  rewrite !write_tex_id by assumption. reflexivity.
Qed.

Lemma write_model_data_optional (aModel : Bake.InputModel) (aIndexedMeshes : list IndexedMesh)
    (aTextures : gmap string Bake.TextureInfo_) (ordered : list (string * Bake.TextureInfo_)) :
  textures_by_id aTextures ordered ->
  Forall (fun e => loadable_path (snd e)) ordered ->
  Z.of_nat (length ordered) < two32 ->
  Forall (fun m => Bake.write_material aTextures m = Ok (material_bytes aTextures m))
         (Bake.materials aModel) ->
  Z.of_nat (length (Bake.materials aModel)) < two32 ->
  length (Bake.meshes aModel) = length aIndexedMeshes ->
  Z.of_nat (length (Bake.meshes aModel)) < two32 ->
  Forall (fun mm => 0 <= Bake.materialIndex mm < two32) (Bake.meshes aModel) ->
  Forall wf_indexed_mesh aIndexedMeshes ->
  Bake.write_model_data_ aModel aIndexedMeshes aTextures
  = Ok (container_bytes aModel aIndexedMeshes aTextures ordered).
Proof.
  intros Hby Hpaths Hn Hmats Hnm Hlen Hnmesh Hmi Himesh.
  unfold Bake.write_model_data_. rewrite (order_unique_spec _ _ Hby). cbn [bind].
  rewrite (mapM_map_Ok Bake.write_texture (fun e => Some (snd e))
             (fun e => texture_entry (path_with_terminator (snd e), Bake.channels (snd e)))).
  2:{ eapply Forall_impl; [exact Hpaths|]. intros e He. apply write_texture_entry, He. }
  cbn [bind].
  rewrite (mapM_Ok (Bake.write_material aTextures) (material_bytes aTextures)) by exact Hmats.
  cbn [bind]. rewrite bool_decide_eq_true_2 by exact Hlen. cbn [c_assert bind].
  unfold index_range.
  rewrite (mapM_zip_index (Bake.write_mesh aIndexedMeshes) mesh_bytes
             (Bake.meshes aModel) aIndexedMeshes 0 Hlen).
  2:{ intros k mm im Hmm Him. apply write_mesh_bytes; [exact Him | |].
      - exact (Forall_lookup_1 _ _ _ _ Himesh Him).
      - exact (Forall_lookup_1 _ _ _ _ Hmi Hmm). }
  cbn [bind]. rewrite length_map. rewrite !uint32_small by lia. unfold container_bytes. reflexivity.
Qed.

Lemma read_material_refused (aTextures : gmap string Bake.TextureInfo_)
    (ordered : list (string * Bake.TextureInfo_)) (textures : list Baked.BakedTextureInfo)
    (m : Bake.InputMaterialInfo) (more : list byte) :
  textures_by_id aTextures ordered -> Z.of_nat (length ordered) < two32 ->
  length textures = length ordered ->
  optional_texture aTextures (Bake.baseColorTexturePath m) ->
  optional_texture aTextures (Bake.roughnessTexturePath m) ->
  optional_texture aTextures (Bake.metalnessTexturePath m) ->
  optional_texture aTextures (Bake.alphaMaskTexturePath m) ->
  optional_texture aTextures (Bake.normalMapTexturePath m) ->
  lacks_texture m ->
  Baked.read_material textures (material_bytes aTextures m ++ more)
  = Err Baked.LoadAssertFailed.
Proof.
  intros Hby Hn Hlen Ha Hb Hc Hd He Hlack.
  unfold Baked.read_material, material_bytes. rewrite <- !app_assoc.
  pose proof (texture_id_range _ _ _ Hby Hn Ha) as Ra.
  pose proof (texture_id_range _ _ _ Hby Hn Hb) as Rb.
  pose proof (texture_id_range _ _ _ Hby Hn Hc) as Rc.
  pose proof (texture_id_range _ _ _ Hby Hn Hd) as Rd.
  pose proof (texture_id_range _ _ _ Hby Hn He) as Re.
  unfold Baked.rbind. rewrite !read_uint32_app by lia. rewrite Hlen.
  assert (Hs : forall p, p = EmptyString ->
                 (texture_id aTextures p <? Z.of_nat (length ordered)) = false).
  { intros p ->. unfold texture_id. rewrite bool_decide_eq_true_2 by reflexivity.
    apply Z.ltb_ge. unfold Bake.sentinel. lia. }
  unfold Baked.r_assert, Baked.rret, Baked.rthrow.
  destruct (texture_id aTextures (Bake.baseColorTexturePath m) <? Z.of_nat (length ordered))
    eqn:E1; [|reflexivity].
  destruct (texture_id aTextures (Bake.roughnessTexturePath m) <? Z.of_nat (length ordered))
    eqn:E2; [|reflexivity].
  destruct (texture_id aTextures (Bake.metalnessTexturePath m) <? Z.of_nat (length ordered))
    eqn:E3; [|reflexivity].
  exfalso. destruct Hlack as [H|[H|H]]; apply Hs in H; congruence.
Qed.

Lemma read_materials_refused (aTextures : gmap string Bake.TextureInfo_)
    (ordered : list (string * Bake.TextureInfo_)) (textures : list Baked.BakedTextureInfo)
    (ms : list Bake.InputMaterialInfo) (bad : Bake.InputMaterialInfo) (n : nat)
    (acc : list Baked.BakedMaterialInfo) (rest : list byte) :
  textures_by_id aTextures ordered -> Z.of_nat (length ordered) < two32 ->
  length textures = length ordered ->
  Forall (fun m => optional_texture aTextures (Bake.baseColorTexturePath m)
                   /\ optional_texture aTextures (Bake.roughnessTexturePath m)
                   /\ optional_texture aTextures (Bake.metalnessTexturePath m)
                   /\ optional_texture aTextures (Bake.alphaMaskTexturePath m)
                   /\ optional_texture aTextures (Bake.normalMapTexturePath m)) ms ->
  bad ∈ ms -> lacks_texture bad -> (length ms <= n)%nat ->
  Baked.read_n n (fun _ => Baked.read_material textures) acc
    (concat (map (material_bytes aTextures) ms) ++ rest)
  = Err Baked.LoadAssertFailed.
Proof.
  intros Hby Hn Hlen Hopt. revert n acc.
  induction Hopt as [|m ms (Ha & Hb & Hc & Hd & He) _ IH]; intros n acc Hbad Hlack Hlen'.
  - exfalso. exact (not_elem_of_nil _ Hbad).
  - destruct n as [|n]; [simpl in Hlen'; lia|].
    cbn [Baked.read_n map concat]. rewrite <- app_assoc. unfold Baked.rbind at 1.
    destruct (decide (Bake.baseColorTexturePath m <> EmptyString
                      /\ Bake.roughnessTexturePath m <> EmptyString
                      /\ Bake.metalnessTexturePath m <> EmptyString)) as [(Na & Nb & Nc)|Hm].
    + assert (Hreq : forall p, p <> EmptyString -> optional_texture aTextures p ->
                               required_texture aTextures p).
      { intros p Hp [Hemp|Hs]; [contradiction | split; assumption]. }
      rewrite (read_material_bytes aTextures ordered textures m _ Hby Hn Hlen)
        by (unfold wf_material; auto 10).
      apply elem_of_cons in Hbad as [->|Hbad].
      { exfalso. destruct Hlack as [H|[H|H]]; congruence. }
      apply IH; [exact Hbad | exact Hlack | simpl in Hlen'; lia].
    + rewrite (read_material_refused aTextures ordered textures m _ Hby Hn Hlen)
        by first [assumption
                 | unfold lacks_texture;
                   destruct (decide (Bake.baseColorTexturePath m = EmptyString)); [tauto|];
                   destruct (decide (Bake.roughnessTexturePath m = EmptyString)); [tauto|];
                   destruct (decide (Bake.metalnessTexturePath m = EmptyString)); tauto].
      reflexivity.
Qed.

Lemma rough_model_geometry : wf_input_geometry rough_model.
Proof.
  unfold wf_input_geometry.
  split; [repeat constructor; reflexivity|]. split; [repeat constructor; reflexivity|].
  split; [repeat constructor; reflexivity|].
  split; [repeat constructor; cbn; try lia; reflexivity|].
  split; [reflexivity|]. split; [reflexivity|]. vm_compute. reflexivity.
Qed.

Lemma rough_model_paths :
  map_Forall (fun _ t => loadable_path t)
             (model_textures posix_stem posix_filename posix_append
                "out/rough.comp5822mesh" rough_model).
Proof.
  apply map_Forall_to_list. vm_compute map_to_list.
  repeat constructor; vm_compute; reflexivity.
Qed.

(** ** The directory of the model file *)

Lemma strrchr_None (s : string) (c : ascii) :
  Baked.strrchr s c = None -> c ∉ list_ascii_of_string s.
Proof.
  induction s as [|a s IH]; intros H; [apply not_elem_of_nil|].
  cbn [Baked.strrchr] in H. destruct (Baked.strrchr s c) as [k|]; [discriminate|].
  destruct (Ascii.eqb_spec a c) as [->|Hne]; [discriminate|].
  cbn [list_ascii_of_string]. apply not_elem_of_cons. split; [congruence | apply IH; reflexivity].
Qed.

Lemma strrchr_Some (s : string) (c : ascii) (k : nat) :
  Baked.strrchr s c = Some k ->
  exists before after,
    s = String.append before (String c after)
    /\ String.length before = k
    /\ c ∉ list_ascii_of_string after.
Proof.
  revert k. induction s as [|a s IH]; intros k H; [discriminate|].
  cbn [Baked.strrchr] in H. destruct (Baked.strrchr s c) as [j|] eqn:Hs.
  - injection H as <-. destruct (IH j eq_refl) as (before & after & -> & Hlen & Hafter).
    exists (String a before), after. cbn. rewrite Hlen. auto.
  - destruct (Ascii.eqb_spec a c) as [->|Hne]; [|discriminate]. injection H as <-.
    exists EmptyString, s. split; [reflexivity|]. split; [reflexivity|].
    apply strrchr_None, Hs.
Qed.

Lemma substring_prefix (a b : string) :
  substring 0 (String.length a) (String.append a b) = a.
Proof.
  induction a as [|x a IH].
  - destruct b; reflexivity.
  - change (String.append (String x a) b) with (String x (String.append a b)).
    change (String.length (String x a)) with (S (String.length a)).
    change (substring 0 (S (String.length a)) (String x (String.append a b)))
      with (String x (substring 0 (String.length a) (String.append a b))).
    rewrite IH. reflexivity.
Qed.

Lemma append_assoc (a b c : string) :
  String.append (String.append a b) c = String.append a (String.append b c).
Proof.
  induction a as [|x a IH]; [reflexivity|].
  change (String x (String.append (String.append a b) c)
          = String x (String.append a (String.append b c))).
  rewrite IH. reflexivity.
Qed.

Lemma append_length (a b : string) :
  String.length (String.append a b) = (String.length a + String.length b)%nat.
Proof.
  induction a as [|x a IH]; [reflexivity|].
  change (S (String.length (String.append a b)) = S (String.length a + String.length b)).
  rewrite IH. reflexivity.
Qed.

(** X21. The base path that the loader puts before every texture path is
    the directory part of the name of the model file: the name up to and
    including its last slash, and nothing when the name has no slash. What
    is left of the name holds no slash. *)
Theorem base_prefix_split (aInputName : string) :
  exists rest,
    aInputName = String.append (Baked.base_prefix aInputName) rest
    /\ ("/"%char ∉ list_ascii_of_string rest)
    /\ (Baked.base_prefix aInputName = EmptyString
        \/ exists dir, Baked.base_prefix aInputName = String.append dir "/").
Proof.
  unfold Baked.base_prefix.
  destruct (Baked.strrchr aInputName "/") as [k|] eqn:Hk.
  - destruct (strrchr_Some _ _ _ Hk) as (before & after & -> & Hlen & Hafter).
    assert (Hpre : substring 0 (S k) (String.append before (String "/" after))
                   = String.append before "/").
    { replace (S k) with (String.length (String.append before "/"))
        by (rewrite append_length; cbn; lia).
      replace (String.append before (String "/" after))
        with (String.append (String.append before "/") after)
        by (rewrite append_assoc; reflexivity).
      apply substring_prefix. }
    rewrite Hpre. exists after. split; [rewrite append_assoc; reflexivity|].
    split; [exact Hafter|]. right. exists before. reflexivity.
  - exists aInputName. split; [reflexivity|]. split; [apply strrchr_None, Hk|].
    left. reflexivity.
Qed.

(** ** Leading zeros and mip levels *)

Lemma land_high_bits (x k m : Z) :
  0 <= k -> 0 <= m -> 0 <= x < 2 ^ (k + m) ->
  Z.land x (Z.shiftl (Z.ones m) k) = 2 ^ k * (x / 2 ^ k).
Proof.
  intros Hk Hm Hx.
  assert (H : Z.land x (Z.shiftl (Z.ones m) k) = Z.shiftl (Z.land (Z.shiftr x k) (Z.ones m)) k).
  { apply Z.bits_inj'. intros n Hn.
    rewrite Z.land_spec, !Z.shiftl_spec by assumption.
    destruct (Z.lt_ge_cases n k) as [Hlt|Hge].
    - rewrite !(Z.testbit_neg_r _ (n - k)) by lia. apply andb_false_r.
    - rewrite Z.land_spec, Z.shiftr_spec by lia. replace (n - k + k) with n by lia. reflexivity. }
  rewrite H, Z.land_ones, Z.shiftr_div_pow2, Z.shiftl_mul_pow2 by assumption.
  rewrite Z.mod_small; [lia|]. split; [apply Z.div_pos; lia|].
  apply Z.div_lt_upper_bound; [lia|]. rewrite <- Z.pow_add_r by assumption. lia.
Qed.

Lemma high_bits_test (x k m : Z) :
  0 <= k -> 0 <= m -> 0 <= x < 2 ^ (k + m) ->
  (Z.land x (Z.shiftl (Z.ones m) k) =? 0) = (x <? 2 ^ k).
Proof.
  intros Hk Hm Hx. rewrite land_high_bits by assumption.
  assert (Hp : 0 < 2 ^ k) by lia.
  destruct (Z.ltb_spec x (2 ^ k)) as [Hlt|Hge].
  - rewrite Z.div_small by lia. rewrite Z.mul_0_r. reflexivity.
  - apply Z.eqb_neq. assert (1 <= x / 2 ^ k); [|nia].
    apply Z.div_le_lower_bound; lia.
Qed.

Lemma shiftl_32 (y s : Z) :
  0 <= s -> 0 <= y -> y * 2 ^ s < 2 ^ 32 -> Z.shiftl y s mod 2 ^ 32 = y * 2 ^ s.
Proof.
  intros Hs Hy Hlt. rewrite Z.shiftl_mul_pow2 by assumption. apply Z.mod_small. nia.
Qed.

Lemma countl_zero_bounds (x : Z) :
  0 < x < two32 ->
  0 <= countl_zero_ x <= 31 /\ 2 ^ 31 <= x * 2 ^ countl_zero_ x < 2 ^ 32.
Proof.
  intros Hx. unfold countl_zero_, two32 in *.
  rewrite (proj2 (Z.eqb_neq x 0)) by lia.
  change 0xffff0000 with (Z.shiftl (Z.ones 16) 16).
  change 0xff000000 with (Z.shiftl (Z.ones 8) 24).
  change 0xf0000000 with (Z.shiftl (Z.ones 4) 28).
  change 0xc0000000 with (Z.shiftl (Z.ones 2) 30).
  change 0x80000000 with (Z.shiftl (Z.ones 1) 31).
  rewrite (high_bits_test x 16 16) by lia.
  destruct (Z.ltb_spec x (2 ^ 16)) as [H1|H1]; cbn zeta iota beta;
    [rewrite (shiftl_32 x 16) by lia; set (y1 := x * 2 ^ 16) | set (y1 := x)];
    (assert (R1 : 2 ^ 16 <= y1 < 2 ^ 32) by (subst y1; lia));
    rewrite (high_bits_test y1 24 8) by lia;
    (destruct (Z.ltb_spec y1 (2 ^ 24)) as [H2|H2]; cbn zeta iota beta;
     [rewrite (shiftl_32 y1 8) by lia; set (y2 := y1 * 2 ^ 8) | set (y2 := y1)]);
    (assert (R2 : 2 ^ 24 <= y2 < 2 ^ 32) by (subst y2; lia));
    rewrite (high_bits_test y2 28 4) by lia;
    (destruct (Z.ltb_spec y2 (2 ^ 28)) as [H3|H3]; cbn zeta iota beta;
     [rewrite (shiftl_32 y2 4) by lia; set (y3 := y2 * 2 ^ 4) | set (y3 := y2)]);
    (assert (R3 : 2 ^ 28 <= y3 < 2 ^ 32) by (subst y3; lia));
    rewrite (high_bits_test y3 30 2) by lia;
    (destruct (Z.ltb_spec y3 (2 ^ 30)) as [H4|H4]; cbn zeta iota beta;
     [rewrite (shiftl_32 y3 2) by lia; set (y4 := y3 * 2 ^ 2) | set (y4 := y3)]);
    (assert (R4 : 2 ^ 30 <= y4 < 2 ^ 32) by (subst y4; lia));
    rewrite (high_bits_test y4 31 1) by lia;
    (destruct (Z.ltb_spec y4 (2 ^ 31)) as [H5|H5]);
    cbn [Z.add Z.pow Z.pow_pos Pos.iter Z.mul Pos.mul Pos.add Pos.succ];
    subst y4 y3 y2 y1; lia.
Qed.

Lemma countl_zero_log2 (x : Z) : 0 < x < two32 -> countl_zero_ x = 31 - Z.log2 x.
Proof.
  intros Hx. destruct (countl_zero_bounds x Hx) as (Hr & Hlo & Hhi).
  set (c := countl_zero_ x) in *.
  assert (Hlog : Z.log2 x = 31 - c); [|lia].
  apply Z.log2_unique; [lia|].
  replace (Z.succ (31 - c)) with (32 - c) by lia.
  assert (H31 : 2 ^ 31 = 2 ^ (31 - c) * 2 ^ c).
  { rewrite <- (Z.pow_add_r 2 (31 - c) c) by lia. replace (31 - c + c) with 31 by lia.
    reflexivity. }
  assert (H32 : 2 ^ 32 = 2 ^ (32 - c) * 2 ^ c).
  { rewrite <- (Z.pow_add_r 2 (32 - c) c) by lia. replace (32 - c + c) with 32 by lia.
    reflexivity. }
  assert (Hc : 0 < 2 ^ c) by (apply Z.pow_pos_nonneg; lia).
  rewrite H31 in Hlo. rewrite H32 in Hhi. split.
  - apply (Z.mul_le_mono_pos_r _ _ (2 ^ c)); assumption.
  - apply (Z.mul_lt_mono_pos_r (2 ^ c)); assumption.
Qed.

(** X22. [countl_zero_] counts the leading zero bits of a 32-bit number: 32
    for 0, and for every other [x] the number [c] between 0 and 31 with
    2^(31-c) <= x < 2^(32-c), which is 31 minus the position of the highest
    set bit. *)
Theorem countl_zero_spec (x : Z) :
  0 <= x < two32 ->
  (x = 0 -> countl_zero_ x = 32)
  /\ (0 < x ->
        0 <= countl_zero_ x <= 31
        /\ 2 ^ (31 - countl_zero_ x) <= x < 2 ^ (32 - countl_zero_ x)
        /\ countl_zero_ x = 31 - Z.log2 x).
Proof.
  intros Hx. split; [intros ->; reflexivity|]. intros Hpos.
  assert (Hx' : 0 < x < two32) by lia.
  pose proof (countl_zero_log2 x Hx') as Hlog.
  destruct (countl_zero_bounds x Hx') as (Hr & _).
  split; [exact Hr|]. split; [|exact Hlog].
  rewrite Hlog. replace (31 - (31 - Z.log2 x)) with (Z.log2 x) by lia.
  replace (32 - (31 - Z.log2 x)) with (Z.succ (Z.log2 x)) by lia.
  apply Z.log2_spec. lia.
Qed.

Lemma countl_zero_spec_witness :
  (74565 = 0 -> countl_zero_ 74565 = 32)
  /\ (0 < 74565 ->
        0 <= countl_zero_ 74565 <= 31
        /\ 2 ^ (31 - countl_zero_ 74565) <= 74565 < 2 ^ (32 - countl_zero_ 74565)
        /\ countl_zero_ 74565 = 31 - Z.log2 74565).
Proof.
  apply (countl_zero_spec 74565). unfold two32. lia.
Defined.

Lemma log2_32 (w : Z) : 0 <= w < two32 -> Z.log2 w < 32.
Proof.
  intros Hw. destruct (Z.eq_dec w 0) as [->|Hne]; [reflexivity|].
  apply Z.log2_lt_pow2; unfold two32 in Hw; lia.
Qed.

Lemma lor_32 (w h : Z) : 0 <= w < two32 -> 0 <= h < two32 -> 0 <= Z.lor w h < two32.
Proof.
  intros Hw Hh. assert (H0 : 0 <= Z.lor w h) by (apply Z.lor_nonneg; lia).
  split; [exact H0|].
  destruct (Z.eq_dec (Z.lor w h) 0) as [->|Hne]; [reflexivity|].
  unfold two32. apply Z.log2_lt_pow2; [lia|].
  rewrite Z.log2_lor by lia.
  apply Z.max_lub_lt; apply log2_32; assumption.
Qed.

Lemma log2_max (w h : Z) : Z.log2 (Z.max w h) = Z.max (Z.log2 w) (Z.log2 h).
Proof.
  destruct (Z.le_ge_cases w h) as [H|H].
  - rewrite Z.max_r by exact H. rewrite Z.max_r by (apply Z.log2_le_mono, H). reflexivity.
  - rewrite Z.max_l by lia. rewrite Z.max_l by (apply Z.log2_le_mono; lia). reflexivity.
Qed.

Lemma mip_level_count_log2 (w h : Z) :
  0 <= w < two32 -> 0 <= h < two32 -> 0 < Z.max w h ->
  compute_mip_level_count w h = Z.log2 (Z.max w h) + 1.
Proof.
  intros Hw Hh Hpos. unfold compute_mip_level_count.
  pose proof (lor_32 w h Hw Hh) as Hlor.
  assert (Hne : 0 < Z.lor w h).
  { destruct (Z.eq_dec (Z.lor w h) 0) as [H0|H0]; [|lia].
    apply Z.lor_eq_0_iff in H0 as (-> & ->). cbn in Hpos. lia. }
  rewrite countl_zero_log2 by lia. rewrite Z.log2_lor, log2_max by lia.
  pose proof (Z.log2_nonneg w). pose proof (Z.log2_nonneg h).
  assert (Z.log2 (Z.lor w h) < 32).
  { apply Z.log2_lt_pow2; [lia|]. unfold two32 in Hlor. lia. }
  rewrite Z.log2_lor in H1 by lia.
  rewrite Z.mod_small; unfold two32; lia.
Qed.

(** X23. [compute_mip_level_count] gives one level more than the base-2
    logarithm of the longer side, rounded down: the number of times that
    the longer side can be halved before it reaches 1, plus the base level.
    It is between 1 and 32, and 0 for an image without pixels on both
    axes. *)
Theorem mip_level_count_spec (aWidth aHeight : Z) :
  0 <= aWidth < two32 -> 0 <= aHeight < two32 ->
  (aWidth = 0 /\ aHeight = 0 -> compute_mip_level_count aWidth aHeight = 0)
  /\ (0 < Z.max aWidth aHeight ->
        compute_mip_level_count aWidth aHeight = Z.log2 (Z.max aWidth aHeight) + 1
        /\ 1 <= compute_mip_level_count aWidth aHeight <= 32
        /\ 2 ^ (compute_mip_level_count aWidth aHeight - 1) <= Z.max aWidth aHeight
           < 2 ^ compute_mip_level_count aWidth aHeight).
Proof.
  intros Hw Hh. split; [intros (-> & ->); reflexivity|]. intros Hpos.
  rewrite (mip_level_count_log2 aWidth aHeight Hw Hh Hpos).
  split; [reflexivity|].
  pose proof (Z.log2_nonneg (Z.max aWidth aHeight)).
  assert (Z.log2 (Z.max aWidth aHeight) < 32).
  { apply Z.log2_lt_pow2; [lia|]. unfold two32 in *. lia. }
  split; [lia|].
  replace (Z.log2 (Z.max aWidth aHeight) + 1 - 1) with (Z.log2 (Z.max aWidth aHeight)) by lia.
  apply Z.log2_spec, Hpos.
Qed.

Lemma mip_level_count_spec_witness :
  (1920 = 0 /\ 1080 = 0 -> compute_mip_level_count 1920 1080 = 0)
  /\ (0 < Z.max 1920 1080 ->
        compute_mip_level_count 1920 1080 = Z.log2 (Z.max 1920 1080) + 1
        /\ 1 <= compute_mip_level_count 1920 1080 <= 32
        /\ 2 ^ (compute_mip_level_count 1920 1080 - 1) <= Z.max 1920 1080
           < 2 ^ compute_mip_level_count 1920 1080).
Proof.
  apply (mip_level_count_spec 1920 1080); unfold two32; lia.
Defined.

(** ** The chain of blits *)

Lemma next_mip_extent_spec (x : Z) (k : Z) :
  0 <= k -> 0 < x -> next_mip_extent (mip_extent x k) = mip_extent x (k + 1).
Proof.
  intros Hk Hx. unfold next_mip_extent, mip_extent.
  rewrite Z.shiftr_div_pow2 by lia. change (2 ^ 1) with 2.
  assert (Hp : 0 < 2 ^ k) by (apply Z.pow_pos_nonneg; lia).
  assert (Hdiv : x / 2 ^ (k + 1) = x / 2 ^ k / 2).
  { rewrite Z.pow_add_r by lia. change (2 ^ 1) with 2. rewrite Z.div_div by lia. reflexivity. }
  rewrite Hdiv. assert (H0 : 0 <= x / 2 ^ k) by (apply Z.div_pos; lia).
  destruct (Z.max_spec 1 (x / 2 ^ k)) as [(Hlt & ->)|(Hge & ->)].
  - destruct (Z.eqb_spec (x / 2 ^ k / 2) 0) as [E|E].
    + rewrite E. reflexivity.
    + assert (1 <= x / 2 ^ k / 2); [|lia].
      assert (0 <= x / 2 ^ k / 2) by (apply Z.div_pos; lia). lia.
  - assert (E : x / 2 ^ k = 0 \/ x / 2 ^ k = 1) by lia.
    destruct E as [E|E]; rewrite E; reflexivity.
Qed.

Lemma mip_extent_0 (x : Z) : 0 < x -> mip_extent x 0 = x.
Proof. intros Hx. unfold mip_extent. rewrite Z.div_1_r. lia. Qed.

Lemma mip_fold (n : nat) (a : nat) (w h : Z) (k : Z) (acc : list MipBlit) :
  0 <= k -> 0 < w -> 0 < h ->
  fold_left
    (fun '(width, height, blits) level =>
       let width' := next_mip_extent width in
       let height' := next_mip_extent height in
       (width', height',
        blits ++ [ {| dstLevel := level;
                      srcExtent := (to_int32 width, to_int32 height);
                      dstExtent := (to_int32 width', to_int32 height') |} ]))
    (map (fun i : nat => Z.of_nat i + 1) (seq a n))
    (mip_extent w k, mip_extent h k, acc)
  = (mip_extent w (k + Z.of_nat n), mip_extent h (k + Z.of_nat n),
     acc ++ map (fun j : nat =>
                   {| dstLevel := Z.of_nat (a + j) + 1;
                      srcExtent := (to_int32 (mip_extent w (k + Z.of_nat j)),
                                    to_int32 (mip_extent h (k + Z.of_nat j)));
                      dstExtent := (to_int32 (mip_extent w (k + Z.of_nat j + 1)),
                                    to_int32 (mip_extent h (k + Z.of_nat j + 1))) |})
                (seq 0 n)).
Proof.
  intros Hk Hw Hh. revert a k acc Hk. induction n as [|n IH]; intros a k acc Hk.
  - cbn [seq map fold_left]. rewrite Z.add_0_r, app_nil_r. reflexivity.
  - cbn [seq map fold_left]. cbv zeta.
    rewrite !next_mip_extent_spec by assumption.
    rewrite (IH (S a) (k + 1)) by lia.
    replace (k + 1 + Z.of_nat n) with (k + Z.of_nat (S n)) by lia.
    f_equal. rewrite <- app_assoc. f_equal. cbn [app]. f_equal.
    + rewrite Nat.add_0_r, Z.add_0_r. reflexivity.
    + rewrite <- seq_shift, map_map. apply map_ext. intros j.
      replace (S a + j)%nat with (a + S j)%nat by lia.
      replace (k + 1 + Z.of_nat j) with (k + Z.of_nat (S j)) by lia. reflexivity.
Qed.

Lemma mip_extent_bounds (x k : Z) : 0 <= k -> 0 < x -> 1 <= mip_extent x k <= x.
Proof.
  intros Hk Hx. unfold mip_extent.
  assert (Hp : 0 < 2 ^ k) by (apply Z.pow_pos_nonneg; lia).
  assert (x / 2 ^ k <= x); [|lia].
  apply Z.div_le_upper_bound; [lia|]. nia.
Qed.

Lemma to_int32_small (z : Z) : 0 <= z < 2 ^ 31 -> to_int32 z = z.
Proof.
  intros Hz. unfold to_int32, two32. rewrite Z.mod_small by lia.
  destruct (Z.ltb_spec z (2 ^ 31)); lia.
Qed.

Lemma mip_blits_list (w h : Z) :
  0 < w < 2 ^ 31 -> 0 < h < 2 ^ 31 ->
  mip_blits w h
  = map (fun j : nat =>
           {| dstLevel := Z.of_nat j + 1;
              srcExtent := (mip_extent w (Z.of_nat j), mip_extent h (Z.of_nat j));
              dstExtent := (mip_extent w (Z.of_nat j + 1), mip_extent h (Z.of_nat j + 1)) |})
        (seq 0 (Z.to_nat (Z.log2 (Z.max w h)))).
Proof.
  intros Hw Hh. unfold mip_blits.
  rewrite mip_level_count_log2 by (unfold two32; lia).
  replace (Z.log2 (Z.max w h) + 1 - 1) with (Z.log2 (Z.max w h)) by lia.
  unfold seqZ. change (fmap (M := list)) with (@map nat Z).
  replace (w, h, @nil MipBlit) with (mip_extent w 0, mip_extent h 0, @nil MipBlit)
    by (rewrite !mip_extent_0 by lia; reflexivity).
  rewrite (mip_fold _ 0 w h 0 []) by lia. cbn [snd app].
  apply map_ext. intros j. cbn [Nat.add Z.add].
  rewrite !to_int32_small; [reflexivity|..];
    match goal with
    | |- 0 <= mip_extent ?x ?k < _ => pose proof (mip_extent_bounds x k ltac:(lia) ltac:(lia)); lia
    end.
Qed.

(** X24. The blits that the texture loaders record for an image of at least
    one pixel (and sides below 2^31, as [stbi_load] gives them): one per mip
    level above the base, floor(log2(longer side))
    of them, in order of level; blit [k] reads the extent of level [k] and
    writes the extent of level [k+1], each being the base extent halved as
    many times and at least 1; no blit reads a 1 by 1 level, and the last
    one writes a 1 by 1 level. *)
Theorem mip_chain_spec (baseWidth baseHeight : Z) :
  0 < baseWidth < 2 ^ 31 -> 0 < baseHeight < 2 ^ 31 ->
  Z.of_nat (length (mip_blits baseWidth baseHeight)) = Z.log2 (Z.max baseWidth baseHeight)
  /\ (forall (k : nat) (blit : MipBlit),
        mip_blits baseWidth baseHeight !! k = Some blit ->
        dstLevel blit = Z.of_nat k + 1
        /\ srcExtent blit = (mip_extent baseWidth (Z.of_nat k), mip_extent baseHeight (Z.of_nat k))
        /\ dstExtent blit = (mip_extent baseWidth (Z.of_nat k + 1),
                             mip_extent baseHeight (Z.of_nat k + 1))
        /\ srcExtent blit <> (1, 1))
  /\ (forall blit, last (mip_blits baseWidth baseHeight) = Some blit ->
        dstExtent blit = (1, 1)).
Proof.
  intros Hw Hh. rewrite (mip_blits_list baseWidth baseHeight Hw Hh).
  set (M := Z.max baseWidth baseHeight).
  assert (HM : 0 < M) by (subst M; lia).
  pose proof (Z.log2_nonneg M) as HL.
  pose proof (Z.log2_spec M HM) as (Hlo & Hhi).
  assert (Hlookup : forall (k : nat) blit,
            map (fun j : nat =>
                   {| dstLevel := Z.of_nat j + 1;
                      srcExtent := (mip_extent baseWidth (Z.of_nat j),
                                    mip_extent baseHeight (Z.of_nat j));
                      dstExtent := (mip_extent baseWidth (Z.of_nat j + 1),
                                    mip_extent baseHeight (Z.of_nat j + 1)) |})
                (seq 0 (Z.to_nat (Z.log2 M))) !! k = Some blit ->
            Z.of_nat k < Z.log2 M
            /\ blit = {| dstLevel := Z.of_nat k + 1;
                         srcExtent := (mip_extent baseWidth (Z.of_nat k),
                                       mip_extent baseHeight (Z.of_nat k));
                         dstExtent := (mip_extent baseWidth (Z.of_nat k + 1),
                                       mip_extent baseHeight (Z.of_nat k + 1)) |}).
  { intros k blit Hk. rewrite list_lookup_fmap in Hk.
    destruct (seq 0 (Z.to_nat (Z.log2 M)) !! k) as [j|] eqn:Hj; [|discriminate].
    apply lookup_seq in Hj as (-> & Hlt). injection Hk as <-. split; [lia | reflexivity]. }
  split; [rewrite length_map, length_seq; lia|]. split.
  - intros k blit Hk. destruct (Hlookup k blit Hk) as (Hlt & ->).
    cbn [dstLevel srcExtent dstExtent]. repeat split.
    intros [= Ew Eh]. unfold mip_extent in Ew, Eh.
    assert (Hp : 0 < 2 ^ Z.of_nat k) by (apply Z.pow_pos_nonneg; lia).
    assert (H2 : 2 * 2 ^ Z.of_nat k <= M).
    { replace (2 * 2 ^ Z.of_nat k) with (2 ^ (Z.of_nat k + 1))
        by (rewrite Z.pow_add_r by lia; change (2 ^ 1) with 2; lia).
      etransitivity; [|exact Hlo]. apply Z.pow_le_mono_r; lia. }
    assert (Hbig : 2 <= baseWidth / 2 ^ Z.of_nat k \/ 2 <= baseHeight / 2 ^ Z.of_nat k).
    { subst M. destruct (Z.max_spec baseWidth baseHeight) as [(_ & E)|(_ & E)]; rewrite E in H2;
        [right | left]; apply Z.div_le_lower_bound; lia. }
    lia.
  - intros blit Hlast. rewrite last_lookup in Hlast.
    destruct (Hlookup _ _ Hlast) as (Hlt & ->). cbn [dstExtent].
    rewrite length_map, length_seq in Hlt |- *.
    replace (Z.of_nat (Init.Nat.pred (Z.to_nat (Z.log2 M))) + 1) with (Z.log2 M) by lia.
    assert (Hp : 0 < 2 ^ Z.log2 M) by (apply Z.pow_pos_nonneg; lia).
    assert (Hsmall : forall x, 0 < x <= M -> mip_extent x (Z.log2 M) = 1).
    { intros x Hx. unfold mip_extent.
      assert (x / 2 ^ Z.log2 M < 2); [|lia].
      apply Z.div_lt_upper_bound; [lia|].
      replace (2 ^ Z.succ (Z.log2 M)) with (2 ^ Z.log2 M * 2) in Hhi
        by (rewrite Z.pow_succ_r by lia; lia).
      lia. }
    rewrite !Hsmall by (subst M; lia). reflexivity.
Qed.

Lemma mip_chain_spec_witness :
  Z.of_nat (length (mip_blits 1920 1080)) = Z.log2 (Z.max 1920 1080)
  /\ (forall (k : nat) (blit : MipBlit),
        mip_blits 1920 1080 !! k = Some blit ->
        dstLevel blit = Z.of_nat k + 1
        /\ srcExtent blit = (mip_extent 1920 (Z.of_nat k), mip_extent 1080 (Z.of_nat k))
        /\ dstExtent blit = (mip_extent 1920 (Z.of_nat k + 1), mip_extent 1080 (Z.of_nat k + 1))
        /\ srcExtent blit <> (1, 1))
  /\ (forall blit, last (mip_blits 1920 1080) = Some blit -> dstExtent blit = (1, 1)).
Proof.
  apply (mip_chain_spec 1920 1080); lia.
Defined.

(** ** The interleaved vertex data *)

Lemma vertex_data_prefix (mesh : Baked.BakedMeshData) (k : nat) :
  length (Baked.texcoords mesh) = length (Baked.positions mesh) ->
  length (Baked.normals mesh) = length (Baked.positions mesh) ->
  length (Baked.tangents mesh) = length (Baked.positions mesh) ->
  (k <= length (Baked.positions mesh))%nat ->
  exists data,
    foldM
      (fun vertexData i =>
         let! p := vget (Baked.positions mesh) i in
         let! t := vget (Baked.texcoords mesh) i in
         let! n := vget (Baked.normals mesh) i in
         let! g := vget (Baked.tangents mesh) i in
         Ok (vertexData ++ [v3x p; v3y p; v3z p; v2x t; v2y t; v3x n; v3y n; v3z n;
                            v4x g; v4y g; v4z g; v4w g]))
      (index_range k) [] = Ok data
    /\ length data = (12 * k)%nat
    /\ forall i p t n g,
         (i < k)%nat ->
         Baked.positions mesh !! i = Some p -> Baked.texcoords mesh !! i = Some t ->
         Baked.normals mesh !! i = Some n -> Baked.tangents mesh !! i = Some g ->
         take 12 (drop (12 * i) data) = vertex_row p t n g.
Proof.
  intros Ht Hn Hg. induction k as [|k IH]; intros Hk.
  - exists []. split; [reflexivity|]. split; [reflexivity|]. intros; lia.
  - destruct IH as (data & Hrun & Hlen & Hrows); [lia|].
    rewrite index_range_S, foldM_app, Hrun. cbn [bind foldM].
    rewrite !vget_of_nat.
    destruct (lookup_lt_is_Some_2 (Baked.positions mesh) k) as (p & Hp); [lia|].
    destruct (lookup_lt_is_Some_2 (Baked.texcoords mesh) k) as (t & Htk); [lia|].
    destruct (lookup_lt_is_Some_2 (Baked.normals mesh) k) as (n & Hnk); [lia|].
    destruct (lookup_lt_is_Some_2 (Baked.tangents mesh) k) as (g & Hgk); [lia|].
    rewrite Hp, Htk, Hnk, Hgk. cbn [bind]. eexists. split; [reflexivity|].
    split; [rewrite length_app, Hlen; simpl; lia|].
    intros i p' t' n' g' Hi Hp' Ht' Hn' Hg'.
    destruct (decide (i = k)) as [->|Hne].
    + rewrite drop_app_length' by lia.
      assert (p' = p) by congruence. assert (t' = t) by congruence.
      assert (n' = n) by congruence. assert (g' = g) by congruence. subst. reflexivity.
    + rewrite drop_app_le by lia. rewrite take_app_le by (rewrite length_drop; lia).
      apply Hrows; first [assumption | lia].
Qed.

(** X25. The vertex buffer that [set_up_model] builds for a mesh whose
    four attribute arrays have one length: twelve floats per vertex, in
    the order of the vertices, each row being the position (3), the texture
    coordinate (2), the normal (3) and the tangent (4) of the vertex. *)
Theorem vertex_data_layout (mesh : Baked.BakedMeshData) :
  length (Baked.texcoords mesh) = length (Baked.positions mesh) ->
  length (Baked.normals mesh) = length (Baked.positions mesh) ->
  length (Baked.tangents mesh) = length (Baked.positions mesh) ->
  exists data,
    vertex_data mesh = Ok data
    /\ length data = (12 * length (Baked.positions mesh))%nat
    /\ forall (i : nat) p t n g,
         Baked.positions mesh !! i = Some p -> Baked.texcoords mesh !! i = Some t ->
         Baked.normals mesh !! i = Some n -> Baked.tangents mesh !! i = Some g ->
         take 12 (drop (12 * i) data) = vertex_row p t n g.
Proof.
  intros Ht Hn Hg.
  destruct (vertex_data_prefix mesh (length (Baked.positions mesh)) Ht Hn Hg (le_n _))
    as (data & Hrun & Hlen & Hrows).
  exists data. split; [exact Hrun|]. split; [exact Hlen|].
  intros i p t n g Hp. apply Hrows; [eapply lookup_lt_Some; exact Hp | exact Hp].
Qed.

Lemma vertex_data_layout_witness :
  exists data,
    vertex_data (baked_mesh ({| Bake.meshName := "t"; Bake.materialIndex := 0;
                                Bake.vertexStartIndex := 0; Bake.vertexCount := 3 |},
                             tiny_mesh)) = Ok data
    /\ length data = (12 * length (im_vert tiny_mesh))%nat
    /\ forall (i : nat) p t n g,
         im_vert tiny_mesh !! i = Some p -> im_text tiny_mesh !! i = Some t ->
         im_norm tiny_mesh !! i = Some n -> im_tangent tiny_mesh !! i = Some g ->
         take 12 (drop (12 * i) data) = vertex_row p t n g.
Proof.
  exact (vertex_data_layout
           (baked_mesh ({| Bake.meshName := "t"; Bake.materialIndex := 0;
                           Bake.vertexStartIndex := 0; Bake.vertexCount := 3 |}, tiny_mesh))
           eq_refl eq_refl eq_refl).
Defined.

(** ** The format of a texture *)

Lemma texture_format_skip (before rest : list Baked.BakedMaterialInfo) (textureId : Z) :
  Forall (fun m => ~ refers_to textureId m) before ->
  texture_format_in (before ++ rest) textureId = texture_format_in rest textureId.
Proof.
  induction 1 as [|m before Hm _ IH]; [reflexivity|].
  cbn [app texture_format_in]. unfold refers_to in Hm.
  destruct (Z.eqb_spec textureId (Baked.baseColorTextureId m)); [tauto|].
  destruct (Z.eqb_spec textureId (Baked.roughnessTextureId m)); [tauto|].
  destruct (Z.eqb_spec textureId (Baked.metalnessTextureId m)); [tauto|].
  destruct (Z.eqb_spec textureId (Baked.normalMapTextureId m)); [tauto|].
  cbn [orb]. exact IH.
Qed.

(** X26. The first material that refers to a texture, as base colour,
    roughness, metalness or normal map, decides its format, whatever the
    later materials use it for: sRGB when it is the base colour of that
    material, else one linear channel when it is its roughness or
    metalness, else linear RGBA. A texture that no material refers to in
    one of these ways (one used as alpha mask only, say) is sRGB. *)
Theorem first_reference_decides_format (aModel : Baked.BakedModel) (textureId : Z) :
  (Forall (fun m => ~ refers_to textureId m) (Baked.materials aModel) ->
   get_texture_format aModel textureId = VK_FORMAT_R8G8B8A8_SRGB)
  /\ (forall before m after,
        Baked.materials aModel = before ++ m :: after ->
        Forall (fun m' => ~ refers_to textureId m') before ->
        refers_to textureId m ->
        get_texture_format aModel textureId
        = if textureId =? Baked.baseColorTextureId m then VK_FORMAT_R8G8B8A8_SRGB
          else if (textureId =? Baked.roughnessTextureId m)
                  || (textureId =? Baked.metalnessTextureId m)
          then VK_FORMAT_R8_UNORM
          else VK_FORMAT_R8G8B8A8_UNORM).
Proof.
  unfold get_texture_format. split.
  - intros Hnone. rewrite <- (app_nil_r (Baked.materials aModel)).
    rewrite texture_format_skip by exact Hnone. reflexivity.
  - intros before m after -> Hbefore Hm. rewrite texture_format_skip by exact Hbefore.
    cbn [texture_format_in]. unfold refers_to in Hm.
    destruct (Z.eqb_spec textureId (Baked.baseColorTextureId m)); [reflexivity|].
    destruct (Z.eqb_spec textureId (Baked.roughnessTextureId m)); [reflexivity|].
    destruct (Z.eqb_spec textureId (Baked.metalnessTextureId m)); [reflexivity|].
    destruct (Z.eqb_spec textureId (Baked.normalMapTextureId m)); [reflexivity|].
    exfalso. tauto.
Qed.

(** ** What [set_up_model] reads *)

Lemma mapM_all_Ok {E X Y} (f : X -> result E Y) (xs : list X) :
  Forall (fun x => exists y, f x = Ok y) xs ->
  exists ys, mapM f xs = Ok ys /\ Forall2 (fun x y => f x = Ok y) xs ys.
Proof.
  induction 1 as [|x xs (y & Hy) _ (ys & IH & IH2)].
  - exists []. split; [reflexivity | constructor].
  - exists (y :: ys). cbn [mapM]. rewrite Hy. cbn [bind]. rewrite IH.
    split; [reflexivity | constructor; assumption].
Qed.

Lemma mapM_some_Err {E X Y} (f : X -> result E Y) (e : E) (xs : list X) (bad : X) :
  Forall (fun x => (exists y, f x = Ok y) \/ f x = Err e) xs ->
  bad ∈ xs -> f bad = Err e -> mapM f xs = Err e.
Proof.
  induction 1 as [|x xs Hx _ IH]; intros Hin Hbad.
  - exfalso. exact (not_elem_of_nil _ Hin).
  - cbn [mapM]. destruct Hx as [(y & Hy)|Hx]; [|rewrite Hx; reflexivity].
    rewrite Hy. cbn [bind]. apply elem_of_cons in Hin as [->|Hin]; [congruence|].
    rewrite (IH Hin Hbad). reflexivity.
Qed.

Lemma pack_textures_length (aModel : Baked.BakedModel) :
  length (pack_textures aModel) = S (length (Baked.textures aModel)).
Proof. unfold pack_textures. rewrite length_app, length_imap. simpl. lia. Qed.

Lemma pack_textures_last (aModel : Baked.BakedModel) :
  last (pack_textures aModel) = Some DummyNormalMap.
Proof. unfold pack_textures. apply last_snoc. Qed.

Lemma pack_textures_lookup (aModel : Baked.BakedModel) (k : nat) :
  (k < length (Baked.textures aModel))%nat ->
  exists path format single, pack_textures aModel !! k = Some (FromFile path format single).
Proof.
  intros Hk. unfold pack_textures. rewrite lookup_app_l by (rewrite length_imap; exact Hk).
  rewrite list_lookup_imap.
  destruct (lookup_lt_is_Some_2 (Baked.textures aModel) k Hk) as (t & ->). cbn. eauto.
Qed.

Lemma mesh_upload_wf (materials : list Baked.BakedMaterialInfo) (b : Baked.BakedMeshData) :
  wf_baked_mesh materials b ->
  exists up, mesh_upload b = Ok up
             /\ length (vertexData up) = (12 * length (Baked.positions b))%nat
             /\ indexData up = Baked.indices b
             /\ indexCount up = Z.of_nat (length (Baked.indices b))
             /\ matID up = Baked.materialId b.
Proof.
  intros (_ & Hn & Ht & Hg & _ & Hi & _).
  destruct (vertex_data_prefix b (length (Baked.positions b)) Ht Hn Hg (le_n _))
    as (data & Hrun & Hlen & _).
  unfold mesh_upload, vertex_data. rewrite Hrun. cbn [bind]. eexists. split; [reflexivity|].
  cbn [vertexData indexData indexCount matID]. split; [exact Hlen|].
  split; [reflexivity|]. split; [|reflexivity]. apply uint32_small. lia.
Qed.

Lemma material_image_views_wf (aModel : Baked.BakedModel) (m : Baked.BakedMaterialInfo) :
  Z.of_nat (length (Baked.textures aModel)) < two32 ->
  wf_baked_material (Baked.textures aModel) m ->
  (Baked.normalMapTextureId m = 0xffffffff
   \/ Baked.normalMapTextureId m <= Z.of_nat (length (Baked.textures aModel)) ->
   exists v0 v1 v2 v3,
     material_image_views (pack_textures aModel) m = Ok (v0, v1, v2, v3)
     /\ v0 <> DummyNormalMap /\ v1 <> DummyNormalMap /\ v2 <> DummyNormalMap
     /\ (Baked.normalMapTextureId m = 0xffffffff -> v3 = DummyNormalMap)
     /\ (Baked.normalMapTextureId m < Z.of_nat (length (Baked.textures aModel)) ->
         v3 <> DummyNormalMap))
  /\ (Baked.normalMapTextureId m <> 0xffffffff ->
      Z.of_nat (length (Baked.textures aModel)) < Baked.normalMapTextureId m ->
      material_image_views (pack_textures aModel) m = Err OutOfRange).
Proof.
  intros Hnt (Ha & Hb & Hc & Hd & He). unfold material_image_views.
  assert (Hget : forall id, 0 <= id < Z.of_nat (length (Baked.textures aModel)) ->
            exists v, vget (pack_textures aModel) id = Ok v /\ v <> DummyNormalMap).
  { intros id Hid. destruct (pack_textures_lookup aModel (Z.to_nat id)) as (p & f & s & Hl); [lia|].
    eexists. split; [apply vget_Ok; split; [lia | exact Hl] | discriminate]. }
  destruct (Hget _ Ha) as (v0 & -> & N0). destruct (Hget _ Hb) as (v1 & -> & N1).
  destruct (Hget _ Hc) as (v2 & -> & N2). cbn [bind]. split.
  - intros Hnormal.
    destruct (Z.eqb_spec (Baked.normalMapTextureId m) 0xffffffff) as [Hs|Hs]; cbn [negb].
    + rewrite pack_textures_last. cbn [bind]. exists v0, v1, v2, DummyNormalMap.
      split; [reflexivity|]. split; [exact N0|]. split; [exact N1|]. split; [exact N2|].
      split; [reflexivity|]. intros Hlt. exfalso. rewrite Hs in Hlt.
      unfold two32 in Hnt. lia.
    + destruct Hnormal as [Hn|Hn]; [contradiction|].
      destruct (lookup_lt_is_Some_2 (pack_textures aModel)
                  (Z.to_nat (Baked.normalMapTextureId m))) as (v3 & Hv3).
      { rewrite pack_textures_length. lia. }
      assert (Hg3 : vget (pack_textures aModel) (Baked.normalMapTextureId m) = Ok v3).
      { apply vget_Ok. split; [lia | exact Hv3]. }
      rewrite Hg3. cbn [bind]. exists v0, v1, v2, v3.
      split; [reflexivity|]. split; [exact N0|]. split; [exact N1|]. split; [exact N2|].
      split; [intros; contradiction|]. intros Hlt.
      destruct (Hget _ (conj (proj1 He) Hlt)) as (v & Hv & Nv). congruence.
  - intros Hs Hbig. rewrite (proj2 (Z.eqb_neq _ _) Hs). cbn [negb].
    unfold vget at 1. destruct (Z.ltb_spec (Baked.normalMapTextureId m) 0); [reflexivity|].
    rewrite (proj2 (lookup_ge_None _ _)); [reflexivity|].
    rewrite pack_textures_length. lia.
Qed.

(** ** From the model to the screen *)

Lemma process_model_container (fs_stem fs_filename : string -> string)
    (fs_append : string -> string -> string) (gHash_ : Z -> Z) (cast_out_of_range : float -> Z)
    (tgen : list Z -> list float -> list float -> list float -> Z -> list float)
    (aOutput : string) (model : Bake.InputModel) :
  wf_input_model model -> tgen_per_normal tgen ->
  map_Forall (fun _ t => loadable_path t)
             (model_textures fs_stem fs_filename fs_append aOutput model) ->
  exists indexed ordered,
    wf_bake_input model indexed
      (model_textures fs_stem fs_filename fs_append aOutput model) ordered
    /\ process_model_ fs_stem fs_filename fs_append gHash_ cast_out_of_range tgen aOutput model
       = Ok (container_bytes model indexed
               (model_textures fs_stem fs_filename fs_append aOutput model) ordered).
Proof.
  intros (Vp & Vn & Vt & Hmeshes & Hnmesh & Hnmat & Hmats & Hsize) Htgen Hpaths.
  set (textures := model_textures fs_stem fs_filename fs_append aOutput model) in *.
  destruct (index_meshes_Ok gHash_ cast_out_of_range tgen model tolerance_1e5
              (fun _ mesh => wf_indexed_mesh mesh) (Bake.meshes model))
    as (indexed & Hindexed & HQ).
  { eapply Forall_impl; [exact Hmeshes|]. intros imesh (Hin & H32 & _). cbn beta.
    destruct (mesh_of_range_wf gHash_ cast_out_of_range tgen model tolerance_1e5
                Htgen Vp Vn Vt eq_refl imesh Hin H32) as (mesh & Hm & Hw & _).
    exists mesh. split; assumption. }
  destruct (model_textures_by_id fs_stem fs_filename fs_append aOutput model)
    as (ordered & Hby & _ & Hlen); [lia|]. fold textures in Hby.
  exists indexed, ordered.
  assert (Hwf : wf_bake_input model indexed textures ordered).
  { unfold wf_bake_input. split; [exact Hby|]. split; [|split; [lia|split; [|split]]].
    - destruct Hby as (Hperm & _). apply Forall_forall. intros [p t] Hin.
      rewrite Hperm in Hin. apply elem_of_map_to_list in Hin. exact (Hpaths p t Hin).
    - apply Forall_forall. intros mat Hmat.
      pose proof (proj1 (Forall_forall _ _) Hmats mat Hmat) as (Ha & Hb & Hc).
      assert (Hopt : forall p,
                p = Bake.baseColorTexturePath mat \/ p = Bake.roughnessTexturePath mat
                \/ p = Bake.metalnessTexturePath mat \/ p = Bake.alphaMaskTexturePath mat
                \/ p = Bake.normalMapTexturePath mat -> optional_texture textures p).
      { intros p Hp.
        exact (model_textures_optional fs_stem fs_filename fs_append aOutput model mat p Hmat Hp). }
      assert (Hreq : forall p, p <> EmptyString -> optional_texture textures p ->
                               required_texture textures p).
      { intros p Hp [He|Hs]; [contradiction | split; assumption]. }
      unfold wf_material. split; [apply Hreq; [exact Ha | apply Hopt; tauto]|].
      split; [apply Hreq; [exact Hb | apply Hopt; tauto]|].
      split; [apply Hreq; [exact Hc | apply Hopt; tauto]|].
      split; apply Hopt; tauto.
    - exact Hnmat.
    - split; [exact (Forall2_length _ _ _ HQ)|]. split; [exact Hnmesh|]. split.
      + eapply Forall_impl; [exact Hmeshes|]. intros imesh (_ & _ & Hmi). exact Hmi.
      + clear -HQ. induction HQ; constructor; assumption. }
  split; [exact Hwf|].
  unfold process_model_. fold (index_meshes_ gHash_ cast_out_of_range tgen model tolerance_1e5).
  unfold index_meshes_. rewrite Hindexed. cbn [bind]. fold textures.
  apply (write_model_data_container model indexed textures ordered Hwf).
Qed.

Lemma baked_mesh_wf (materials : list Baked.BakedMaterialInfo) (mm : Bake.InputMeshInfo)
    (im : IndexedMesh) :
  wf_indexed_mesh im -> 0 <= Bake.materialIndex mm < Z.of_nat (length materials) ->
  wf_baked_mesh materials (baked_mesh (mm, im)).
Proof.
  intros (Hn & Ht & Hg & Hv & Hi & Hix & _) Hm. unfold wf_baked_mesh, baked_mesh.
  cbn [fst snd Baked.materialId Baked.positions Baked.normals Baked.texcoords Baked.tangents
       Baked.indices]. tauto.
Qed.

(** X28. From the model to the descriptor sets: under the conditions under
    which the baker's container loads, [set_up_model] on the loaded model
    reads nothing out of bounds; it makes one upload per mesh, one texture
    per texture of the model followed by the dummy normal map, and one
    descriptor set per material, whose first three views are textures of
    the model and whose fourth view is the dummy normal map exactly when
    the material has no normal-map path. *)
Theorem set_up_model_baked (fs_stem fs_filename : string -> string)
    (fs_append : string -> string -> string) (gHash_ : Z -> Z) (cast_out_of_range : float -> Z)
    (tgen : list Z -> list float -> list float -> list float -> Z -> list float)
    (aOutput aModelPath : string) (model : Bake.InputModel) :
  wf_input_model model -> tgen_per_normal tgen ->
  map_Forall (fun _ t => loadable_path t)
             (model_textures fs_stem fs_filename fs_append aOutput model) ->
  exists bytes ret meshes matDescs,
    process_model_ fs_stem fs_filename fs_append gHash_ cast_out_of_range tgen aOutput model
    = Ok bytes
    /\ Baked.load_baked_model (Some bytes) aModelPath = Ok ret
    /\ set_up_model ret = Ok (meshes, pack_textures ret, matDescs)
    /\ length meshes = length (Bake.meshes model)
    /\ length (pack_textures ret) = S (distinct_textures (texture_uses model))
    /\ Forall2
         (fun mat views =>
            let '(v0, v1, v2, v3) := views in
            v0 <> DummyNormalMap /\ v1 <> DummyNormalMap /\ v2 <> DummyNormalMap
            /\ (v3 = DummyNormalMap <-> Bake.normalMapTexturePath mat = EmptyString))
         (Bake.materials model) matDescs.
Proof.
  intros Hmodel Htgen Hpaths.
  destruct (process_model_container fs_stem fs_filename fs_append gHash_ cast_out_of_range tgen
              aOutput model Hmodel Htgen Hpaths) as (indexed & ordered & Hwf & Hbytes).
  set (textures := model_textures fs_stem fs_filename fs_append aOutput model) in *.
  pose proof (load_container aModelPath model indexed textures ordered Hwf) as Hload.
  set (ret := baked_model (Baked.base_prefix aModelPath) path_with_terminator
                model indexed textures ordered) in *.
  destruct (model_textures_by_id fs_stem fs_filename fs_append aOutput model)
    as (ordered' & Hby' & Hdist' & _).
  { destruct Hmodel as (_ & _ & _ & _ & _ & _ & _ & Hsize). lia. }
  fold textures in Hby'.
  pose proof Hwf as (Hby & _ & Hn & Hmats & Hnm & Hlen & Hnmesh & Hmi & Himesh).
  assert (Hlo : length ordered = distinct_textures (texture_uses model)).
  { destruct Hby as (Hperm & _), Hby' as (Hperm' & _).
    rewrite (Permutation_length Hperm), <- (Permutation_length Hperm'). exact Hdist'. }
  assert (Hnt : length (Baked.textures ret) = length ordered) by apply length_map.
  (* the meshes *)
  destruct (mapM_all_Ok mesh_upload (Baked.meshes ret)) as (meshes & Hmeshes & Hups).
  { apply Forall_forall. intros b Hb. cbn [ret baked_model Baked.meshes] in Hb.
    apply list_elem_of_fmap in Hb as ([mm im] & -> & Hin).
    destruct (mesh_upload_wf (Baked.materials ret) (baked_mesh (mm, im))) as (up & Hup & _);
      [|eauto].
    apply baked_mesh_wf.
    - apply elem_of_zip_r in Hin. exact (proj1 (Forall_forall _ _) Himesh im Hin).
    - apply elem_of_zip_l in Hin. cbn [ret baked_model Baked.materials]. rewrite length_map.
      exact (proj1 (Forall_forall _ _) Hmi mm Hin). }
  (* the descriptor sets *)
  set (body := fun i => let! material := vget (Baked.materials ret) i in
                        material_image_views (pack_textures ret) material).
  assert (Hviews : forall mat, mat ∈ Bake.materials model ->
            exists v0 v1 v2 v3,
              material_image_views (pack_textures ret) (baked_material textures mat)
              = Ok (v0, v1, v2, v3)
              /\ v0 <> DummyNormalMap /\ v1 <> DummyNormalMap /\ v2 <> DummyNormalMap
              /\ (v3 = DummyNormalMap <-> Bake.normalMapTexturePath mat = EmptyString)).
  { intros mat Hmat.
    pose proof (proj1 (Forall_forall _ _) Hmats mat Hmat) as (Ha & Hb & Hc & Hd & He).
    pose proof (texture_id_required _ _ _ Hby Ha) as Ra.
    pose proof (texture_id_required _ _ _ Hby Hb) as Rb.
    pose proof (texture_id_required _ _ _ Hby Hc) as Rc.
    pose proof (texture_id_range _ _ _ Hby Hn Hd) as Rd.
    pose proof (texture_id_range _ _ _ Hby Hn He) as Re.
    assert (Hnormal : (Bake.normalMapTexturePath mat = EmptyString
                       /\ texture_id textures (Bake.normalMapTexturePath mat) = 0xffffffff)
                      \/ (Bake.normalMapTexturePath mat <> EmptyString
                          /\ texture_id textures (Bake.normalMapTexturePath mat)
                             < Z.of_nat (length ordered))).
    { destruct (decide (Bake.normalMapTexturePath mat = EmptyString)) as [E|E].
      - left. split; [exact E|]. unfold texture_id. rewrite E.
        rewrite bool_decide_eq_true_2 by reflexivity. reflexivity.
      - right. split; [exact E|].
        destruct He as [He|He]; [contradiction|].
        exact (proj2 (texture_id_required _ _ _ Hby (conj E He))). }
    destruct (material_image_views_wf ret (baked_material textures mat)) as (Hok & _).
    { rewrite Hnt. exact Hn. }
    { unfold wf_baked_material, baked_material. rewrite Hnt.
      cbn [Baked.baseColorTextureId Baked.roughnessTextureId Baked.metalnessTextureId
           Baked.alphaMaskTextureId Baked.normalMapTextureId]. tauto. }
    cbn [baked_material Baked.normalMapTextureId] in Hok. rewrite Hnt in Hok.
    destruct Hok as (v0 & v1 & v2 & v3 & Hv & N0 & N1 & N2 & Hdummy & Hreal).
    { destruct Hnormal as [(_ & E)|(_ & E)]; [left; exact E | right; lia]. }
    exists v0, v1, v2, v3. split; [exact Hv|]. split; [exact N0|]. split; [exact N1|].
    split; [exact N2|]. split.
    - intros Hv3. destruct Hnormal as [(E & _)|(_ & E)]; [exact E|].
      exfalso. exact (Hreal E Hv3).
    - intros E. destruct Hnormal as [(_ & E')|(E' & _)]; [exact (Hdummy E') | contradiction]. }
  assert (Hdescs : exists matDescs,
            mapM body (index_range (length (Baked.materials ret))) = Ok matDescs
            /\ Forall2
                 (fun mat views =>
                    let '(v0, v1, v2, v3) := views in
                    v0 <> DummyNormalMap /\ v1 <> DummyNormalMap /\ v2 <> DummyNormalMap
                    /\ (v3 = DummyNormalMap <-> Bake.normalMapTexturePath mat = EmptyString))
                 (Bake.materials model) matDescs).
  { cbn [ret baked_model Baked.materials]. rewrite length_map.
    assert (Hgen : forall (mats : list Bake.InputMaterialInfo) (k : nat),
              (forall j mat, mats !! j = Some mat ->
                 Bake.materials model !! (k + j)%nat = Some mat) ->
              exists matDescs,
                mapM body (map Z.of_nat (seq k (length mats))) = Ok matDescs
                /\ Forall2
                     (fun mat views =>
                        let '(v0, v1, v2, v3) := views in
                        v0 <> DummyNormalMap /\ v1 <> DummyNormalMap /\ v2 <> DummyNormalMap
                        /\ (v3 = DummyNormalMap
                            <-> Bake.normalMapTexturePath mat = EmptyString))
                     mats matDescs).
    { induction mats as [|mat mats IH]; intros k Hsub.
      - exists []. split; [reflexivity | constructor].
      - cbn [length seq map mapM].
        pose proof (Hsub O mat eq_refl) as Hk. rewrite Nat.add_0_r in Hk.
        assert (Hb : body (Z.of_nat k)
                     = material_image_views (pack_textures ret) (baked_material textures mat)).
        { unfold body. rewrite vget_of_nat. cbn [ret baked_model Baked.materials].
          rewrite list_lookup_fmap, Hk. reflexivity. }
        destruct (Hviews mat) as (v0 & v1 & v2 & v3 & Hv & Hfacts).
        { apply list_elem_of_lookup. eauto. }
        rewrite Hb, Hv. cbn [bind].
        destruct (IH (S k)) as (descs & Hd & Hd2).
        { intros j mat' Hj. replace (S k + j)%nat with (k + S j)%nat by lia.
          exact (Hsub (S j) mat' Hj). }
        rewrite Hd. cbn [bind]. eexists. split; [reflexivity|].
        constructor; [exact Hfacts | exact Hd2]. }
    apply (Hgen (Bake.materials model) O). intros j mat Hj. exact Hj. }
  destruct Hdescs as (matDescs & Hd & Hd2).
  exists (container_bytes model indexed textures ordered), ret, meshes, matDescs.
  split; [exact Hbytes|]. split.
  { unfold Baked.load_baked_model. rewrite Hload. reflexivity. }
  split.
  { unfold set_up_model. rewrite Hmeshes. cbn [bind].
    rewrite uint32_small.
    2:{ cbn [ret baked_model Baked.materials]. rewrite length_map. lia. }
    rewrite Nat2Z.id. fold body. rewrite Hd. reflexivity. }
  split.
  { rewrite <- (Forall2_length _ _ _ Hups). cbn [ret baked_model Baked.meshes].
    rewrite length_map, length_zip_with. lia. }
  split; [rewrite pack_textures_length, Hnt, Hlo; reflexivity | exact Hd2].
Qed.

Lemma set_up_model_baked_witness :
  exists bytes ret meshes matDescs,
    process_model_ posix_stem posix_filename posix_append std_hash cast_zero flat_tangents
      "out/tiny.comp5822mesh" triangle_model
    = Ok bytes
    /\ Baked.load_baked_model (Some bytes) "assets/tiny.comp5822mesh" = Ok ret
    /\ set_up_model ret = Ok (meshes, pack_textures ret, matDescs)
    /\ length meshes = length (Bake.meshes triangle_model)
    /\ length (pack_textures ret) = S (distinct_textures (texture_uses triangle_model))
    /\ Forall2
         (fun mat views =>
            let '(v0, v1, v2, v3) := views in
            v0 <> DummyNormalMap /\ v1 <> DummyNormalMap /\ v2 <> DummyNormalMap
            /\ (v3 = DummyNormalMap <-> Bake.normalMapTexturePath mat = EmptyString))
         (Bake.materials triangle_model) matDescs.
Proof.
  exact (set_up_model_baked posix_stem posix_filename posix_append std_hash cast_zero
           flat_tangents "out/tiny.comp5822mesh" "assets/tiny.comp5822mesh" triangle_model
           triangle_model_wf flat_tangents_per_normal triangle_model_paths).
Defined.

(** ** The meshes that [load_wavefront_obj] makes *)

Lemma extract_fold (aResult : Obj.Result) (shape : Obj.Shape) (matId : Z) (ixs : list Z)
    (ret ret' : Bake.InputModel) :
  Forall (fun i => 0 <= i) ixs ->
  foldM
    (fun (ret : Bake.InputModel) i =>
       let faceId := i / 3 in
       let! m := vget (Obj.material_ids shape) faceId in
       let faceMat := size_of_int m in
       if negb (faceMat =? matId) then Ok ret
       else
         let! idx := vget (Obj.indices shape) i in
         let! v := corner_vertex aResult idx in
         let '(p, t, n) := v in
         Ok {| Bake.modelSourcePath := Bake.modelSourcePath ret;
               Bake.materials := Bake.materials ret;
               Bake.meshes := Bake.meshes ret;
               Bake.positions := Bake.positions ret ++ [p];
               Bake.normals := Bake.normals ret ++ [n];
               Bake.texcoords := Bake.texcoords ret ++ [t] |})
    ixs ret = Ok ret' ->
  Bake.meshes ret' = Bake.meshes ret
  /\ Bake.materials ret' = Bake.materials ret
  /\ Bake.modelSourcePath ret' = Bake.modelSourcePath ret
  /\ exists n : nat,
       n = length (filter (fun i => face_material shape i = Some matId) ixs)
       /\ length (Bake.positions ret') = (length (Bake.positions ret) + n)%nat
       /\ length (Bake.texcoords ret') = (length (Bake.texcoords ret) + n)%nat
       /\ length (Bake.normals ret') = (length (Bake.normals ret) + n)%nat.
Proof.
  intros Hpos. revert ret. induction Hpos as [|i ixs Hi _ IH]; intros ret H.
  - injection H as <-. repeat split; try reflexivity. exists O. cbn. repeat split; lia.
  - cbn [foldM] in H. apply bind_Ok in H as (ret1 & Hstep & H).
    destruct (IH ret1 H) as (Hm & Hmat & Hsrc & n & Hn & Hp & Ht & Hnn). clear IH H.
    apply bind_Ok in Hstep as (m & Hget & Hstep).
    apply vget_Ok in Hget as (Hface & Hget).
    assert (Hfm : face_material shape i = Some (size_of_int m)).
    { unfold face_material. rewrite Hget. reflexivity. }
    rewrite filter_cons.
    destruct (Z.eqb_spec (size_of_int m) matId) as [Heq|Hne]; cbn [negb] in Hstep.
    + apply bind_Ok in Hstep as (idx & _ & Hstep).
      apply bind_Ok in Hstep as ([[p t] nn] & _ & Hstep). injection Hstep as <-.
      cbn [Bake.meshes Bake.materials Bake.modelSourcePath Bake.positions Bake.texcoords
           Bake.normals] in *.
      rewrite length_app in Hp, Ht, Hnn. cbn [length] in Hp, Ht, Hnn.
      split; [exact Hm|]. split; [exact Hmat|]. split; [exact Hsrc|].
      rewrite decide_True by (rewrite Hfm, Heq; reflexivity).
      exists (S n). cbn [length]. repeat split; lia.
    + injection Hstep as <-.
      split; [exact Hm|]. split; [exact Hmat|]. split; [exact Hsrc|].
      rewrite decide_False by (rewrite Hfm; congruence).
      exists n. repeat split; assumption.
Qed.

Lemma extract_material_spec (aResult : Obj.Result) (shape : Obj.Shape) (matId : Z)
    (ret ret' : Bake.InputModel) :
  extract_material aResult shape matId ret = Ok ret' ->
  Bake.meshes ret' = Bake.meshes ret
  /\ Bake.materials ret' = Bake.materials ret
  /\ Bake.modelSourcePath ret' = Bake.modelSourcePath ret
  /\ length (Bake.positions ret')
     = (length (Bake.positions ret) + corner_count shape matId)%nat
  /\ length (Bake.texcoords ret')
     = (length (Bake.texcoords ret) + corner_count shape matId)%nat
  /\ length (Bake.normals ret')
     = (length (Bake.normals ret) + corner_count shape matId)%nat.
Proof.
  intros H. unfold extract_material in H. apply extract_fold in H.
  - destruct H as (Hm & Hmat & Hsrc & n & -> & Hp & Ht & Hn). unfold corner_count. tauto.
  - apply Forall_forall. intros i Hi. apply elem_of_index_range in Hi. lia.
Qed.

Lemma consecutive_snoc (start : Z) (meshes : list Bake.InputMeshInfo) (imesh : Bake.InputMeshInfo) :
  consecutive start meshes ->
  Bake.vertexStartIndex imesh = start + total_vertices meshes ->
  0 <= Bake.vertexCount imesh ->
  consecutive start (meshes ++ [imesh])
  /\ total_vertices (meshes ++ [imesh]) = total_vertices meshes + Bake.vertexCount imesh.
Proof.
  revert start. induction meshes as [|m ms IH]; intros start Hc Hs Hn.
  - cbn in *. split; [split; [lia | split; [lia | exact I]] | lia].
  - cbn [consecutive app total_vertices fold_right] in *. destruct Hc as (Hm & Hm0 & Hc).
    destruct (IH _ Hc) as (IH1 & IH2); [fold (total_vertices ms) in Hs; lia | exact Hn |].
    fold (total_vertices ms). fold (total_vertices (ms ++ [imesh])).
    split; [split; [exact Hm | split; [exact Hm0 | exact IH1]] | lia].
Qed.

Lemma consecutive_in_range (start : Z) (meshes : list Bake.InputMeshInfo) :
  consecutive start meshes -> 0 <= start ->
  Forall (fun imesh => 0 <= Bake.vertexStartIndex imesh /\ 0 <= Bake.vertexCount imesh
                       /\ Bake.vertexStartIndex imesh + Bake.vertexCount imesh
                          <= start + total_vertices meshes) meshes
  /\ 0 <= total_vertices meshes.
Proof.
  revert start. induction meshes as [|m ms IH]; intros start Hc Hs.
  - split; [constructor | reflexivity].
  - cbn [consecutive total_vertices fold_right] in *. fold (total_vertices ms).
    destruct Hc as (Hm & Hm0 & Hc). destruct (IH _ Hc) as (IH1 & IH2); [lia|].
    split; [|lia]. constructor; [lia|].
    eapply Forall_impl; [exact IH1|]. cbn beta. intros x Hx. lia.
Qed.


Lemma shape_fold (aResult : Obj.Result) (shape : Obj.Shape) (activeMaterials ms : list Z)
    (ret ret' : Bake.InputModel) :
  foldM
    (fun (ret : Bake.InputModel) matId =>
       let! meshName :=
         if (1 =? Z.of_nat (length activeMaterials)) then Ok (Obj.shape_name shape)
         else
           let! mat := vget (Bake.materials ret) matId in
           Ok (String.append (Obj.shape_name shape)
                 (String.append "::" (Bake.materialName mat))) in
       let firstVertex := Z.of_nat (length (Bake.positions ret)) in
       let! ret := extract_material aResult shape matId ret in
       let vertexCount := Z.of_nat (length (Bake.positions ret)) - firstVertex in
       Ok {| Bake.modelSourcePath := Bake.modelSourcePath ret;
             Bake.materials := Bake.materials ret;
             Bake.meshes := Bake.meshes ret
                            ++ [ {| Bake.meshName := meshName;
                                    Bake.materialIndex := matId;
                                    Bake.vertexStartIndex := firstVertex;
                                    Bake.vertexCount := vertexCount |} ];
             Bake.positions := Bake.positions ret;
             Bake.normals := Bake.normals ret;
             Bake.texcoords := Bake.texcoords ret |})
    ms ret = Ok ret' ->
  tiled ret ->
  tiled ret'
  /\ Bake.materials ret' = Bake.materials ret
  /\ Bake.modelSourcePath ret' = Bake.modelSourcePath ret
  /\ length (Bake.positions ret')
     = (length (Bake.positions ret) + list_sum (map (corner_count shape) ms))%nat
  /\ exists new,
       Bake.meshes ret' = Bake.meshes ret ++ new
       /\ Forall2 (fun m imesh => Bake.materialIndex imesh = m
                                  /\ Bake.vertexCount imesh = Z.of_nat (corner_count shape m))
                  ms new.
Proof.
  revert ret. induction ms as [|m ms IH]; intros ret H Htiled.
  - injection H as <-. split; [exact Htiled|]. split; [reflexivity|]. split; [reflexivity|].
    split; [cbn; lia|]. exists []. split; [rewrite app_nil_r; reflexivity | constructor].
  - cbn [foldM] in H. apply bind_Ok in H as (ret1 & Hstep & H).
    apply bind_Ok in Hstep as (meshName & _ & Hstep).
    apply bind_Ok in Hstep as (ret0 & Hex & Hstep). injection Hstep as <-.
    destruct (extract_material_spec _ _ _ _ _ Hex) as (Em & Emat & Esrc & Ep & Et & En).
    destruct Htiled as (T1 & T2 & T3 & T4).
    destruct (consecutive_snoc 0 (Bake.meshes ret)
                {| Bake.meshName := meshName; Bake.materialIndex := m;
                   Bake.vertexStartIndex := Z.of_nat (length (Bake.positions ret));
                   Bake.vertexCount := Z.of_nat (length (Bake.positions ret0))
                                       - Z.of_nat (length (Bake.positions ret)) |} T3)
      as (C1 & C2); [cbn; lia | cbn; lia |].
    cbn [Bake.vertexCount] in C2.
    match type of H with foldM _ _ ?r = _ => set (ret1 := r) in * end.
    destruct (IH ret1 H) as (T' & Hmat & Hsrc & Hp & new & Hnew & Hall).
    { unfold tiled. subst ret1.
      cbn [Bake.texcoords Bake.positions Bake.normals Bake.meshes]. rewrite Em.
      split; [lia|]. split; [lia|]. split; [exact C1|]. rewrite C2. lia. }
    subst ret1. cbn [Bake.materials Bake.modelSourcePath Bake.positions Bake.meshes] in *.
    split; [exact T'|]. split; [congruence|]. split; [congruence|].
    split; [cbn [map list_sum fold_right]; fold (list_sum (map (corner_count shape) ms)); lia|].
    eexists (_ :: new). split.
    + rewrite Hnew, Em, <- app_assoc. reflexivity.
    + constructor; [|exact Hall]. cbn [Bake.materialIndex Bake.vertexCount].
      split; [reflexivity | lia].
Qed.

Lemma scan_materials_keys (materialCount : nat) (shape : Obj.Shape) (keys : list Z) :
  scan_materials materialCount shape = Ok keys ->
  (forall i, i ∈ index_range (length (Obj.indices shape)) ->
     exists k, face_material shape i = Some k /\ k ∈ keys)
  /\ (forall k, k ∈ keys ->
        exists i, i ∈ index_range (length (Obj.indices shape)) /\ face_material shape i = Some k).
Proof.
  unfold scan_materials. generalize (index_range (length (Obj.indices shape))) as l.
  intros l. revert keys. induction l as [|i l IH]; intros keys H.
  - injection H as <-. split; intros x Hx; exfalso; exact (not_elem_of_nil _ Hx).
  - cbn [mapM] in H. apply bind_Ok in H as (k & Hk & H).
    apply bind_Ok in H as (keys' & Hkeys & H). injection H as <-.
    destruct (IH keys' Hkeys) as (IH1 & IH2).
    apply bind_Ok in Hk as (u & _ & Hk). apply bind_Ok in Hk as (m & Hget & Hk).
    apply bind_Ok in Hk as (u' & _ & Hk). injection Hk as <-.
    apply vget_Ok in Hget as (_ & Hget).
    assert (Hfm : face_material shape i = Some (size_of_int m)).
    { unfold face_material. rewrite Hget. reflexivity. }
    split.
    + intros j Hj. apply elem_of_cons in Hj as [->|Hj].
      * exists (size_of_int m). split; [exact Hfm | apply list_elem_of_here].
      * destruct (IH1 j Hj) as (k & Hk1 & Hk2). exists k.
        split; [exact Hk1 | apply list_elem_of_further, Hk2].
    + intros k Hk. apply elem_of_cons in Hk as [->|Hk].
      * exists i. split; [apply list_elem_of_here | exact Hfm].
      * destruct (IH2 k Hk) as (j & Hj1 & Hj2). exists j.
        split; [apply list_elem_of_further, Hj1 | exact Hj2].
Qed.

Lemma list_sum_cons (a : nat) (l : list nat) : list_sum (a :: l) = (a + list_sum l)%nat.
Proof. reflexivity. Qed.

Lemma count_partition {X} (g : X -> option Z) (l : list Z) (xs : list X) :
  NoDup l -> (forall x, x ∈ xs -> exists a, g x = Some a /\ a ∈ l) ->
  list_sum (map (fun a => length (filter (fun x => g x = Some a) xs)) l) = length xs.
Proof.
  intros Hnd. induction xs as [|x xs IH]; intros Hall.
  - clear Hnd Hall. induction l as [|a l IHl]; [reflexivity|].
    change (length (filter (fun x => g x = Some a) [])
            + list_sum (map (fun a => length (filter (fun x => g x = Some a) [])) l)
            = length (@nil X))%nat.
    rewrite IHl. reflexivity.
  - destruct (Hall x (list_elem_of_here _ _)) as (a & Ha & Hin).
    change (length (x :: xs)) with (S (length xs)).
    rewrite <- IH by (intros y Hy; apply Hall, list_elem_of_further, Hy).
    clear IH Hall.
    induction Hnd as [|b l Hb Hnd IHl]; [exfalso; exact (not_elem_of_nil _ Hin)|].
    cbn [map]. rewrite !list_sum_cons. rewrite filter_cons.
    destruct (decide (a = b)) as [<-|Hne].
    + rewrite decide_True by exact Ha. cbn [length].
      assert (Hrest : map (fun a0 => length (filter (fun x0 => g x0 = Some a0) (x :: xs))) l
                      = map (fun a0 => length (filter (fun x0 => g x0 = Some a0) xs)) l).
      { apply map_ext_in. intros c Hc. rewrite filter_cons.
        rewrite decide_False; [reflexivity|]. rewrite Ha. intros [= <-].
        apply Hb. apply list_elem_of_In. exact Hc. }
      rewrite Hrest. lia.
    + rewrite decide_False by (rewrite Ha; congruence).
      apply elem_of_cons in Hin as [Heq|Hin]; [contradiction|].
      specialize (IHl Hin). lia.
Qed.

Section LoadObjFacts.

Variable set_order : list Z -> list Z.
Variable aResult : Obj.Result.

Lemma process_shape_spec (ret ret' : Bake.InputModel) (shape : Obj.Shape) :
  process_shape set_order aResult ret shape = Ok ret' -> tiled ret ->
  tiled ret'
  /\ Bake.materials ret' = Bake.materials ret
  /\ Bake.modelSourcePath ret' = Bake.modelSourcePath ret
  /\ exists keys new,
       scan_materials (length (Bake.materials ret)) shape = Ok keys
       /\ length (Bake.positions ret')
          = (length (Bake.positions ret)
             + list_sum (map (corner_count shape) (set_order keys)))%nat
       /\ Bake.meshes ret' = Bake.meshes ret ++ new
       /\ Forall2 (fun m imesh => Bake.materialIndex imesh = m
                                  /\ Bake.vertexCount imesh = Z.of_nat (corner_count shape m))
                  (set_order keys) new.
Proof.
  intros H Htiled. unfold process_shape in H. apply bind_Ok in H as (keys & Hkeys & H).
  destruct (shape_fold aResult shape (set_order keys) (set_order keys) ret ret' H Htiled)
    as (T & Hmat & Hsrc & Hp & new & Hnew & Hall).
  split; [exact T|]. split; [exact Hmat|]. split; [exact Hsrc|].
  exists keys, new. tauto.
Qed.

Lemma shape_corners (materialCount : nat) (shape : Obj.Shape) (keys : list Z) :
  set_order_ok set_order ->
  scan_materials materialCount shape = Ok keys ->
  list_sum (map (corner_count shape) (set_order keys)) = length (Obj.indices shape)
  /\ Forall (fun m => (0 < corner_count shape m)%nat) (set_order keys).
Proof.
  intros Hord Hkeys. destruct (Hord keys) as (Hnd & Hmem).
  destruct (scan_materials_keys _ _ _ Hkeys) as (Hall & Hsome). split.
  - unfold corner_count.
    rewrite (count_partition (face_material shape) (set_order keys)
               (index_range (length (Obj.indices shape))) Hnd).
    + apply index_range_length.
    + intros i Hi. destruct (Hall i Hi) as (k & Hk & Hin). exists k.
      split; [exact Hk | apply Hmem, Hin].
  - apply Forall_forall. intros m Hm. apply Hmem in Hm.
    destruct (Hsome m Hm) as (i & Hi & Hfm). unfold corner_count.
    assert (Hin : i ∈ filter (fun i => face_material shape i = Some m)
                         (index_range (length (Obj.indices shape)))).
    { apply list_elem_of_filter. split; assumption. }
    destruct (filter _ _) as [|x xs]; [exfalso; exact (not_elem_of_nil _ Hin) | simpl; lia].
Qed.

End LoadObjFacts.

Lemma load_fold (set_order : list Z -> list Z) (aResult : Obj.Result)
    (shapes : list Obj.Shape) (ret ret' : Bake.InputModel) :
  foldM (process_shape set_order aResult) shapes ret = Ok ret' -> tiled ret ->
  tiled ret'
  /\ Bake.materials ret' = Bake.materials ret
  /\ Bake.modelSourcePath ret' = Bake.modelSourcePath ret
  /\ (set_order_ok set_order ->
      length (Bake.positions ret')
      = (length (Bake.positions ret)
         + list_sum (map (fun shape => length (Obj.indices shape)) shapes))%nat
      /\ exists new,
           Bake.meshes ret' = Bake.meshes ret ++ new
           /\ Forall (fun imesh =>
                        0 < Bake.vertexCount imesh
                        /\ exists shape, shape ∈ shapes
                             /\ Bake.vertexCount imesh
                                = Z.of_nat (corner_count shape (Bake.materialIndex imesh)))
                     new).
Proof.
  revert ret. induction shapes as [|shape shapes IH]; intros ret H Htiled.
  - injection H as <-. split; [exact Htiled|]. split; [reflexivity|]. split; [reflexivity|].
    intros _. split; [cbn; lia|]. exists []. split; [rewrite app_nil_r; reflexivity | constructor].
  - cbn [foldM] in H. apply bind_Ok in H as (ret1 & Hshape & H).
    destruct (process_shape_spec set_order aResult ret ret1 shape Hshape Htiled)
      as (T1 & M1 & S1 & keys & new1 & Hkeys & Hp1 & Hm1 & Hall1).
    destruct (IH ret1 H T1) as (T' & M' & S' & Hcount).
    split; [exact T'|]. split; [congruence|]. split; [congruence|].
    intros Hord. destruct (Hcount Hord) as (Hp' & new & Hnew & Hall).
    destruct (shape_corners set_order _ shape keys Hord Hkeys) as (Hsum & Hposs).
    split; [cbn [map]; rewrite list_sum_cons; lia|].
    exists (new1 ++ new). split; [rewrite Hnew, Hm1, <- app_assoc; reflexivity|].
    apply Forall_app. split.
    + clear -Hall1 Hposs. induction Hall1 as [|m imesh ms new1 (Hmi & Hvc) _ IH]; [constructor|].
      inversion Hposs as [|? ? Hm Hms]; subst. constructor; [|exact (IH Hms)].
      split; [lia|]. exists shape. split; [apply list_elem_of_here | exact Hvc].
    + eapply Forall_impl; [exact Hall|]. cbn beta. intros imesh (Hpos & sh & Hsh & Hvc).
      split; [exact Hpos|]. exists sh. split; [apply list_elem_of_further, Hsh | exact Hvc].
Qed.

Lemma tiled_empty (aPath : string) (materials : list Bake.InputMaterialInfo) :
  tiled {| Bake.modelSourcePath := aPath; Bake.materials := materials; Bake.meshes := [];
           Bake.positions := []; Bake.normals := []; Bake.texcoords := [] |}.
Proof. unfold tiled. cbn. tauto. Qed.

(** X29. The meshes that [load_wavefront_obj] makes divide the vertex
    arrays among themselves: the three arrays of the model have one length,
    the first mesh starts at vertex 0, every mesh starts where the one
    before it ends, and the last one ends at the end of the arrays. So the
    vertex range of every mesh lies within the arrays, as [index_meshes_]
    takes for granted. *)
Theorem obj_meshes_tile (set_order : list Z -> list Z) (aPath : string)
    (aResult : Obj.Result) (model : Bake.InputModel) :
  load_wavefront_obj set_order aPath aResult = Ok model ->
  length (Bake.texcoords model) = length (Bake.positions model)
  /\ length (Bake.normals model) = length (Bake.positions model)
  /\ consecutive 0 (Bake.meshes model)
  /\ total_vertices (Bake.meshes model) = Z.of_nat (length (Bake.positions model))
  /\ (Z.of_nat (length (Bake.positions model)) < two64 ->
      Forall (mesh_in_range model) (Bake.meshes model))
  /\ length (Bake.materials model) = length (Obj.materials aResult)
  /\ Bake.modelSourcePath model = aPath.
Proof.
  intros H. unfold load_wavefront_obj in H.
  destruct (load_fold _ _ _ _ _ H (tiled_empty _ _)) as ((T1 & T2 & T3 & T4) & Hmat & Hsrc & _).
  cbn [Bake.materials Bake.modelSourcePath] in Hmat, Hsrc.
  split; [exact T1|]. split; [exact T2|]. split; [exact T3|]. split; [exact T4|].
  split; [|split; [rewrite Hmat; apply length_map | exact Hsrc]].
  intros H64. destruct (consecutive_in_range 0 _ T3 (Z.le_refl 0)) as (Hall & _).
  eapply Forall_impl; [exact Hall|]. cbn beta. intros imesh (Hs & Hc & Hend).
  unfold mesh_in_range. rewrite T1, T2. lia.
Qed.

(** X30. No face corner is lost and none is taken twice: when a set is
    iterated key by key, each key once, the model that [load_wavefront_obj]
    returns has as many vertices as the shapes of the file have indices
    together; every mesh has at least one vertex, and holds as many
    vertices as some shape has face corners with the material of the
    mesh. *)
Theorem obj_every_corner_once (set_order : list Z -> list Z) (aPath : string)
    (aResult : Obj.Result) (model : Bake.InputModel) :
  set_order_ok set_order ->
  load_wavefront_obj set_order aPath aResult = Ok model ->
  length (Bake.positions model)
  = list_sum (map (fun shape => length (Obj.indices shape)) (Obj.shapes aResult))
  /\ Forall (fun imesh =>
               0 < Bake.vertexCount imesh
               /\ exists shape, shape ∈ Obj.shapes aResult
                    /\ Bake.vertexCount imesh
                       = Z.of_nat (corner_count shape (Bake.materialIndex imesh)))
            (Bake.meshes model).
Proof.
  intros Hord H. unfold load_wavefront_obj in H.
  destruct (load_fold _ _ _ _ _ H (tiled_empty _ _)) as (_ & _ & _ & Hcount).
  destruct (Hcount Hord) as (Hp & new & Hnew & Hall).
  cbn [Bake.positions Bake.meshes length app] in Hp, Hnew.
  split; [exact Hp|]. rewrite Hnew. exact Hall.
Qed.

Lemma first_come_order_ok : set_order_ok first_come_order.
Proof.
  intros keys. unfold first_come_order. split.
  - rewrite reverse_Permutation. apply NoDup_remove_dups.
  - intros k. rewrite elem_of_reverse, elem_of_remove_dups, elem_of_reverse. reflexivity.
Qed.

Lemma obj_meshes_tile_witness :
  exists model,
    length (Bake.texcoords model) = length (Bake.positions model)
    /\ length (Bake.normals model) = length (Bake.positions model)
    /\ consecutive 0 (Bake.meshes model)
    /\ total_vertices (Bake.meshes model) = Z.of_nat (length (Bake.positions model))
    /\ (Z.of_nat (length (Bake.positions model)) < two64 ->
        Forall (mesh_in_range model) (Bake.meshes model))
    /\ length (Bake.materials model) = length (Obj.materials square_obj)
    /\ Bake.modelSourcePath model = "models/square.obj"%string.
Proof.
  eexists. apply (obj_meshes_tile first_come_order "models/square.obj" square_obj).
  vm_compute. reflexivity.
Defined.

Lemma obj_every_corner_once_witness :
  exists model,
    length (Bake.positions model)
    = list_sum (map (fun shape => length (Obj.indices shape)) (Obj.shapes square_obj))
    /\ Forall (fun imesh =>
                 0 < Bake.vertexCount imesh
                 /\ exists shape, shape ∈ Obj.shapes square_obj
                      /\ Bake.vertexCount imesh
                         = Z.of_nat (corner_count shape (Bake.materialIndex imesh)))
              (Bake.meshes model).
Proof.
  eexists.
  apply (obj_every_corner_once first_come_order "models/square.obj" square_obj _
           first_come_order_ok).
  vm_compute. reflexivity.
Defined.

(** ** The loader of either build *)

(** [Baked] is the loader of the build with assertions. *)
Lemma assertion_build (aFin : list byte) (aInputName : string) :
  BakedBuild.read_model false aInputName aFin = Baked.read_model aInputName aFin
  /\ BakedBuild.load_baked_model_ false aFin aInputName
     = Baked.load_baked_model_ aFin aInputName
  /\ BakedBuild.load_baked_model false (Some aFin) aInputName
     = Baked.load_baked_model (Some aFin) aInputName.
Proof. split; [|split]; reflexivity. Qed.

Lemma framed_build_assert (ndebug b : bool) : framed (BakedBuild.r_assert ndebug b).
Proof. destruct ndebug; [apply framed_ret | apply framed_assert]. Qed.

Lemma framed_build_material (ndebug : bool) (textures : list Baked.BakedTextureInfo) :
  framed (BakedBuild.read_material ndebug textures).
Proof.
  unfold BakedBuild.read_material.
  repeat (apply framed_bind;
          [first [apply framed_read_uint32 | apply framed_build_assert]|intros ?]).
  apply framed_ret.
Qed.

Lemma framed_build_mesh (ndebug : bool) (materials : list Baked.BakedMaterialInfo) :
  framed (BakedBuild.read_mesh ndebug materials).
Proof.
  unfold BakedBuild.read_mesh.
  repeat (apply framed_bind;
          [first [apply framed_read_uint32 | apply framed_build_assert
                 | apply framed_checked_read]
          |intros ?]).
  apply framed_ret.
Qed.

Lemma framed_build_model (ndebug : bool) (aInputName : string) :
  framed (BakedBuild.read_model ndebug aInputName).
Proof.
  unfold BakedBuild.read_model.
  apply framed_bind; [apply framed_checked_read | intros magic].
  apply framed_if; [apply framed_throw|].
  apply framed_bind; [apply framed_checked_read | intros variant].
  apply framed_if; [apply framed_throw|].
  apply framed_bind; [apply framed_read_uint32 | intros textureCount].
  apply framed_bind; [apply framed_read_n; intros; apply framed_read_texture | intros textures].
  apply framed_bind; [apply framed_read_uint32 | intros materialCount].
  apply framed_bind;
    [apply framed_read_n; intros; apply framed_build_material | intros materials].
  apply framed_bind; [apply framed_read_uint32 | intros meshCount].
  apply framed_bind; [apply framed_read_n; intros; apply framed_build_mesh | intros meshes].
  apply framed_ret.
Qed.

(** The errors of the readers. *)
Lemma throws_bind {A B} (P : Baked.load_error -> Prop) (p : Baked.reader A)
    (k : A -> Baked.reader B) :
  throws P p -> (forall a, throws P (k a)) -> throws P (Baked.rbind p k).
Proof.
  intros Hp Hk fin e H. unfold Baked.rbind in H.
  destruct (p fin) as [[a mid]|e'] eqn:Hpf.
  - exact (Hk a mid e H).
  - injection H as <-. exact (Hp fin e' Hpf).
Qed.

Lemma throws_ret {A} (P : Baked.load_error -> Prop) (a : A) : throws P (Baked.rret a).
Proof. intros fin e [=]. Qed.

Lemma throws_if {A} (P : Baked.load_error -> Prop) (b : bool) (p q : Baked.reader A) :
  throws P p -> throws P q -> throws P (if b then p else q).
Proof. destruct b; auto. Qed.

Lemma throws_read_n {A} (P : Baked.load_error -> Prop) (body : list A -> Baked.reader A)
    (n : nat) :
  (forall acc, throws P (body acc)) -> forall acc, throws P (Baked.read_n n body acc).
Proof.
  intros Hbody. induction n as [|n IH]; intros acc; simpl.
  - apply throws_ret.
  - apply throws_bind; [apply Hbody | intros a; apply IH].
Qed.

Section BuildErrors.

Variable ndebug : bool.
Variable P : Baked.load_error -> Prop.

Hypothesis Pshort : forall expected got, P (Baked.ShortRead expected got).
Hypothesis Plong : forall length, P (Baked.StringTooLong length).
Hypothesis Passert : ndebug = false -> P Baked.LoadAssertFailed.

Lemma throws_checked_read (n : Z) : throws P (Baked.checked_read_ n).
Proof. intros fin e H. apply checked_read_Err in H as (x & y & ->). apply Pshort. Qed.

Lemma throws_read_uint32 : throws P Baked.read_uint32_.
Proof. apply throws_bind; [apply throws_checked_read | intros; apply throws_ret]. Qed.

Lemma throws_read_texture (prefix : string) : throws P (Baked.read_texture prefix).
Proof.
  apply throws_bind; [|intros s; apply throws_bind;
                               [apply throws_checked_read | intros; apply throws_ret]].
  apply throws_bind; [apply throws_read_uint32 | intros len].
  apply throws_if.
  - intros fin e [= <-]. apply Plong.
  - apply throws_bind; [apply throws_checked_read | intros; apply throws_ret].
Qed.

Lemma throws_build_assert (b : bool) : throws P (BakedBuild.r_assert ndebug b).
Proof.
  unfold BakedBuild.r_assert. destruct ndebug eqn:Hn; [apply throws_ret|].
  destruct b; [apply throws_ret|]. intros fin e [= <-]. apply Passert. reflexivity.
Qed.

Lemma throws_build_tables (prefix : string) :
  throws P
    (Baked.rbind Baked.read_uint32_ (fun textureCount =>
     Baked.rbind (Baked.read_n (Z.to_nat textureCount)
                    (fun _ => Baked.read_texture prefix) []) (fun textures =>
     Baked.rbind Baked.read_uint32_ (fun materialCount =>
     Baked.rbind (Baked.read_n (Z.to_nat materialCount)
                    (fun _ => BakedBuild.read_material ndebug textures) []) (fun materials =>
     Baked.rbind Baked.read_uint32_ (fun meshCount =>
     Baked.rbind (Baked.read_n (Z.to_nat meshCount)
                    (fun _ => BakedBuild.read_mesh ndebug materials) []) (fun meshes =>
     Baked.rret {| Baked.textures := textures; Baked.materials := materials;
                   Baked.meshes := meshes |}))))))).
Proof.
  apply throws_bind; [apply throws_read_uint32 | intros textureCount].
  apply throws_bind; [apply throws_read_n; intros; apply throws_read_texture | intros textures].
  apply throws_bind; [apply throws_read_uint32 | intros materialCount].
  apply throws_bind.
  { apply throws_read_n. intros acc. unfold BakedBuild.read_material.
    repeat (apply throws_bind;
            [first [apply throws_read_uint32 | apply throws_build_assert]|intros ?]).
    apply throws_ret. }
  intros materials.
  apply throws_bind; [apply throws_read_uint32 | intros meshCount].
  apply throws_bind.
  { apply throws_read_n. intros acc. unfold BakedBuild.read_mesh.
    repeat (apply throws_bind;
            [first [apply throws_read_uint32 | apply throws_build_assert
                   | apply throws_checked_read]|intros ?]).
    apply throws_ret. }
  intros meshes. apply throws_ret.
Qed.

End BuildErrors.

Lemma table_build_error (ndebug : bool) (e : Baked.load_error) :
  table_error ndebug e -> build_error ndebug e.
Proof. unfold table_error, build_error. tauto. Qed.

Lemma throws_table_error (ndebug : bool) (prefix : string) :
  throws (table_error ndebug)
    (Baked.rbind Baked.read_uint32_ (fun textureCount =>
     Baked.rbind (Baked.read_n (Z.to_nat textureCount)
                    (fun _ => Baked.read_texture prefix) []) (fun textures =>
     Baked.rbind Baked.read_uint32_ (fun materialCount =>
     Baked.rbind (Baked.read_n (Z.to_nat materialCount)
                    (fun _ => BakedBuild.read_material ndebug textures) []) (fun materials =>
     Baked.rbind Baked.read_uint32_ (fun meshCount =>
     Baked.rbind (Baked.read_n (Z.to_nat meshCount)
                    (fun _ => BakedBuild.read_mesh ndebug materials) []) (fun meshes =>
     Baked.rret {| Baked.textures := textures; Baked.materials := materials;
                   Baked.meshes := meshes |}))))))).
Proof.
  apply throws_build_tables; unfold table_error.
  - intros x y. left. eauto.
  - intros n. right; left. eauto.
  - intros Hn. right; right. split; [exact Hn | reflexivity].
Qed.

Lemma throws_build_model (ndebug : bool) (aInputName : string) :
  throws (build_error ndebug) (BakedBuild.read_model ndebug aInputName).
Proof.
  assert (Hshort : forall x y, build_error ndebug (Baked.ShortRead x y)).
  { intros x y. right; right; left. eauto. }
  unfold BakedBuild.read_model.
  apply throws_bind; [apply throws_checked_read; exact Hshort | intros magic].
  apply throws_if; [intros fin e [= <-]; left; reflexivity|].
  apply throws_bind; [apply throws_checked_read; exact Hshort | intros variant].
  apply throws_if; [intros fin e [= <-]; right; left; reflexivity|].
  intros fin e H. apply table_build_error.
  exact (throws_table_error ndebug (Baked.base_prefix aInputName) fin e H).
Qed.

(** Behind a sound header the error is one of the tables. *)
Lemma sound_header_error (ndebug : bool) (aInputName : string) (fin : list byte)
    (e : Baked.load_error) :
  BakedBuild.read_model ndebug aInputName fin = Err e ->
  take 16 fin = kFileMagic -> take 16 (drop 16 fin) = kFileVariant ->
  table_error ndebug e.
Proof.
  intros H Hmagic Hvariant. unfold BakedBuild.read_model, Baked.rbind at 1 in H.
  destruct (Baked.checked_read_ 16 fin) as [[magic rest1]|e1] eqn:Hread1.
  2:{ injection H as <-. apply checked_read_Err in Hread1 as (x & y & ->). left. eauto. }
  apply (checked_read_take 16) in Hread1 as (-> & ->).
  rewrite bool_decide_eq_true_2 in H by exact Hmagic. cbn [negb] in H.
  unfold Baked.rbind at 1 in H.
  destruct (Baked.checked_read_ 16 (drop 16 fin)) as [[variant rest2]|e2] eqn:Hread2.
  2:{ injection H as <-. apply checked_read_Err in Hread2 as (x & y & ->). left. eauto. }
  apply (checked_read_take 16) in Hread2 as (-> & ->).
  rewrite bool_decide_eq_true_2 in H by exact Hvariant. cbn [negb] in H.
  exact (throws_table_error ndebug (Baked.base_prefix aInputName) _ e H).
Qed.

(** ** What the reads settle, in either build *)

Lemma build_assert_Ok (ndebug b : bool) (fin : list byte) (u : unit) (rest : list byte) :
  BakedBuild.r_assert ndebug b fin = Ok (u, rest) -> rest = fin.
Proof.
  unfold BakedBuild.r_assert, Baked.r_assert.
  destruct ndebug; [intros [= _ <-]; reflexivity|].
  destruct b; [intros [= _ <-]; reflexivity | discriminate].
Qed.

Lemma build_read_mesh (ndebug : bool) (materials : list Baked.BakedMaterialInfo)
    (fin : list byte) (b : Baked.BakedMeshData) (rest : list byte) :
  BakedBuild.read_mesh ndebug materials fin = Ok (b, rest) -> read_baked_mesh b.
Proof.
  unfold BakedBuild.read_mesh. intros H.
  apply rbind_Ok in H as (m & f1 & Hm & H). apply read_uint32_range in Hm.
  apply rbind_Ok in H as (u & f2 & Hassert & H). apply build_assert_Ok in Hassert as ->.
  apply rbind_Ok in H as (V & f3 & HV & H). apply read_uint32_range in HV.
  apply rbind_Ok in H as (I' & f4 & HI & H). apply read_uint32_range in HI.
  apply rbind_Ok in H as (p & f5 & Hp & H). apply checked_read_Ok in Hp as (_ & Hp & _).
  apply rbind_Ok in H as (n & f6 & Hn & H). apply checked_read_Ok in Hn as (_ & Hn & _).
  apply rbind_Ok in H as (t & f7 & Ht & H). apply checked_read_Ok in Ht as (_ & Ht & _).
  apply rbind_Ok in H as (g & f8 & Hg & H). apply checked_read_Ok in Hg as (_ & Hg & _).
  apply rbind_Ok in H as (ix & f9 & Hix & H). apply checked_read_Ok in Hix as (_ & Hix & _).
  injection H as <- _. unfold read_baked_mesh.
  cbn [Baked.materialId Baked.positions Baked.normals Baked.texcoords Baked.tangents
       Baked.indices].
  rewrite !vec3s_of_floats_length, vec2s_of_floats_length, vec4s_of_floats_length,
    !floats_of_bytes_length, words_of_bytes_length, Hp, Hn, Ht, Hg, Hix.
  assert (E12 : (Z.to_nat (V * 12) / 4 / 3 = Z.to_nat V)%nat).
  { replace (Z.to_nat (V * 12)) with (Z.to_nat V * 3 * 4)%nat by lia.
    rewrite !Nat.div_mul by lia. reflexivity. }
  assert (E8 : (Z.to_nat (V * 8) / 4 / 2 = Z.to_nat V)%nat).
  { replace (Z.to_nat (V * 8)) with (Z.to_nat V * 2 * 4)%nat by lia.
    rewrite !Nat.div_mul by lia. reflexivity. }
  assert (E16 : (Z.to_nat (V * 16) / 4 / 4 = Z.to_nat V)%nat).
  { replace (Z.to_nat (V * 16)) with (Z.to_nat V * 4 * 4)%nat by lia.
    rewrite !Nat.div_mul by lia. reflexivity. }
  assert (E4 : (Z.to_nat (I' * 4) / 4 = Z.to_nat I')%nat).
  { replace (Z.to_nat (I' * 4)) with (Z.to_nat I' * 4)%nat by lia.
    rewrite Nat.div_mul by lia. reflexivity. }
  rewrite E12, E8, E16, E4.
  split; [lia|]. split; [reflexivity|]. split; [reflexivity|].
  split; [reflexivity|]. split; [lia|]. split; [lia|]. apply words_of_bytes_range.
Qed.

Lemma build_read_material (ndebug : bool) (textures : list Baked.BakedTextureInfo)
    (fin : list byte) (m : Baked.BakedMaterialInfo) (rest : list byte) :
  BakedBuild.read_material ndebug textures fin = Ok (m, rest) -> read_baked_material m.
Proof.
  unfold BakedBuild.read_material. intros H.
  apply rbind_Ok in H as (a & f1 & Ha & H). apply read_uint32_range in Ha.
  apply rbind_Ok in H as (b & f2 & Hb & H). apply read_uint32_range in Hb.
  apply rbind_Ok in H as (c & f3 & Hc & H). apply read_uint32_range in Hc.
  apply rbind_Ok in H as (d & f4 & Hd & H). apply read_uint32_range in Hd.
  apply rbind_Ok in H as (e & f5 & He & H). apply read_uint32_range in He.
  apply rbind_Ok in H as (u1 & f6 & H1 & H). apply build_assert_Ok in H1 as ->.
  apply rbind_Ok in H as (u2 & f7 & H2 & H). apply build_assert_Ok in H2 as ->.
  apply rbind_Ok in H as (u3 & f8 & H3 & H). apply build_assert_Ok in H3 as ->.
  injection H as <- _. unfold read_baked_material. cbn. lia.
Qed.

Lemma build_read_model (ndebug : bool) (aInputName : string) (fin : list byte)
    (ret : Baked.BakedModel) (rest : list byte) :
  BakedBuild.read_model ndebug aInputName fin = Ok (ret, rest) ->
  read_baked_model aInputName ret.
Proof.
  unfold BakedBuild.read_model. intros H.
  apply rbind_Ok in H as (magic & f1 & _ & H).
  destruct (negb (bool_decide (magic = kFileMagic))); [discriminate|].
  apply rbind_Ok in H as (variant & f2 & _ & H).
  destruct (negb (bool_decide (variant = kFileVariant))); [discriminate|].
  apply rbind_Ok in H as (textureCount & f3 & Htc & H). apply read_uint32_range in Htc.
  apply rbind_Ok in H as (textures & f4 & Htex & H).
  apply rbind_Ok in H as (materialCount & f5 & Hmc & H). apply read_uint32_range in Hmc.
  apply rbind_Ok in H as (materials & f6 & Hmat & H).
  apply rbind_Ok in H as (meshCount & f7 & Hnc & H). apply read_uint32_range in Hnc.
  apply rbind_Ok in H as (meshes & f8 & Hmesh & H).
  injection H as <- _. unfold read_baked_model.
  cbn [Baked.textures Baked.materials Baked.meshes].
  eapply read_n_Forall in Htex as (Ftex & Ltex);
    [|intros acc' fin' a rest' Ha; exact (read_texture_path _ _ _ _ Ha) | constructor].
  eapply read_n_Forall in Hmat as (Fmat & Lmat);
    [|intros acc' fin' a rest' Ha; exact (build_read_material _ _ _ _ _ Ha) | constructor].
  eapply read_n_Forall in Hmesh as (Fmesh & Lmesh);
    [|intros acc' fin' a rest' Ha; exact (build_read_mesh _ _ _ _ _ Ha) | constructor].
  simpl in Ltex, Lmat, Lmesh.
  split; [exact Ftex|]. split; [exact Fmat|]. split; [exact Fmesh|]. lia.
Qed.

(** X19. What a loaded model can be relied on for, whatever the file held.
    In either build: every texture path is the directory of the model file
    followed by fewer than 32768 bytes; the position, normal,
    texture-coordinate and tangent arrays of a mesh have one length; all
    counts, ids and indices fit 32 bits. In a build with assertions,
    moreover: the base-colour, roughness and metalness ids of every
    material name a texture of the model and the material id of every mesh
    names a material of the model. *)
Theorem loaded_model_invariants (ndebug : bool) (fin : list byte) (aInputName : string)
    (ret : Baked.BakedModel) (note : bool) :
  BakedBuild.load_baked_model_ ndebug fin aInputName = Ok (ret, note) ->
  read_baked_model aInputName ret
  /\ (ndebug = false -> wf_baked_model aInputName ret)
  /\ BakedBuild.load_baked_model ndebug (Some fin) aInputName = Ok ret.
Proof.
  intros H. unfold BakedBuild.load_baked_model. rewrite H.
  unfold BakedBuild.load_baked_model_ in H.
  destruct (BakedBuild.read_model ndebug aInputName fin) as [[r rest]|e] eqn:Hread;
    [|discriminate].
  injection H as <- _.
  split; [exact (build_read_model _ _ _ _ _ Hread)|]. split; [|reflexivity].
  intros ->. exact (read_model_wf _ _ _ _ Hread).
Qed.

Lemma loaded_model_invariants_witness :
  exists ret,
    read_baked_model "assets/tiny.comp5822mesh" ret
    /\ wf_baked_model "assets/tiny.comp5822mesh" ret
    /\ BakedBuild.load_baked_model false (Some tiny_container) "assets/tiny.comp5822mesh"
       = Ok ret.
Proof.
  eexists.
  destruct (loaded_model_invariants false tiny_container "assets/tiny.comp5822mesh" _ false
              ltac:(vm_compute; reflexivity)) as (H1 & H2 & H3).
  split; [exact H1|]. split; [exact (H2 eq_refl) | exact H3].
Defined.

(** ** The round trip in a build without assertions *)

Lemma release_read_material_bytes (aTextures : gmap string Bake.TextureInfo_)
    (ordered : list (string * Bake.TextureInfo_)) (textures : list Baked.BakedTextureInfo)
    (m : Bake.InputMaterialInfo) (more : list byte) :
  textures_by_id aTextures ordered -> Z.of_nat (length ordered) < two32 ->
  optional_texture aTextures (Bake.baseColorTexturePath m) ->
  optional_texture aTextures (Bake.roughnessTexturePath m) ->
  optional_texture aTextures (Bake.metalnessTexturePath m) ->
  optional_texture aTextures (Bake.alphaMaskTexturePath m) ->
  optional_texture aTextures (Bake.normalMapTexturePath m) ->
  BakedBuild.read_material true textures (material_bytes aTextures m ++ more)
  = Ok (baked_material aTextures m, more).
Proof.
  intros Hby Hn Ha Hb Hc Hd He.
  unfold BakedBuild.read_material, material_bytes. rewrite <- !app_assoc.
  pose proof (texture_id_range _ _ _ Hby Hn Ha) as Ra.
  pose proof (texture_id_range _ _ _ Hby Hn Hb) as Rb.
  pose proof (texture_id_range _ _ _ Hby Hn Hc) as Rc.
  pose proof (texture_id_range _ _ _ Hby Hn Hd) as Rd.
  pose proof (texture_id_range _ _ _ Hby Hn He) as Re.
  unfold Baked.rbind. rewrite !read_uint32_app by lia. reflexivity.
Qed.

Lemma release_read_mesh_bytes (materials : list Baked.BakedMaterialInfo)
    (mi : Bake.InputMeshInfo * IndexedMesh) (more : list byte) :
  wf_indexed_mesh (snd mi) -> 0 <= Bake.materialIndex (fst mi) < two32 ->
  BakedBuild.read_mesh true materials (mesh_bytes mi ++ more) = Ok (baked_mesh mi, more).
Proof.
  destruct mi as [mm im]. cbn [fst snd].
  intros (Hn & Ht & Hg & HV & HI & Hix & Fv & Fn & Ft & Fg) Hmi.
  unfold BakedBuild.read_mesh, mesh_bytes, baked_mesh. cbn [fst snd].
  rewrite <- !app_assoc. unfold Baked.rbind at 1.
  rewrite read_uint32_app by lia.
  unfold Baked.rbind at 1. cbn [BakedBuild.r_assert Baked.rret].
  unfold Baked.rbind at 1. rewrite read_uint32_app by lia.
  unfold Baked.rbind at 1. rewrite read_uint32_app by lia.
  unfold Baked.rbind at 1.
  rewrite checked_read_app
    by (rewrite (concat_fixed_length vec3_bytes 12) by apply vec3_bytes_length; lia).
  unfold Baked.rbind at 1.
  rewrite checked_read_app
    by (rewrite (concat_fixed_length vec3_bytes 12) by apply vec3_bytes_length; lia).
  unfold Baked.rbind at 1.
  rewrite checked_read_app
    by (rewrite (concat_fixed_length vec2_bytes 8) by apply vec2_bytes_length; lia).
  unfold Baked.rbind at 1.
  rewrite checked_read_app
    by (rewrite (concat_fixed_length vec4_bytes 16) by apply vec4_bytes_length; lia).
  unfold Baked.rbind at 1.
  rewrite checked_read_app
    by (rewrite (concat_fixed_length le32 4) by apply le32_length; lia).
  unfold Baked.rret.
  rewrite !vec3s_of_bytes, vec2s_of_bytes, vec4s_of_bytes, words_of_bytes_concat by assumption.
  reflexivity.
Qed.

Section ReleaseRoundTrip.

Variable aInputName : string.
Variable aModel : Bake.InputModel.
Variable aIndexedMeshes : list IndexedMesh.
Variable aTextures : gmap string Bake.TextureInfo_.
Variable ordered : list (string * Bake.TextureInfo_).

Hypothesis Hwf : wf_writer_input aModel aIndexedMeshes aTextures ordered.

Lemma writer_container :
  Bake.write_model_data_ aModel aIndexedMeshes aTextures
  = Ok (container_bytes aModel aIndexedMeshes aTextures ordered).
Proof.
  destruct Hwf as (Hby & Hpaths & Hn & Hmats & Hnm & Hlen & Hnmesh & Hmi & Himesh).
  apply write_model_data_optional; try assumption.
  eapply Forall_impl; [exact Hmats|]. intros m (Ha & Hb & Hc & Hd & He).
  apply write_material_optional; assumption.
Qed.

Lemma release_load_container :
  BakedBuild.load_baked_model_ true
    (container_bytes aModel aIndexedMeshes aTextures ordered) aInputName
  = Ok (baked_model (Baked.base_prefix aInputName) path_with_terminator
          aModel aIndexedMeshes aTextures ordered, false).
Proof.
  destruct Hwf as (Hby & Hpaths & Hn & Hmats & Hnm & Hlen & Hnmesh & Hmi & Himesh).
  unfold BakedBuild.load_baked_model_, BakedBuild.read_model, container_bytes.
  unfold Baked.rbind at 1. rewrite (checked_read_app 16 kFileMagic) by reflexivity.
  rewrite bool_decide_eq_true_2 by reflexivity. cbn [negb].
  unfold Baked.rbind at 1. rewrite (checked_read_app 16 kFileVariant) by reflexivity.
  rewrite bool_decide_eq_true_2 by reflexivity. cbn [negb].
  unfold Baked.rbind at 1. rewrite read_uint32_app by lia. rewrite Nat2Z.id.
  unfold Baked.rbind at 1.
  rewrite (read_n_table
             (fun e => texture_entry (path_with_terminator (snd e), Bake.channels (snd e)))
             (fun e => baked_texture (Baked.base_prefix aInputName) path_with_terminator (snd e))).
  2:{ eapply Forall_impl; [exact Hpaths|]. intros e He more.
      rewrite read_texture_entry; [reflexivity|].
      unfold loadable_path in He. unfold path_with_terminator. cbn [fst].
      rewrite length_app. simpl length. lia. }
  cbn [app].
  unfold Baked.rbind at 1. rewrite read_uint32_app by lia. rewrite Nat2Z.id.
  unfold Baked.rbind at 1.
  rewrite (read_n_table (material_bytes aTextures) (baked_material aTextures)).
  2:{ eapply Forall_impl; [exact Hmats|]. intros m (Ha & Hb & Hc & Hd & He) more.
      apply (release_read_material_bytes aTextures ordered); assumption. }
  cbn [app].
  unfold Baked.rbind at 1. rewrite read_uint32_app by lia. rewrite Nat2Z.id.
  unfold Baked.rbind at 1.
  assert (Hzip : length (zip (Bake.meshes aModel) aIndexedMeshes) = length (Bake.meshes aModel)).
  { rewrite length_zip_with. lia. }
  rewrite <- Hzip.
  rewrite <- (app_nil_r (concat (map mesh_bytes (zip (Bake.meshes aModel) aIndexedMeshes)))).
  rewrite (read_n_table mesh_bytes baked_mesh).
  2:{ apply Forall_forall. intros [mm im] Hin more.
      apply release_read_mesh_bytes; cbn [fst snd].
      - apply elem_of_zip_r in Hin. exact (proj1 (Forall_forall _ _) Himesh im Hin).
      - apply elem_of_zip_l in Hin. exact (proj1 (Forall_forall _ _) Hmi mm Hin). }
  reflexivity.
Qed.

End ReleaseRoundTrip.

(** When the assertions pass, the two builds read the same. *)
Lemma read_n_Ok_impl {A} (body body' : list A -> Baked.reader A) (n : nat) (acc : list A)
    (fin : list byte) (r : list A * list byte) :
  (forall acc' fin' r', body acc' fin' = Ok r' -> body' acc' fin' = Ok r') ->
  Baked.read_n n body acc fin = Ok r -> Baked.read_n n body' acc fin = Ok r.
Proof.
  intros Hbody. revert acc fin. induction n as [|n IH]; intros acc fin H; [exact H|].
  cbn [Baked.read_n] in *. unfold Baked.rbind in *.
  destruct (body acc fin) as [[a mid]|e] eqn:Ha; [|discriminate].
  rewrite (Hbody _ _ _ Ha). apply IH, H.
Qed.

Lemma assert_Ok_build (ndebug b : bool) (fin : list byte) (r : unit * list byte) :
  Baked.r_assert b fin = Ok r -> BakedBuild.r_assert ndebug b fin = Ok r.
Proof.
  unfold BakedBuild.r_assert. destruct ndebug; [|exact (fun H => H)].
  unfold Baked.r_assert. destruct b; [exact (fun H => H) | discriminate].
Qed.

Lemma rbind_Ok_impl {A B} (p p' : Baked.reader A) (k k' : A -> Baked.reader B)
    (fin : list byte) (r : B * list byte) :
  (forall fin' r', p fin' = Ok r' -> p' fin' = Ok r') ->
  (forall a fin' r', k a fin' = Ok r' -> k' a fin' = Ok r') ->
  Baked.rbind p k fin = Ok r -> Baked.rbind p' k' fin = Ok r.
Proof.
  intros Hp Hk. unfold Baked.rbind. destruct (p fin) as [[a mid]|e] eqn:Ha; [|discriminate].
  rewrite (Hp _ _ Ha). apply Hk.
Qed.

Lemma read_model_Ok_build (ndebug : bool) (aInputName : string) (fin : list byte)
    (r : Baked.BakedModel * list byte) :
  Baked.read_model aInputName fin = Ok r -> BakedBuild.read_model ndebug aInputName fin = Ok r.
Proof.
  unfold Baked.read_model, BakedBuild.read_model.
  apply rbind_Ok_impl; [auto|]. intros magic fin1 r1.
  destruct (negb (bool_decide (magic = kFileMagic))); [auto|].
  apply rbind_Ok_impl; [auto|]. intros variant fin2 r2.
  destruct (negb (bool_decide (variant = kFileVariant))); [auto|].
  apply rbind_Ok_impl; [auto|]. intros textureCount fin3 r3.
  apply rbind_Ok_impl; [auto|]. intros textures fin4 r4.
  apply rbind_Ok_impl; [auto|]. intros materialCount fin5 r5.
  apply rbind_Ok_impl.
  { intros fin' r'. apply read_n_Ok_impl. intros acc' fin'' r''.
    unfold Baked.read_material, BakedBuild.read_material.
    repeat (apply rbind_Ok_impl; [first [apply assert_Ok_build | auto]|intros ? ? ?]).
    auto. }
  intros materials fin6 r6.
  apply rbind_Ok_impl; [auto|]. intros meshCount fin7 r7.
  apply rbind_Ok_impl; [|auto].
  intros fin' r'. apply read_n_Ok_impl. intros acc' fin'' r''.
  unfold Baked.read_mesh, BakedBuild.read_mesh.
  repeat (apply rbind_Ok_impl; [first [apply assert_Ok_build | auto]|intros ? ? ?]).
  auto.
Qed.

Lemma load_Ok_build (ndebug : bool) (aInputName : string) (fin : list byte)
    (r : Baked.BakedModel * bool) :
  Baked.load_baked_model_ fin aInputName = Ok r ->
  BakedBuild.load_baked_model_ ndebug fin aInputName = Ok r.
Proof.
  unfold Baked.load_baked_model_, BakedBuild.load_baked_model_.
  destruct (Baked.read_model aInputName fin) as [[ret rest]|e] eqn:H; [|discriminate].
  rewrite (read_model_Ok_build ndebug _ _ _ H). exact (fun H' => H').
Qed.

(** ** A material without a required texture, in either build *)

Lemma geometry_container (fs_stem fs_filename : string -> string)
    (fs_append : string -> string -> string) (gHash_ : Z -> Z) (cast_out_of_range : float -> Z)
    (tgen : list Z -> list float -> list float -> list float -> Z -> list float)
    (aOutput : string) (model : Bake.InputModel) :
  wf_input_geometry model -> tgen_per_normal tgen ->
  map_Forall (fun _ t => loadable_path t)
             (model_textures fs_stem fs_filename fs_append aOutput model) ->
  exists indexed ordered,
    wf_writer_input model indexed
      (model_textures fs_stem fs_filename fs_append aOutput model) ordered
    /\ process_model_ fs_stem fs_filename fs_append gHash_ cast_out_of_range tgen aOutput model
       = Ok (container_bytes model indexed
               (model_textures fs_stem fs_filename fs_append aOutput model) ordered).
Proof.
  intros (Vp & Vn & Vt & Hmeshes & Hnmesh & Hnmat & Hsize) Htgen Hpaths.
  set (textures := model_textures fs_stem fs_filename fs_append aOutput model) in *.
  destruct (index_meshes_Ok gHash_ cast_out_of_range tgen model tolerance_1e5
              (fun _ mesh => wf_indexed_mesh mesh) (Bake.meshes model))
    as (indexed & Hindexed & HQ).
  { eapply Forall_impl; [exact Hmeshes|]. intros imesh (Hin & H32 & _). cbn beta.
    destruct (mesh_of_range_wf gHash_ cast_out_of_range tgen model tolerance_1e5
                Htgen Vp Vn Vt eq_refl imesh Hin H32) as (mesh & Hm & Hw & _).
    exists mesh. split; assumption. }
  destruct (model_textures_by_id fs_stem fs_filename fs_append aOutput model)
    as (ordered & Hby & _ & Hlen); [lia|]. fold textures in Hby.
  exists indexed, ordered.
  assert (Hwf : wf_writer_input model indexed textures ordered).
  { unfold wf_writer_input. split; [exact Hby|]. split; [|split; [lia|split; [|split]]].
    - destruct Hby as (Hperm & _). apply Forall_forall. intros [p t] Hin.
      rewrite Hperm in Hin. apply elem_of_map_to_list in Hin. exact (Hpaths p t Hin).
    - apply Forall_forall. intros m Hm.
      repeat split;
        apply (model_textures_optional fs_stem fs_filename fs_append aOutput model m);
        first [exact Hm | tauto].
    - exact Hnmat.
    - split; [exact (Forall2_length _ _ _ HQ)|]. split; [exact Hnmesh|]. split.
      + eapply Forall_impl; [exact Hmeshes|]. intros imesh (_ & _ & Hmi). cbn beta. lia.
      + clear -HQ. induction HQ; constructor; assumption. }
  split; [exact Hwf|].
  unfold process_model_. fold (index_meshes_ gHash_ cast_out_of_range tgen model tolerance_1e5).
  unfold index_meshes_. rewrite Hindexed. cbn [bind]. fold textures.
  apply (writer_container model indexed textures ordered Hwf).
Qed.

(** X20. A model with a material that has no base-colour, no roughness or
    no metalness texture is baked without complaint, the missing texture
    being written as 0xFFFFFFFF. What the loader makes of the container
    depends on the build: with assertions, the assertion on the texture
    ids of the material fails; without them ([NDEBUG]), the loader returns
    the model, and the material has the id 0xFFFFFFFF where a texture of
    the model is expected. *)
Theorem missing_texture_either_build (fs_stem fs_filename : string -> string)
    (fs_append : string -> string -> string) (gHash_ : Z -> Z) (cast_out_of_range : float -> Z)
    (tgen : list Z -> list float -> list float -> list float -> Z -> list float)
    (aOutput aModelPath : string) (model : Bake.InputModel) (mat : Bake.InputMaterialInfo) :
  wf_input_geometry model -> tgen_per_normal tgen ->
  map_Forall (fun _ t => loadable_path t)
             (model_textures fs_stem fs_filename fs_append aOutput model) ->
  mat ∈ Bake.materials model -> lacks_texture mat ->
  exists bytes,
    process_model_ fs_stem fs_filename fs_append gHash_ cast_out_of_range tgen aOutput model
    = Ok bytes
    /\ BakedBuild.load_baked_model false (Some bytes) aModelPath = Err Baked.LoadAssertFailed
    /\ exists ret b,
         BakedBuild.load_baked_model true (Some bytes) aModelPath = Ok ret
         /\ length (Baked.materials ret) = length (Bake.materials model)
         /\ b ∈ Baked.materials ret
         /\ (Baked.baseColorTextureId b = 0xffffffff
             \/ Baked.roughnessTextureId b = 0xffffffff
             \/ Baked.metalnessTextureId b = 0xffffffff).
Proof.
  intros Hgeo Htgen Hpaths Hmat Hlack.
  destruct (geometry_container fs_stem fs_filename fs_append gHash_ cast_out_of_range tgen
              aOutput model Hgeo Htgen Hpaths) as (indexed & ordered & Hwf & Hbytes).
  set (textures := model_textures fs_stem fs_filename fs_append aOutput model) in *.
  exists (container_bytes model indexed textures ordered). split; [exact Hbytes|]. split.
  - destruct Hwf as (Hby & Hpaths' & Hn & Hopt & Hnm & Hlen & Hnmesh & Hmi & Himesh).
    change (BakedBuild.load_baked_model false) with Baked.load_baked_model.
    apply load_baked_model_Err.
    unfold Baked.read_model, container_bytes.
    unfold Baked.rbind at 1. rewrite (checked_read_app 16 kFileMagic) by reflexivity.
    rewrite bool_decide_eq_true_2 by reflexivity. cbn [negb].
    unfold Baked.rbind at 1. rewrite (checked_read_app 16 kFileVariant) by reflexivity.
    rewrite bool_decide_eq_true_2 by reflexivity. cbn [negb].
    unfold Baked.rbind at 1. rewrite read_uint32_app by lia. rewrite Nat2Z.id.
    unfold Baked.rbind at 1.
    rewrite (read_n_table
               (fun e => texture_entry (path_with_terminator (snd e), Bake.channels (snd e)))
               (fun e => baked_texture (Baked.base_prefix aModelPath) path_with_terminator
                           (snd e))).
    2:{ eapply Forall_impl; [exact Hpaths'|]. intros e He more.
        rewrite read_texture_entry; [reflexivity|].
        unfold loadable_path in He. unfold path_with_terminator. cbn [fst].
        rewrite length_app. simpl length. lia. }
    cbn [app].
    unfold Baked.rbind at 1. rewrite read_uint32_app by lia. rewrite Nat2Z.id.
    unfold Baked.rbind at 1.
    rewrite (read_materials_refused textures ordered _ (Bake.materials model) mat);
      first [reflexivity | assumption | apply length_map | lia].
  - exists (baked_model (Baked.base_prefix aModelPath) path_with_terminator
              model indexed textures ordered), (baked_material textures mat).
    split.
    { unfold BakedBuild.load_baked_model.
      rewrite (release_load_container aModelPath model indexed textures ordered Hwf).
      reflexivity. }
    cbn [baked_model Baked.materials]. split; [apply length_map|].
    split; [apply list_elem_of_fmap; exists mat; split; [reflexivity | exact Hmat]|].
    unfold baked_material, texture_id.
    cbn [Baked.baseColorTextureId Baked.roughnessTextureId Baked.metalnessTextureId].
    destruct Hlack as [-> | [-> | ->]]; [left | right; left | right; right]; reflexivity.
Qed.

Lemma missing_texture_either_build_witness :
  exists bytes,
    process_model_ posix_stem posix_filename posix_append std_hash cast_zero flat_tangents
      "out/rough.comp5822mesh" rough_model
    = Ok bytes
    /\ BakedBuild.load_baked_model false (Some bytes) "assets/rough.comp5822mesh"
       = Err Baked.LoadAssertFailed
    /\ exists ret b,
         BakedBuild.load_baked_model true (Some bytes) "assets/rough.comp5822mesh" = Ok ret
         /\ length (Baked.materials ret) = length (Bake.materials rough_model)
         /\ b ∈ Baked.materials ret
         /\ (Baked.baseColorTextureId b = 0xffffffff
             \/ Baked.roughnessTextureId b = 0xffffffff
             \/ Baked.metalnessTextureId b = 0xffffffff).
Proof.
  refine (missing_texture_either_build posix_stem posix_filename posix_append std_hash cast_zero
            flat_tangents "out/rough.comp5822mesh" "assets/rough.comp5822mesh" rough_model _
            rough_model_geometry flat_tangents_per_normal rough_model_paths _ _).
  - apply list_elem_of_here.
  - right. left. reflexivity.
Defined.

(** ** What [set_up_model] reads of a model loaded by either build *)

Lemma vget_cases {A} (v : list A) (i : Z) :
  0 <= i ->
  (i < Z.of_nat (length v) /\ exists a, vget v i = Ok a)
  \/ (Z.of_nat (length v) <= i /\ vget v i = Err OutOfRange).
Proof.
  intros Hi. destruct (Z.lt_ge_cases i (Z.of_nat (length v))) as [Hlt | Hge].
  - left. split; [exact Hlt|]. destruct (vget_in_range v i) as (a & Ha & _); [lia | eauto].
  - right. split; [exact Hge|]. unfold vget. destruct (Z.ltb_spec i 0); [reflexivity|].
    rewrite (proj2 (lookup_ge_None _ _)); [reflexivity | lia].
Qed.

Lemma material_image_views_pack (aModel : Baked.BakedModel) (m : Baked.BakedMaterialInfo) :
  read_baked_material m ->
  (in_pack aModel m /\ exists vs, material_image_views (pack_textures aModel) m = Ok vs)
  \/ (beyond_pack aModel m
      /\ material_image_views (pack_textures aModel) m = Err OutOfRange).
Proof.
  intros (Ha & Hb & Hc & Hd & He). unfold material_image_views, in_pack, beyond_pack.
  pose proof (pack_textures_length aModel) as Hlen.
  destruct (vget_cases (pack_textures aModel) (Baked.baseColorTextureId m) (proj1 Ha))
    as [(La & v0 & ->) | (La & ->)]; [|right; split; [left; lia | reflexivity]].
  destruct (vget_cases (pack_textures aModel) (Baked.roughnessTextureId m) (proj1 Hb))
    as [(Lb & v1 & ->) | (Lb & ->)]; [|right; split; [right; left; lia | reflexivity]].
  destruct (vget_cases (pack_textures aModel) (Baked.metalnessTextureId m) (proj1 Hc))
    as [(Lc & v2 & ->) | (Lc & ->)]; [|right; split; [right; right; left; lia | reflexivity]].
  cbn [bind].
  destruct (Z.eqb_spec (Baked.normalMapTextureId m) 0xffffffff) as [Hs | Hs]; cbn [negb].
  - rewrite pack_textures_last. cbn [bind]. left.
    split; [|eauto]. split; [lia|]. split; [lia|]. split; [lia|]. left. exact Hs.
  - destruct (vget_cases (pack_textures aModel) (Baked.normalMapTextureId m) (proj1 He))
      as [(Le & v3 & ->) | (Le & ->)].
    + left. split; [|cbn [bind]; eauto].
      split; [lia|]. split; [lia|]. split; [lia|]. right. lia.
    + right. split; [|reflexivity]. right; right; right. split; [exact Hs | lia].
Qed.

Lemma mesh_upload_read (b : Baked.BakedMeshData) :
  read_baked_mesh b ->
  exists up, mesh_upload b = Ok up
             /\ length (vertexData up) = (12 * length (Baked.positions b))%nat
             /\ indexData up = Baked.indices b
             /\ indexCount up = Z.of_nat (length (Baked.indices b))
             /\ matID up = Baked.materialId b.
Proof.
  intros (_ & Hn & Ht & Hg & _ & Hi & _).
  destruct (vertex_data_prefix b (length (Baked.positions b)) Ht Hn Hg (le_n _))
    as (data & Hrun & Hlen & _).
  unfold mesh_upload, vertex_data. rewrite Hrun. cbn [bind]. eexists. split; [reflexivity|].
  cbn [vertexData indexData indexCount matID]. split; [exact Hlen|].
  split; [reflexivity|]. split; [|reflexivity]. apply uint32_small. lia.
Qed.

(** X27. [set_up_model] on a model that the loader of either build
    returned. The vertex and index data of every mesh are read within
    bounds. The textures of the pack are indexed by the ids of the
    materials: when the base-colour, roughness and metalness ids of every
    material are at most the number of textures and its normal-map id is
    the mark 0xFFFFFFFF or at most that number, [set_up_model] builds one
    upload per mesh and one descriptor set per material; a material with
    any other id makes it index the textures of the pack out of bounds. A
    build with assertions has checked the first three ids of every material
    (they are below the number of textures), so that there only the
    normal-map id decides; a build without assertions has checked none. *)
Theorem set_up_model_loaded (ndebug : bool) (fin : list byte) (aInputName : string)
    (ret : Baked.BakedModel) (note : bool) :
  BakedBuild.load_baked_model_ ndebug fin aInputName = Ok (ret, note) ->
  (Forall (in_pack ret) (Baked.materials ret) ->
   exists meshes matDescs,
     set_up_model ret = Ok (meshes, pack_textures ret, matDescs)
     /\ Forall2 (fun b up => length (vertexData up) = (12 * length (Baked.positions b))%nat
                             /\ indexData up = Baked.indices b
                             /\ indexCount up = Z.of_nat (length (Baked.indices b))
                             /\ matID up = Baked.materialId b)
                (Baked.meshes ret) meshes
     /\ length matDescs = length (Baked.materials ret))
  /\ (forall m, m ∈ Baked.materials ret -> beyond_pack ret m ->
        set_up_model ret = Err OutOfRange)
  /\ (ndebug = false ->
      Forall (fun m => Baked.baseColorTextureId m < Z.of_nat (length (Baked.textures ret))
                       /\ Baked.roughnessTextureId m < Z.of_nat (length (Baked.textures ret))
                       /\ Baked.metalnessTextureId m < Z.of_nat (length (Baked.textures ret)))
             (Baked.materials ret)).
Proof.
  intros Hload. unfold BakedBuild.load_baked_model_ in Hload.
  destruct (BakedBuild.read_model ndebug aInputName fin) as [[r rest]|e] eqn:Hread;
    [|discriminate].
  injection Hload as <- _.
  destruct (build_read_model _ _ _ _ _ Hread) as (_ & Fmat & Fmesh & Hnt & Hnm & _).
  destruct (mapM_all_Ok mesh_upload (Baked.meshes r)) as (meshes & Hmeshes & Hups).
  { eapply Forall_impl; [exact Fmesh|]. intros b Hb.
    destruct (mesh_upload_read b Hb) as (up & Hup & _). eauto. }
  assert (Hups' : Forall2 (fun b up => length (vertexData up) = (12 * length (Baked.positions b))%nat
                             /\ indexData up = Baked.indices b
                             /\ indexCount up = Z.of_nat (length (Baked.indices b))
                             /\ matID up = Baked.materialId b) (Baked.meshes r) meshes).
  { clear Hmeshes. induction Hups as [|b up bs ups Hup _ IH]; [constructor|].
    inversion Fmesh as [|? ? Hb Hbs]; subst. constructor; [|exact (IH Hbs)].
    destruct (mesh_upload_read b Hb) as (up' & Hup' & Hfacts). congruence. }
  unfold set_up_model. rewrite Hmeshes. cbn [bind].
  rewrite uint32_small by lia. rewrite Nat2Z.id.
  set (body := fun i => let! material := vget (Baked.materials r) i in
                        material_image_views (pack_textures r) material).
  assert (Hbody : forall (k : nat) m, Baked.materials r !! k = Some m ->
            body (Z.of_nat k) = material_image_views (pack_textures r) m).
  { intros k m Hk. unfold body. rewrite vget_of_nat, Hk. reflexivity. }
  assert (Hall : Forall (fun i => (exists y, body i = Ok y) \/ body i = Err OutOfRange)
                        (index_range (length (Baked.materials r)))).
  { apply Forall_forall. intros i Hi. apply elem_of_index_range in Hi.
    destruct (lookup_lt_is_Some_2 (Baked.materials r) (Z.to_nat i)) as (m & Hm); [lia|].
    replace i with (Z.of_nat (Z.to_nat i)) by lia. rewrite (Hbody _ m Hm).
    destruct (material_image_views_pack r m (Forall_lookup_1 _ _ _ _ Fmat Hm))
      as [(_ & vs & Hv) | (_ & Hv)]; [left; eauto | right; exact Hv]. }
  split; [|split].
  - intros Hpack.
    destruct (mapM_all_Ok body (index_range (length (Baked.materials r)))) as (descs & Hd & Hd2).
    { apply Forall_forall. intros i Hi. apply elem_of_index_range in Hi.
      destruct (lookup_lt_is_Some_2 (Baked.materials r) (Z.to_nat i)) as (m & Hm); [lia|].
      replace i with (Z.of_nat (Z.to_nat i)) by lia. rewrite (Hbody _ m Hm).
      destruct (material_image_views_pack r m (Forall_lookup_1 _ _ _ _ Fmat Hm))
        as [(_ & vs & Hv) | (Hout & _)]; [eauto|].
      exfalso. pose proof (Forall_lookup_1 _ _ _ _ Hpack Hm) as (Pa & Pb & Pc & Pe).
      destruct Hout as [H | [H | [H | (H1 & H2)]]]; lia. }
    rewrite Hd. cbn [bind]. exists meshes, descs. split; [reflexivity|].
    split; [exact Hups'|].
    rewrite <- (Forall2_length _ _ _ Hd2). apply index_range_length.
  - intros m Hm Hout. apply list_elem_of_lookup in Hm as (k & Hk).
    rewrite (mapM_some_Err body OutOfRange _ (Z.of_nat k)); [reflexivity | exact Hall | |].
    + apply elem_of_index_range. apply lookup_lt_Some in Hk. lia.
    + rewrite (Hbody _ m Hk).
      destruct (material_image_views_pack r m (Forall_lookup_1 _ _ _ _ Fmat Hk))
        as [((Pa & Pb & Pc & Pe) & _) | (_ & Hv)]; [exfalso | exact Hv].
      destruct Hout as [H | [H | [H | (H1 & H2)]]]; lia.
  - intros ->. destruct (read_model_wf _ _ _ _ Hread) as (_ & Fchecked & _).
    eapply Forall_impl; [exact Fchecked|]. intros m (Ha & Hb & Hc & _). lia.
Qed.

Lemma set_up_model_loaded_witness :
  exists ret meshes matDescs,
    BakedBuild.load_baked_model_ true tiny_container "assets/tiny.comp5822mesh" = Ok (ret, false)
    /\ set_up_model ret = Ok (meshes, pack_textures ret, matDescs)
    /\ length meshes = length (Baked.meshes ret)
    /\ length matDescs = length (Baked.materials ret).
Proof.
  eexists.
  destruct (set_up_model_loaded true tiny_container "assets/tiny.comp5822mesh" _ false
              ltac:(vm_compute; reflexivity)) as (Hok & _).
  destruct Hok as (meshes & matDescs & Hset & Hmeshes & Hdescs).
  { repeat constructor; vm_compute; try discriminate; left; reflexivity. }
  exists meshes, matDescs. split; [vm_compute; reflexivity|]. split; [exact Hset|].
  split; [symmetry; exact (Forall2_length _ _ _ Hmeshes) | exact Hdescs].
Defined.

(** ** A file that is cut short *)

Lemma read_n_table_rest {X A} (enc : X -> list byte) (body : Baked.reader A)
    (xs : list X) (acc : list A) (rest : list byte) (l : list A) (r : list byte) :
  Forall (fun x => forall more a r', body (enc x ++ more) = Ok (a, r') -> r' = more) xs ->
  Baked.read_n (length xs) (fun _ => body) acc (concat (map enc xs) ++ rest) = Ok (l, r) ->
  r = rest.
Proof.
  intros H. revert acc. induction H as [|x xs Hx _ IH]; intros acc Hread.
  - cbn in Hread. injection Hread as _ <-. reflexivity.
  - cbn [length Baked.read_n map concat] in Hread. rewrite <- app_assoc in Hread.
    apply rbind_Ok in Hread as (a & mid & Ha & Hread).
    apply Hx in Ha. subst mid. exact (IH _ Hread).
Qed.

Lemma read_texture_rest (prefix : string) (e : list byte * byte) (more : list byte)
    (a : Baked.BakedTextureInfo) (r : list byte) :
  Z.of_nat (length (fst e)) < two32 ->
  Baked.read_texture prefix (texture_entry e ++ more) = Ok (a, r) -> r = more.
Proof.
  intros He H. destruct (Z.lt_ge_cases (Z.of_nat (length (fst e))) Baked.kMaxString) as [Hlt|Hge].
  - rewrite read_texture_entry in H by exact Hlt. injection H as _ <-. reflexivity.
  - exfalso. unfold Baked.read_texture, texture_entry in H.
    apply rbind_Ok in H as (s & mid & Hs & _). rewrite <- !app_assoc in Hs.
    rewrite read_string_too_long in Hs by lia. discriminate.
Qed.

Lemma read_uint32_rest (z : Z) (rest : list byte) (a : Z) (mid : list byte) :
  0 <= z < two32 -> Baked.read_uint32_ (le32 z ++ rest) = Ok (a, mid) -> a = z /\ mid = rest.
Proof. intros Hz H. rewrite read_uint32_app in H by exact Hz. injection H as <- <-. auto. Qed.

Lemma checked_read_rest (n : Z) (c rest : list byte) (a mid : list byte) :
  Z.of_nat (length c) = n -> Baked.checked_read_ n (c ++ rest) = Ok (a, mid) -> mid = rest.
Proof. intros Hn H. rewrite checked_read_app in H by exact Hn. injection H as _ <-. auto. Qed.

Lemma read_material_rest (ndebug : bool) (textures : list Baked.BakedTextureInfo)
    (ids : list Z) (more : list byte) (a : Baked.BakedMaterialInfo) (r : list byte) :
  wf_material_entry ids ->
  BakedBuild.read_material ndebug textures (material_entry ids ++ more) = Ok (a, r) ->
  r = more.
Proof.
  intros (Hlen & Hids) H.
  destruct ids as [|i1 [|i2 [|i3 [|i4 [|i5 [|]]]]]]; try discriminate.
  inversion Hids as [|? ? H1 Hids1]; subst. inversion Hids1 as [|? ? H2 Hids2]; subst.
  inversion Hids2 as [|? ? H3 Hids3]; subst. inversion Hids3 as [|? ? H4 Hids4]; subst.
  inversion Hids4 as [|? ? H5 _]; subst.
  unfold material_entry in H. cbn [map concat] in H. rewrite app_nil_r in H.
  rewrite <- !app_assoc in H. unfold BakedBuild.read_material in H.
  apply rbind_Ok in H as (a1 & f1 & Ha & H). apply read_uint32_rest in Ha as (-> & ->); [|lia].
  apply rbind_Ok in H as (a2 & f2 & Ha & H). apply read_uint32_rest in Ha as (-> & ->); [|lia].
  apply rbind_Ok in H as (a3 & f3 & Ha & H). apply read_uint32_rest in Ha as (-> & ->); [|lia].
  apply rbind_Ok in H as (a4 & f4 & Ha & H). apply read_uint32_rest in Ha as (-> & ->); [|lia].
  apply rbind_Ok in H as (a5 & f5 & Ha & H). apply read_uint32_rest in Ha as (-> & ->); [|lia].
  apply rbind_Ok in H as (u1 & f6 & Hu & H). apply build_assert_Ok in Hu as ->.
  apply rbind_Ok in H as (u2 & f7 & Hu & H). apply build_assert_Ok in Hu as ->.
  apply rbind_Ok in H as (u3 & f8 & Hu & H). apply build_assert_Ok in Hu as ->.
  injection H as _ <-. reflexivity.
Qed.

Lemma read_mesh_rest (ndebug : bool) (materials : list Baked.BakedMaterialInfo)
    (e : MeshEntry) (more : list byte) (a : Baked.BakedMeshData) (r : list byte) :
  wf_mesh_entry e ->
  BakedBuild.read_mesh ndebug materials (mesh_entry e ++ more) = Ok (a, r) -> r = more.
Proof.
  intros (Hm & HV & HI & Lp & Ln & Lt & Lg & Li) H.
  unfold mesh_entry in H. rewrite <- !app_assoc in H. unfold BakedBuild.read_mesh in H.
  apply rbind_Ok in H as (m & f1 & Ha & H). apply read_uint32_rest in Ha as (-> & ->); [|lia].
  apply rbind_Ok in H as (u & f2 & Hu & H). apply build_assert_Ok in Hu as ->.
  apply rbind_Ok in H as (V & f3 & Ha & H). apply read_uint32_rest in Ha as (-> & ->); [|lia].
  apply rbind_Ok in H as (I' & f4 & Ha & H). apply read_uint32_rest in Ha as (-> & ->); [|lia].
  apply rbind_Ok in H as (p & f5 & Ha & H). apply checked_read_rest in Ha as ->; [|lia].
  apply rbind_Ok in H as (n & f6 & Ha & H). apply checked_read_rest in Ha as ->; [|lia].
  apply rbind_Ok in H as (t & f7 & Ha & H). apply checked_read_rest in Ha as ->; [|lia].
  apply rbind_Ok in H as (g & f8 & Ha & H). apply checked_read_rest in Ha as ->; [|lia].
  apply rbind_Ok in H as (ix & f9 & Ha & H). apply checked_read_rest in Ha as ->; [|lia].
  injection H as _ <-. reflexivity.
Qed.

(** The loader of either build reads a container to its end, if it reads
    it at all. *)
Lemma container_read_whole (ndebug : bool) (aInputName : string) (full : list byte)
    (ret : Baked.BakedModel) (r : list byte) :
  is_container full ->
  BakedBuild.read_model ndebug aInputName full = Ok (ret, r) -> r = [].
Proof.
  intros (texs & mats & meshes & -> & Hnt & Ftex & Hnm & Fmat & Hnmesh & Fmesh) H.
  unfold container_layout, BakedBuild.read_model in H.
  apply rbind_Ok in H as (magic & f1 & Ha & H).
  apply checked_read_rest in Ha as ->; [|reflexivity].
  destruct (negb (bool_decide (magic = kFileMagic))); [discriminate|].
  apply rbind_Ok in H as (variant & f2 & Ha & H).
  apply checked_read_rest in Ha as ->; [|reflexivity].
  destruct (negb (bool_decide (variant = kFileVariant))); [discriminate|].
  apply rbind_Ok in H as (textureCount & f3 & Ha & H).
  apply read_uint32_rest in Ha as (-> & ->); [|lia]. rewrite Nat2Z.id in H.
  apply rbind_Ok in H as (textures & f4 & Ha & H).
  apply (read_n_table_rest texture_entry) in Ha as ->.
  2:{ eapply Forall_impl; [exact Ftex|]. intros e He more a r'. apply read_texture_rest, He. }
  apply rbind_Ok in H as (materialCount & f5 & Ha & H).
  apply read_uint32_rest in Ha as (-> & ->); [|lia]. rewrite Nat2Z.id in H.
  apply rbind_Ok in H as (materials & f6 & Ha & H).
  apply (read_n_table_rest material_entry) in Ha as ->.
  2:{ eapply Forall_impl; [exact Fmat|]. intros e He more a r'. apply read_material_rest, He. }
  apply rbind_Ok in H as (meshCount & f7 & Ha & H).
  apply read_uint32_rest in Ha as (-> & ->); [|lia]. rewrite Nat2Z.id in H.
  apply rbind_Ok in H as (ms & f8 & Ha & H).
  rewrite <- (app_nil_r (concat (map mesh_entry meshes))) in Ha.
  apply (read_n_table_rest mesh_entry) in Ha as ->.
  2:{ eapply Forall_impl; [exact Fmesh|]. intros e He more a r'. apply read_mesh_rest, He. }
  injection H as _ <-. reflexivity.
Qed.

Lemma container_cut_short (ndebug : bool) (aInputName : string) (full : list byte) (k : nat) :
  is_container full -> (k < length full)%nat ->
  exists e, BakedBuild.read_model ndebug aInputName (take k full) = Err e
            /\ build_error ndebug e.
Proof.
  intros Hfull Hk.
  destruct (BakedBuild.read_model ndebug aInputName (take k full)) as [[ret rest]|e] eqn:Hread.
  - exfalso.
    destruct (framed_build_model ndebug aInputName _ _ _ Hread) as (c & Hc & Hsame & _).
    pose proof (Hsame (rest ++ drop k full)) as Hwhole.
    rewrite app_assoc, <- Hc, take_drop in Hwhole.
    apply (container_read_whole ndebug aInputName full ret _ Hfull) in Hwhole.
    apply app_eq_nil in Hwhole as (_ & Hdrop).
    apply (f_equal length) in Hdrop. rewrite length_drop in Hdrop. simpl in Hdrop. lia.
  - exists e. split; [reflexivity|]. exact (throws_build_model ndebug aInputName _ e Hread).
Qed.

Lemma build_read_model_header (ndebug : bool) (aInputName : string) (fin : list byte) :
  take 16 fin <> kFileMagic \/ take 16 (drop 16 fin) <> kFileVariant ->
  exists e, BakedBuild.read_model ndebug aInputName fin = Err e /\ rejection e.
Proof.
  intros Hheader. unfold BakedBuild.read_model, Baked.rbind at 1.
  destruct (Baked.checked_read_ 16 fin) as [[magic rest1]|e] eqn:Hread.
  2:{ exists e. split; [reflexivity|]. right; right. eapply checked_read_Err, Hread. }
  apply (checked_read_take 16) in Hread as (-> & ->).
  destruct (bool_decide (take 16 fin = kFileMagic)) eqn:Hmagic; cbn [negb].
  2:{ exists Baked.InvalidSignature. split; [reflexivity | left; reflexivity]. }
  apply bool_decide_eq_true_1 in Hmagic.
  destruct Hheader as [Hne | Hne]; [contradiction|].
  unfold Baked.rbind at 1.
  destruct (Baked.checked_read_ 16 (drop 16 fin)) as [[variant rest2]|e] eqn:Hread.
  2:{ exists e. split; [reflexivity|]. right; right. eapply checked_read_Err, Hread. }
  apply (checked_read_take 16) in Hread as (-> & ->).
  rewrite bool_decide_eq_false_2 by assumption. cbn [negb].
  exists Baked.WrongVariant. split; [reflexivity | right; left; reflexivity].
Qed.

Lemma build_load_Err (ndebug : bool) (fin : list byte) (aInputName : string)
    (e : Baked.load_error) :
  BakedBuild.read_model ndebug aInputName fin = Err e ->
  BakedBuild.load_baked_model_ ndebug fin aInputName = Err e
  /\ BakedBuild.load_baked_model ndebug (Some fin) aInputName = Err e.
Proof.
  intros H. unfold BakedBuild.load_baked_model, BakedBuild.load_baked_model_. rewrite H.
  split; reflexivity.
Qed.

Lemma rejection_build_error (ndebug : bool) (e : Baked.load_error) :
  rejection e -> build_error ndebug e.
Proof. intros [H | [H | H]]; unfold build_error; tauto. Qed.

(** C4. A file whose first 16 bytes are not the magic, or whose next 16
    bytes are not the variant tag, or that ends before the end of what its
    fields declare (it is a container cut short, so that some declared
    field cannot be read in full) makes the load fail, in a build with
    assertions and in one without: the loader returns an error and no
    model, whole or partial. The error is that of the header check or of
    the short read when the magic or the variant tag is wrong; behind a
    sound header it is that of the short read, unless a field before the
    end of the file was refused first (a path of 32768 bytes or more, or
    in a build with assertions a failed assertion). *)
Theorem malformed_container_rejected (ndebug : bool) (aInputName : string)
    (fin : list byte) :
  not_a_container fin ->
  exists e, BakedBuild.load_baked_model_ ndebug fin aInputName = Err e
            /\ BakedBuild.load_baked_model ndebug (Some fin) aInputName = Err e
            /\ build_error ndebug e
            /\ (take 16 fin <> kFileMagic \/ take 16 (drop 16 fin) <> kFileVariant ->
                rejection e)
            /\ (take 16 fin = kFileMagic -> take 16 (drop 16 fin) = kFileVariant ->
                table_error ndebug e).
Proof.
  intros Hbad.
  assert (Hread : exists e, BakedBuild.read_model ndebug aInputName fin = Err e
                            /\ build_error ndebug e
                            /\ (take 16 fin <> kFileMagic
                                \/ take 16 (drop 16 fin) <> kFileVariant -> rejection e)).
  { assert (Hheader : take 16 fin <> kFileMagic \/ take 16 (drop 16 fin) <> kFileVariant ->
              exists e, BakedBuild.read_model ndebug aInputName fin = Err e
                        /\ build_error ndebug e
                        /\ (take 16 fin <> kFileMagic
                            \/ take 16 (drop 16 fin) <> kFileVariant -> rejection e)).
    { intros Hh. destruct (build_read_model_header ndebug aInputName fin Hh) as (e & H & He).
      exists e. split; [exact H|].
      split; [apply rejection_build_error, He | intros _; exact He]. }
    destruct Hbad as [Hmagic | Hvariant | full k Hfull Hk ->].
    - apply Hheader. left. exact Hmagic.
    - apply Hheader. right. exact Hvariant.
    - destruct (decide (take 16 (take k full) = kFileMagic)) as [Hm | Hm];
        [|apply Hheader; left; exact Hm].
      destruct (decide (take 16 (drop 16 (take k full)) = kFileVariant)) as [Hv | Hv];
        [|apply Hheader; right; exact Hv].
      destruct (container_cut_short ndebug aInputName full k Hfull Hk) as (e & H & He).
      exists e. split; [exact H|]. split; [exact He|].
      intros Hh. exfalso. tauto. }
  destruct Hread as (e & H & He & Hrej).
  exists e. destruct (build_load_Err ndebug fin aInputName e H) as (H1 & H2).
  split; [exact H1|]. split; [exact H2|]. split; [exact He|]. split; [exact Hrej|].
  intros Hm Hv. exact (sound_header_error ndebug aInputName fin e H Hm Hv).
Qed.

Lemma gap_container_layout : is_container gap_container.
Proof.
  unfold gap_container. eexists _, _, _. split; [reflexivity|].
  split; [reflexivity|]. split; [constructor|]. split; [reflexivity|].
  split; [constructor|]. split; [reflexivity|].
  constructor; [|constructor]. unfold wf_mesh_entry, two32. cbn. lia.
Qed.

Lemma malformed_container_rejected_witness :
  not_a_container gap_file
  /\ exists e, BakedBuild.load_baked_model_ false gap_file "assets/gap.comp5822mesh" = Err e
               /\ BakedBuild.load_baked_model false (Some gap_file) "assets/gap.comp5822mesh"
                  = Err e
               /\ build_error false e.
Proof.
  assert (H : not_a_container gap_file).
  { apply (cut_short _ gap_container 46); [exact gap_container_layout | | reflexivity].
    vm_compute. lia. }
  split; [exact H|].
  destruct (malformed_container_rejected false "assets/gap.comp5822mesh" gap_file H)
    as (e & H1 & H2 & H3 & _).
  exists e. split; [exact H1|]. split; [exact H2 | exact H3].
Defined.

(** ** The bounding box of a soup of numbers *)

(** On numbers the comparison of [SpecFloat] is that of the numbers. *)
Lemma SFcompare_numbers (x y : float) :
  is_number x = true -> is_number y = true ->
  SFcompare x y = Some (units x ?= units y).
Proof.
  intros Hx Hy.
  destruct (is_number_cases x Hx) as [(sx & ->) | (sx & mx & ex & -> & Vx & Ex & Mx)];
    destruct (is_number_cases y Hy) as [(sy & ->) | (sy & my & ey & -> & Vy & Ey & My)].
  - reflexivity.
  - pose proof (units_pos my ey ltac:(lia)) as P. cbn [SFcompare units]. f_equal.
    destruct sy; cbn [cond_Zopp]; symmetry;
      [apply Z.compare_gt_iff | apply Z.compare_lt_iff]; lia.
  - pose proof (units_pos mx ex ltac:(lia)) as P. cbn [SFcompare units]. f_equal.
    destruct sx; cbn [cond_Zopp]; symmetry;
      [apply Z.compare_lt_iff | apply Z.compare_gt_iff]; lia.
  - pose proof (units_pos mx ex ltac:(lia)) as Px. pose proof (units_pos my ey ltac:(lia)) as Py.
    destruct sx, sy.
    + assert (Vx' : F32.valid (S754_finite false mx ex) = true) by exact Vx.
      assert (Vy' : F32.valid (S754_finite false my ey) = true) by exact Vy.
      pose proof (SFcompare_units mx my ex ey Vx' Vy') as Hc.
      cbn [SFcompare] in Hc. injection Hc as Hc.
      cbn [SFcompare units cond_Zopp]. f_equal. rewrite Z.compare_opp.
      rewrite (Z.compare_antisym (Z.pos mx * 2 ^ (ex + 149))). rewrite <- Hc.
      destruct (ex ?= ey); cbn [CompOpp]; reflexivity.
    + cbn [SFcompare units cond_Zopp]. f_equal. symmetry. apply Z.compare_lt_iff. lia.
    + cbn [SFcompare units cond_Zopp]. f_equal. symmetry. apply Z.compare_gt_iff. lia.
    + exact (SFcompare_units mx my ex ey Vx Vy).
Qed.

Lemma leb_numbers (x y : float) :
  is_number x = true -> is_number y = true ->
  F32.leb x y = true <-> units x <= units y.
Proof.
  intros Hx Hy. unfold F32.leb, SFleb. rewrite (SFcompare_numbers x y Hx Hy).
  destruct (Z.compare_spec (units x) (units y)); split; intros; try lia; try reflexivity;
    discriminate.
Qed.

Lemma number_not_nan (x : float) : is_number x = true -> F32.is_nan x = false.
Proof. destruct x; try reflexivity. discriminate. Qed.

Lemma units_flt_max (x : float) : is_number x = true -> units x <= units F32.flt_max.
Proof.
  intros Hx.
  destruct (is_number_cases x Hx) as [(sx & ->) | (sx & mx & ex & -> & Vx & Ex & Mx)].
  - cbn. lia.
  - cbn [units F32.flt_max cond_Zopp].
    pose proof (units_pos mx ex ltac:(lia)) as P.
    assert (H1 : Z.pos mx * 2 ^ (ex + 149) <= Z.pos mx * 2 ^ 253).
    { apply Z.mul_le_mono_nonneg_l; [lia|]. apply Z.pow_le_mono_r; lia. }
    assert (H2 : Z.pos mx * 2 ^ 253 <= 16777215 * 2 ^ 253).
    { apply Z.mul_le_mono_nonneg_r; [apply Z.pow_nonneg; lia|]. simpl in Mx. lia. }
    change (104 + 149) with 253. destruct sx; cbn [cond_Zopp]; lia.
Qed.

Section BoundingBox.

Variable aSoup : TriangleSoup.
Variable k : Z.

Hypothesis Hnumbers : Forall number_vec3 (vert aSoup).
Hypothesis Hk : 0 <= k < 3.

Let coordinates : list float := map (fun v => vec3_at v k) (vert aSoup).

Lemma bounding_volume_axis :
  vec3_at (fst (bounding_volume aSoup)) k = fold_left float_min coordinates F32.flt_max
  /\ vec3_at (snd (bounding_volume aSoup)) k = fold_left float_max coordinates F32.flt_min.
Proof.
  unfold bounding_volume, coordinates. rewrite bounding_volume_axes.
  cbn [fst snd vec3_splat v3x v3y v3z].
  assert (Hk' : k = 0 \/ k = 1 \/ k = 2) by lia.
  destruct Hk' as [->|[->| ->]]; cbn [vec3_at Z.eqb v3x v3y v3z]; split; reflexivity.
Qed.

Lemma coordinate_number (x : float) : x ∈ coordinates -> is_number x = true.
Proof.
  unfold coordinates. intros Hx. apply list_elem_of_fmap in Hx as (v & -> & Hv).
  apply number_vec3_at. exact (proj1 (Forall_forall _ _) Hnumbers v Hv).
Qed.

Lemma least_of_soup :
  vert aSoup <> [] -> least_on_axis aSoup k (vec3_at (fst (bounding_volume aSoup)) k).
Proof.
  intros Hne. rewrite (proj1 bounding_volume_axis).
  destruct (fold_float_min coordinates F32.flt_max eq_refl) as (_ & _ & Hall & Hcase).
  set (r := fold_left float_min coordinates F32.flt_max) in *.
  assert (Hr : is_number r = true).
  { destruct Hcase as [-> | Hin]; [reflexivity | exact (coordinate_number r Hin)]. }
  assert (Hlow : forall v, v ∈ vert aSoup -> units r <= units (vec3_at v k)).
  { intros v Hv.
    assert (Hin : vec3_at v k ∈ coordinates).
    { unfold coordinates. apply list_elem_of_fmap. exists v. split; [reflexivity | exact Hv]. }
    apply leb_numbers; [exact Hr | exact (coordinate_number _ Hin)|].
    apply Hall; [exact Hin | apply number_not_nan, coordinate_number, Hin]. }
  split; [exact Hr|]. split; [exact Hlow|].
  destruct Hcase as [Hinit | Hin].
  - destruct (vert aSoup) as [|v vs] eqn:Ev; [contradiction|].
    exists v. split; [apply list_elem_of_here|].
    assert (Hv : v ∈ v :: vs) by apply list_elem_of_here.
    pose proof (Hlow v Hv) as H1.
    assert (Hnum : is_number (vec3_at v k) = true).
    { apply number_vec3_at. exact (proj1 (Forall_forall _ _) Hnumbers v Hv). }
    pose proof (units_flt_max _ Hnum) as H2. rewrite Hinit in *. lia.
  - unfold coordinates in Hin. apply list_elem_of_fmap in Hin as (v & Hv & Hvin).
    exists v. split; [exact Hvin|]. rewrite Hv. reflexivity.
Qed.

Lemma greatest_of_soup :
  (exists v, v ∈ vert aSoup /\ units F32.flt_min <= units (vec3_at v k)) ->
  greatest_on_axis aSoup k (vec3_at (snd (bounding_volume aSoup)) k).
Proof.
  intros (v0 & Hv0 & Hfloor). rewrite (proj2 bounding_volume_axis).
  destruct (fold_float_max coordinates F32.flt_min eq_refl) as (_ & _ & Hall & Hcase).
  set (r := fold_left float_max coordinates F32.flt_min) in *.
  assert (Hr : is_number r = true).
  { destruct Hcase as [-> | Hin]; [reflexivity | exact (coordinate_number r Hin)]. }
  assert (Hup : forall v, v ∈ vert aSoup -> units (vec3_at v k) <= units r).
  { intros v Hv.
    assert (Hin : vec3_at v k ∈ coordinates).
    { unfold coordinates. apply list_elem_of_fmap. exists v. split; [reflexivity | exact Hv]. }
    apply leb_numbers; [exact (coordinate_number _ Hin) | exact Hr|].
    apply Hall; [exact Hin | apply number_not_nan, coordinate_number, Hin]. }
  split; [exact Hr|]. split; [exact Hup|].
  destruct Hcase as [Hinit | Hin].
  - exists v0. split; [exact Hv0|]. pose proof (Hup v0 Hv0) as H1. rewrite Hinit in *. lia.
  - unfold coordinates in Hin. apply list_elem_of_fmap in Hin as (v & Hv & Hvin).
    exists v. split; [exact Hvin|]. rewrite Hv. reflexivity.
Qed.

End BoundingBox.

Lemma float_max_longest (s0 s1 s2 : float) :
  F32.is_nan s0 = false -> F32.is_nan s1 = false -> F32.is_nan s2 = false ->
  longest_side (float_max s0 (float_max s1 s2)) s0 s1 s2.
Proof.
  intros N0 N1 N2.
  destruct (float_max_cases s1 s2 N1) as (Nm & L1 & L2 & Cm). specialize (L2 N2).
  destruct (float_max_cases s0 (float_max s1 s2) N0) as (Nl & L0 & Lm & Cl).
  specialize (Lm Nm).
  split.
  - destruct Cl as [-> | ->]; [left; reflexivity|]. destruct Cm as [-> | ->]; tauto.
  - split; [exact L0|]. split.
    + exact (leb_trans _ _ _ N1 Nm Nl L1 Lm).
    + exact (leb_trans _ _ _ N2 Nm Nl L2 Lm).
Qed.

(** C8 (as amended). For a soup of numbers that has on every axis a
    coordinate of at least the least positive normal float, the grid
    resolution is the quotient of the longest side of the padded bounding
    box by twice the tolerance, rounded to the nearest integer by adding
    one half and cutting the fraction, and capped at 1024 * 1024. The box
    goes on every axis from the least coordinate [lo] to the greatest
    coordinate [hi] of the vertices; padded by ten times the tolerance on
    either end its side is (hi + 10 tolerance) - (lo - 10 tolerance); the
    longest side is the greatest of the three as [std::max] has it, which
    is one of them and at least each of them unless a side is NaN; all of
    it in binary32. The resolution lies between 0 and the cap, and it is
    the factor from which the discretizer takes its scale. *)
Theorem grid_resolution_rounded (cast : float -> Z) (aSoup : TriangleSoup)
    (aErrorTolerance : float) :
  Forall number_vec3 (vert aSoup) ->
  (forall k, 0 <= k < 3 ->
     exists v, v ∈ vert aSoup /\ units F32.flt_min <= units (vec3_at v k)) ->
  exists lo hi : vec3,
    (forall k, 0 <= k < 3 ->
       least_on_axis aSoup k (vec3_at lo k) /\ greatest_on_axis aSoup k (vec3_at hi k))
    /\ let side := fun k => padded_side (vec3_at lo k) (vec3_at hi k) aErrorTolerance in
       let longest := float_max (side 0) (float_max (side 1) (side 2)) in
       ((forall k, 0 <= k < 3 -> F32.is_nan (side k) = false) ->
        longest_side longest (side 0) (side 1) (side 2))
       /\ (forall z, F32.trunc (rounded_cells longest aErrorTolerance) = Some z ->
                  0 <= z < two64 ->
                  grid_subdiv cast aSoup aErrorTolerance = Z.min (1024 * 1024) z
                  /\ 0 <= grid_subdiv cast aSoup aErrorTolerance <= 1024 * 1024
                  /\ scale (soup_discretizer cast aSoup aErrorTolerance)
                     = F32.div (F32.of_Z (grid_subdiv cast aSoup aErrorTolerance)) longest)
       /\ dmin (soup_discretizer cast aSoup aErrorTolerance)
          = vec3_sub lo (vec3_splat (F32.mul (F32.of_Z 10) aErrorTolerance)).
Proof.
  intros Hnum Hfloor.
  exists (fst (bounding_volume aSoup)), (snd (bounding_volume aSoup)). split.
  - intros k Hk. split.
    + apply least_of_soup; [exact Hnum | exact Hk|].
      destruct (Hfloor 0 ltac:(lia)) as (v & Hv & _). intros Hnil. rewrite Hnil in Hv.
      exact (not_elem_of_nil _ Hv).
    + apply greatest_of_soup; [exact Hnum | exact Hk | exact (Hfloor k Hk)].
  - cbn zeta. split; [|split; [|reflexivity]].
    { intros Hnan.
      exact (float_max_longest _ _ _ (Hnan 0 ltac:(lia)) (Hnan 1 ltac:(lia))
               (Hnan 2 ltac:(lia))). }
    intros z Hz Hr.
    assert (Hsub : grid_subdiv cast aSoup aErrorTolerance = Z.min (1024 * 1024) z).
    { unfold grid_subdiv, float_to_unsigned, num_cells.
      change (F32.add (F32.div (max_side aSoup aErrorTolerance)
                               (F32.mul (F32.of_Z 2) aErrorTolerance)) float_half)
        with (rounded_cells
                (float_max (padded_side (vec3_at (fst (bounding_volume aSoup)) 0)
                                        (vec3_at (snd (bounding_volume aSoup)) 0) aErrorTolerance)
                   (float_max (padded_side (vec3_at (fst (bounding_volume aSoup)) 1)
                                           (vec3_at (snd (bounding_volume aSoup)) 1)
                                           aErrorTolerance)
                              (padded_side (vec3_at (fst (bounding_volume aSoup)) 2)
                                           (vec3_at (snd (bounding_volume aSoup)) 2)
                                           aErrorTolerance)))
                aErrorTolerance).
      rewrite Hz. change (2 ^ 64) with two64.
      rewrite (proj2 (Z.leb_le 0 z)), (proj2 (Z.ltb_lt z two64)) by lia. reflexivity. }
    split; [exact Hsub|]. split; [rewrite Hsub; lia|].
    unfold soup_discretizer, mk_Discretizer_. cbn [scale].
    rewrite Z.mod_small; [reflexivity|]. rewrite Hsub. change two32 with 4294967296. lia.
Qed.

Lemma grid_resolution_rounded_witness :
  exists lo hi : vec3,
    (forall k, 0 <= k < 3 ->
       least_on_axis two_points k (vec3_at lo k) /\ greatest_on_axis two_points k (vec3_at hi k))
    /\ (forall z,
          F32.trunc (rounded_cells
                       (float_max (padded_side (vec3_at lo 0) (vec3_at hi 0) float_one)
                          (float_max (padded_side (vec3_at lo 1) (vec3_at hi 1) float_one)
                                     (padded_side (vec3_at lo 2) (vec3_at hi 2) float_one)))
                       float_one) = Some z ->
          0 <= z < two64 ->
          grid_subdiv cast_zero two_points float_one = Z.min (1024 * 1024) z)
    /\ dmin (soup_discretizer cast_zero two_points float_one)
       = vec3_sub lo (vec3_splat (F32.mul (F32.of_Z 10) float_one)).
Proof.
  destruct (grid_resolution_rounded cast_zero two_points float_one)
    as (lo & hi & Hb & _ & Hf & Hd).
  - repeat constructor.
  - intros k Hk. exists (Vec3 float_one float_one float_one).
    split; [apply list_elem_of_further, list_elem_of_here|].
    assert (k = 0 \/ k = 1 \/ k = 2) as [->|[->| ->]] by lia; vm_compute; discriminate.
  - exists lo, hi. split; [exact Hb|]. split; [|exact Hd].
    intros z Hz Hr. exact (proj1 (Hf z Hz Hr)).
Defined.






(** ** Every file on which a read comes short is a container cut short *)

Lemma lays_out_weaken {A} (p : Baked.reader A) (L L' : list byte -> A -> Prop) :
  lays_out p L -> (forall c a, L c a -> L' c a) -> lays_out p L'.
Proof.
  intros (Hok & Herr) Himp. split.
  - intros fin a rest H. destruct (Hok _ _ _ H) as (c & -> & Hc). eauto.
  - intros fin x y H. destruct (Herr _ _ _ H) as (more & a & Hne & Hc). eauto.
Qed.

Lemma lays_out_bind {A B} (p : Baked.reader A) (k : A -> Baked.reader B)
    (Lp : list byte -> A -> Prop) (Lk : A -> list byte -> B -> Prop) :
  lays_out p Lp -> (forall a, lays_out (k a) (Lk a)) ->
  (forall a, exists d b, Lk a d b) ->
  lays_out (Baked.rbind p k) (seq_layout Lp Lk).
Proof.
  intros (Pok & Perr) Hk Hinh. split.
  - intros fin b rest H. apply rbind_Ok in H as (a & mid & Ha & Hb).
    destruct (Pok _ _ _ Ha) as (c1 & -> & Hc1).
    destruct (proj1 (Hk a) _ _ _ Hb) as (c2 & -> & Hc2).
    exists (c1 ++ c2). split; [apply app_assoc|]. exists c1, c2, a. auto.
  - intros fin x y H. unfold Baked.rbind in H.
    destruct (p fin) as [[a mid]|e] eqn:Ha.
    + destruct (Pok _ _ _ Ha) as (c1 & -> & Hc1).
      destruct (proj2 (Hk a) _ _ _ H) as (more & b & Hne & Hc2).
      exists more, b. split; [exact Hne|]. rewrite <- app_assoc.
      exists c1, (mid ++ more), a. auto.
    + injection H as ->.
      destruct (Perr _ _ _ Ha) as (more & a & Hne & Hc1).
      destruct (Hinh a) as (d & b & Hd).
      exists (more ++ d), b. split.
      * destruct more; [contradiction | discriminate].
      * rewrite app_assoc. exists (fin ++ more), d, a. auto.
Qed.

Lemma lays_out_ret {A} (a : A) : lays_out (Baked.rret a) (ret_layout a).
Proof.
  split.
  - intros fin b rest [= <- <-]. exists []. split; [reflexivity | split; reflexivity].
  - intros fin x y [=].
Qed.

Lemma lays_out_if {A} (b : bool) (p q : Baked.reader A) (L : list byte -> A -> Prop) :
  lays_out p L -> lays_out q L -> lays_out (if b then p else q) L.
Proof. destruct b; auto. Qed.

Lemma lays_out_too_long {A} (n : Z) (L : list byte -> A -> Prop) :
  lays_out (Baked.rthrow (Baked.StringTooLong n)) L.
Proof. split; [intros fin a rest [=] | intros fin x y [=]]. Qed.

Lemma lays_out_assert (ndebug b : bool) :
  lays_out (BakedBuild.r_assert ndebug b) (ret_layout tt).
Proof.
  unfold BakedBuild.r_assert, Baked.r_assert.
  destruct ndebug; [apply lays_out_ret|]. destruct b; [apply lays_out_ret|].
  split; [intros fin a rest [=] | intros fin x y [=]].
Qed.

Lemma lays_out_checked_read (n : Z) : lays_out (Baked.checked_read_ n) (bytes_layout n).
Proof.
  split.
  - intros fin a rest H. apply checked_read_Ok in H as (-> & Hlen & _).
    exists a. split; [reflexivity | split; [reflexivity | exact Hlen]].
  - intros fin x y H. unfold Baked.checked_read_ in H.
    destruct (bool_decide (n = Z.min n (Z.of_nat (length fin)))) eqn:Hd; [discriminate|].
    apply bool_decide_eq_false_1 in Hd.
    exists (replicate (Z.to_nat n - length fin) x00), (fin ++ replicate (Z.to_nat n - length fin) x00).
    split.
    + intros Hnil. apply (f_equal length) in Hnil. rewrite length_replicate in Hnil.
      simpl in Hnil. lia.
    + split; [reflexivity|]. rewrite length_app, length_replicate. lia.
Qed.

Lemma bytes_layout_inhabited (n : Z) : exists d b, bytes_layout n d b.
Proof.
  exists (replicate (Z.to_nat n) x00), (replicate (Z.to_nat n) x00).
  split; [reflexivity | apply length_replicate].
Qed.

Lemma ret_layout_inhabited {A} (a : A) : exists d b, ret_layout a d b.
Proof. exists [], a. split; reflexivity. Qed.

Lemma seq_layout_inhabited {A B} (Lp : list byte -> A -> Prop)
    (Lk : A -> list byte -> B -> Prop) :
  (exists d a, Lp d a) -> (forall a, exists d b, Lk a d b) ->
  exists d b, seq_layout Lp Lk d b.
Proof.
  intros (d1 & a & H1) Hk. destruct (Hk a) as (d2 & b & H2).
  exists (d1 ++ d2), b, d1, d2, a. auto.
Qed.

Lemma le32_le32_decode (c : list byte) : length c = 4%nat -> le32 (le32_decode c) = c.
Proof.
  intros Hc. destruct c as [|a [|b [|c' [|d [|]]]]]; try discriminate.
  unfold le32, le32_decode.
  pose proof (Z_of_byte_range a). pose proof (Z_of_byte_range b).
  pose proof (Z_of_byte_range c'). pose proof (Z_of_byte_range d).
  assert (Hb : forall z (x : byte), z mod 256 = Z_of_byte x -> byte_of_Z z = x).
  { intros z x Hz. rewrite <- (byte_of_Z_of_byte x). unfold byte_of_Z. rewrite Hz.
    rewrite (Z.mod_small (Z_of_byte x)) by apply Z_of_byte_range. reflexivity. }
  f_equal; [|f_equal; [|f_equal; [|f_equal]]]; apply Hb;
    Z.div_mod_to_equations; lia.
Qed.

Lemma word_layout_inhabited : exists d z, word_layout d z.
Proof. exists (le32 0), (le32_decode (le32 0)). split; reflexivity. Qed.

Lemma lays_out_read_uint32 : lays_out Baked.read_uint32_ word_layout.
Proof.
  unfold Baked.read_uint32_.
  eapply lays_out_weaken.
  - apply (lays_out_bind _ _ (bytes_layout 4) (fun ret => ret_layout (le32_decode ret))).
    + apply lays_out_checked_read.
    + intros ret. apply lays_out_ret.
    + intros ret. apply ret_layout_inhabited.
  - intros c z (c1 & c2 & a & -> & (-> & Hlen) & (-> & ->)).
    rewrite app_nil_r. split; [exact Hlen | reflexivity].
Qed.

Ltac lay_inhabited :=
  first [ apply word_layout_inhabited | apply bytes_layout_inhabited
        | apply ret_layout_inhabited
        | apply seq_layout_inhabited; [lay_inhabited | intros ?; lay_inhabited] ].

Ltac lay_out :=
  first [ apply lays_out_read_uint32 | apply lays_out_checked_read | apply lays_out_ret
        | apply lays_out_assert
        | eapply lays_out_bind; [lay_out | intros ?; lay_out | intros ?; lay_inhabited] ].

Lemma lays_out_read_texture (prefix : string) :
  lays_out (Baked.read_texture prefix) texture_layout.
Proof.
  unfold Baked.read_texture, Baked.read_string_.
  eapply lays_out_weaken.
  - eapply lays_out_bind; [|intros s; lay_out | intros s; lay_inhabited].
    eapply lays_out_bind; [apply lays_out_read_uint32 | intros len | intros len].
    + apply lays_out_if; [apply lays_out_too_long | lay_out].
    + lay_inhabited.
  - intros c t (cs & c2 & s & -> & Hs & Hc).
    destruct Hs as (c4 & cb & len & -> & (H4 & ->) & (body & r1 & ret & -> & (-> & Hbody) & (-> & _))).
    destruct Hc as (ch & r2 & chv & -> & (-> & Hch) & (-> & _)).
    exists (body, List.hd x00 ch). cbn [fst snd]. unfold texture_entry. cbn [fst snd].
    pose proof (le32_decode_range c4) as Hr.
    assert (Hlen : Z.of_nat (length body) = le32_decode c4) by lia.
    split; [|lia]. rewrite Hlen, (le32_le32_decode c4 H4), !app_nil_r, <- app_assoc.
    destruct ch as [|b [|]]; try discriminate. reflexivity.
Qed.

Lemma lays_out_read_material (ndebug : bool) (textures : list Baked.BakedTextureInfo) :
  lays_out (BakedBuild.read_material ndebug textures) material_layout.
Proof.
  unfold BakedBuild.read_material.
  eapply lays_out_weaken; [lay_out|].
  intros c m (c1 & r1 & a1 & -> & (H1 & ->) & c2 & r2 & a2 & -> & (H2 & ->)
              & c3 & r3 & a3 & -> & (H3 & ->) & c4 & r4 & a4 & -> & (H4 & ->)
              & c5 & r5 & a5 & -> & (H5 & ->)
              & u1 & r6 & x1 & -> & (-> & _) & u2 & r7 & x2 & -> & (-> & _)
              & u3 & r8 & x3 & -> & (-> & _) & -> & _).
  exists [le32_decode c1; le32_decode c2; le32_decode c3; le32_decode c4; le32_decode c5].
  split.
  - unfold material_entry. cbn [map concat].
    rewrite !le32_le32_decode by assumption. rewrite !app_nil_r. reflexivity.
  - split; [reflexivity|]. repeat constructor; apply le32_decode_range.
Qed.

Lemma lays_out_read_mesh (ndebug : bool) (materials : list Baked.BakedMaterialInfo) :
  lays_out (BakedBuild.read_mesh ndebug materials) mesh_layout.
Proof.
  unfold BakedBuild.read_mesh.
  eapply lays_out_weaken; [lay_out|].
  intros c m (cm & r1 & am & -> & (Hm & ->) & u1 & r2 & x1 & -> & (-> & _)
              & cV & r3 & aV & -> & (HV & ->) & cI & r4 & aI & -> & (HI & ->)
              & p & r5 & ap & -> & (-> & Hp) & n & r6 & an & -> & (-> & Hn)
              & t & r7 & at' & -> & (-> & Ht) & g & r8 & ag & -> & (-> & Hg)
              & ix & r9 & aix & -> & (-> & Hix) & -> & _).
  pose proof (le32_decode_range cm). pose proof (le32_decode_range cV).
  pose proof (le32_decode_range cI).
  exists {| me_material := le32_decode cm; me_V := le32_decode cV; me_I := le32_decode cI;
            me_positions := p; me_normals := n; me_texcoords := t; me_tangents := g;
            me_indices := ix |}.
  split.
  - unfold mesh_entry.
    cbn [me_material me_V me_I me_positions me_normals me_texcoords me_tangents me_indices].
    rewrite !le32_le32_decode by assumption. rewrite !app_nil_r. cbn [app]. reflexivity.
  - unfold wf_mesh_entry.
    cbn [me_material me_V me_I me_positions me_normals me_texcoords me_tangents me_indices].
    lia.
Qed.

Lemma table_layout_inhabited {A} (L : list byte -> A -> Prop) (n : nat) (l : list A) :
  (exists d a, L d a) -> exists d b, table_layout L n d b.
Proof.
  intros (d & a & Hd). exists (concat (replicate n d)), l, (replicate n d).
  split; [apply length_replicate|]. split; [reflexivity|].
  apply Forall_replicate. eauto.
Qed.

Lemma lays_out_read_n {A} (L : list byte -> A -> Prop) (body : list A -> Baked.reader A)
    (n : nat) :
  (forall acc, lays_out (body acc) L) -> (exists d a, L d a) ->
  forall acc, lays_out (Baked.read_n n body acc) (table_layout L n).
Proof.
  intros Hbody Hinh. induction n as [|n IH]; intros acc; cbn [Baked.read_n].
  - eapply lays_out_weaken; [apply lays_out_ret|].
    intros c l (-> & _). exists []. split; [reflexivity|]. split; [reflexivity | constructor].
  - eapply lays_out_weaken.
    + apply (lays_out_bind _ _ L (fun _ => table_layout L n)).
      * apply Hbody.
      * intros a. apply IH.
      * intros a. apply (table_layout_inhabited L n []), Hinh.
    + intros c l (c1 & c2 & a & -> & H1 & (cs & Hlen & -> & Hcs)).
      exists (c1 :: cs). split; [simpl; lia|]. split; [reflexivity|].
      constructor; [eauto | exact Hcs].
Qed.

Lemma layout_entries {A X} (L : list byte -> A -> Prop) (enc : X -> list byte) (P : X -> Prop)
    (cs : list (list byte)) :
  (forall c a, L c a -> exists e, c = enc e /\ P e) ->
  Forall (fun ci => exists a, L ci a) cs ->
  exists es, cs = map enc es /\ Forall P es.
Proof.
  intros HL H. induction H as [|c cs (a & Hc) _ (es & -> & Hes)].
  - exists []. split; [reflexivity | constructor].
  - destruct (HL _ _ Hc) as (e & -> & He). exists (e :: es).
    split; [reflexivity | constructor; assumption].
Qed.

Lemma lays_out_tables (ndebug : bool) (prefix : string) :
  lays_out
    (Baked.rbind Baked.read_uint32_ (fun textureCount =>
     Baked.rbind (Baked.read_n (Z.to_nat textureCount)
                    (fun _ => Baked.read_texture prefix) []) (fun textures =>
     Baked.rbind Baked.read_uint32_ (fun materialCount =>
     Baked.rbind (Baked.read_n (Z.to_nat materialCount)
                    (fun _ => BakedBuild.read_material ndebug textures) []) (fun materials =>
     Baked.rbind Baked.read_uint32_ (fun meshCount =>
     Baked.rbind (Baked.read_n (Z.to_nat meshCount)
                    (fun _ => BakedBuild.read_mesh ndebug materials) []) (fun meshes =>
     Baked.rret {| Baked.textures := textures; Baked.materials := materials;
                   Baked.meshes := meshes |})))))))
    (fun c _ => is_container (kFileMagic ++ kFileVariant ++ c)).
Proof.
  assert (Itex : exists d (a : Baked.BakedTextureInfo), texture_layout d a).
  { exists (texture_entry ([], x00)), {| Baked.path := EmptyString; Baked.channels := x00 |},
      ([], x00). split; [reflexivity | cbn; unfold two32; lia]. }
  assert (Imat : exists d (a : Baked.BakedMaterialInfo), material_layout d a).
  { exists (material_entry [0; 0; 0; 0; 0]),
      {| Baked.baseColorTextureId := 0; Baked.roughnessTextureId := 0;
         Baked.metalnessTextureId := 0; Baked.alphaMaskTextureId := 0;
         Baked.normalMapTextureId := 0 |}, [0; 0; 0; 0; 0].
    split; [reflexivity|]. split; [reflexivity|]. repeat constructor; unfold two32; lia. }
  assert (Imesh : exists d (a : Baked.BakedMeshData), mesh_layout d a).
  { exists (mesh_entry {| me_material := 0; me_V := 0; me_I := 0; me_positions := [];
                          me_normals := []; me_texcoords := []; me_tangents := [];
                          me_indices := [] |}),
      {| Baked.materialId := 0; Baked.positions := []; Baked.texcoords := [];
         Baked.normals := []; Baked.tangents := []; Baked.indices := [] |}.
    eexists. split; [reflexivity|]. unfold wf_mesh_entry, two32. cbn. lia. }
  eapply lays_out_weaken.
  - apply (lays_out_bind _ _ word_layout
             (fun textureCount =>
                seq_layout (table_layout texture_layout (Z.to_nat textureCount))
                  (fun textures =>
                     seq_layout word_layout
                       (fun materialCount =>
                          seq_layout (table_layout material_layout (Z.to_nat materialCount))
                            (fun materials =>
                               seq_layout word_layout
                                 (fun meshCount =>
                                    seq_layout
                                      (table_layout mesh_layout (Z.to_nat meshCount))
                                      (fun meshes =>
                                         ret_layout
                                           {| Baked.textures := textures;
                                              Baked.materials := materials;
                                              Baked.meshes := meshes |}))))))).
    + apply lays_out_read_uint32.
    + intros textureCount. apply lays_out_bind.
      * apply lays_out_read_n; [intros acc; apply lays_out_read_texture | exact Itex].
      * intros textures. apply lays_out_bind; [apply lays_out_read_uint32 | |].
        -- intros materialCount. apply lays_out_bind.
           ++ apply lays_out_read_n; [intros acc; apply lays_out_read_material | exact Imat].
           ++ intros materials. apply lays_out_bind; [apply lays_out_read_uint32 | |].
              ** intros meshCount. apply lays_out_bind.
                 --- apply lays_out_read_n; [intros acc; apply lays_out_read_mesh | exact Imesh].
                 --- intros meshes. apply lays_out_ret.
                 --- intros meshes. apply ret_layout_inhabited.
              ** intros meshCount. apply seq_layout_inhabited.
                 --- apply (table_layout_inhabited mesh_layout _ []), Imesh.
                 --- intros meshes. apply ret_layout_inhabited.
           ++ intros materials. apply seq_layout_inhabited; [apply word_layout_inhabited|].
              intros meshCount. apply seq_layout_inhabited.
              ** apply (table_layout_inhabited mesh_layout _ []), Imesh.
              ** intros meshes. apply ret_layout_inhabited.
        -- intros materialCount. apply seq_layout_inhabited.
           ++ apply (table_layout_inhabited material_layout _ []), Imat.
           ++ intros materials. apply seq_layout_inhabited; [apply word_layout_inhabited|].
              intros meshCount. apply seq_layout_inhabited.
              ** apply (table_layout_inhabited mesh_layout _ []), Imesh.
              ** intros meshes. apply ret_layout_inhabited.
      * intros textures. apply seq_layout_inhabited; [apply word_layout_inhabited|].
        intros materialCount. apply seq_layout_inhabited.
        -- apply (table_layout_inhabited material_layout _ []), Imat.
        -- intros materials. apply seq_layout_inhabited; [apply word_layout_inhabited|].
           intros meshCount. apply seq_layout_inhabited.
           ++ apply (table_layout_inhabited mesh_layout _ []), Imesh.
           ++ intros meshes. apply ret_layout_inhabited.
    + intros textureCount. apply seq_layout_inhabited.
      * apply (table_layout_inhabited texture_layout _ []), Itex.
      * intros textures. apply seq_layout_inhabited; [apply word_layout_inhabited|].
        intros materialCount. apply seq_layout_inhabited.
        -- apply (table_layout_inhabited material_layout _ []), Imat.
        -- intros materials. apply seq_layout_inhabited; [apply word_layout_inhabited|].
           intros meshCount. apply seq_layout_inhabited.
           ++ apply (table_layout_inhabited mesh_layout _ []), Imesh.
           ++ intros meshes. apply ret_layout_inhabited.
  - intros c ret (c1 & r1 & tc & -> & (H1 & ->)
                  & tex & r2 & textures & -> & (cst & Lt & -> & Ft)
                  & c2 & r3 & mc & -> & (H2 & ->)
                  & mat & r4 & materials & -> & (csm & Lm & -> & Fm)
                  & c3 & r5 & meshc & -> & (H3 & ->)
                  & mesh & r6 & meshes & -> & (csx & Lx & -> & Fx) & -> & _).
    destruct (layout_entries texture_layout texture_entry
                (fun e => Z.of_nat (length (fst e)) < two32) cst) as (texs & -> & Ftex);
      [intros ? ? H; exact H | exact Ft|].
    destruct (layout_entries material_layout material_entry wf_material_entry csm)
      as (mats & -> & Fmat); [intros ? ? H; exact H | exact Fm|].
    destruct (layout_entries mesh_layout mesh_entry wf_mesh_entry csx)
      as (mshs & -> & Fmesh); [intros ? ? H; exact H | exact Fx|].
    rewrite length_map in Lt, Lm, Lx.
    pose proof (le32_decode_range c1). pose proof (le32_decode_range c2).
    pose proof (le32_decode_range c3).
    exists texs, mats, mshs. unfold container_layout.
    replace (Z.of_nat (length texs)) with (le32_decode c1) by lia.
    replace (Z.of_nat (length mats)) with (le32_decode c2) by lia.
    replace (Z.of_nat (length mshs)) with (le32_decode c3) by lia.
    rewrite !le32_le32_decode by assumption. rewrite !app_nil_r.
    split; [reflexivity|]. repeat split; try assumption; lia.
Qed.

(** A file on which a read of the loader of either build comes short has
    another magic or another variant tag, or it is a container cut short:
    the third case of [not_a_container] is every file of which a declared
    field cannot be read in full. *)
Lemma short_read_cut_short (ndebug : bool) (aInputName : string) (fin : list byte)
    (expected got : Z) :
  BakedBuild.read_model ndebug aInputName fin = Err (Baked.ShortRead expected got) ->
  not_a_container fin.
Proof.
  intros H. unfold BakedBuild.read_model, Baked.rbind at 1 in H.
  destruct (Baked.checked_read_ 16 fin) as [[magic rest1]|e1] eqn:Hread1.
  2:{ apply wrong_magic. intros Hm. unfold Baked.checked_read_ in Hread1.
      destruct (bool_decide (16 = Z.min 16 (Z.of_nat (length fin)))) eqn:Hd; [discriminate|].
      apply bool_decide_eq_false_1 in Hd. apply (f_equal length) in Hm.
      rewrite length_take in Hm. change (length kFileMagic) with 16%nat in Hm. lia. }
  pose proof (checked_read_Ok _ _ _ _ Hread1) as (Hfin1 & Hl1 & _).
  apply (checked_read_take 16) in Hread1 as (-> & ->).
  destruct (bool_decide (take 16 fin = kFileMagic)) eqn:Hmagic; cbn [negb] in H;
    [|discriminate].
  apply bool_decide_eq_true_1 in Hmagic.
  unfold Baked.rbind at 1 in H.
  destruct (Baked.checked_read_ 16 (drop 16 fin)) as [[variant rest2]|e2] eqn:Hread2.
  2:{ apply wrong_variant. intros Hv. unfold Baked.checked_read_ in Hread2.
      destruct (bool_decide (16 = Z.min 16 (Z.of_nat (length (drop 16 fin))))) eqn:Hd;
        [discriminate|].
      apply bool_decide_eq_false_1 in Hd. apply (f_equal length) in Hv.
      rewrite length_take in Hv. change (length kFileVariant) with 16%nat in Hv. lia. }
  pose proof (checked_read_Ok _ _ _ _ Hread2) as (Hfin2 & Hl2 & _).
  apply (checked_read_take 16) in Hread2 as (-> & ->).
  destruct (bool_decide (take 16 (drop 16 fin) = kFileVariant)) eqn:Hvariant; cbn [negb] in H;
    [|discriminate].
  apply bool_decide_eq_true_1 in Hvariant.
  destruct (proj2 (lays_out_tables ndebug (Baked.base_prefix aInputName)) _ _ _ H)
    as (more & ret & Hne & Hfull).
  apply (cut_short fin (fin ++ more) (length fin)).
  - rewrite Hfin1 at 1. rewrite Hfin2 at 1. rewrite Hmagic, Hvariant, <- !app_assoc.
    exact Hfull.
  - rewrite length_app. destruct more; [contradiction | simpl; lia].
  - rewrite take_app_length. reflexivity.
Qed.
